(** * odp-dpdk crypto: session negotiation and operation submission

    A shallow embedding of [platform/linux-dpdk/odp_crypto.c]: the size
    check on accelerator parameter ranges, the device selector, the
    session pool with its intrusive free list, session creation and
    destruction, and the synchronous operation engine.

    Conventions.
    - C integers are [Z]; a conversion to [uint16_t] is written [uint16].
    - A C function that may loop forever is a function into [option]:
      [None] means that the call does not return.
    - Pointers into the session array are indices ([nat]); [NULL] is [None].
    - A fixed array is a list of its length; a copy that would run past
      the end of an array is outside the model, and the theorems that
      depend on such a copy bound its length.
    - Calls into DPDK and into the ODP packet layer are answered by an
      explicit driver record or by a per-call record of outcomes. *)

From Stdlib Require Import ZArith Lia Bool List.
From stdpp Require Import base option list list_numbers sets.
Import ListNotations.
Open Scope Z_scope.

(* ================================================================== *)
(** * Definitions *)
(* ================================================================== *)

(** ** Machine integers *)

(** Conversion to [uint16_t]: reduction modulo 2^16. *)
Definition uint16 (z : Z) : Z := z mod 65536.

(** The values a [uint16_t] object can hold. *)
Definition is_uint16 (z : Z) : Prop := 0 <= z < 65536.

(** Number of distinct values of a [uint16_t] counter. *)
Definition UINT16_STATES : nat := Z.to_nat 65536.

(** ** Parameter ranges and [is_valid_size] *)

(** [struct rte_crypto_param_range]: three [uint16_t] fields. *)
Record rte_crypto_param_range := {
  min : Z;
  max : Z;
  increment : Z
}.

Definition range_wf (range : rte_crypto_param_range) : Prop :=
  is_uint16 (min range) /\ is_uint16 (max range) /\ is_uint16 (increment range).

(** The [for] loop of [is_valid_size], started at counter value
    [supp_size].  One unit of [fuel] pays for one evaluation of the loop
    condition; [None] means the fuel ran out before the loop left. *)
Fixpoint is_valid_size_loop (fuel : nat) (length supp_size : Z)
    (range : rte_crypto_param_range) : option Z :=
  match fuel with
  | O => None
  | S fuel' =>
      if supp_size <=? max range then
        if length =? supp_size then Some 0
        else is_valid_size_loop fuel' length
               (uint16 (supp_size + increment range)) range
      else Some (-1)
  end.

(** [is_valid_size] with an explicit bound on the loop iterations. *)
Definition is_valid_size_fuel (fuel : nat) (length : Z)
    (range : rte_crypto_param_range) : option Z :=
  if length <? min range then Some (-1)
  else if negb (min range =? length) && (increment range =? 0) then Some (-1)
  else is_valid_size_loop fuel length (min range) range.

(** [is_valid_size]: the counter has 65536 states and its successor does
    not depend on anything else, so a loop that has not left after 65536
    tests never leaves ([is_valid_size_None_hangs] below).  [None] is
    the call that does not return. *)
Definition is_valid_size (length : Z) (range : rte_crypto_param_range)
    : option Z :=
  is_valid_size_fuel UINT16_STATES length range.

(** The sizes a range supports, in the words of the data model: [s] is
    supported iff [s >= min], and [s = min] or [increment > 0] and
    [(s - min) mod increment = 0], and [s <= max]. *)
Definition size_supported (s : Z) (range : rte_crypto_param_range) : bool :=
  (min range <=? s)
  && ((s =? min range)
      || ((0 <? increment range) && ((s - min range) mod increment range =? 0)))
  && (s <=? max range).

(** A range on which the 16-bit counter cannot wrap: the last value it
    takes is at most [max + increment]. *)
Definition range_no_wrap (range : rte_crypto_param_range) : Prop :=
  max range + increment range < 65536.

(** The [k]-th value of the loop counter started at [s]. *)
Definition counter_at (s inc : Z) (k : nat) : Z :=
  uint16 (s + Z.of_nat k * inc).

(** ** Constants of the file *)

Definition MAX_SESSIONS : nat := 2048.
Definition MAX_IV_LENGTH : Z := 16.
Definition AES_CCM_AAD_OFFSET : Z := 18.
Definition MAX_DEQ_RETRIES : Z := 100000.

(** Constants that come from headers outside this file: the build
    switch [ODP_DEPRECATED_API] of [config.h], the scratch-buffer sizes
    [PACKET_DIGEST_MAX] and [PACKET_AAD_MAX] of [odp_packet_internal.h],
    and DPDK's [RTE_CRYPTO_MAX_DEVS].  They are taken as parameters. *)
Record build_config := {
  ODP_DEPRECATED_API : bool;
  PACKET_DIGEST_MAX : Z;
  PACKET_AAD_MAX : Z;
  RTE_CRYPTO_MAX_DEVS : nat
}.

(** ** ODP algorithm identifiers *)

(** [odp_cipher_alg_t].  The last constructor stands for the enumerators
    this file never names; every [switch] sends them to [default]. *)
Inductive odp_cipher_alg_t :=
  | ODP_CIPHER_ALG_NULL
  | ODP_CIPHER_ALG_DES
  | ODP_CIPHER_ALG_3DES_CBC
  | ODP_CIPHER_ALG_AES_CBC
  | ODP_CIPHER_ALG_AES_CTR
  | ODP_CIPHER_ALG_AES_GCM
  | ODP_CIPHER_ALG_AES_CCM
  | ODP_CIPHER_ALG_KASUMI_F8
  | ODP_CIPHER_ALG_SNOW3G_UEA2
  | ODP_CIPHER_ALG_ZUC_EEA3
  | ODP_CIPHER_ALG_AES128_CBC
  | ODP_CIPHER_ALG_AES128_GCM
  | ODP_CIPHER_ALG_OTHER (code : Z).

(** [odp_auth_alg_t], with the same convention. *)
Inductive odp_auth_alg_t :=
  | ODP_AUTH_ALG_NULL
  | ODP_AUTH_ALG_MD5_HMAC
  | ODP_AUTH_ALG_SHA1_HMAC
  | ODP_AUTH_ALG_SHA256_HMAC
  | ODP_AUTH_ALG_SHA384_HMAC
  | ODP_AUTH_ALG_SHA512_HMAC
  | ODP_AUTH_ALG_AES_GCM
  | ODP_AUTH_ALG_AES_GMAC
  | ODP_AUTH_ALG_AES_CCM
  | ODP_AUTH_ALG_AES_CMAC
  | ODP_AUTH_ALG_KASUMI_F9
  | ODP_AUTH_ALG_SNOW3G_UIA2
  | ODP_AUTH_ALG_ZUC_EIA3
  | ODP_AUTH_ALG_MD5_96
  | ODP_AUTH_ALG_SHA256_128
  | ODP_AUTH_ALG_AES128_GCM
  | ODP_AUTH_ALG_OTHER (code : Z).

Inductive odp_crypto_op_t := ODP_CRYPTO_OP_ENCODE | ODP_CRYPTO_OP_DECODE.

Inductive odp_crypto_op_mode_t := ODP_CRYPTO_SYNC | ODP_CRYPTO_ASYNC.

Inductive odp_crypto_ses_create_err_t :=
  | ODP_CRYPTO_SES_CREATE_ERR_NONE
  | ODP_CRYPTO_SES_CREATE_ERR_ENOMEM
  | ODP_CRYPTO_SES_CREATE_ERR_INV_CIPHER
  | ODP_CRYPTO_SES_CREATE_ERR_INV_AUTH.

Inductive odp_crypto_alg_err_t :=
  | ODP_CRYPTO_ALG_ERR_NONE
  | ODP_CRYPTO_ALG_ERR_DATA_SIZE
  | ODP_CRYPTO_ALG_ERR_KEY_SIZE
  | ODP_CRYPTO_ALG_ERR_ICV_CHECK
  | ODP_CRYPTO_ALG_ERR_IV_INVALID.

Inductive odp_crypto_hw_err_t :=
  | ODP_CRYPTO_HW_ERR_NONE
  | ODP_CRYPTO_HW_ERR_DMA
  | ODP_CRYPTO_HW_ERR_BP_DEPLETED.

(** ** DPDK algorithm identifiers and operation status *)

Inductive rte_crypto_cipher_algorithm :=
  | RTE_CRYPTO_CIPHER_NULL
  | RTE_CRYPTO_CIPHER_3DES_CBC
  | RTE_CRYPTO_CIPHER_AES_CBC
  | RTE_CRYPTO_CIPHER_AES_CTR
  | RTE_CRYPTO_CIPHER_KASUMI_F8
  | RTE_CRYPTO_CIPHER_SNOW3G_UEA2
  | RTE_CRYPTO_CIPHER_ZUC_EEA3
  | RTE_CRYPTO_CIPHER_OTHER (code : Z).

Inductive rte_crypto_auth_algorithm :=
  | RTE_CRYPTO_AUTH_NULL
  | RTE_CRYPTO_AUTH_MD5_HMAC
  | RTE_CRYPTO_AUTH_SHA1_HMAC
  | RTE_CRYPTO_AUTH_SHA256_HMAC
  | RTE_CRYPTO_AUTH_SHA512_HMAC
  | RTE_CRYPTO_AUTH_AES_GMAC
  | RTE_CRYPTO_AUTH_AES_CMAC
  | RTE_CRYPTO_AUTH_KASUMI_F9
  | RTE_CRYPTO_AUTH_SNOW3G_UIA2
  | RTE_CRYPTO_AUTH_ZUC_EIA3
  | RTE_CRYPTO_AUTH_OTHER (code : Z).

Inductive rte_crypto_aead_algorithm :=
  | RTE_CRYPTO_AEAD_AES_GCM
  | RTE_CRYPTO_AEAD_AES_CCM
  | RTE_CRYPTO_AEAD_OTHER (code : Z).

Inductive rte_crypto_cipher_operation :=
  RTE_CRYPTO_CIPHER_OP_ENCRYPT | RTE_CRYPTO_CIPHER_OP_DECRYPT.

Inductive rte_crypto_auth_operation :=
  RTE_CRYPTO_AUTH_OP_VERIFY | RTE_CRYPTO_AUTH_OP_GENERATE.

Inductive rte_crypto_aead_operation :=
  RTE_CRYPTO_AEAD_OP_ENCRYPT | RTE_CRYPTO_AEAD_OP_DECRYPT.

(** [enum rte_crypto_op_status]; the file names two of its values and
    sends the others to [default]. *)
Inductive rte_crypto_op_status :=
  | RTE_CRYPTO_OP_STATUS_SUCCESS
  | RTE_CRYPTO_OP_STATUS_NOT_PROCESSED
  | RTE_CRYPTO_OP_STATUS_AUTH_FAILED
  | RTE_CRYPTO_OP_STATUS_INVALID_SESSION
  | RTE_CRYPTO_OP_STATUS_INVALID_ARGS
  | RTE_CRYPTO_OP_STATUS_ERROR.

#[global] Instance odp_cipher_alg_eq_dec : EqDecision odp_cipher_alg_t.
Proof. solve_decision. Defined.
#[global] Instance odp_auth_alg_eq_dec : EqDecision odp_auth_alg_t.
Proof. solve_decision. Defined.
#[global] Instance odp_crypto_op_eq_dec : EqDecision odp_crypto_op_t.
Proof. solve_decision. Defined.
#[global] Instance odp_crypto_alg_err_eq_dec : EqDecision odp_crypto_alg_err_t.
Proof. solve_decision. Defined.
#[global] Instance rte_cipher_algo_eq_dec :
  EqDecision rte_crypto_cipher_algorithm.
Proof. solve_decision. Defined.
#[global] Instance rte_auth_algo_eq_dec : EqDecision rte_crypto_auth_algorithm.
Proof. solve_decision. Defined.
#[global] Instance rte_aead_algo_eq_dec : EqDecision rte_crypto_aead_algorithm.
Proof. solve_decision. Defined.
#[global] Instance rte_op_status_eq_dec : EqDecision rte_crypto_op_status.
Proof. solve_decision. Defined.

(** ** Device capabilities *)

(** One entry of a device's capability array.  The array ends at the
    entry whose [op] is [RTE_CRYPTO_OP_TYPE_UNDEFINED]; here it is a list
    and ends where the list ends.  [cap_other] is an entry of a
    transform type that no scan of this file looks for. *)
Inductive rte_cryptodev_capabilities :=
  | cap_cipher (algo : rte_crypto_cipher_algorithm)
      (key_size iv_size : rte_crypto_param_range)
  | cap_auth (algo : rte_crypto_auth_algorithm)
      (key_size digest_size iv_size : rte_crypto_param_range)
  | cap_aead (algo : rte_crypto_aead_algorithm)
      (key_size digest_size aad_size iv_size : rte_crypto_param_range)
  | cap_other.

(** What [rte_cryptodev_info_get] reports for a device, as far as the
    file reads it. *)
Record rte_cryptodev_info := {
  capabilities : list rte_cryptodev_capabilities;
  max_nb_queue_pairs : Z;
  hw_accelerated : bool;
  max_nb_sessions : Z
}.

(** ** Transforms *)

(** [struct rte_crypto_cipher_xform]; the key and IV lengths are
    [uint16_t].  The IV offset inside the operation descriptor is a
    matter of memory layout and is left out. *)
Record rte_crypto_cipher_xform := {
  cipher_op : rte_crypto_cipher_operation;
  cipher_algo : rte_crypto_cipher_algorithm;
  cipher_key_data : list Z;
  cipher_key_length : Z;
  cipher_iv_length : Z
}.

Record rte_crypto_auth_xform := {
  auth_op : rte_crypto_auth_operation;
  auth_algo : rte_crypto_auth_algorithm;
  auth_key_data : list Z;
  auth_key_length : Z;
  auth_iv_length : Z;
  auth_digest_length : Z
}.

Record rte_crypto_aead_xform := {
  aead_op : rte_crypto_aead_operation;
  aead_algo : rte_crypto_aead_algorithm;
  aead_key_data : list Z;
  aead_key_length : Z;
  aead_iv_length : Z;
  aead_digest_length : Z;
  aead_aad_length : Z
}.

(** [struct rte_crypto_sym_xform]: a type tag and a union.  The [next]
    pointer is kept apart: a chain of transforms is a list.
    [xform_not_specified] is storage that holds no transform (zeroed by
    [memset], or never written). *)
Inductive rte_crypto_sym_xform :=
  | xform_not_specified
  | xform_cipher (c : rte_crypto_cipher_xform)
  | xform_auth (a : rte_crypto_auth_xform)
  | xform_aead (a : rte_crypto_aead_xform).

(** The type tag of a transform, for reading a chain. *)
Inductive rte_crypto_sym_xform_type :=
  | RTE_CRYPTO_SYM_XFORM_NOT_SPECIFIED
  | RTE_CRYPTO_SYM_XFORM_AUTH
  | RTE_CRYPTO_SYM_XFORM_CIPHER
  | RTE_CRYPTO_SYM_XFORM_AEAD.

Definition xform_type (x : rte_crypto_sym_xform) : rte_crypto_sym_xform_type :=
  match x with
  | xform_not_specified => RTE_CRYPTO_SYM_XFORM_NOT_SPECIFIED
  | xform_cipher _ => RTE_CRYPTO_SYM_XFORM_CIPHER
  | xform_auth _ => RTE_CRYPTO_SYM_XFORM_AUTH
  | xform_aead _ => RTE_CRYPTO_SYM_XFORM_AEAD
  end.

(** ** Session parameters and session records *)

(** [odp_crypto_key_t]: data pointer and a 32-bit length. *)
Record odp_crypto_key_t := {
  key_data : list Z;
  key_length : Z
}.

(** [odp_crypto_iv_t]: the data pointer may be [NULL]. *)
Record odp_crypto_iv_t := {
  iv_data : option (list Z);
  iv_length : Z
}.

(** [odp_crypto_session_param_t]. *)
Record odp_crypto_session_param_t := {
  op : odp_crypto_op_t;
  auth_cipher_text : bool;
  op_mode : odp_crypto_op_mode_t;
  cipher_alg : odp_cipher_alg_t;
  cipher_key : odp_crypto_key_t;
  cipher_iv : odp_crypto_iv_t;
  auth_alg : odp_auth_alg_t;
  auth_key : odp_crypto_key_t;
  auth_iv : odp_crypto_iv_t;
  auth_digest_len : Z;
  auth_aad_len : Z;
  compl_queue : option Z;
  output_pool : option Z
}.

(** [crypto_session_entry_t].  [next] links the free list; [rte_session]
    is the handle of the accelerator-side session object. *)
Record crypto_session_entry_t := {
  next : option nat;
  p : odp_crypto_session_param_t;
  rte_session : option Z;
  cipher_xform : rte_crypto_sym_xform;
  auth_xform : rte_crypto_sym_xform;
  cdev_nb_qpairs : Z;
  cdev_id : Z;
  cipher_iv_data : list Z;
  auth_iv_data : list Z
}.

(** [crypto_global_t], without the lock and the memory pools: the model
    is sequential, and the pools are only handed back to DPDK.  Where
    the lock decides whether a call returns it is kept as a flag beside
    this state ([odp_crypto_int_locked]). *)
Record crypto_global_t := {
  enabled_crypto_devs : Z;
  enabled_crypto_dev_ids : list Z;
  enabled_crypto_dev_nb_qpairs : list Z;
  free : option nat;
  sessions : list crypto_session_entry_t;
  is_crypto_dev_initialized : bool
}.

(** The value [memset (..., 0, ...)] leaves in a session record. *)
Definition zero_key : odp_crypto_key_t := {| key_data := []; key_length := 0 |}.
Definition zero_iv : odp_crypto_iv_t := {| iv_data := None; iv_length := 0 |}.

Definition zero_param : odp_crypto_session_param_t := {|
  op := ODP_CRYPTO_OP_ENCODE;
  auth_cipher_text := false;
  op_mode := ODP_CRYPTO_SYNC;
  cipher_alg := ODP_CIPHER_ALG_NULL;
  cipher_key := zero_key;
  cipher_iv := zero_iv;
  auth_alg := ODP_AUTH_ALG_NULL;
  auth_key := zero_key;
  auth_iv := zero_iv;
  auth_digest_len := 0;
  auth_aad_len := 0;
  compl_queue := None;
  output_pool := None
|}.

Definition zero_session : crypto_session_entry_t := {|
  next := None;
  p := zero_param;
  rte_session := None;
  cipher_xform := xform_not_specified;
  auth_xform := xform_not_specified;
  cdev_nb_qpairs := 0;
  cdev_id := 0;
  cipher_iv_data := repeat 0 (Z.to_nat MAX_IV_LENGTH);
  auth_iv_data := repeat 0 (Z.to_nat MAX_IV_LENGTH)
|}.

(** ** The accelerator driver *)

(** The DPDK calls the file makes while it initialises and selects
    devices, as functions of their arguments.  A session memory pool is
    created once per socket; its creation either works for a socket or
    does not, so the table of pools is not kept. *)
Record rte_cryptodev_driver := {
  rte_cryptodev_count : Z;
  rte_cryptodev_info_get : Z -> rte_cryptodev_info;
  rte_cryptodev_socket_id : Z -> Z;
  rte_mempool_create : Z -> bool;
  rte_cryptodev_configure : Z -> Z -> Z;
  rte_cryptodev_queue_pair_setup : Z -> Z -> Z;
  rte_cryptodev_start : Z -> Z;
  rte_crypto_op_pool_create : bool
}.

(** Outcomes of the DPDK calls of one [odp_crypto_session_create]:
    [rte_malloc] for the two keys, [rte_cryptodev_sym_session_create]
    (a handle, or [NULL]) and [rte_cryptodev_sym_session_init] (given the
    device and the transform chain). *)
Record session_create_env := {
  cipher_key_malloc : bool;
  auth_key_malloc : bool;
  rte_cryptodev_sym_session_create : option Z;
  rte_cryptodev_sym_session_init : Z -> list rte_crypto_sym_xform -> Z
}.

(** Outcomes of the DPDK calls of one [odp_crypto_session_destroy]. *)
Record session_destroy_env := {
  rte_cryptodev_sym_session_clear : Z -> option Z -> Z;
  rte_cryptodev_sym_session_free : option Z -> Z
}.

(** What [odp_crypto_session_create] hands back: the return value, the
    session handle ([None] is [ODP_CRYPTO_SESSION_INVALID]) and the
    status. *)
Record session_create_result := {
  create_rc : Z;
  session_out : option nat;
  status : odp_crypto_ses_create_err_t
}.

(** What [odp_crypto_init_global] leaves behind: the return value, the
    global state, and the queue-pair count each device was configured
    with ([rte_cryptodev_configure] calls, in order). *)
Record init_result := {
  init_rc : Z;
  init_global : crypto_global_t;
  configured : list (Z * Z)
}.

(** ** Record updates *)

Definition set_next (n : option nat) (e : crypto_session_entry_t)
    : crypto_session_entry_t :=
  {| next := n; p := p e; rte_session := rte_session e;
     cipher_xform := cipher_xform e; auth_xform := auth_xform e;
     cdev_nb_qpairs := cdev_nb_qpairs e; cdev_id := cdev_id e;
     cipher_iv_data := cipher_iv_data e; auth_iv_data := auth_iv_data e |}.

Definition set_p (sp : odp_crypto_session_param_t)
    (e : crypto_session_entry_t) : crypto_session_entry_t :=
  {| next := next e; p := sp; rte_session := rte_session e;
     cipher_xform := cipher_xform e; auth_xform := auth_xform e;
     cdev_nb_qpairs := cdev_nb_qpairs e; cdev_id := cdev_id e;
     cipher_iv_data := cipher_iv_data e; auth_iv_data := auth_iv_data e |}.

Definition set_auth_digest_len (n : Z) (sp : odp_crypto_session_param_t)
    : odp_crypto_session_param_t :=
  {| op := op sp; auth_cipher_text := auth_cipher_text sp;
     op_mode := op_mode sp; cipher_alg := cipher_alg sp;
     cipher_key := cipher_key sp; cipher_iv := cipher_iv sp;
     auth_alg := auth_alg sp; auth_key := auth_key sp;
     auth_iv := auth_iv sp; auth_digest_len := n;
     auth_aad_len := auth_aad_len sp; compl_queue := compl_queue sp;
     output_pool := output_pool sp |}.

Definition set_free (f : option nat) (g : crypto_global_t) : crypto_global_t :=
  {| enabled_crypto_devs := enabled_crypto_devs g;
     enabled_crypto_dev_ids := enabled_crypto_dev_ids g;
     enabled_crypto_dev_nb_qpairs := enabled_crypto_dev_nb_qpairs g;
     free := f; sessions := sessions g;
     is_crypto_dev_initialized := is_crypto_dev_initialized g |}.

Definition set_sessions (l : list crypto_session_entry_t)
    (g : crypto_global_t) : crypto_global_t :=
  {| enabled_crypto_devs := enabled_crypto_devs g;
     enabled_crypto_dev_ids := enabled_crypto_dev_ids g;
     enabled_crypto_dev_nb_qpairs := enabled_crypto_dev_nb_qpairs g;
     free := free g; sessions := l;
     is_crypto_dev_initialized := is_crypto_dev_initialized g |}.

(** [*session], for a pointer into the session array. *)
Definition session_at (g : crypto_global_t) (h : nat)
    : crypto_session_entry_t :=
  default zero_session (sessions g !! h).

(** [*session = e]. *)
Definition store_session (h : nat) (e : crypto_session_entry_t)
    (g : crypto_global_t) : crypto_global_t :=
  set_sessions (<[h := e]> (sessions g)) g.

(** [memcpy (dst, src, n)] into a fixed array [dst] that [n] bytes fit
    in, from a source that holds [n] bytes.  A longer copy writes behind
    the array in C, into whatever follows it; the list this function
    gives for such a copy is longer than the array and stands for no
    state of the C program. *)
Definition memcpy (dst src : list Z) (n : Z) : list Z :=
  take (Z.to_nat n) src ++ drop (Z.to_nat n) dst.

(** ** Device selector *)

(** The capability scans: the first entry of the wanted transform type
    and algorithm, if the array has one. *)
Fixpoint find_cipher_cap (caps : list rte_cryptodev_capabilities)
    (a : rte_crypto_cipher_algorithm)
    : option (rte_crypto_param_range * rte_crypto_param_range) :=
  match caps with
  | [] => None
  | cap_cipher algo key_size iv_size :: caps' =>
      if decide (algo = a) then Some (key_size, iv_size)
      else find_cipher_cap caps' a
  | _ :: caps' => find_cipher_cap caps' a
  end.

Fixpoint find_auth_cap (caps : list rte_cryptodev_capabilities)
    (a : rte_crypto_auth_algorithm)
    : option (rte_crypto_param_range * rte_crypto_param_range
              * rte_crypto_param_range) :=
  match caps with
  | [] => None
  | cap_auth algo key_size digest_size iv_size :: caps' =>
      if decide (algo = a) then Some (key_size, digest_size, iv_size)
      else find_auth_cap caps' a
  | _ :: caps' => find_auth_cap caps' a
  end.

Fixpoint find_aead_cap (caps : list rte_cryptodev_capabilities)
    (a : rte_crypto_aead_algorithm)
    : option (rte_crypto_param_range * rte_crypto_param_range
              * rte_crypto_param_range) :=
  match caps with
  | [] => None
  | cap_aead algo key_size digest_size _ iv_size :: caps' =>
      if decide (algo = a) then Some (key_size, digest_size, iv_size)
      else find_aead_cap caps' a
  | _ :: caps' => find_aead_cap caps' a
  end.

(** The checks one loop round of [get_crypto_aead_dev] makes on a
    device: [Some true] reaches [*dev_id = cdev_id], [Some false] is a
    [continue], [None] is a size check that does not return. *)
Definition aead_dev_check (caps : list rte_cryptodev_capabilities)
    (aead_xform : rte_crypto_aead_xform) : option bool :=
  match find_aead_cap caps (aead_algo aead_xform) with
  | None => Some false
  | Some (key_size, digest_size, iv_size) =>
      rc ← is_valid_size (aead_key_length aead_xform) key_size;
      if negb (rc =? 0) then Some false
      else if MAX_IV_LENGTH <? aead_iv_length aead_xform then Some false
      else
        rc ← is_valid_size (aead_iv_length aead_xform) iv_size;
        if negb (rc =? 0) then Some false
        else
          rc ← is_valid_size (aead_digest_length aead_xform) digest_size;
          Some (rc =? 0)
  end.

(** The part of a loop round of [get_crypto_dev] before [check_auth]. *)
Definition cipher_dev_check (caps : list rte_cryptodev_capabilities)
    (cipher_xform : rte_crypto_cipher_xform) : option bool :=
  match find_cipher_cap caps (cipher_algo cipher_xform) with
  | None => Some false
  | Some (key_size, iv_size) =>
      rc ← is_valid_size (cipher_key_length cipher_xform) key_size;
      if negb (rc =? 0) then Some false
      else if MAX_IV_LENGTH <? cipher_iv_length cipher_xform then Some false
      else
        rc ← is_valid_size (cipher_iv_length cipher_xform) iv_size;
        Some (rc =? 0)
  end.

(** The part between [check_auth] and [check_finish]. *)
Definition auth_dev_check (caps : list rte_cryptodev_capabilities)
    (auth_xform : rte_crypto_auth_xform) : option bool :=
  match find_auth_cap caps (auth_algo auth_xform) with
  | None => Some false
  | Some (key_size, digest_size, iv_size) =>
      rc ← is_valid_size (auth_key_length auth_xform) key_size;
      if negb (rc =? 0) then Some false
      else
        rc ← is_valid_size (auth_digest_length auth_xform) digest_size;
        if negb (rc =? 0) then Some false
        else if MAX_IV_LENGTH <? auth_iv_length auth_xform then Some false
        else
          rc ← is_valid_size (auth_iv_length auth_xform) iv_size;
          Some (rc =? 0)
  end.

(** One loop round of [get_crypto_dev], with its two [goto]s. *)
Definition crypto_dev_check (caps : list rte_cryptodev_capabilities)
    (cipher_xform : rte_crypto_cipher_xform)
    (auth_xform : rte_crypto_auth_xform) : option bool :=
  cipher_ok ←
    (if decide (cipher_algo cipher_xform = RTE_CRYPTO_CIPHER_NULL)
     then Some true
     else cipher_dev_check caps cipher_xform);
  if negb cipher_ok then Some false
  else if bool_decide (auth_algo auth_xform = RTE_CRYPTO_AUTH_NULL)
          && negb (bool_decide
                     (cipher_algo cipher_xform = RTE_CRYPTO_CIPHER_NULL))
  then Some true
  else auth_dev_check caps auth_xform.

(** The scan over the enabled devices: the result is [Some cdev_id]
    for [return 0] with [*dev_id = cdev_id], and [None] for [return -1]. *)
Fixpoint dev_scan (check : list rte_cryptodev_capabilities -> option bool)
    (drv : rte_cryptodev_driver) (ids : list Z) : option (option Z) :=
  match ids with
  | [] => Some None
  | cdev_id :: ids' =>
      ok ← check (capabilities (rte_cryptodev_info_get drv cdev_id));
      if ok : bool then Some (Some cdev_id) else dev_scan check drv ids'
  end.

(** The entries [0 .. enabled_crypto_devs - 1] of the id array. *)
Definition enabled_ids (g : crypto_global_t) : list Z :=
  take (Z.to_nat (enabled_crypto_devs g)) (enabled_crypto_dev_ids g).

Definition get_crypto_aead_dev (drv : rte_cryptodev_driver)
    (g : crypto_global_t) (aead_xform : rte_crypto_aead_xform)
    : option (option Z) :=
  dev_scan (fun caps => aead_dev_check caps aead_xform) drv (enabled_ids g).

Definition get_crypto_dev (drv : rte_cryptodev_driver) (g : crypto_global_t)
    (cipher_xform : rte_crypto_cipher_xform)
    (auth_xform : rte_crypto_auth_xform) : option (option Z) :=
  dev_scan (fun caps => crypto_dev_check caps cipher_xform auth_xform)
    drv (enabled_ids g).

(** *** The selection rule in the words of the specification *)

(** A device accepts a cipher transform when its first capability entry
    for the algorithm supports the key length and the IV length, and the
    IV fits the descriptor's IV region. *)
Definition cipher_accepted (caps : list rte_cryptodev_capabilities)
    (x : rte_crypto_cipher_xform) : bool :=
  match find_cipher_cap caps (cipher_algo x) with
  | None => false
  | Some (key_size, iv_size) =>
      size_supported (cipher_key_length x) key_size
      && (cipher_iv_length x <=? MAX_IV_LENGTH)
      && size_supported (cipher_iv_length x) iv_size
  end.

Definition auth_accepted (caps : list rte_cryptodev_capabilities)
    (x : rte_crypto_auth_xform) : bool :=
  match find_auth_cap caps (auth_algo x) with
  | None => false
  | Some (key_size, digest_size, iv_size) =>
      size_supported (auth_key_length x) key_size
      && size_supported (auth_digest_length x) digest_size
      && (auth_iv_length x <=? MAX_IV_LENGTH)
      && size_supported (auth_iv_length x) iv_size
  end.

Definition aead_accepted (caps : list rte_cryptodev_capabilities)
    (x : rte_crypto_aead_xform) : bool :=
  match find_aead_cap caps (aead_algo x) with
  | None => false
  | Some (key_size, digest_size, iv_size) =>
      size_supported (aead_key_length x) key_size
      && (aead_iv_length x <=? MAX_IV_LENGTH)
      && size_supported (aead_iv_length x) iv_size
      && size_supported (aead_digest_length x) digest_size
  end.

(** The rule as the specification words it: a NULL cipher and equally a
    NULL auth component is satisfied by every device. *)
Definition pair_accepted_as_specified (caps : list rte_cryptodev_capabilities)
    (cx : rte_crypto_cipher_xform) (ax : rte_crypto_auth_xform) : bool :=
  (bool_decide (cipher_algo cx = RTE_CRYPTO_CIPHER_NULL)
   || cipher_accepted caps cx)
  && (bool_decide (auth_algo ax = RTE_CRYPTO_AUTH_NULL)
      || auth_accepted caps ax).

(** The rule the code follows: the auth checks are skipped for a NULL
    auth component only next to a cipher that is not NULL. *)
Definition pair_accepted (caps : list rte_cryptodev_capabilities)
    (cx : rte_crypto_cipher_xform) (ax : rte_crypto_auth_xform) : bool :=
  (bool_decide (cipher_algo cx = RTE_CRYPTO_CIPHER_NULL)
   || cipher_accepted caps cx)
  && ((bool_decide (auth_algo ax = RTE_CRYPTO_AUTH_NULL)
       && negb (bool_decide (cipher_algo cx = RTE_CRYPTO_CIPHER_NULL)))
      || auth_accepted caps ax).

(** The first device of [ids] whose capabilities pass [accepted]. *)
Definition first_accepting (accepted : list rte_cryptodev_capabilities -> bool)
    (drv : rte_cryptodev_driver) (ids : list Z) : option Z :=
  List.find
    (fun cdev_id =>
       accepted (capabilities (rte_cryptodev_info_get drv cdev_id)))
    ids.

(** Every range a capability entry advertises is well formed and keeps
    the counter of the size check from wrapping. *)
Definition range_ok (r : rte_crypto_param_range) : Prop :=
  range_wf r /\ range_no_wrap r.

Definition cap_ranges_ok (c : rte_cryptodev_capabilities) : Prop :=
  match c with
  | cap_cipher _ k iv => range_ok k /\ range_ok iv
  | cap_auth _ k d iv => range_ok k /\ range_ok d /\ range_ok iv
  | cap_aead _ k d _ iv => range_ok k /\ range_ok d /\ range_ok iv
  | cap_other => True
  end.

Definition devices_ranges_ok (drv : rte_cryptodev_driver) (ids : list Z)
    : Prop :=
  Forall (fun cdev_id =>
            Forall cap_ranges_ok
              (capabilities (rte_cryptodev_info_get drv cdev_id))) ids.

Section WithConfig.

Context (cfg : build_config).

(** ** Algorithm mapper *)

Definition cipher_is_aead (cipher_alg : odp_cipher_alg_t) : bool :=
  match cipher_alg with
  | ODP_CIPHER_ALG_AES_GCM | ODP_CIPHER_ALG_AES_CCM => true
  | ODP_CIPHER_ALG_AES128_GCM => ODP_DEPRECATED_API cfg
  | _ => false
  end.

(** The [..._odp_to_rte] functions: [Some algo] is [rc = 0] with the
    algorithm written into the transform, [None] is [rc = -1]. *)
Definition cipher_aead_alg_odp_to_rte (cipher_alg : odp_cipher_alg_t)
    : option rte_crypto_aead_algorithm :=
  match cipher_alg with
  | ODP_CIPHER_ALG_AES_GCM => Some RTE_CRYPTO_AEAD_AES_GCM
  | ODP_CIPHER_ALG_AES128_GCM =>
      if ODP_DEPRECATED_API cfg then Some RTE_CRYPTO_AEAD_AES_GCM else None
  | ODP_CIPHER_ALG_AES_CCM => Some RTE_CRYPTO_AEAD_AES_CCM
  | _ => None
  end.

Definition cipher_alg_odp_to_rte (cipher_alg : odp_cipher_alg_t)
    : option rte_crypto_cipher_algorithm :=
  match cipher_alg with
  | ODP_CIPHER_ALG_NULL => Some RTE_CRYPTO_CIPHER_NULL
  | ODP_CIPHER_ALG_DES | ODP_CIPHER_ALG_3DES_CBC =>
      Some RTE_CRYPTO_CIPHER_3DES_CBC
  | ODP_CIPHER_ALG_AES_CBC => Some RTE_CRYPTO_CIPHER_AES_CBC
  | ODP_CIPHER_ALG_AES128_CBC =>
      if ODP_DEPRECATED_API cfg then Some RTE_CRYPTO_CIPHER_AES_CBC else None
  | ODP_CIPHER_ALG_AES_CTR => Some RTE_CRYPTO_CIPHER_AES_CTR
  | ODP_CIPHER_ALG_KASUMI_F8 => Some RTE_CRYPTO_CIPHER_KASUMI_F8
  | ODP_CIPHER_ALG_SNOW3G_UEA2 => Some RTE_CRYPTO_CIPHER_SNOW3G_UEA2
  | ODP_CIPHER_ALG_ZUC_EEA3 => Some RTE_CRYPTO_CIPHER_ZUC_EEA3
  | _ => None
  end.

Definition auth_alg_odp_to_rte (auth_alg : odp_auth_alg_t)
    : option rte_crypto_auth_algorithm :=
  match auth_alg with
  | ODP_AUTH_ALG_NULL => Some RTE_CRYPTO_AUTH_NULL
  | ODP_AUTH_ALG_MD5_HMAC => Some RTE_CRYPTO_AUTH_MD5_HMAC
  | ODP_AUTH_ALG_MD5_96 =>
      if ODP_DEPRECATED_API cfg then Some RTE_CRYPTO_AUTH_MD5_HMAC else None
  | ODP_AUTH_ALG_SHA256_HMAC => Some RTE_CRYPTO_AUTH_SHA256_HMAC
  | ODP_AUTH_ALG_SHA256_128 =>
      if ODP_DEPRECATED_API cfg then Some RTE_CRYPTO_AUTH_SHA256_HMAC else None
  | ODP_AUTH_ALG_SHA1_HMAC => Some RTE_CRYPTO_AUTH_SHA1_HMAC
  | ODP_AUTH_ALG_SHA512_HMAC => Some RTE_CRYPTO_AUTH_SHA512_HMAC
  | ODP_AUTH_ALG_AES_GMAC => Some RTE_CRYPTO_AUTH_AES_GMAC
  | ODP_AUTH_ALG_AES_CMAC => Some RTE_CRYPTO_AUTH_AES_CMAC
  | ODP_AUTH_ALG_KASUMI_F9 => Some RTE_CRYPTO_AUTH_KASUMI_F9
  | ODP_AUTH_ALG_SNOW3G_UIA2 => Some RTE_CRYPTO_AUTH_SNOW3G_UIA2
  | ODP_AUTH_ALG_ZUC_EIA3 => Some RTE_CRYPTO_AUTH_ZUC_EIA3
  | _ => None
  end.

(** ** Session pool *)

Definition alloc_session (g : crypto_global_t)
    : option nat * crypto_global_t :=
  match free g with
  | None => (None, g)
  | Some h =>
      let session := session_at g h in
      (Some h,
       store_session h (set_next None session) (set_free (next session) g))
  end.

Definition free_session (h : nat) (g : crypto_global_t) : crypto_global_t :=
  set_free (Some h) (store_session h (set_next (free g) (session_at g h)) g).

(** [memset] of the whole session record to zero. *)
Definition memset_session (h : nat) (g : crypto_global_t) : crypto_global_t :=
  store_session h zero_session g.

(** The counting loop of [odp_crypto_term_global]: one unit of [fuel]
    per test of [session != NULL]. *)
Fixpoint count_free (fuel : nat) (g : crypto_global_t) (session : option nat)
    : option nat :=
  match fuel with
  | O => None
  | S fuel' =>
      match session with
      | None => Some O
      | Some h => S <$> count_free fuel' g (next (session_at g h))
      end
  end.

(** The length of the free list.  A list without a cycle visits each of
    the [MAX_SESSIONS] records at most once. *)
Definition free_list_length (g : crypto_global_t) : option nat :=
  count_free (S (length (sessions g))) g (free g).

(** The records the free list links, in order, as a relation between
    the head pointer and a list of indices. *)
Fixpoint free_chain (g : crypto_global_t) (session : option nat)
    (l : list nat) : Prop :=
  match l with
  | [] => session = None
  | h :: l' =>
      session = Some h /\ (h < length (sessions g))%nat /\
      free_chain g (next (session_at g h)) l'
  end.

(** ** Initialisation *)

(** The state after [memset (global, 0, mem_size)]. *)
Definition zero_global : crypto_global_t := {|
  enabled_crypto_devs := 0;
  enabled_crypto_dev_ids := repeat 0 (RTE_CRYPTO_MAX_DEVS cfg);
  enabled_crypto_dev_nb_qpairs := repeat 0 (RTE_CRYPTO_MAX_DEVS cfg);
  free := None;
  sessions := repeat zero_session MAX_SESSIONS;
  is_crypto_dev_initialized := false
|}.

(** One round of the loop that threads the records onto the free list. *)
Definition init_free_list_step (g : crypto_global_t) (idx : nat)
    : crypto_global_t :=
  set_free (Some idx)
    (store_session idx (set_next (free g) (session_at g idx)) g).

Definition init_free_list (n : nat) (g : crypto_global_t) : crypto_global_t :=
  fold_left init_free_list_step (seq 0 n) g.

(** The three stores that enable a device. *)
Definition enable_device (cdev_id nb_queue_pairs : Z) (g : crypto_global_t)
    : crypto_global_t :=
  let i := Z.to_nat (enabled_crypto_devs g) in
  {| enabled_crypto_devs := (enabled_crypto_devs g + 1) mod 256;
     enabled_crypto_dev_ids := <[i := cdev_id]> (enabled_crypto_dev_ids g);
     enabled_crypto_dev_nb_qpairs :=
       <[i := uint16 nb_queue_pairs]> (enabled_crypto_dev_nb_qpairs g);
     free := free g; sessions := sessions g;
     is_crypto_dev_initialized := is_crypto_dev_initialized g |}.

(** The device loop, [cdev_id] running from [n - 1] down to 0. *)
Fixpoint init_devices (drv : rte_cryptodev_driver) (cpu_count : Z) (n : nat)
    (g : crypto_global_t) (log : list (Z * Z)) : init_result :=
  match n with
  | O => {| init_rc := 0; init_global := g; configured := log |}
  | S n' =>
      let cdev_id := Z.of_nat n' in
      let dev_info := rte_cryptodev_info_get drv cdev_id in
      let nb_queue_pairs :=
        if max_nb_queue_pairs dev_info <? cpu_count
        then max_nb_queue_pairs dev_info else cpu_count in
      let socket_id := rte_cryptodev_socket_id drv cdev_id in
      if negb (rte_mempool_create drv socket_id) then
        {| init_rc := -1; init_global := g; configured := log |}
      else if rte_cryptodev_configure drv cdev_id nb_queue_pairs <? 0 then
        {| init_rc := -1; init_global := g; configured := log |}
      else
        let log' := log ++ [(cdev_id, nb_queue_pairs)] in
        if negb (forallb
                   (fun qp =>
                      0 <=? rte_cryptodev_queue_pair_setup drv cdev_id qp)
                   (seqZ 0 nb_queue_pairs)) then
          {| init_rc := -1; init_global := g; configured := log' |}
        else if rte_cryptodev_start drv cdev_id <? 0 then
          {| init_rc := -1; init_global := g; configured := log' |}
        else
          init_devices drv cpu_count n'
            (enable_device cdev_id nb_queue_pairs g) log'
  end.

Definition set_initialized (g : crypto_global_t) : crypto_global_t :=
  {| enabled_crypto_devs := enabled_crypto_devs g;
     enabled_crypto_dev_ids := enabled_crypto_dev_ids g;
     enabled_crypto_dev_nb_qpairs := enabled_crypto_dev_nb_qpairs g;
     free := free g; sessions := sessions g;
     is_crypto_dev_initialized := true |}.

(** [odp_crypto_init_global], once the shared memory is reserved;
    [cpu_count] is what [odp_cpu_count] returns. *)
Definition odp_crypto_init_global (drv : rte_cryptodev_driver)
    (cpu_count : Z) : init_result :=
  let g := init_free_list MAX_SESSIONS zero_global in
  if rte_cryptodev_count drv =? 0 then
    {| init_rc := 0; init_global := g; configured := [] |}
  else
    let r := init_devices drv cpu_count
               (Z.to_nat (rte_cryptodev_count drv)) g [] in
    if init_rc r <? 0 then r
    else if negb (rte_crypto_op_pool_create drv) then
      {| init_rc := -1; init_global := init_global r;
         configured := configured r |}
    else
      {| init_rc := 0; init_global := set_initialized (init_global r);
         configured := configured r |}.

(** The queue-pair count [rte_cryptodev_configure] was last called with
    for a device. *)
Fixpoint configured_nb_queue_pairs (log : list (Z * Z)) (cdev_id : Z)
    : option Z :=
  match log with
  | [] => None
  | (d, n) :: log' =>
      match configured_nb_queue_pairs log' cdev_id with
      | Some n' => Some n'
      | None => if d =? cdev_id then Some n else None
      end
  end.

(** ** Session builder *)

(** [crypto_init_key]: [Some (data, length)] is [return 0], [None] is a
    failed [rte_malloc].  The length is stored into a [uint16_t]. *)
Definition crypto_init_key (malloc_ok : bool) (key : odp_crypto_key_t)
    : option (list Z * Z) :=
  if negb (key_length key =? 0) then
    if malloc_ok
    then Some (take (Z.to_nat (key_length key)) (key_data key),
               uint16 (key_length key))
    else None
  else Some ([], uint16 (key_length key)).

(** The [fill] functions: [None] is [return -1]. *)
Definition crypto_fill_cipher_xform (env : session_create_env)
    (param : odp_crypto_session_param_t) : option rte_crypto_cipher_xform :=
  algo ← cipher_alg_odp_to_rte (cipher_alg param);
  key ← crypto_init_key (cipher_key_malloc env) (cipher_key param);
  Some {| cipher_op :=
            if decide (ODP_CRYPTO_OP_ENCODE = op param)
            then RTE_CRYPTO_CIPHER_OP_ENCRYPT
            else RTE_CRYPTO_CIPHER_OP_DECRYPT;
          cipher_algo := algo;
          cipher_key_data := key.1;
          cipher_key_length := key.2;
          cipher_iv_length := uint16 (iv_length (cipher_iv param)) |}.

Definition crypto_fill_auth_xform (env : session_create_env)
    (param : odp_crypto_session_param_t) : option rte_crypto_auth_xform :=
  algo ← auth_alg_odp_to_rte (auth_alg param);
  let digest_length := uint16 (auth_digest_len param) in
  if PACKET_DIGEST_MAX cfg <? digest_length then None
  else
    key ← crypto_init_key (auth_key_malloc env) (auth_key param);
    Some {| auth_op :=
              if decide (ODP_CRYPTO_OP_ENCODE = op param)
              then RTE_CRYPTO_AUTH_OP_GENERATE
              else RTE_CRYPTO_AUTH_OP_VERIFY;
            auth_algo := algo;
            auth_key_data := key.1;
            auth_key_length := key.2;
            auth_iv_length := uint16 (iv_length (auth_iv param));
            auth_digest_length := digest_length |}.

Definition crypto_fill_aead_xform (env : session_create_env)
    (param : odp_crypto_session_param_t) : option rte_crypto_aead_xform :=
  algo ← cipher_aead_alg_odp_to_rte (cipher_alg param);
  key ← crypto_init_key (cipher_key_malloc env) (cipher_key param);
  let aad_length := uint16 (auth_aad_len param) in
  if PACKET_AAD_MAX cfg <? aad_length then None
  else if bool_decide (algo = RTE_CRYPTO_AEAD_AES_CCM)
          && (PACKET_AAD_MAX cfg <? aad_length + AES_CCM_AAD_OFFSET)
  then None
  else
    let digest_length := uint16 (auth_digest_len param) in
    if PACKET_DIGEST_MAX cfg <? digest_length then None
    else
      Some {| aead_op :=
                if decide (ODP_CRYPTO_OP_ENCODE = op param)
                then RTE_CRYPTO_AEAD_OP_ENCRYPT
                else RTE_CRYPTO_AEAD_OP_DECRYPT;
              aead_algo := algo;
              aead_key_data := key.1;
              aead_key_length := key.2;
              aead_iv_length := uint16 (iv_length (cipher_iv param));
              aead_digest_length := digest_length;
              aead_aad_length := aad_length |}.

(** The fixed digest lengths of the deprecated algorithms, applied to
    the session's copy of the parameters. *)
Definition deprecated_digest_len (param : odp_crypto_session_param_t)
    : odp_crypto_session_param_t :=
  if ODP_DEPRECATED_API cfg then
    match auth_alg param with
    | ODP_AUTH_ALG_MD5_96 => set_auth_digest_len (96 / 8) param
    | ODP_AUTH_ALG_SHA256_128 => set_auth_digest_len (128 / 8) param
    | ODP_AUTH_ALG_AES128_GCM => set_auth_digest_len 16 param
    | _ => param
    end
  else param.

(** The two "Derive order" steps of the non-AEAD branch: the chain that
    starts at [first_xform], as the list of its transforms. *)
Definition derive_first_xform (param : odp_crypto_session_param_t)
    (cipher_xform : rte_crypto_cipher_xform)
    (auth_xform : rte_crypto_auth_xform) : list rte_crypto_sym_xform :=
  let do_cipher_first :=
    if decide (ODP_CRYPTO_OP_ENCODE = op param)
    then auth_cipher_text param
    else negb (auth_cipher_text param) in
  if decide (cipher_alg param = ODP_CIPHER_ALG_NULL) then
    [xform_auth auth_xform]
  else if decide (auth_alg param = ODP_AUTH_ALG_NULL) then
    [xform_cipher cipher_xform]
  else if do_cipher_first then
    [xform_cipher cipher_xform; xform_auth auth_xform]
  else
    [xform_auth auth_xform; xform_cipher cipher_xform].

(** The [err:] label: release the record, if one was allocated, and
    report the failure. *)
Definition session_create_err (session : option nat)
    (st : odp_crypto_ses_create_err_t) (g : crypto_global_t)
    : session_create_result * crypto_global_t :=
  ({| create_rc := -1; session_out := None; status := st |},
   match session with
   | Some h => free_session h (memset_session h g)
   | None => g
   end).

(** From the test of the selector's return value to the end.  The two
    IV copies take the caller's 32-bit length as it is: the selector has
    only seen it cut to 16 bits, and not at all for a NULL algorithm.
    The arrays they fill are the last two fields of the record, of
    [MAX_IV_LENGTH] bytes each, so a longer IV runs into the second
    array and into the record that follows.  The record this function
    stores describes the C record for IVs that fit ([param_ivs_fit]
    below); the theorems that follow a successful create into the IV
    arrays, the other records or the free list are stated for such
    IVs. *)
Definition session_create_finish (env : session_create_env)
    (param : odp_crypto_session_param_t) (h : nat)
    (cipher_xform auth_xform : rte_crypto_sym_xform)
    (first_xform : list rte_crypto_sym_xform) (dev : option Z)
    (g : crypto_global_t) : session_create_result * crypto_global_t :=
  match dev with
  | None => session_create_err (Some h) ODP_CRYPTO_SES_CREATE_ERR_ENOMEM g
  | Some dev_id =>
      match rte_cryptodev_sym_session_create env with
      | None =>
          session_create_err (Some h) ODP_CRYPTO_SES_CREATE_ERR_ENOMEM g
      | Some rte_sess =>
          if rte_cryptodev_sym_session_init env dev_id first_xform <? 0 then
            session_create_err (Some h) ODP_CRYPTO_SES_CREATE_ERR_ENOMEM g
          else
            let session := session_at g h in
            let session' := {|
              next := next session;
              p := p session;
              rte_session := Some rte_sess;
              cipher_xform := cipher_xform;
              auth_xform := auth_xform;
              cdev_nb_qpairs :=
                default 0 (enabled_crypto_dev_nb_qpairs g !! Z.to_nat dev_id);
              cdev_id := dev_id;
              cipher_iv_data :=
                match iv_data (cipher_iv param) with
                | Some data =>
                    memcpy (cipher_iv_data session) data
                      (iv_length (cipher_iv param))
                | None => cipher_iv_data session
                end;
              auth_iv_data :=
                match iv_data (auth_iv param) with
                | Some data =>
                    memcpy (auth_iv_data session) data
                      (iv_length (auth_iv param))
                | None => auth_iv_data session
                end |} in
            ({| create_rc := 0; session_out := Some h;
                status := ODP_CRYPTO_SES_CREATE_ERR_NONE |},
             store_session h session' g)
      end
  end.

(** [odp_crypto_session_create].  [None] is a call that does not return
    (a size check of the device selector that loops). *)
Definition odp_crypto_session_create (drv : rte_cryptodev_driver)
    (env : session_create_env) (param : odp_crypto_session_param_t)
    (g : crypto_global_t)
    : option (session_create_result * crypto_global_t) :=
  if rte_cryptodev_count drv =? 0 then
    Some (session_create_err None ODP_CRYPTO_SES_CREATE_ERR_ENOMEM g)
  else
    match alloc_session g with
    | (None, g1) =>
        Some (session_create_err None ODP_CRYPTO_SES_CREATE_ERR_ENOMEM g1)
    | (Some h, g1) =>
        let sp := deprecated_digest_len param in
        let g2 := store_session h (set_p sp (session_at g1 h)) g1 in
        if cipher_is_aead (cipher_alg param) then
          match crypto_fill_aead_xform env sp with
          | None =>
              Some (session_create_err (Some h)
                      ODP_CRYPTO_SES_CREATE_ERR_INV_CIPHER g2)
          | Some aead =>
              dev ← get_crypto_aead_dev drv g2 aead;
              Some (session_create_finish env param h
                      (xform_aead aead) xform_not_specified
                      [xform_aead aead] dev g2)
          end
        else
          match crypto_fill_cipher_xform env sp with
          | None =>
              Some (session_create_err (Some h)
                      ODP_CRYPTO_SES_CREATE_ERR_INV_CIPHER g2)
          | Some cx =>
              match crypto_fill_auth_xform env sp with
              | None =>
                  Some (session_create_err (Some h)
                          ODP_CRYPTO_SES_CREATE_ERR_INV_AUTH g2)
              | Some ax =>
                  let first_xform := derive_first_xform param cx ax in
                  dev ← get_crypto_dev drv g2 cx ax;
                  Some (session_create_finish env param h
                          (xform_cipher cx) (xform_auth ax)
                          first_xform dev g2)
              end
          end
    end.

(** [odp_crypto_session_destroy], for the session record at index [h]. *)
Definition odp_crypto_session_destroy (env : session_destroy_env) (h : nat)
    (g : crypto_global_t) : Z * crypto_global_t :=
  let session := session_at g h in
  let rte_sess := rte_session session in
  if rte_cryptodev_sym_session_clear env (cdev_id session) rte_sess <? 0 then
    (-1, g)
  else if rte_cryptodev_sym_session_free env rte_sess <? 0 then
    (-1, g)
  else
    (0, free_session h (memset_session h g)).

(** The transform order in the words of the specification. *)
Inductive transform_order :=
  | AuthOnly
  | CipherOnly
  | CipherThenAuth
  | AuthThenCipher.

Definition specified_order (param : odp_crypto_session_param_t)
    : transform_order :=
  if decide (cipher_alg param = ODP_CIPHER_ALG_NULL) then AuthOnly
  else if decide (auth_alg param = ODP_AUTH_ALG_NULL) then CipherOnly
  else if (bool_decide (op param = ODP_CRYPTO_OP_ENCODE)
           && auth_cipher_text param)
          || (bool_decide (op param = ODP_CRYPTO_OP_DECODE)
              && negb (auth_cipher_text param))
  then CipherThenAuth
  else AuthThenCipher.

(** The chain in a given order, from the cipher and the auth
    transform. *)
Definition chain_in_order (o : transform_order)
    (cipher_xform : rte_crypto_cipher_xform)
    (auth_xform : rte_crypto_auth_xform) : list rte_crypto_sym_xform :=
  match o with
  | AuthOnly => [xform_auth auth_xform]
  | CipherOnly => [xform_cipher cipher_xform]
  | CipherThenAuth => [xform_cipher cipher_xform; xform_auth auth_xform]
  | AuthThenCipher => [xform_auth auth_xform; xform_cipher cipher_xform]
  end.

(** ** Operation engine *)

(** [odp_crypto_packet_op_param_t].  A packet is its handle; the byte
    ranges and the digest offset only travel into the descriptor. *)
Record odp_crypto_packet_op_param_t := {
  session : option nat;
  cipher_iv_ptr : option (list Z);
  auth_iv_ptr : option (list Z);
  aad_ptr : option (list Z);
  hash_result_offset : Z
}.

Record odp_crypto_op_status_t := {
  alg_err : odp_crypto_alg_err_t;
  hw_err : odp_crypto_hw_err_t
}.

(** [odp_crypto_packet_result_t]. *)
Record odp_crypto_packet_result_t := {
  ok : bool;
  cipher_status : odp_crypto_op_status_t;
  auth_status : odp_crypto_op_status_t
}.

(** Outcomes of the calls one [odp_crypto_int] makes outside the file:
    the packet layer ([odp_packet_alloc] gives a handle or
    [ODP_PACKET_INVALID]), the descriptor pool, the executing CPU, and
    the accelerator queue.  [rte_cryptodev_dequeue_burst] is given the
    number of the attempt; [dequeued_status] is the status of the
    descriptor that comes back, [fresh_status] the one of a descriptor
    just allocated. *)
Record crypto_op_env := {
  odp_packet_alloc : option Z;
  odp_packet_copy_from_pkt : Z;
  rte_crypto_op_alloc : bool;
  odp_cpu_id : Z;
  rte_cryptodev_enqueue_burst : Z -> Z -> Z;
  rte_cryptodev_dequeue_burst : Z -> Z -> nat -> Z;
  fresh_status : rte_crypto_op_status;
  dequeued_status : rte_crypto_op_status
}.

(** What one [odp_crypto_int] hands back: the return value, the output
    packet, the result stored in its header, and, when the call
    submitted, the queue pair it used. *)
Record crypto_int_result := {
  int_rc : Z;
  pkt_out : option Z;
  op_result : option odp_crypto_packet_result_t;
  crypto_err : bool;
  digest_copied_back : bool;
  queue_pair : option Z
}.

(** The returns of -1: [*pkt_out] keeps the caller's value and no result
    is written. *)
Definition crypto_int_failed (out : option Z) : crypto_int_result :=
  {| int_rc := -1; pkt_out := out; op_result := None; crypto_err := false;
     digest_copied_back := false; queue_pair := None |}.

(** The IV length a stored transform declares.  Each reader below is
    only reached on a record whose transform has the type it reads. *)
Definition stored_cipher_iv_length (x : rte_crypto_sym_xform) : Z :=
  match x with xform_cipher c => cipher_iv_length c | _ => 0 end.

Definition stored_auth_iv_length (x : rte_crypto_sym_xform) : Z :=
  match x with xform_auth a => auth_iv_length a | _ => 0 end.

Definition stored_aead_iv_length (x : rte_crypto_sym_xform) : Z :=
  match x with xform_aead a => aead_iv_length a | _ => 0 end.

(** [crypto_fill_aead_param] and [crypto_fill_sym_param], as far as they
    write the two outcome codes: the stores into the descriptor and the
    staging of the digest do not bear on them. *)
Definition crypto_fill_aead_param (s : crypto_session_entry_t)
    (param : odp_crypto_packet_op_param_t)
    (rc_cipher rc_auth : odp_crypto_alg_err_t)
    : odp_crypto_alg_err_t * odp_crypto_alg_err_t :=
  let aead_xform := cipher_xform s in
  let rc_cipher :=
    match cipher_iv_ptr param with
    | Some _ => rc_cipher
    | None =>
        match iv_data (cipher_iv (p s)) with
        | Some _ => rc_cipher
        | None =>
            if negb (stored_aead_iv_length aead_xform =? 0)
            then ODP_CRYPTO_ALG_ERR_IV_INVALID else rc_cipher
        end
    end in
  (rc_cipher, rc_auth).

Definition crypto_fill_sym_param (s : crypto_session_entry_t)
    (param : odp_crypto_packet_op_param_t)
    (rc_cipher rc_auth : odp_crypto_alg_err_t)
    : odp_crypto_alg_err_t * odp_crypto_alg_err_t :=
  let rc_cipher :=
    match cipher_iv_ptr param with
    | Some _ => rc_cipher
    | None =>
        match iv_data (cipher_iv (p s)) with
        | Some _ => rc_cipher
        | None =>
            if negb (stored_cipher_iv_length (cipher_xform s) =? 0)
            then ODP_CRYPTO_ALG_ERR_IV_INVALID else rc_cipher
        end
    end in
  let rc_auth :=
    match auth_iv_ptr param with
    | Some _ => rc_auth
    | None =>
        match iv_data (auth_iv (p s)) with
        | Some _ => rc_auth
        | None =>
            if negb (stored_auth_iv_length (auth_xform s) =? 0)
            then ODP_CRYPTO_ALG_ERR_IV_INVALID else rc_auth
        end
    end in
  (rc_cipher, rc_auth).

(** The polling loop: [retries_left] is
    [MAX_DEQ_RETRIES - retry_count]; the value is the [rc] the loop
    leaves with. *)
Fixpoint dequeue_poll (dequeue : nat -> Z) (attempt retries_left : nat) : Z :=
  let rc := dequeue attempt in
  match retries_left with
  | O => rc
  | S n => if rc =? 0 then dequeue_poll dequeue (S attempt) n else rc
  end.

(** The [switch (op->status)] after a completed submission. *)
Definition classify_status (st : rte_crypto_op_status)
    : odp_crypto_alg_err_t * odp_crypto_alg_err_t :=
  match st with
  | RTE_CRYPTO_OP_STATUS_SUCCESS =>
      (ODP_CRYPTO_ALG_ERR_NONE, ODP_CRYPTO_ALG_ERR_NONE)
  | RTE_CRYPTO_OP_STATUS_AUTH_FAILED =>
      (ODP_CRYPTO_ALG_ERR_NONE, ODP_CRYPTO_ALG_ERR_ICV_CHECK)
  | _ => (ODP_CRYPTO_ALG_ERR_NONE, ODP_CRYPTO_ALG_ERR_NONE)
  end.

(** "Fill in result" and the return of 0. *)
Definition crypto_int_done (s : crypto_session_entry_t) (out_pkt : Z)
    (rc_cipher rc_auth : odp_crypto_alg_err_t)
    (op_status : rte_crypto_op_status) (qp : option Z) : crypto_int_result :=
  let ok_flag :=
    bool_decide (rc_cipher = ODP_CRYPTO_ALG_ERR_NONE)
    && bool_decide (rc_auth = ODP_CRYPTO_ALG_ERR_NONE) in
  {| int_rc := 0;
     pkt_out := Some out_pkt;
     op_result := Some {|
       ok := ok_flag;
       cipher_status :=
         {| alg_err := rc_cipher; hw_err := ODP_CRYPTO_HW_ERR_NONE |};
       auth_status :=
         {| alg_err := rc_auth; hw_err := ODP_CRYPTO_HW_ERR_NONE |} |};
     crypto_err := negb ok_flag;
     digest_copied_back :=
       negb (auth_digest_len (p s) =? 0)
       && bool_decide (op_status = RTE_CRYPTO_OP_STATUS_SUCCESS);
     queue_pair := qp |}.

(** "Resolve output buffer": the packet the call works on, or [None]
    when none was given and none could be allocated. *)
Definition resolve_out_pkt (env : crypto_op_env) (s : crypto_session_entry_t)
    (out : option Z) : option Z :=
  match out, output_pool (p s) with
  | None, Some _ => odp_packet_alloc env
  | _, _ => out
  end.

(** [odp_crypto_int].  [pkt_in] is the input packet, [out] the packet
    the caller passed in [*pkt_out] ([None] is [ODP_PACKET_INVALID]).
    The remainder [%] by a queue-pair count of 0 is undefined in C;
    [Z.rem] leaves the dividend.  The call takes [global->lock] around
    [rte_crypto_op_alloc]; this function is the call made while the lock
    is free, and [odp_crypto_int_locked] below adds the lock. *)
Definition odp_crypto_int (env : crypto_op_env) (g : crypto_global_t)
    (pkt_in : Z) (out : option Z) (param : odp_crypto_packet_op_param_t)
    : crypto_int_result :=
  match session param with
  | None => crypto_int_failed out
  | Some h =>
      let s := session_at g h in
      match rte_session s with
      | None => crypto_int_failed out
      | Some _ =>
          match resolve_out_pkt env s out with
          | None => crypto_int_failed out
          | Some out_pkt =>
              if negb (pkt_in =? out_pkt)
                 && (odp_packet_copy_from_pkt env <? 0)
              then crypto_int_failed out
              else if negb (rte_crypto_op_alloc env)
              then crypto_int_failed out
              else
                let '(rc_cipher, rc_auth) :=
                  if cipher_is_aead (cipher_alg (p s))
                  then crypto_fill_aead_param s param
                         ODP_CRYPTO_ALG_ERR_NONE ODP_CRYPTO_ALG_ERR_NONE
                  else crypto_fill_sym_param s param
                         ODP_CRYPTO_ALG_ERR_NONE ODP_CRYPTO_ALG_ERR_NONE in
                if bool_decide (rc_cipher = ODP_CRYPTO_ALG_ERR_NONE)
                   && bool_decide (rc_auth = ODP_CRYPTO_ALG_ERR_NONE)
                then
                  let qp := Z.rem (odp_cpu_id env) (cdev_nb_qpairs s) in
                  if rte_cryptodev_enqueue_burst env (cdev_id s) qp =? 0
                  then crypto_int_failed out
                  else
                    let rc :=
                      dequeue_poll
                        (rte_cryptodev_dequeue_burst env (cdev_id s) qp)
                        0 (Z.to_nat MAX_DEQ_RETRIES) in
                    if rc =? 0 then crypto_int_failed out
                    else
                      let '(rc_cipher, rc_auth) :=
                        classify_status (dequeued_status env) in
                      crypto_int_done s out_pkt rc_cipher rc_auth
                        (dequeued_status env) (Some qp)
                else
                  crypto_int_done s out_pkt rc_cipher rc_auth
                    (fresh_status env) None
          end
      end
  end.

(** A primitive's IV is missing, in the words of the specification: the
    call supplies no explicit IV, the session holds no cached IV, and the
    transform requires a non-zero IV length.  An AEAD session has one
    fused transform, read as the cipher, and no auth transform. *)
Definition cipher_iv_missing (s : crypto_session_entry_t)
    (param : odp_crypto_packet_op_param_t) : bool :=
  bool_decide (cipher_iv_ptr param = None)
  && bool_decide (iv_data (cipher_iv (p s)) = None)
  && negb ((if cipher_is_aead (cipher_alg (p s))
            then stored_aead_iv_length (cipher_xform s)
            else stored_cipher_iv_length (cipher_xform s)) =? 0).

Definition auth_iv_missing (s : crypto_session_entry_t)
    (param : odp_crypto_packet_op_param_t) : bool :=
  negb (cipher_is_aead (cipher_alg (p s)))
  && bool_decide (auth_iv_ptr param = None)
  && bool_decide (iv_data (auth_iv (p s)) = None)
  && negb (stored_auth_iv_length (auth_xform s) =? 0).

(** ** Sequences of create and destroy calls *)

(** A call on the session pool, with the outcomes of the DPDK calls it
    makes. *)
Inductive pool_call :=
  | call_create (env : session_create_env) (param : odp_crypto_session_param_t)
  | call_destroy (env : session_destroy_env) (h : nat).

(** The global state together with the sessions in use: the handles
    that a create has returned and that no destroy has released yet. *)
Record pool_state := {
  pool_global : crypto_global_t;
  in_use : list nat
}.

(** One call.  [None] is a create that does not return. *)
Definition pool_step (drv : rte_cryptodev_driver) (st : pool_state)
    (c : pool_call) : option pool_state :=
  match c with
  | call_create env param =>
      r ← odp_crypto_session_create drv env param (pool_global st);
      Some {| pool_global := r.2;
              in_use := match session_out r.1 with
                        | Some h => h :: in_use st
                        | None => in_use st
                        end |}
  | call_destroy env h =>
      let r := odp_crypto_session_destroy env h (pool_global st) in
      Some {| pool_global := r.2;
              in_use := if r.1 =? 0
                        then filter (fun h' => h' <> h) (in_use st)
                        else in_use st |}
  end.

(** The API allows a destroy only on a session in use. *)
Definition call_allowed (st : pool_state) (c : pool_call) : Prop :=
  match c with
  | call_create _ _ => True
  | call_destroy _ h => h ∈ in_use st
  end.

(** [pool_run drv st calls st']: the calls, made in order from [st],
    are all allowed, all return, and leave [st']. *)
Inductive pool_run (drv : rte_cryptodev_driver)
    : pool_state -> list pool_call -> pool_state -> Prop :=
  | pool_run_nil st : pool_run drv st [] st
  | pool_run_cons st c st1 calls st2 :
      call_allowed st c ->
      pool_step drv st c = Some st1 ->
      pool_run drv st1 calls st2 ->
      pool_run drv st (c :: calls) st2.

(** The calls made in order, as a function; it does not ask whether
    they are allowed. *)
Fixpoint pool_exec (drv : rte_cryptodev_driver) (calls : list pool_call)
    (st : pool_state) : option pool_state :=
  match calls with
  | [] => Some st
  | c :: calls' => st1 ← pool_step drv st c; pool_exec drv calls' st1
  end.

(** Whether every call of a sequence is allowed when its turn comes. *)
Fixpoint calls_allowed (drv : rte_cryptodev_driver) (st : pool_state)
    (calls : list pool_call) : bool :=
  match calls with
  | [] => true
  | c :: calls' =>
      match c with
      | call_create _ _ => true
      | call_destroy _ h => bool_decide (h ∈ in_use st)
      end
      && match pool_step drv st c with
         | Some st1 => calls_allowed drv st1 calls'
         | None => true
         end
  end.

(** The state right after initialisation: no session in use. *)
Definition initial_pool (drv : rte_cryptodev_driver) (cpu_count : Z)
    : pool_state :=
  {| pool_global := init_global (odp_crypto_init_global drv cpu_count);
     in_use := [] |}.

(** Pool conservation. *)
Definition pool_conserved (st : pool_state) : Prop :=
  exists n, free_list_length (pool_global st) = Some n /\
            (length (in_use st) + n = MAX_SESSIONS)%nat.

(** The invariant behind it: the free list is a chain [l] through the
    array without repetition, and no record in use is on it. *)
Definition pool_inv (st : pool_state) : Prop :=
  exists l,
    length (sessions (pool_global st)) = MAX_SESSIONS /\
    free_chain (pool_global st) (free (pool_global st)) l /\
    NoDup (in_use st ++ l) /\
    (length (in_use st) + length l = MAX_SESSIONS)%nat /\
    Forall (fun h => (h < MAX_SESSIONS)%nat) (in_use st).

(** The state a failed create leaves when it had taken the record [h]:
    the record is zero but for the link, which points where it pointed
    before, and the free list starts at [h] again. *)
Definition released (h : nat) (g : crypto_global_t) : crypto_global_t :=
  set_free (Some h)
    (store_session h (set_next (next (session_at g h)) zero_session) g).

(** *** IVs that fit the record *)

(** The create copies [iv_length] bytes from [iv_data], when that
    pointer is set, into an array of [MAX_IV_LENGTH] bytes, and checks
    neither length.  The IV fits when the copy stays inside the array
    and inside the caller's buffer. *)
Definition iv_fits (iv : odp_crypto_iv_t) : bool :=
  match iv_data iv with
  | None => true
  | Some data =>
      (iv_length iv <=? MAX_IV_LENGTH)
      && (Z.to_nat (iv_length iv) <=? length data)%nat
  end.

Definition param_ivs_fit (param : odp_crypto_session_param_t) : bool :=
  iv_fits (cipher_iv param) && iv_fits (auth_iv param).

(** Every create of a sequence of calls passes IVs that fit. *)
Definition call_ivs_fit (c : pool_call) : bool :=
  match c with
  | call_create _ param => param_ivs_fit param
  | call_destroy _ _ => true
  end.

Definition calls_ivs_fit (calls : list pool_call) : bool :=
  forallb call_ivs_fit calls.

(** Both IV arrays of every record hold [MAX_IV_LENGTH] bytes, as the
    arrays of the C record do: no copy has left its array. *)
Definition iv_arrays_ok (g : crypto_global_t) : Prop :=
  forall i,
    length (cipher_iv_data (session_at g i)) = Z.to_nat MAX_IV_LENGTH /\
    length (auth_iv_data (session_at g i)) = Z.to_nat MAX_IV_LENGTH.

End WithConfig.

(** ** Sample configurations *)

(** The constants as the platform headers of this version give them. *)
Definition sample_config : build_config := {|
  ODP_DEPRECATED_API := false;
  PACKET_DIGEST_MAX := 64;
  PACKET_AAD_MAX := 32;
  RTE_CRYPTO_MAX_DEVS := 64
|}.

Definition aes_cbc_cap : rte_cryptodev_capabilities :=
  cap_cipher RTE_CRYPTO_CIPHER_AES_CBC
    {| min := 16; max := 32; increment := 8 |}
    {| min := 16; max := 16; increment := 0 |}.

Definition sha256_hmac_cap : rte_cryptodev_capabilities :=
  cap_auth RTE_CRYPTO_AUTH_SHA256_HMAC
    {| min := 1; max := 64; increment := 1 |}
    {| min := 32; max := 32; increment := 0 |}
    {| min := 0; max := 0; increment := 0 |}.

Definition aes_gcm_cap : rte_cryptodev_capabilities :=
  cap_aead RTE_CRYPTO_AEAD_AES_GCM
    {| min := 16; max := 32; increment := 8 |}
    {| min := 8; max := 16; increment := 4 |}
    {| min := 0; max := 240; increment := 1 |}
    {| min := 12; max := 12; increment := 0 |}.

(** A software device: AES-CBC, SHA256-HMAC and AES-GCM, eight queue
    pairs. *)
Definition sample_info : rte_cryptodev_info := {|
  capabilities := [aes_cbc_cap; sha256_hmac_cap; aes_gcm_cap];
  max_nb_queue_pairs := 8;
  hw_accelerated := false;
  max_nb_sessions := 2048
|}.

(** A device with a single queue pair that offers AES-CBC only. *)
Definition small_info : rte_cryptodev_info := {|
  capabilities := [aes_cbc_cap];
  max_nb_queue_pairs := 1;
  hw_accelerated := false;
  max_nb_sessions := 2048
|}.

(** A device with eight queue pairs and no matching capability. *)
Definition bare_info : rte_cryptodev_info := {|
  capabilities := [];
  max_nb_queue_pairs := 8;
  hw_accelerated := false;
  max_nb_sessions := 2048
|}.

(** One device, every driver call succeeds. *)
Definition one_device : rte_cryptodev_driver := {|
  rte_cryptodev_count := 1;
  rte_cryptodev_info_get := fun _ => sample_info;
  rte_cryptodev_socket_id := fun _ => 0;
  rte_mempool_create := fun _ => true;
  rte_cryptodev_configure := fun _ _ => 0;
  rte_cryptodev_queue_pair_setup := fun _ _ => 0;
  rte_cryptodev_start := fun _ => 0;
  rte_crypto_op_pool_create := true
|}.

(** Two devices: device 0 is [small_info], device 1 is [bare_info]. *)
Definition two_devices : rte_cryptodev_driver := {|
  rte_cryptodev_count := 2;
  rte_cryptodev_info_get :=
    fun cdev_id => if cdev_id =? 0 then small_info else bare_info;
  rte_cryptodev_socket_id := fun _ => 0;
  rte_mempool_create := fun _ => true;
  rte_cryptodev_configure := fun _ _ => 0;
  rte_cryptodev_queue_pair_setup := fun _ _ => 0;
  rte_cryptodev_start := fun _ => 0;
  rte_crypto_op_pool_create := true
|}.

(** Every DPDK call of a create succeeds; the session object is 7. *)
Definition create_ok : session_create_env := {|
  cipher_key_malloc := true;
  auth_key_malloc := true;
  rte_cryptodev_sym_session_create := Some 7;
  rte_cryptodev_sym_session_init := fun _ _ => 0
|}.

(** The accelerator refuses to initialise the session object. *)
Definition create_init_fails : session_create_env := {|
  cipher_key_malloc := true;
  auth_key_malloc := true;
  rte_cryptodev_sym_session_create := Some 7;
  rte_cryptodev_sym_session_init := fun _ _ => -1
|}.

Definition destroy_ok : session_destroy_env := {|
  rte_cryptodev_sym_session_clear := fun _ _ => 0;
  rte_cryptodev_sym_session_free := fun _ => 0
|}.

(** The accelerator fails to clear the session object. *)
Definition destroy_clear_fails : session_destroy_env := {|
  rte_cryptodev_sym_session_clear := fun _ _ => -1;
  rte_cryptodev_sym_session_free := fun _ => 0
|}.

(** AES-128-CBC encryption without authentication; the session carries
    no IV of its own. *)
Definition aes_cbc_param : odp_crypto_session_param_t := {|
  op := ODP_CRYPTO_OP_ENCODE;
  auth_cipher_text := false;
  op_mode := ODP_CRYPTO_SYNC;
  cipher_alg := ODP_CIPHER_ALG_AES_CBC;
  cipher_key := {| key_data := repeat 1 16; key_length := 16 |};
  cipher_iv := {| iv_data := None; iv_length := 16 |};
  auth_alg := ODP_AUTH_ALG_NULL;
  auth_key := zero_key;
  auth_iv := zero_iv;
  auth_digest_len := 0;
  auth_aad_len := 0;
  compl_queue := None;
  output_pool := None
|}.

(** AES-128-CBC encryption with a SHA256-HMAC over the ciphertext. *)
Definition aes_cbc_hmac_param : odp_crypto_session_param_t := {|
  op := ODP_CRYPTO_OP_ENCODE;
  auth_cipher_text := true;
  op_mode := ODP_CRYPTO_SYNC;
  cipher_alg := ODP_CIPHER_ALG_AES_CBC;
  cipher_key := {| key_data := repeat 1 16; key_length := 16 |};
  cipher_iv := {| iv_data := None; iv_length := 16 |};
  auth_alg := ODP_AUTH_ALG_SHA256_HMAC;
  auth_key := {| key_data := repeat 2 32; key_length := 32 |};
  auth_iv := zero_iv;
  auth_digest_len := 32;
  auth_aad_len := 0;
  compl_queue := None;
  output_pool := None
|}.

(** An accelerator that initialises a session for a chain of a cipher
    transform followed by an auth transform, and for no other chain. *)
Definition create_cipher_then_auth : session_create_env := {|
  cipher_key_malloc := true;
  auth_key_malloc := true;
  rte_cryptodev_sym_session_create := Some 7;
  rte_cryptodev_sym_session_init :=
    fun _ chain =>
      match chain with
      | [xform_cipher _; xform_auth _] => 0
      | _ => -1
      end
|}.

(** The state after initialisation with [cpu_count] 8. *)
Definition sample_pool (drv : rte_cryptodev_driver) : pool_state :=
  initial_pool sample_config drv 8.

Definition null_cipher_xform : rte_crypto_cipher_xform := {|
  cipher_op := RTE_CRYPTO_CIPHER_OP_ENCRYPT;
  cipher_algo := RTE_CRYPTO_CIPHER_NULL;
  cipher_key_data := [];
  cipher_key_length := 0;
  cipher_iv_length := 0
|}.

Definition null_auth_xform : rte_crypto_auth_xform := {|
  auth_op := RTE_CRYPTO_AUTH_OP_GENERATE;
  auth_algo := RTE_CRYPTO_AUTH_NULL;
  auth_key_data := [];
  auth_key_length := 0;
  auth_iv_length := 0;
  auth_digest_length := 0
|}.

(** The sample pool after one successful create on [one_device]: the
    session record is the head of the initial free list, index 2047. *)
Definition one_session_pool : pool_state :=
  default (sample_pool one_device)
    (pool_exec sample_config one_device
       [call_create create_ok aes_cbc_param] (sample_pool one_device)).

Definition one_session_global : crypto_global_t :=
  pool_global one_session_pool.

(** An operation on session 2047 that brings no IV. *)
Definition no_iv_op : odp_crypto_packet_op_param_t := {|
  session := Some 2047%nat;
  cipher_iv_ptr := None;
  auth_iv_ptr := None;
  aad_ptr := None;
  hash_result_offset := 0
|}.

(** An operation on session 2047 that brings its cipher IV. *)
Definition iv_op : odp_crypto_packet_op_param_t := {|
  session := Some 2047%nat;
  cipher_iv_ptr := Some (repeat 2 16);
  auth_iv_ptr := None;
  aad_ptr := None;
  hash_result_offset := 0
|}.

(** Every call an operation makes succeeds; the caller runs on CPU 5 and
    the descriptor comes back at the first poll with [status]. *)
Definition op_ok (status : rte_crypto_op_status) : crypto_op_env := {|
  odp_packet_alloc := Some 2;
  odp_packet_copy_from_pkt := 0;
  rte_crypto_op_alloc := true;
  odp_cpu_id := 5;
  rte_cryptodev_enqueue_burst := fun _ _ => 1;
  rte_cryptodev_dequeue_burst := fun _ _ _ => 1;
  fresh_status := RTE_CRYPTO_OP_STATUS_NOT_PROCESSED;
  dequeued_status := status
|}.

(** The descriptor pool is exhausted. *)
Definition op_no_descriptor : crypto_op_env := {|
  odp_packet_alloc := Some 2;
  odp_packet_copy_from_pkt := 0;
  rte_crypto_op_alloc := false;
  odp_cpu_id := 5;
  rte_cryptodev_enqueue_burst := fun _ _ => 1;
  rte_cryptodev_dequeue_burst := fun _ _ _ => 1;
  fresh_status := RTE_CRYPTO_OP_STATUS_NOT_PROCESSED;
  dequeued_status := RTE_CRYPTO_OP_STATUS_SUCCESS
|}.

(** The transforms of an AES-128-CBC and of an AES-128-GCM request. *)
Definition aes_cbc_xform : rte_crypto_cipher_xform := {|
  cipher_op := RTE_CRYPTO_CIPHER_OP_ENCRYPT;
  cipher_algo := RTE_CRYPTO_CIPHER_AES_CBC;
  cipher_key_data := repeat 1 16;
  cipher_key_length := 16;
  cipher_iv_length := 16
|}.

Definition aes_gcm_xform : rte_crypto_aead_xform := {|
  aead_op := RTE_CRYPTO_AEAD_OP_ENCRYPT;
  aead_algo := RTE_CRYPTO_AEAD_AES_GCM;
  aead_key_data := repeat 1 16;
  aead_key_length := 16;
  aead_iv_length := 12;
  aead_digest_length := 16;
  aead_aad_length := 8
|}.

(** A create on the fresh sample pool during which the accelerator
    refuses to initialise the session object, and what it returns. *)
Definition refused_create
    : option (session_create_result * crypto_global_t) :=
  odp_crypto_session_create sample_config one_device create_init_fails
    aes_cbc_param (pool_global (initial_pool sample_config one_device 8)).

Definition refused_create_result
    : session_create_result * crypto_global_t :=
  default ({| create_rc := 0; session_out := None;
              status := ODP_CRYPTO_SES_CREATE_ERR_NONE |},
           zero_global sample_config)
    refused_create.

(** A create and a destroy of the session it returned, the destroy with
    and without an accelerator failure. *)
Definition create_then_destroy : list pool_call :=
  [call_create create_ok aes_cbc_param; call_destroy destroy_ok 2047].

Definition create_then_failed_destroy : list pool_call :=
  [call_create create_ok aes_cbc_param;
   call_destroy destroy_clear_fails 2047].

Definition after_create_then_destroy : pool_state :=
  default (sample_pool one_device)
    (pool_exec sample_config one_device create_then_destroy
       (initial_pool sample_config one_device 8)).

(** The two-device system after initialisation on eight CPUs, and a
    session created on it. *)
Definition two_devices_init : init_result :=
  odp_crypto_init_global sample_config two_devices 8.

Definition two_devices_session : crypto_global_t :=
  match odp_crypto_session_create sample_config two_devices create_ok
          aes_cbc_param (init_global two_devices_init) with
  | Some r => r.2
  | None => init_global two_devices_init
  end.

(* ================================================================== *)
(** * Further definitions: capability catalog, shutdown, batch calls *)
(* ================================================================== *)

(** ** Bounds a selected device guarantees *)

(** What a transform owes to a device that passed its check. *)
Definition cipher_within (caps : list rte_cryptodev_capabilities)
    (x : rte_crypto_cipher_xform) : Prop :=
  exists k iv,
    cap_cipher (cipher_algo x) k iv ∈ caps /\
    min k <= cipher_key_length x <= max k /\
    min iv <= cipher_iv_length x <= max iv /\
    cipher_iv_length x <= MAX_IV_LENGTH.

Definition auth_within (caps : list rte_cryptodev_capabilities)
    (x : rte_crypto_auth_xform) : Prop :=
  exists k d iv,
    cap_auth (auth_algo x) k d iv ∈ caps /\
    min k <= auth_key_length x <= max k /\
    min d <= auth_digest_length x <= max d /\
    min iv <= auth_iv_length x <= max iv /\
    auth_iv_length x <= MAX_IV_LENGTH.

Definition aead_within (caps : list rte_cryptodev_capabilities)
    (x : rte_crypto_aead_xform) : Prop :=
  exists k d aad iv,
    cap_aead (aead_algo x) k d aad iv ∈ caps /\
    min k <= aead_key_length x <= max k /\
    min d <= aead_digest_length x <= max d /\
    min iv <= aead_iv_length x <= max iv /\
    aead_iv_length x <= MAX_IV_LENGTH.

(** ** What a created session holds *)

Section Created.

Context (cfg : build_config).

(** The record a successful create leaves at its handle, and the
    transforms and the device it was built from. *)
Record created_with (drv : rte_cryptodev_driver) (env : session_create_env)
    (param : odp_crypto_session_param_t) (g : crypto_global_t)
    (s : crypto_session_entry_t) : Prop := {
  created_next : next s = None;
  created_p : p s = deprecated_digest_len cfg param;
  created_rte :
    rte_session s = rte_cryptodev_sym_session_create env /\
    rte_session s <> None;
  created_qpairs :
    cdev_nb_qpairs s
    = default 0 (enabled_crypto_dev_nb_qpairs g !! Z.to_nat (cdev_id s));
  created_xforms :
    (cipher_is_aead cfg (cipher_alg param) = true /\
     exists aead,
       crypto_fill_aead_xform cfg env (deprecated_digest_len cfg param)
         = Some aead /\
       get_crypto_aead_dev drv g aead = Some (Some (cdev_id s)) /\
       cipher_xform s = xform_aead aead /\
       auth_xform s = xform_not_specified) \/
    (cipher_is_aead cfg (cipher_alg param) = false /\
     exists cx ax,
       crypto_fill_cipher_xform cfg env (deprecated_digest_len cfg param)
         = Some cx /\
       crypto_fill_auth_xform cfg env (deprecated_digest_len cfg param)
         = Some ax /\
       get_crypto_dev drv g cx ax = Some (Some (cdev_id s)) /\
       cipher_xform s = xform_cipher cx /\
       auth_xform s = xform_auth ax)
}.

End Created.


(** ** Shutdown and batch calls *)

Section Operations.

Context (cfg : build_config).

(** [odp_crypto_term_global]; [shm_free] is what [odp_shm_free]
    returns.  The descriptor pool is only handed back to DPDK.  The
    call initialises the lock before it takes it, so it does not wait
    for it.  [None] is a counting loop that does not come to the end of
    the free list. *)
Definition odp_crypto_term_global (g : crypto_global_t) (shm_free : Z)
    : option Z :=
  count ← free_list_length g;
  let rc := if bool_decide (count <> MAX_SESSIONS) then -1 else 0 in
  let rc := if shm_free <? 0 then -1 else rc in
  Some rc.

(** *** The lock *)

(** [global->lock] is a spinlock, kept here beside the global state as
    a flag: [true] when it is held.  A thread that takes a held lock
    waits for its release; in a sequential run nobody releases it, so
    the call does not return.

    [odp_crypto_int] takes the lock around [rte_crypto_op_alloc].  It
    comes to that line when the session and its session object exist,
    an output packet is there and the copy into it, if one is made,
    works. *)
Definition reaches_lock (env : crypto_op_env) (g : crypto_global_t)
    (pkt_in : Z) (out : option Z) (param : odp_crypto_packet_op_param_t)
    : bool :=
  match session param with
  | None => false
  | Some h =>
      let s := session_at g h in
      match rte_session s with
      | None => false
      | Some _ =>
          match resolve_out_pkt env s out with
          | None => false
          | Some out_pkt =>
              negb (negb (pkt_in =? out_pkt)
                    && (odp_packet_copy_from_pkt env <? 0))
          end
      end
  end.

(** [odp_crypto_int] with the lock: what the call returns and whether
    it leaves the lock held; [None] is a call that does not return.
    When the allocation of the descriptor fails the call leaves through
    [err], which does not release the lock.  When it works the lock is
    released, and the rest of the call is the one of [odp_crypto_int]
    above. *)
Definition odp_crypto_int_locked (env : crypto_op_env) (g : crypto_global_t)
    (held : bool) (pkt_in : Z) (out : option Z)
    (param : odp_crypto_packet_op_param_t)
    : option (crypto_int_result * bool) :=
  match session param with
  | None => Some (crypto_int_failed out, held)
  | Some h =>
      let s := session_at g h in
      match rte_session s with
      | None => Some (crypto_int_failed out, held)
      | Some _ =>
          match resolve_out_pkt env s out with
          | None => Some (crypto_int_failed out, held)
          | Some out_pkt =>
              if negb (pkt_in =? out_pkt)
                 && (odp_packet_copy_from_pkt env <? 0)
              then Some (crypto_int_failed out, held)
              else if held then None
              else if negb (rte_crypto_op_alloc env)
              then Some (crypto_int_failed out, true)
              else Some (odp_crypto_int cfg env g pkt_in out param, false)
          end
      end
  end.

(** What [odp_crypto_op] leaves: the return value, the [pkt_out] array
    and the lock. *)
Record crypto_op_result := {
  op_rc : nat;
  op_pkt_out : list (option Z);
  op_lock_held : bool
}.

(** The loop of [odp_crypto_op] from index [i], with [todo] rounds to
    go ([num_pkt - i]).  [env i] holds the outcomes of the calls the
    [i]-th [odp_crypto_int] makes.  [None] is a call of [odp_crypto_int]
    that does not return, or a read outside one of the arrays, which C
    leaves undefined.  The [ODP_ASSERT]s on the mode of the session,
    here and in [odp_crypto_op_enq], are debug checks and are left
    out. *)
Fixpoint odp_crypto_op_loop (env : nat -> crypto_op_env)
    (g : crypto_global_t) (pkt_in : list Z)
    (param : list odp_crypto_packet_op_param_t)
    (i todo : nat) (held : bool) (pkts_out : list (option Z))
    : option crypto_op_result :=
  match todo with
  | O => Some {| op_rc := i; op_pkt_out := pkts_out; op_lock_held := held |}
  | S todo' =>
      pkt ← pkt_in !! i;
      out ← pkts_out !! i;
      par ← param !! i;
      r ← odp_crypto_int_locked (env i) g held pkt out par;
      if int_rc (r.1) <? 0
      then Some {| op_rc := i; op_pkt_out := pkts_out;
                   op_lock_held := r.2 |}
      else odp_crypto_op_loop env g pkt_in param (S i) todo' (r.2)
             (<[i := pkt_out (r.1)]> pkts_out)
  end.

(** [odp_crypto_op], called while the lock is held or not.  The call
    starts by reading the session of [param[0]], whatever [num_pkt]
    is. *)
Definition odp_crypto_op (env : nat -> crypto_op_env) (g : crypto_global_t)
    (held : bool) (pkt_in : list Z) (pkts_out : list (option Z))
    (param : list odp_crypto_packet_op_param_t) (num_pkt : Z)
    : option crypto_op_result :=
  _ ← param !! 0%nat;
  odp_crypto_op_loop env g pkt_in param 0 (Z.to_nat num_pkt) held pkts_out.

(** What [odp_crypto_op_enq] leaves: the return value, the events it
    put on a completion queue (queue and packet, in order), the events
    it freed, and the lock. *)
Record crypto_op_enq_result := {
  enq_rc : nat;
  enqueued : list (option Z * Z);
  freed : list Z;
  enq_lock_held : bool
}.

(** The completion queue [odp_crypto_op_enq] uses for every packet of
    the batch: the one of the session of [param[0]]. *)
Definition batch_compl_queue (g : crypto_global_t)
    (param : list odp_crypto_packet_op_param_t) : option Z :=
  h ← (param !! 0%nat) ≫= session;
  compl_queue (p (session_at g h)).

(** The loop of [odp_crypto_op_enq]; [odp_queue_enq] gives the return
    value of the call of that name for a round, a queue and a packet.
    The array [pkt_out] is only read.  An [odp_crypto_int] that returns
    0 has stored its packet, which is the event of the round. *)
Fixpoint odp_crypto_op_enq_loop (env : nat -> crypto_op_env)
    (odp_queue_enq : nat -> option Z -> Z -> Z)
    (g : crypto_global_t) (pkt_in : list Z) (pkts_out : list (option Z))
    (param : list odp_crypto_packet_op_param_t)
    (i todo : nat) (held : bool) (done : list (option Z * Z))
    : option crypto_op_enq_result :=
  match todo with
  | O => Some {| enq_rc := i; enqueued := done; freed := [];
                 enq_lock_held := held |}
  | S todo' =>
      pkt_i ← pkt_in !! i;
      out ← pkts_out !! i;
      par ← param !! i;
      r ← odp_crypto_int_locked (env i) g held pkt_i out par;
      if int_rc (r.1) <? 0
      then Some {| enq_rc := i; enqueued := done; freed := [];
                   enq_lock_held := r.2 |}
      else
        pkt ← pkt_out (r.1);
        let queue := batch_compl_queue g param in
        if negb (odp_queue_enq i queue pkt =? 0)
        then Some {| enq_rc := i; enqueued := done; freed := [pkt];
                     enq_lock_held := r.2 |}
        else odp_crypto_op_enq_loop env odp_queue_enq g pkt_in pkts_out
               param (S i) todo' (r.2) (done ++ [(queue, pkt)])
  end.

(** [odp_crypto_op_enq], called while the lock is held or not.  It
    reads the session of [param[0]] first, too. *)
Definition odp_crypto_op_enq (env : nat -> crypto_op_env)
    (odp_queue_enq : nat -> option Z -> Z -> Z)
    (g : crypto_global_t) (held : bool)
    (pkt_in : list Z) (pkts_out : list (option Z))
    (param : list odp_crypto_packet_op_param_t) (num_pkt : Z)
    : option crypto_op_enq_result :=
  _ ← param !! 0%nat;
  odp_crypto_op_enq_loop env odp_queue_enq g pkt_in pkts_out param
    0 (Z.to_nat num_pkt) held [].

End Operations.

(** ** Capability catalog *)

(** The bits of [odp_crypto_cipher_algos_t] and of
    [odp_crypto_auth_algos_t] that the file names (among them the two
    it names only in the assignments it has commented out).  A bit field
    is the set of its bits that are 1. *)
Inductive cipher_algo_bit :=
  | cipher_bit_null
  | cipher_bit_des
  | cipher_bit_trides_cbc
  | cipher_bit_aes_cbc
  | cipher_bit_aes_ctr
  | cipher_bit_aes_gcm
  | cipher_bit_aes_ccm
  | cipher_bit_kasumi_f8
  | cipher_bit_snow3g_uea2
  | cipher_bit_zuc_eea3
  | cipher_bit_aes128_cbc
  | cipher_bit_aes128_gcm.

Inductive auth_algo_bit :=
  | auth_bit_null
  | auth_bit_md5_hmac
  | auth_bit_sha1_hmac
  | auth_bit_sha256_hmac
  | auth_bit_sha512_hmac
  | auth_bit_aes_gcm
  | auth_bit_aes_gmac
  | auth_bit_aes_ccm
  | auth_bit_aes_cmac
  | auth_bit_kasumi_f9
  | auth_bit_snow3g_uia2
  | auth_bit_zuc_eia3
  | auth_bit_md5_96
  | auth_bit_sha256_128
  | auth_bit_aes128_gcm.

#[global] Instance cipher_algo_bit_eq_dec : EqDecision cipher_algo_bit.
Proof. solve_decision. Defined.
#[global] Instance auth_algo_bit_eq_dec : EqDecision auth_algo_bit.
Proof. solve_decision. Defined.

Definition odp_crypto_cipher_algos_t := cipher_algo_bit -> bool.
Definition odp_crypto_auth_algos_t := auth_algo_bit -> bool.

(** [field->bit.name = 1]. *)
Definition set_bit {B : Type} `{EqDecision B} (b : B) (field : B -> bool)
    : B -> bool :=
  fun b' => if decide (b' = b) then true else field b'.

(** The bit field after [memset (..., 0, ...)]. *)
Definition no_bits {B : Type} : B -> bool := fun _ => false.

Inductive odp_support_t :=
  ODP_SUPPORT_NO | ODP_SUPPORT_YES | ODP_SUPPORT_PREFERRED.

(** [odp_crypto_capability_t]. *)
Record odp_crypto_capability_t := {
  max_sessions : Z;
  sync_mode : odp_support_t;
  async_mode : odp_support_t;
  ciphers : odp_crypto_cipher_algos_t;
  hw_ciphers : odp_crypto_cipher_algos_t;
  auths : odp_crypto_auth_algos_t;
  hw_auths : odp_crypto_auth_algos_t
}.

Definition set_max_sessions (n : Z) (c : odp_crypto_capability_t)
    : odp_crypto_capability_t :=
  {| max_sessions := n; sync_mode := sync_mode c;
     async_mode := async_mode c; ciphers := ciphers c;
     hw_ciphers := hw_ciphers c; auths := auths c;
     hw_auths := hw_auths c |}.

Section Capability.

Context (cfg : build_config).

Definition auth_is_aead (auth_alg : odp_auth_alg_t) : bool :=
  match auth_alg with
  | ODP_AUTH_ALG_AES_GCM | ODP_AUTH_ALG_AES_CCM => true
  | ODP_AUTH_ALG_AES128_GCM => ODP_DEPRECATED_API cfg
  | _ => false
  end.

Definition auth_aead_alg_odp_to_rte (auth_alg : odp_auth_alg_t)
    : option rte_crypto_aead_algorithm :=
  match auth_alg with
  | ODP_AUTH_ALG_AES_GCM => Some RTE_CRYPTO_AEAD_AES_GCM
  | ODP_AUTH_ALG_AES128_GCM =>
      if ODP_DEPRECATED_API cfg then Some RTE_CRYPTO_AEAD_AES_GCM else None
  | ODP_AUTH_ALG_AES_CCM => Some RTE_CRYPTO_AEAD_AES_CCM
  | _ => None
  end.

(** The body of the loop of [capability_process] for a cipher entry:
    a row of [if]s on the entry's algorithm. *)
Definition capability_process_cipher (algo : rte_crypto_cipher_algorithm)
    (ciphers : odp_crypto_cipher_algos_t) : odp_crypto_cipher_algos_t :=
  let ciphers :=
    if decide (algo = RTE_CRYPTO_CIPHER_3DES_CBC)
    then set_bit cipher_bit_des (set_bit cipher_bit_trides_cbc ciphers)
    else ciphers in
  let ciphers :=
    if decide (algo = RTE_CRYPTO_CIPHER_AES_CBC)
    then
      let ciphers := set_bit cipher_bit_aes_cbc ciphers in
      if ODP_DEPRECATED_API cfg
      then set_bit cipher_bit_aes128_cbc ciphers else ciphers
    else ciphers in
  let ciphers :=
    if decide (algo = RTE_CRYPTO_CIPHER_AES_CTR)
    then set_bit cipher_bit_aes_ctr ciphers else ciphers in
  let ciphers :=
    if decide (algo = RTE_CRYPTO_CIPHER_KASUMI_F8)
    then set_bit cipher_bit_kasumi_f8 ciphers else ciphers in
  let ciphers :=
    if decide (algo = RTE_CRYPTO_CIPHER_SNOW3G_UEA2)
    then set_bit cipher_bit_snow3g_uea2 ciphers else ciphers in
  if decide (algo = RTE_CRYPTO_CIPHER_ZUC_EEA3)
  then set_bit cipher_bit_zuc_eea3 ciphers else ciphers.

(** The same for an auth entry. *)
Definition capability_process_auth (algo : rte_crypto_auth_algorithm)
    (auths : odp_crypto_auth_algos_t) : odp_crypto_auth_algos_t :=
  let auths :=
    if decide (algo = RTE_CRYPTO_AUTH_MD5_HMAC)
    then
      let auths := set_bit auth_bit_md5_hmac auths in
      if ODP_DEPRECATED_API cfg
      then set_bit auth_bit_md5_96 auths else auths
    else auths in
  let auths :=
    if decide (algo = RTE_CRYPTO_AUTH_SHA256_HMAC)
    then
      let auths := set_bit auth_bit_sha256_hmac auths in
      if ODP_DEPRECATED_API cfg
      then set_bit auth_bit_sha256_128 auths else auths
    else auths in
  let auths :=
    if decide (algo = RTE_CRYPTO_AUTH_SHA1_HMAC)
    then set_bit auth_bit_sha1_hmac auths else auths in
  let auths :=
    if decide (algo = RTE_CRYPTO_AUTH_SHA512_HMAC)
    then set_bit auth_bit_sha512_hmac auths else auths in
  let auths :=
    if decide (algo = RTE_CRYPTO_AUTH_AES_GMAC)
    then set_bit auth_bit_aes_gmac auths else auths in
  let auths :=
    if decide (algo = RTE_CRYPTO_AUTH_AES_CMAC)
    then set_bit auth_bit_aes_cmac auths else auths in
  let auths :=
    if decide (algo = RTE_CRYPTO_AUTH_SNOW3G_UIA2)
    then set_bit auth_bit_snow3g_uia2 auths else auths in
  if decide (algo = RTE_CRYPTO_AUTH_ZUC_EIA3)
  then set_bit auth_bit_zuc_eia3 auths else auths.

(** The same for an AEAD entry, which sets bits in both fields. *)
Definition capability_process_aead (algo : rte_crypto_aead_algorithm)
    (fields : odp_crypto_cipher_algos_t * odp_crypto_auth_algos_t)
    : odp_crypto_cipher_algos_t * odp_crypto_auth_algos_t :=
  if decide (algo = RTE_CRYPTO_AEAD_AES_GCM)
  then
    let ciphers := set_bit cipher_bit_aes_gcm fields.1 in
    let auths := set_bit auth_bit_aes_gcm fields.2 in
    if ODP_DEPRECATED_API cfg
    then (set_bit cipher_bit_aes128_gcm ciphers,
          set_bit auth_bit_aes128_gcm auths)
    else (ciphers, auths)
  else fields.

(** One round of the loop of [capability_process]. *)
Definition capability_process_cap
    (fields : odp_crypto_cipher_algos_t * odp_crypto_auth_algos_t)
    (cap : rte_cryptodev_capabilities)
    : odp_crypto_cipher_algos_t * odp_crypto_auth_algos_t :=
  match cap with
  | cap_cipher algo _ _ => (capability_process_cipher algo fields.1, fields.2)
  | cap_auth algo _ _ _ => (fields.1, capability_process_auth algo fields.2)
  | cap_aead algo _ _ _ _ => capability_process_aead algo fields
  | cap_other => fields
  end.

Definition capability_process (dev_info : rte_cryptodev_info)
    (ciphers : odp_crypto_cipher_algos_t) (auths : odp_crypto_auth_algos_t)
    : odp_crypto_cipher_algos_t * odp_crypto_auth_algos_t :=
  fold_left capability_process_cap (capabilities dev_info)
    (set_bit cipher_bit_null ciphers, set_bit auth_bit_null auths).

(** One round of the device loop of [odp_crypto_capability]. *)
Definition capability_device (drv : rte_cryptodev_driver)
    (capability : odp_crypto_capability_t) (cdev_id : Z)
    : odp_crypto_capability_t :=
  let dev_info := rte_cryptodev_info_get drv cdev_id in
  let fields :=
    capability_process dev_info (ciphers capability) (auths capability) in
  let capability :=
    {| max_sessions := max_sessions capability;
       sync_mode := sync_mode capability;
       async_mode := async_mode capability;
       ciphers := fields.1;
       hw_ciphers :=
         if hw_accelerated dev_info then fields.1
         else hw_ciphers capability;
       auths := fields.2;
       hw_auths :=
         if hw_accelerated dev_info then fields.2
         else hw_auths capability |} in
  let capability :=
    if max_nb_sessions dev_info <? max_sessions capability
    then set_max_sessions (max_nb_sessions dev_info) capability
    else capability in
  if max_sessions capability =? 0
  then set_max_sessions (max_nb_sessions dev_info) capability
  else capability.

(** The structure after the [memset] and the two stores that follow. *)
Definition initial_capability : odp_crypto_capability_t :=
  {| max_sessions := 0;
     sync_mode := ODP_SUPPORT_YES;
     async_mode := ODP_SUPPORT_PREFERRED;
     ciphers := no_bits; hw_ciphers := no_bits;
     auths := no_bits; hw_auths := no_bits |}.

(** [odp_crypto_capability] on a pointer that is not [NULL]: the return
    value and the structure it leaves.  The device count is read into a
    [uint8_t]. *)
Definition odp_crypto_capability (drv : rte_cryptodev_driver)
    : Z * odp_crypto_capability_t :=
  let cdev_count := rte_cryptodev_count drv mod 256 in
  if cdev_count =? 0 then (-1, initial_capability)
  else
    let capability :=
      fold_left (capability_device drv) (seqZ 0 cdev_count)
        initial_capability in
    (0,
     if Z.of_nat MAX_SESSIONS <? max_sessions capability
     then set_max_sessions (Z.of_nat MAX_SESSIONS) capability
     else capability).

(** The bit that stands for an algorithm, for the algorithms the file
    names. *)
Definition cipher_alg_bit (cipher_alg : odp_cipher_alg_t)
    : option cipher_algo_bit :=
  match cipher_alg with
  | ODP_CIPHER_ALG_NULL => Some cipher_bit_null
  | ODP_CIPHER_ALG_DES => Some cipher_bit_des
  | ODP_CIPHER_ALG_3DES_CBC => Some cipher_bit_trides_cbc
  | ODP_CIPHER_ALG_AES_CBC => Some cipher_bit_aes_cbc
  | ODP_CIPHER_ALG_AES_CTR => Some cipher_bit_aes_ctr
  | ODP_CIPHER_ALG_AES_GCM => Some cipher_bit_aes_gcm
  | ODP_CIPHER_ALG_AES_CCM => Some cipher_bit_aes_ccm
  | ODP_CIPHER_ALG_KASUMI_F8 => Some cipher_bit_kasumi_f8
  | ODP_CIPHER_ALG_SNOW3G_UEA2 => Some cipher_bit_snow3g_uea2
  | ODP_CIPHER_ALG_ZUC_EEA3 => Some cipher_bit_zuc_eea3
  | ODP_CIPHER_ALG_AES128_CBC => Some cipher_bit_aes128_cbc
  | ODP_CIPHER_ALG_AES128_GCM => Some cipher_bit_aes128_gcm
  | ODP_CIPHER_ALG_OTHER _ => None
  end.

Definition auth_alg_bit (auth_alg : odp_auth_alg_t) : option auth_algo_bit :=
  match auth_alg with
  | ODP_AUTH_ALG_NULL => Some auth_bit_null
  | ODP_AUTH_ALG_MD5_HMAC => Some auth_bit_md5_hmac
  | ODP_AUTH_ALG_SHA1_HMAC => Some auth_bit_sha1_hmac
  | ODP_AUTH_ALG_SHA256_HMAC => Some auth_bit_sha256_hmac
  | ODP_AUTH_ALG_SHA512_HMAC => Some auth_bit_sha512_hmac
  | ODP_AUTH_ALG_AES_GCM => Some auth_bit_aes_gcm
  | ODP_AUTH_ALG_AES_GMAC => Some auth_bit_aes_gmac
  | ODP_AUTH_ALG_AES_CCM => Some auth_bit_aes_ccm
  | ODP_AUTH_ALG_AES_CMAC => Some auth_bit_aes_cmac
  | ODP_AUTH_ALG_KASUMI_F9 => Some auth_bit_kasumi_f9
  | ODP_AUTH_ALG_SNOW3G_UIA2 => Some auth_bit_snow3g_uia2
  | ODP_AUTH_ALG_ZUC_EIA3 => Some auth_bit_zuc_eia3
  | ODP_AUTH_ALG_MD5_96 => Some auth_bit_md5_96
  | ODP_AUTH_ALG_SHA256_128 => Some auth_bit_sha256_128
  | ODP_AUTH_ALG_AES128_GCM => Some auth_bit_aes128_gcm
  | ODP_AUTH_ALG_SHA384_HMAC | ODP_AUTH_ALG_OTHER _ => None
  end.

(** A device advertises an ODP cipher algorithm when its capability
    array has an entry for the DPDK algorithm that the mappers of session
    creation give for it. *)
Definition advertises_cipher (caps : list rte_cryptodev_capabilities)
    (cipher_alg : odp_cipher_alg_t) : Prop :=
  (exists a k iv,
     cipher_alg_odp_to_rte cfg cipher_alg = Some a /\
     cap_cipher a k iv ∈ caps) \/
  (exists a k d aad iv,
     cipher_aead_alg_odp_to_rte cfg cipher_alg = Some a /\
     cap_aead a k d aad iv ∈ caps).

Definition advertises_auth (caps : list rte_cryptodev_capabilities)
    (auth_alg : odp_auth_alg_t) : Prop :=
  (exists a k d iv,
     auth_alg_odp_to_rte cfg auth_alg = Some a /\
     cap_auth a k d iv ∈ caps) \/
  (exists a k d aad iv,
     auth_aead_alg_odp_to_rte auth_alg = Some a /\
     cap_aead a k d aad iv ∈ caps).

End Capability.

(** ** Capability sizing for ciphers *)

(** The largest [int]; an [int] counter that would go beyond it is
    undefined in C, and the functions below do not return a value
    there. *)
Definition INT_MAX : Z := 2147483647.

(** [odp_crypto_cipher_capability_t]. *)
Record odp_crypto_cipher_capability_t := {
  key_len : Z;
  iv_len : Z;
  bit_mode : bool
}.

(** The entry [memset (..., 0, ...)] leaves. *)
Definition zero_cipher_capability : odp_crypto_cipher_capability_t :=
  {| key_len := 0; iv_len := 0; bit_mode := false |}.

Definition cipher_is_bit_mode (cipher_alg : odp_cipher_alg_t) : bool :=
  match cipher_alg with
  | ODP_CIPHER_ALG_KASUMI_F8
  | ODP_CIPHER_ALG_SNOW3G_UEA2
  | ODP_CIPHER_ALG_ZUC_EEA3 => true
  | _ => false
  end.

(** The loop
    [for (x = first; x <= max; x += inc) { body; if (inc == 0) break; }]
    over a counter of [modulus] values, from counter value [x].  One
    unit of [fuel] pays for one test of the loop condition; [None] is a
    loop that has not left when the fuel is spent, or a body that does
    not return. *)
Fixpoint range_loop {St : Type} (modulus : Z) (fuel : nat) (x max inc : Z)
    (body : Z -> St -> option St) (s : St) : option St :=
  match fuel with
  | O => None
  | S fuel' =>
      if x <=? max then
        s' ← body x s;
        if inc =? 0 then Some s'
        else range_loop modulus fuel' ((x + inc) mod modulus) max inc body s'
      else Some s
  end.

(** A loop over a range of 16-bit bounds with a counter that cannot
    wrap tests its condition at most 65537 times. *)
Definition RANGE_FUEL : nat := S UINT16_STATES.

(** The innermost block of [cipher_gen_capability]: the store into
    [src[idx]] and [idx++].  The caller passes [src + src_at]; the array
    is kept whole and [src_at] is added to the index. *)
Definition cipher_gen_store (bit_mode : bool) (src_at num_copy : Z)
    (key_len iv_size : Z)
    (st : Z * list odp_crypto_cipher_capability_t)
    : option (Z * list odp_crypto_cipher_capability_t) :=
  let idx := st.1 in
  let src :=
    if idx <? num_copy
    then <[Z.to_nat (src_at + idx) :=
             {| key_len := key_len; iv_len := iv_size;
                bit_mode := bit_mode |}]> (st.2)
    else st.2 in
  if idx =? INT_MAX then None else Some (idx + 1, src).

(** [cipher_gen_capability]: the return value and the array.  The loop
    counters are [uint32_t]. *)
Definition cipher_gen_capability (key_size iv_size : rte_crypto_param_range)
    (bit_mode : bool) (src : list odp_crypto_cipher_capability_t)
    (src_at num_copy : Z)
    : option (Z * list odp_crypto_cipher_capability_t) :=
  range_loop (2 ^ 32) RANGE_FUEL
    (min key_size) (max key_size) (increment key_size)
    (fun key_len =>
       range_loop (2 ^ 32) RANGE_FUEL
         (min iv_size) (max iv_size) (increment iv_size)
         (cipher_gen_store bit_mode src_at num_copy key_len))
    (0, src).

(** The device loop that [cipher_aead_capability] and
    [cipher_capability] share, but for the capability entry they look
    for: [find] is the scan for that entry and gives its key and IV
    ranges.  [idx += ...] is an [int] addition. *)
Fixpoint cipher_capability_loop
    (find : list rte_cryptodev_capabilities
            -> option (rte_crypto_param_range * rte_crypto_param_range))
    (bit_mode : bool) (drv : rte_cryptodev_driver) (num_copy : Z)
    (ids : list Z) (idx : Z) (src : list odp_crypto_cipher_capability_t)
    : option (Z * list odp_crypto_cipher_capability_t) :=
  match ids with
  | [] => Some (idx, src)
  | cdev_id :: ids' =>
      match find (capabilities (rte_cryptodev_info_get drv cdev_id)) with
      | None =>
          cipher_capability_loop find bit_mode drv num_copy ids' idx src
      | Some (key_size, iv_size) =>
          r ← cipher_gen_capability key_size iv_size bit_mode src idx
                (num_copy - idx);
          if INT_MAX <? idx + r.1 then None
          else cipher_capability_loop find bit_mode drv num_copy ids'
                 (idx + r.1) (r.2)
      end
  end.

(** The end of both functions: the copy into [dst] and the return
    value. *)
Definition cipher_capability_finish
    (dst src : list odp_crypto_cipher_capability_t) (idx num_copy : Z)
    : Z * list odp_crypto_cipher_capability_t :=
  let num_copy := if idx <? num_copy then idx else num_copy in
  (idx, take (Z.to_nat num_copy) src ++ drop (Z.to_nat num_copy) dst).

Section CipherCapability.

Context (cfg : build_config).

(** [cipher_aead_capability] and [cipher_capability]: the return value
    and the array [dst].  [src] is the local array of [num_copy]
    entries as the call finds it. *)
Definition cipher_aead_capability (drv : rte_cryptodev_driver)
    (cipher : odp_cipher_alg_t)
    (src dst : list odp_crypto_cipher_capability_t) (num_copy : Z)
    : option (Z * list odp_crypto_cipher_capability_t) :=
  match cipher_aead_alg_odp_to_rte cfg cipher with
  | None => Some (-1, dst)
  | Some algo =>
      let cdev_count := rte_cryptodev_count drv mod 256 in
      if cdev_count =? 0 then Some (-1, dst)
      else
        r ← cipher_capability_loop
              (fun caps =>
                 (fun sizes => (sizes.1.1, sizes.2))
                 <$> find_aead_cap caps algo)
              (cipher_is_bit_mode cipher) drv num_copy
              (seqZ 0 cdev_count) 0 src;
        Some (cipher_capability_finish dst (r.2) (r.1) num_copy)
  end.

Definition cipher_capability (drv : rte_cryptodev_driver)
    (cipher : odp_cipher_alg_t)
    (src dst : list odp_crypto_cipher_capability_t) (num_copy : Z)
    : option (Z * list odp_crypto_cipher_capability_t) :=
  match cipher_alg_odp_to_rte cfg cipher with
  | None => Some (-1, dst)
  | Some algo =>
      let cdev_count := rte_cryptodev_count drv mod 256 in
      if cdev_count =? 0 then Some (-1, dst)
      else
        r ← cipher_capability_loop
              (fun caps => find_cipher_cap caps algo)
              (cipher_is_bit_mode cipher) drv num_copy
              (seqZ 0 cdev_count) 0 src;
        Some (cipher_capability_finish dst (r.2) (r.1) num_copy)
  end.

(** [odp_crypto_cipher_capability]. *)
Definition odp_crypto_cipher_capability (drv : rte_cryptodev_driver)
    (cipher : odp_cipher_alg_t)
    (src dst : list odp_crypto_cipher_capability_t) (num_copy : Z)
    : option (Z * list odp_crypto_cipher_capability_t) :=
  if decide (cipher = ODP_CIPHER_ALG_NULL) then
    let dst :=
      if 1 <=? num_copy then <[0%nat := zero_cipher_capability]> dst
      else dst in
    let dst :=
      if 2 <=? num_copy
      then <[1%nat := {| key_len := 0; iv_len := 0; bit_mode := true |}]> dst
      else dst in
    Some (2, dst)
  else if cipher_is_aead cfg cipher
  then cipher_aead_capability drv cipher src dst num_copy
  else cipher_capability drv cipher src dst num_copy.

(** The key and IV ranges of the entry a device advertises for an ODP
    cipher algorithm: the first entry of its array for the DPDK
    algorithm, AEAD or not as the algorithm is. *)
Definition device_cipher_ranges (caps : list rte_cryptodev_capabilities)
    (cipher : odp_cipher_alg_t)
    : option (rte_crypto_param_range * rte_crypto_param_range) :=
  if cipher_is_aead cfg cipher then
    algo ← cipher_aead_alg_odp_to_rte cfg cipher;
    (fun sizes => (sizes.1.1, sizes.2)) <$> find_aead_cap caps algo
  else
    algo ← cipher_alg_odp_to_rte cfg cipher;
    find_cipher_cap caps algo.

End CipherCapability.

(** The sizes a range stands for: [min], [min + increment], ... up to
    [max]; [min] alone when the increment is 0. *)
Definition range_count (range : rte_crypto_param_range) : Z :=
  if max range <? min range then 0
  else if increment range =? 0 then 1
  else (max range - min range) / increment range + 1.

Definition range_sizes (range : rte_crypto_param_range) : list Z :=
  map (fun i => min range + Z.of_nat i * increment range)
    (seq 0 (Z.to_nat (range_count range))).

(** The combinations of a key range and an IV range, keys outermost. *)
Definition cipher_combinations (bit_mode : bool)
    (key_size iv_size : rte_crypto_param_range)
    : list odp_crypto_cipher_capability_t :=
  flat_map
    (fun k =>
       map (fun iv => {| key_len := k; iv_len := iv; bit_mode := bit_mode |})
         (range_sizes iv_size))
    (range_sizes key_size).

(** A body run once for each value of a list, in order. *)
Fixpoint run_body {St : Type} (body : Z -> St -> option St) (xs : list Z)
    (s : St) : option St :=
  match xs with
  | [] => Some s
  | x :: xs' => s' ← body x s; run_body body xs' s'
  end.

(** What all devices together advertise for an ODP cipher algorithm:
    the combinations of each device that has an entry for it, in the
    order of the device ids. *)
Definition all_cipher_combinations (cfg : build_config)
    (drv : rte_cryptodev_driver) (cipher : odp_cipher_alg_t)
    : list odp_crypto_cipher_capability_t :=
  flat_map
    (fun cdev_id =>
       match device_cipher_ranges cfg
               (capabilities (rte_cryptodev_info_get drv cdev_id)) cipher with
       | Some (key_size, iv_size) =>
           cipher_combinations (cipher_is_bit_mode cipher) key_size iv_size
       | None => []
       end)
    (seqZ 0 (rte_cryptodev_count drv mod 256)).

(** ** Capability sizing for auth algorithms *)

(** [odp_crypto_auth_capability_t]; the fields carry a prefix, their
    plain names being taken by other records. *)
Record odp_crypto_auth_capability_t := {
  acap_key_len : Z;
  acap_digest_len : Z;
  acap_iv_len : Z;
  acap_aad_len_min : Z;
  acap_aad_len_max : Z;
  acap_aad_len_inc : Z;
  acap_bit_mode : bool
}.

Definition auth_is_bit_mode (auth_alg : odp_auth_alg_t) : bool :=
  match auth_alg with
  | ODP_AUTH_ALG_KASUMI_F9
  | ODP_AUTH_ALG_SNOW3G_UIA2
  | ODP_AUTH_ALG_ZUC_EIA3 => true
  | _ => false
  end.

(** The entry [auth_gen_capability] stores for a combination. *)
Definition auth_gen_entry (aad_size : rte_crypto_param_range)
    (bit_mode : bool) (digest_len key_len iv_size : Z)
    : odp_crypto_auth_capability_t :=
  {| acap_key_len := key_len;
     acap_digest_len := digest_len;
     acap_iv_len := iv_size;
     acap_aad_len_min := min aad_size;
     acap_aad_len_max := max aad_size;
     acap_aad_len_inc := increment aad_size;
     acap_bit_mode := bit_mode |}.

(** The innermost block of [auth_gen_capability]. *)
Definition auth_gen_store (aad_size : rte_crypto_param_range)
    (bit_mode : bool) (src_at num_copy : Z)
    (digest_len key_len iv_size : Z)
    (st : Z * list odp_crypto_auth_capability_t)
    : option (Z * list odp_crypto_auth_capability_t) :=
  let idx := st.1 in
  let src :=
    if idx <? num_copy
    then <[Z.to_nat (src_at + idx) :=
             auth_gen_entry aad_size bit_mode digest_len key_len iv_size]>
           (st.2)
    else st.2 in
  if idx =? INT_MAX then None else Some (idx + 1, src).

(** [auth_gen_capability]: the return value and the array.  The loop
    counters are [uint16_t], digests outermost. *)
Definition auth_gen_capability
    (key_size iv_size digest_size aad_size : rte_crypto_param_range)
    (bit_mode : bool) (src : list odp_crypto_auth_capability_t)
    (src_at num_copy : Z)
    : option (Z * list odp_crypto_auth_capability_t) :=
  range_loop (2 ^ 16) RANGE_FUEL
    (min digest_size) (max digest_size) (increment digest_size)
    (fun digest_len =>
       range_loop (2 ^ 16) RANGE_FUEL
         (min key_size) (max key_size) (increment key_size)
         (fun key_len =>
            range_loop (2 ^ 16) RANGE_FUEL
              (min iv_size) (max iv_size) (increment iv_size)
              (auth_gen_store aad_size bit_mode src_at num_copy
                 digest_len key_len)))
    (0, src).

(** The combinations of a digest, a key and an IV range, digests
    outermost. *)
Definition auth_combinations (aad_size : rte_crypto_param_range)
    (bit_mode : bool) (key_size iv_size digest_size : rte_crypto_param_range)
    : list odp_crypto_auth_capability_t :=
  flat_map
    (fun d =>
       flat_map
         (fun k =>
            map (auth_gen_entry aad_size bit_mode d k) (range_sizes iv_size))
         (range_sizes key_size))
    (range_sizes digest_size).

(** A piece of a generation loop stores the entries [new]: started
    with the array holding as many of the entries generated before as
    fit into its [NC] places, it adds the number of [new] to the count
    and leaves the array holding as many of all entries as fit, provided
    the count stays within [int]. *)
Definition stores_entries {E : Type} (NC src_at : Z)
    (piece : Z * list E -> option (Z * list E)) (new : list E) : Prop :=
  forall idx src done,
    0 <= idx ->
    idx + Z.of_nat (length new) <= INT_MAX ->
    length src = Z.to_nat NC ->
    src_at + idx = Z.of_nat (length done) ->
    take (Z.to_nat (Z.min (src_at + idx) NC)) src
    = take (Z.to_nat NC) done ->
    exists src',
      piece (idx, src) = Some (idx + Z.of_nat (length new), src') /\
      length src' = Z.to_nat NC /\
      take (Z.to_nat (Z.min (src_at + idx + Z.of_nat (length new)) NC)) src'
      = take (Z.to_nat NC) (done ++ new).

(** ** Further sample data *)

(** A create of [aes_cbc_param] on the fresh sample pool, and what it
    returns. *)
Definition sample_create : session_create_result * crypto_global_t :=
  default ({| create_rc := -1; session_out := None;
              status := ODP_CRYPTO_SES_CREATE_ERR_ENOMEM |},
           zero_global sample_config)
    (odp_crypto_session_create sample_config one_device create_ok
       aes_cbc_param (pool_global (sample_pool one_device))).

(** The same request with a session IV. *)
Definition aes_cbc_iv_param : odp_crypto_session_param_t := {|
  op := ODP_CRYPTO_OP_ENCODE;
  auth_cipher_text := false;
  op_mode := ODP_CRYPTO_SYNC;
  cipher_alg := ODP_CIPHER_ALG_AES_CBC;
  cipher_key := {| key_data := repeat 1 16; key_length := 16 |};
  cipher_iv := {| iv_data := Some (repeat 3 16); iv_length := 16 |};
  auth_alg := ODP_AUTH_ALG_NULL;
  auth_key := zero_key;
  auth_iv := {| iv_data := Some []; iv_length := 0 |};
  auth_digest_len := 0;
  auth_aad_len := 0;
  compl_queue := None;
  output_pool := None
|}.

Definition sample_create_iv : session_create_result * crypto_global_t :=
  default ({| create_rc := -1; session_out := None;
              status := ODP_CRYPTO_SES_CREATE_ERR_ENOMEM |},
           zero_global sample_config)
    (odp_crypto_session_create sample_config one_device create_ok
       aes_cbc_iv_param (pool_global (sample_pool one_device))).

(** The state after the session of [one_session_global] is destroyed,
    and a create that follows. *)
Definition destroyed_global : crypto_global_t :=
  (odp_crypto_session_destroy destroy_ok 2047 one_session_global).2.

Definition sample_recreate : session_create_result * crypto_global_t :=
  default ({| create_rc := -1; session_out := None;
              status := ODP_CRYPTO_SES_CREATE_ERR_ENOMEM |},
           zero_global sample_config)
    (odp_crypto_session_create sample_config one_device create_ok
       aes_cbc_param destroyed_global).

(** The accelerator takes the descriptor and never hands it back. *)
Definition op_never_completes : crypto_op_env := {|
  odp_packet_alloc := Some 2;
  odp_packet_copy_from_pkt := 0;
  rte_crypto_op_alloc := true;
  odp_cpu_id := 5;
  rte_cryptodev_enqueue_burst := fun _ _ => 1;
  rte_cryptodev_dequeue_burst := fun _ _ _ => 0;
  fresh_status := RTE_CRYPTO_OP_STATUS_NOT_PROCESSED;
  dequeued_status := RTE_CRYPTO_OP_STATUS_SUCCESS
|}.

(** As many creates as the pool has records, and the state they
    leave. *)
Definition full_pool_calls : list pool_call :=
  repeat (call_create create_ok aes_cbc_param) MAX_SESSIONS.

Definition full_pool : pool_state :=
  default (sample_pool one_device)
    (pool_exec sample_config one_device full_pool_calls
       (sample_pool one_device)).

(** A hardware device that offers SHA256-HMAC and sets a session
    limit of 1024, and a system of the software sample device (id 0)
    and this one (id 1). *)
Definition hw_info : rte_cryptodev_info := {|
  capabilities := [sha256_hmac_cap];
  max_nb_queue_pairs := 4;
  hw_accelerated := true;
  max_nb_sessions := 1024
|}.

Definition mixed_devices : rte_cryptodev_driver := {|
  rte_cryptodev_count := 2;
  rte_cryptodev_info_get :=
    fun cdev_id => if cdev_id =? 0 then sample_info else hw_info;
  rte_cryptodev_socket_id := fun _ => 0;
  rte_mempool_create := fun _ => true;
  rte_cryptodev_configure := fun _ _ => 0;
  rte_cryptodev_queue_pair_setup := fun _ _ => 0;
  rte_cryptodev_start := fun _ => 0;
  rte_crypto_op_pool_create := true
|}.

(** A batch of two packets on session 2047: the first brings its IV,
    the second does not. *)
Definition batch_pkt_in : list Z := [1; 2].
Definition batch_pkt_out : list (option Z) := [Some 1; Some 2].
Definition batch_param : list odp_crypto_packet_op_param_t :=
  [iv_op; no_iv_op].

(** A second create, on the pool that holds one session. *)
Definition sample_create_second : session_create_result * crypto_global_t :=
  default ({| create_rc := -1; session_out := None;
              status := ODP_CRYPTO_SES_CREATE_ERR_ENOMEM |},
           zero_global sample_config)
    (odp_crypto_session_create sample_config one_device create_ok
       aes_cbc_param one_session_global).

(** Ranges for the generation of auth capabilities: SHA256-HMAC with
    its 32-byte key, two digest sizes, no IV and no AAD. *)
Definition hmac_key_range : rte_crypto_param_range :=
  {| min := 32; max := 32; increment := 0 |}.
Definition hmac_digest_range : rte_crypto_param_range :=
  {| min := 16; max := 32; increment := 16 |}.
Definition zero_range : rte_crypto_param_range :=
  {| min := 0; max := 0; increment := 0 |}.
Definition aes_cbc_key_range : rte_crypto_param_range :=
  {| min := 16; max := 32; increment := 8 |}.

(** The pool after a create and a destroy that the accelerator made
    fail. *)
Definition one_session_pool_failed : pool_state :=
  default (sample_pool one_device)
    (pool_exec sample_config one_device create_then_failed_destroy
       (sample_pool one_device)).
(* ================================================================== *)
(** * Theorems *)
(* ================================================================== *)

(** ** The size check *)

Lemma uint16_range z : is_uint16 (uint16 z).
Proof. unfold is_uint16, uint16. apply Z.mod_pos_bound. lia. Qed.

Lemma uint16_small z : is_uint16 z -> uint16 z = z.
Proof. unfold is_uint16, uint16. intros H. apply Z.mod_small. lia. Qed.

Lemma counter_at_0 s inc : is_uint16 s -> counter_at s inc 0 = s.
Proof.
  intros H. unfold counter_at. rewrite Z.add_0_r by lia.
  replace (s + 0 * inc) with s by lia. now apply uint16_small.
Qed.

Lemma counter_at_S s inc k :
  counter_at (uint16 (s + inc)) inc k = counter_at s inc (S k).
Proof.
  unfold counter_at, uint16.
  rewrite Zplus_mod_idemp_l. f_equal. lia.
Qed.

Lemma counter_at_period s inc k :
  counter_at s inc (k + UINT16_STATES) = counter_at s inc k.
Proof.
  unfold counter_at, uint16, UINT16_STATES.
  rewrite Nat2Z.inj_add, Z2Nat.id by lia.
  replace (s + (Z.of_nat k + 65536) * inc)
    with (s + Z.of_nat k * inc + inc * 65536) by lia.
  apply Z_mod_plus_full.
Qed.

Lemma counter_at_mod s inc k :
  counter_at s inc k = counter_at s inc (k mod UINT16_STATES).
Proof.
  assert (HU : UINT16_STATES <> 0%nat) by (unfold UINT16_STATES; lia).
  rewrite (Nat.div_mod_eq k UINT16_STATES) at 1.
  generalize (k mod UINT16_STATES)%nat as r.
  generalize (k / UINT16_STATES)%nat as q.
  induction q as [|q IH]; intros r.
  - f_equal; lia.
  - replace (UINT16_STATES * S q + r)%nat
      with ((UINT16_STATES * q + r) + UINT16_STATES)%nat by lia.
    rewrite counter_at_period. apply IH.
Qed.

(** The loop runs out of fuel exactly when the first [fuel] counter
    values all pass the loop condition and all miss [length]. *)
Lemma is_valid_size_loop_None fuel length s range :
  is_uint16 s ->
  is_valid_size_loop fuel length s range = None <->
  (forall k, (k < fuel)%nat ->
     counter_at s (increment range) k <= max range /\
     counter_at s (increment range) k <> length).
Proof.
  revert s. induction fuel as [|fuel IH]; intros s Hs; simpl.
  - split; [intros _ k Hk; lia | reflexivity].
  - destruct (Z.leb_spec s (max range)) as [Hle|Hgt].
    + destruct (Z.eqb_spec length s) as [Heq|Hne].
      * split; [discriminate|]. intros H.
        destruct (H 0%nat) as [_ Hc]; [lia|].
        rewrite counter_at_0 in Hc by assumption. congruence.
      * rewrite IH by apply uint16_range. split; intros H k Hk.
        -- destruct k as [|k].
           ++ rewrite counter_at_0 by assumption. split; congruence.
           ++ rewrite <- counter_at_S. apply H. lia.
        -- rewrite counter_at_S. apply H. lia.
    + split; [discriminate|]. intros H.
      destruct (H 0%nat) as [Hc _]; [lia|].
      rewrite counter_at_0 in Hc by assumption. lia.
Qed.

Lemma is_valid_size_loop_S fuel length s range :
  is_valid_size_loop (S fuel) length s range =
    if s <=? max range then
      if length =? s then Some 0
      else is_valid_size_loop fuel length (uint16 (s + increment range)) range
    else Some (-1).
Proof. reflexivity. Qed.

(** Fuel only matters until the loop leaves. *)
Lemma is_valid_size_loop_mono fuel fuel' length s range v :
  (fuel <= fuel')%nat ->
  is_valid_size_loop fuel length s range = Some v ->
  is_valid_size_loop fuel' length s range = Some v.
Proof.
  revert fuel' s. induction fuel as [|fuel IH]; intros fuel' s Hle; simpl.
  - discriminate.
  - destruct fuel' as [|fuel']; [lia|]. simpl.
    destruct (s <=? max range); [|auto].
    destruct (length =? s); [auto|]. apply IH. lia.
Qed.

(** A loop that has not left after 65536 tests never leaves. *)
Lemma is_valid_size_loop_hangs length s range :
  is_uint16 s ->
  is_valid_size_loop UINT16_STATES length s range = None ->
  forall fuel, is_valid_size_loop fuel length s range = None.
Proof.
  intros Hs H fuel.
  rewrite is_valid_size_loop_None in H |- * by assumption.
  intros k _. rewrite counter_at_mod. apply H.
  apply Nat.mod_upper_bound. unfold UINT16_STATES. lia.
Qed.

(** [None] from [is_valid_size] is a call that never returns, whatever
    bound is put on the iterations. *)
Lemma is_valid_size_None_hangs length range :
  is_uint16 (min range) ->
  is_valid_size length range = None ->
  forall fuel, is_valid_size_fuel fuel length range = None.
Proof.
  unfold is_valid_size, is_valid_size_fuel. intros Hm H fuel.
  destruct (length <? min range); [discriminate|].
  destruct (negb (min range =? length) && (increment range =? 0));
    [discriminate|].
  now apply is_valid_size_loop_hangs.
Qed.

(** A value from [is_valid_size] is the value of the C call: every
    bound of at least 65536 iterations gives it. *)
Lemma is_valid_size_Some_returns length range v :
  is_valid_size length range = Some v ->
  forall fuel, (UINT16_STATES <= fuel)%nat ->
    is_valid_size_fuel fuel length range = Some v.
Proof.
  unfold is_valid_size, is_valid_size_fuel. intros H fuel Hf.
  destruct (length <? min range); [assumption|].
  destruct (negb (min range =? length) && (increment range =? 0));
    [assumption|].
  eapply is_valid_size_loop_mono; eassumption.
Qed.

(** On a range whose counter cannot wrap, the loop started at [s]
    decides membership of [length] in [s, s + inc, s + 2 inc, ...]
    up to [max]. *)
Lemma is_valid_size_loop_no_wrap fuel length s range :
  0 < increment range ->
  range_no_wrap range ->
  0 <= s ->
  (Z.to_nat (max range - s + 1) < fuel)%nat ->
  is_valid_size_loop fuel length s range =
    Some (if (s <=? length) && (length <=? max range)
             && ((length - s) mod increment range =? 0)
          then 0 else -1).
Proof.
  unfold range_no_wrap. intros Hinc Hnw. revert s.
  induction fuel as [|fuel IH]; intros s Hs Hfuel; [lia|]. simpl.
  destruct (Z.leb_spec s (max range)) as [Hle|Hgt].
  - destruct (Z.eqb_spec length s) as [->|Hne].
    + rewrite Z.leb_refl, Z.sub_diag, Zmod_0_l.
      destruct (Z.leb_spec s (max range)); [reflexivity|lia].
    + rewrite uint16_small by (unfold is_uint16; lia).
      rewrite IH by lia. f_equal.
      replace (length - (s + increment range))
        with (length - s + (-1) * increment range) by lia.
      rewrite Z_mod_plus_full.
      destruct (Z.eqb_spec ((length - s) mod increment range) 0) as [Hm|Hm];
        [|now rewrite !andb_false_r].
      rewrite !andb_true_r.
      destruct (Z.leb_spec length (max range));
        [rewrite !andb_true_r|now rewrite !andb_false_r].
      assert (Hd : length - s =
                   increment range * ((length - s) / increment range))
        by (pose proof (Z_div_mod_eq_full (length - s) (increment range)); lia).
      set (q := (length - s) / increment range) in Hd.
      destruct (Z.leb_spec s length), (Z.leb_spec (s + increment range) length);
        try reflexivity; exfalso;
        destruct (Z_le_gt_dec q 0); nia.
  - destruct (Z.leb_spec s length), (Z.leb_spec length (max range));
      try reflexivity; lia.
Qed.

(** Where the counter cannot wrap, [is_valid_size] returns, and it
    returns 0 exactly on the supported sizes. *)
Lemma is_valid_size_no_wrap length range :
  range_wf range ->
  range_no_wrap range ->
  is_valid_size length range =
    Some (if size_supported length range then 0 else -1).
Proof.
  intros (Hmin & Hmax & Hinc) Hnw.
  unfold is_uint16, range_no_wrap in *.
  unfold is_valid_size, is_valid_size_fuel, size_supported.
  rewrite (Z.eqb_sym (min range) length).
  destruct (Z.ltb_spec length (min range)) as [Hlt|Hge].
  - destruct (Z.leb_spec (min range) length); [lia|reflexivity].
  - destruct (Z.leb_spec (min range) length) as [_|]; [|lia].
    destruct (Z.eqb_spec (increment range) 0) as [H0|Hn0].
    + rewrite H0, Z.ltb_irrefl, andb_false_l, orb_false_r.
      destruct (Z.eqb_spec length (min range)) as [->|Hne];
        [|reflexivity].
      rewrite andb_false_l, andb_true_l.
      assert (HU : UINT16_STATES = S (Z.to_nat 65535))
        by (unfold UINT16_STATES; lia).
      rewrite HU, is_valid_size_loop_S, Z.eqb_refl.
      now destruct (min range <=? max range).
    + rewrite andb_false_r.
      rewrite is_valid_size_loop_no_wrap;
        [|lia|assumption|lia|unfold UINT16_STATES; lia].
      f_equal.
      destruct (Z.leb_spec (min range) length) as [_|]; [|lia].
      destruct (Z.ltb_spec 0 (increment range)) as [_|]; [|lia].
      rewrite !andb_true_l.
      destruct (Z.eqb_spec length (min range)) as [->|Hne].
      * rewrite Z.sub_diag, Zmod_0_l, Z.eqb_refl, andb_true_r, orb_true_l.
        reflexivity.
      * rewrite orb_false_l.
        now destruct ((length - min range) mod increment range =? 0),
                     (length <=? max range).
Qed.

(** The counter of a scan from 0 in steps of 2 stays even. *)
Lemma counter_at_even k : counter_at 0 2 k <> 1.
Proof.
  unfold counter_at, uint16. intros H.
  pose proof (Z_div_mod_eq_full (0 + Z.of_nat k * 2) 65536). lia.
Qed.

(** C5 (evaluation at the failing input): on the range
    (min 0, max 65534, increment 7) the 16-bit counter takes the values
    0, 7, ..., 65534 and then wraps to 5, so [is_valid_size] returns 0 for
    the length 5, a length that the range does not support: 5 is not of
    the form 0 + 7 k. *)
Theorem is_valid_size_wrap_accepts :
  let range := {| min := 0; max := 65534; increment := 7 |} in
  is_valid_size 5 range = Some 0 /\
  size_supported 5 range = false /\
  counter_at 0 7 (Z.to_nat 9363) = 5.
Proof.
  cbv zeta. split; [|split].
  - vm_compute. reflexivity.
  - reflexivity.
  - vm_compute. reflexivity.
Qed.

(** C10 (evaluation at the failing input): on the range
    (min 0, max 65535, increment 2) and the length 1 the loop of
    [is_valid_size] never leaves: the counter is always at most 65535 and
    always even, so no bound on the iterations lets the call return. *)
Theorem is_valid_size_wrap_hangs :
  forall fuel,
    is_valid_size_fuel fuel 1 {| min := 0; max := 65535; increment := 2 |}
    = None.
Proof.
  intros fuel. unfold is_valid_size_fuel.
  change (1 <? min _) with false. cbv iota.
  change (negb (min _ =? 1) && (increment _ =? 0)) with false. cbv iota.
  apply is_valid_size_loop_None; [unfold is_uint16; simpl; lia|].
  intros k _. split.
  - pose proof (uint16_range (0 + Z.of_nat k * 2)) as Hr.
    unfold is_uint16 in Hr. unfold counter_at. simpl. lia.
  - apply counter_at_even.
Qed.

(** ** The device selector *)

Lemma rc_is_zero (b : bool) : ((if b then 0 else -1) =? 0) = b.
Proof. now destruct b. Qed.

Lemma find_cipher_cap_ok caps a k iv :
  Forall cap_ranges_ok caps ->
  find_cipher_cap caps a = Some (k, iv) -> range_ok k /\ range_ok iv.
Proof.
  induction 1 as [|c caps Hc _ IH]; simpl; [discriminate|].
  destruct c; auto. case_decide; auto.
  intros [= <- <-]. exact Hc.
Qed.

Lemma find_auth_cap_ok caps a k d iv :
  Forall cap_ranges_ok caps ->
  find_auth_cap caps a = Some (k, d, iv) ->
  range_ok k /\ range_ok d /\ range_ok iv.
Proof.
  induction 1 as [|c caps Hc _ IH]; simpl; [discriminate|].
  destruct c; auto. case_decide; auto.
  intros [= <- <- <-]. exact Hc.
Qed.

Lemma find_aead_cap_ok caps a k d iv :
  Forall cap_ranges_ok caps ->
  find_aead_cap caps a = Some (k, d, iv) ->
  range_ok k /\ range_ok d /\ range_ok iv.
Proof.
  induction 1 as [|c caps Hc _ IH]; simpl; [discriminate|].
  destruct c; auto. case_decide; auto.
  intros [= <- <- <-]. exact Hc.
Qed.

Lemma is_valid_size_ok length r :
  range_ok r ->
  is_valid_size length r = Some (if size_supported length r then 0 else -1).
Proof. intros [Hwf Hnw]. now apply is_valid_size_no_wrap. Qed.

(** Rewrites one size check of a device check into its value. *)
Ltac size_check H :=
  rewrite (is_valid_size_ok _ _ H); cbn [mbind option_bind];
  rewrite rc_is_zero.

Lemma cipher_dev_check_accepted caps x :
  Forall cap_ranges_ok caps ->
  cipher_dev_check caps x = Some (cipher_accepted caps x).
Proof.
  intros Hcaps. unfold cipher_dev_check, cipher_accepted.
  destruct (find_cipher_cap caps (cipher_algo x)) as [[k iv]|] eqn:Hf;
    [|reflexivity].
  destruct (find_cipher_cap_ok _ _ _ _ Hcaps Hf) as [Hk Hiv].
  size_check Hk.
  destruct (size_supported (cipher_key_length x) k); [|reflexivity].
  rewrite Z.ltb_antisym.
  destruct (cipher_iv_length x <=? MAX_IV_LENGTH); [|reflexivity].
  size_check Hiv. reflexivity.
Qed.

Lemma auth_dev_check_accepted caps x :
  Forall cap_ranges_ok caps ->
  auth_dev_check caps x = Some (auth_accepted caps x).
Proof.
  intros Hcaps. unfold auth_dev_check, auth_accepted.
  destruct (find_auth_cap caps (auth_algo x)) as [[[k d] iv]|] eqn:Hf;
    [|reflexivity].
  destruct (find_auth_cap_ok _ _ _ _ _ Hcaps Hf) as (Hk & Hd & Hiv).
  size_check Hk.
  destruct (size_supported (auth_key_length x) k); [|reflexivity].
  size_check Hd.
  destruct (size_supported (auth_digest_length x) d); [|reflexivity].
  rewrite Z.ltb_antisym.
  destruct (auth_iv_length x <=? MAX_IV_LENGTH); [|reflexivity].
  size_check Hiv. reflexivity.
Qed.

Lemma aead_dev_check_accepted caps x :
  Forall cap_ranges_ok caps ->
  aead_dev_check caps x = Some (aead_accepted caps x).
Proof.
  intros Hcaps. unfold aead_dev_check, aead_accepted.
  destruct (find_aead_cap caps (aead_algo x)) as [[[k d] iv]|] eqn:Hf;
    [|reflexivity].
  destruct (find_aead_cap_ok _ _ _ _ _ Hcaps Hf) as (Hk & Hd & Hiv).
  size_check Hk.
  destruct (size_supported (aead_key_length x) k); [|reflexivity].
  rewrite Z.ltb_antisym.
  destruct (aead_iv_length x <=? MAX_IV_LENGTH); [|reflexivity].
  size_check Hiv.
  destruct (size_supported (aead_iv_length x) iv); [|reflexivity].
  size_check Hd. reflexivity.
Qed.

Lemma crypto_dev_check_accepted caps cx ax :
  Forall cap_ranges_ok caps ->
  crypto_dev_check caps cx ax = Some (pair_accepted caps cx ax).
Proof.
  intros Hcaps. unfold crypto_dev_check, pair_accepted.
  rewrite auth_dev_check_accepted by assumption.
  destruct (decide (cipher_algo cx = RTE_CRYPTO_CIPHER_NULL)) as [Hc|Hc].
  - rewrite (bool_decide_eq_true_2 _ Hc). cbn.
    now rewrite andb_false_r.
  - rewrite (bool_decide_eq_false_2 _ Hc).
    rewrite cipher_dev_check_accepted by assumption. cbn.
    destruct (cipher_accepted caps cx); cbn; [|reflexivity].
    rewrite andb_true_r.
    now destruct (bool_decide (auth_algo ax = RTE_CRYPTO_AUTH_NULL)).
Qed.

(** A scan whose device check always returns selects the first device
    that passes it. *)
Lemma dev_scan_first check accepted drv ids :
  Forall (fun cdev_id =>
            let caps := capabilities (rte_cryptodev_info_get drv cdev_id) in
            check caps = Some (accepted caps))
         ids ->
  dev_scan check drv ids = Some (first_accepting accepted drv ids).
Proof.
  induction 1 as [|cdev_id ids Hd _ IH]; simpl; [reflexivity|].
  rewrite Hd. cbn.
  destruct (accepted _); [reflexivity|exact IH].
Qed.

(** What [first_accepting] returns: the device found is accepted and
    every device before it in the scan order is not; nothing is found
    only when no device is accepted. *)
Lemma first_accepting_Some accepted drv ids d :
  first_accepting accepted drv ids = Some d ->
  exists before after,
    ids = before ++ d :: after /\
    accepted (capabilities (rte_cryptodev_info_get drv d)) = true /\
    Forall (fun d' =>
              accepted (capabilities (rte_cryptodev_info_get drv d')) = false)
           before.
Proof.
  unfold first_accepting.
  induction ids as [|a ids IH]; simpl; [discriminate|].
  destruct (accepted (capabilities (rte_cryptodev_info_get drv a))) eqn:Ha.
  - intros [= <-]. exists [], ids. auto.
  - intros H. destruct (IH H) as (before & after & -> & Hd & Hb).
    exists (a :: before), after. auto.
Qed.

Lemma first_accepting_None accepted drv ids :
  first_accepting accepted drv ids = None ->
  Forall (fun d =>
            accepted (capabilities (rte_cryptodev_info_get drv d)) = false)
         ids.
Proof.
  unfold first_accepting.
  induction ids as [|a ids IH]; simpl; [constructor|].
  destruct (accepted (capabilities (rte_cryptodev_info_get drv a))) eqn:Ha;
    [discriminate|].
  intros H. constructor; auto.
Qed.

(** C2 (amended): on devices whose advertised ranges keep the counter of
    the size check from wrapping, the selectors return, and they return
    the first enabled device, in the order of the id array, that accepts
    the request, or fail when none does.  A device accepts a component
    when its first capability entry for the algorithm supports every
    requested length and the IV is at most [MAX_IV_LENGTH] bytes.  A NULL
    cipher is accepted by every device; a NULL auth is accepted by every
    device only next to a cipher that is not NULL. *)
Theorem device_selection_first_accepting drv g cx ax aead :
  devices_ranges_ok drv (enabled_ids g) ->
  get_crypto_dev drv g cx ax
    = Some (first_accepting (fun caps => pair_accepted caps cx ax)
              drv (enabled_ids g)) /\
  get_crypto_aead_dev drv g aead
    = Some (first_accepting (fun caps => aead_accepted caps aead)
              drv (enabled_ids g)).
Proof.
  unfold devices_ranges_ok, get_crypto_dev, get_crypto_aead_dev.
  intros Hok. split.
  - apply (dev_scan_first _ (fun caps => pair_accepted caps cx ax)).
    eapply Forall_impl; [exact Hok|]. intros d Hd.
    now apply crypto_dev_check_accepted.
  - apply (dev_scan_first _ (fun caps => aead_accepted caps aead)).
    eapply Forall_impl; [exact Hok|]. intros d Hd.
    now apply aead_dev_check_accepted.
Qed.

(** ** The session pool *)

Lemma store_store h e1 e2 g :
  store_session h e2 (store_session h e1 g) = store_session h e2 g.
Proof.
  unfold store_session, set_sessions; simpl.
  now rewrite list_insert_insert_eq.
Qed.

Lemma session_at_store_eq h e g :
  (h < length (sessions g))%nat -> session_at (store_session h e g) h = e.
Proof.
  intros Hh. unfold session_at, store_session; simpl.
  now rewrite list_lookup_insert_eq.
Qed.

Lemma session_at_store_ne h i e g :
  h <> i -> session_at (store_session h e g) i = session_at g i.
Proof.
  intros Hh. unfold session_at, store_session; simpl.
  now rewrite list_lookup_insert_ne.
Qed.

(** Reading a record that was just zeroed gives the zero record, also
    through a pointer past the array. *)
Lemma session_at_memset h g : session_at (memset_session h g) h = zero_session.
Proof.
  unfold session_at, memset_session, store_session; simpl.
  destruct (decide (h < length (sessions g))%nat) as [Hlt|Hge].
  - now rewrite list_lookup_insert_eq.
  - rewrite list_insert_ge by lia.
    now rewrite (lookup_ge_None_2 (sessions g) h) by lia.
Qed.

Lemma length_store h e g :
  length (sessions (store_session h e g)) = length (sessions g).
Proof. unfold store_session; simpl. apply length_insert. Qed.

(** A chain only depends on the records it visits. *)
Lemma free_chain_frame g g' l :
  length (sessions g') = length (sessions g) ->
  (forall i, i ∈ l -> session_at g' i = session_at g i) ->
  forall s, free_chain g s l -> free_chain g' s l.
Proof.
  intros Hlen. induction l as [|h l IH]; intros Hsame s; simpl; [auto|].
  intros (-> & Hh & Hl). split; [reflexivity|]. split; [lia|].
  rewrite Hsame by set_solver. apply IH; [|assumption].
  intros i Hi. apply Hsame. set_solver.
Qed.

Lemma free_chain_bounded g l :
  forall s, free_chain g s l ->
  Forall (fun h => (h < length (sessions g))%nat) l.
Proof.
  induction l as [|h l IH]; intros s; simpl; [constructor|].
  intros (_ & Hh & Hl). constructor; eauto.
Qed.

(** A chain is determined by its head. *)
Lemma free_chain_head g h l :
  free_chain g (Some h) l ->
  exists l', l = h :: l' /\ (h < length (sessions g))%nat /\
             free_chain g (next (session_at g h)) l'.
Proof.
  destruct l as [|h' l']; simpl; [discriminate|].
  intros ([= ->] & Hh & Hl). eauto.
Qed.

(** The counting loop returns the length of the chain when its fuel
    exceeds it. *)
Lemma count_free_chain g l :
  forall fuel s, free_chain g s l -> (length l < fuel)%nat ->
  count_free fuel g s = Some (length l).
Proof.
  induction l as [|h l IH]; intros fuel s; simpl.
  - intros -> Hf. destruct fuel; [lia|reflexivity].
  - intros (-> & Hh & Hl) Hf. destruct fuel as [|fuel]; [lia|]. simpl.
    rewrite (IH fuel _ Hl) by lia. reflexivity.
Qed.

Lemma NoDup_bounded_length (l : list nat) n :
  NoDup l -> Forall (fun h => (h < n)%nat) l -> (length l <= n)%nat.
Proof.
  intros Hnd Hb. rewrite <- (length_seq n 0).
  apply NoDup_incl_length; [now apply NoDup_ListNoDup|].
  intros h Hh. apply in_seq. rewrite Forall_forall in Hb.
  rewrite <- list_elem_of_In in Hh. specialize (Hb h Hh). lia.
Qed.

Lemma free_list_length_chain g l :
  free_chain g (free g) l -> NoDup l ->
  free_list_length g = Some (length l).
Proof.
  intros Hc Hnd. unfold free_list_length.
  apply count_free_chain; [assumption|].
  pose proof (NoDup_bounded_length _ _ Hnd (free_chain_bounded _ _ _ Hc)).
  lia.
Qed.

(** The record a create has taken from the free list, holding [e]. *)
Lemma released_chain g h l :
  free_chain g (free g) (h :: l) -> h ∉ l ->
  free_chain (released h g) (free (released h g)) (h :: l).
Proof.
  simpl. intros (Hf & Hh & Hl) Hnotin.
  split; [reflexivity|]. split; [now rewrite length_insert|].
  change (session_at (released h g) h)
    with (session_at (store_session h
            (set_next (next (session_at g h)) zero_session) g) h).
  rewrite session_at_store_eq by assumption. simpl.
  revert Hl. apply free_chain_frame.
  - simpl. now rewrite length_insert.
  - intros i Hi.
    change (session_at (released h g) i)
      with (session_at (store_session h
              (set_next (next (session_at g h)) zero_session) g) i).
    apply session_at_store_ne. set_solver.
Qed.

(** Zeroing and freeing a record that holds anything, after its
    successor was made the head, gives [released]. *)
Lemma free_memset_store h e g :
  free_session h
    (memset_session h
       (store_session h e (set_free (next (session_at g h)) g)))
  = released h g.
Proof.
  unfold free_session. rewrite session_at_memset.
  unfold memset_session. rewrite !store_store.
  reflexivity.
Qed.

Lemma session_create_err_store h st e g :
  session_create_err (Some h) st
    (store_session h e (set_free (next (session_at g h)) g))
  = ({| create_rc := -1; session_out := None; status := st |},
     released h g).
Proof. unfold session_create_err. now rewrite free_memset_store. Qed.

Section SessionTheorems.

Context (cfg : build_config).

(** What [session_create_finish] leaves when the record [h] was taken
    from the free list of [g]: either the record is released again, or
    the call succeeds and the record stays off the list. *)
Lemma session_create_finish_outcome env param h cx ax chain dev g e r g' :
  session_create_finish env param h cx ax chain dev
    (store_session h e (set_free (next (session_at g h)) g)) = (r, g') ->
  (create_rc r = -1 /\ session_out r = None /\ g' = released h g) \/
  (create_rc r = 0 /\ session_out r = Some h /\
   exists e', g' = store_session h e' (set_free (next (session_at g h)) g)).
Proof.
  unfold session_create_finish.
  destruct dev as [dev_id|];
    [destruct (rte_cryptodev_sym_session_create env) as [rte_sess|];
     [destruct (rte_cryptodev_sym_session_init env dev_id chain <? 0)|]|];
    try (rewrite session_create_err_store; intros [= <- <-]; left; auto).
  intros [= <- <-]. right. simpl. split; [reflexivity|].
  split; [reflexivity|]. rewrite store_store. eauto.
Qed.

(** The three ways [odp_crypto_session_create] returns. *)
Lemma session_create_outcome drv env param g r g' :
  odp_crypto_session_create cfg drv env param g = Some (r, g') ->
  (create_rc r = -1 /\ session_out r = None /\
   (rte_cryptodev_count drv = 0 \/ free g = None) /\ g' = g) \/
  (create_rc r = -1 /\ session_out r = None /\
   exists h, rte_cryptodev_count drv <> 0 /\ free g = Some h /\
             g' = released h g) \/
  (create_rc r = 0 /\
   exists h e, rte_cryptodev_count drv <> 0 /\ free g = Some h /\
               session_out r = Some h /\
               g' = store_session h e (set_free (next (session_at g h)) g)).
Proof.
  unfold odp_crypto_session_create.
  destruct (Z.eqb_spec (rte_cryptodev_count drv) 0) as [Hc|Hc].
  { intros [= <- <-]. left. auto. }
  unfold alloc_session.
  destruct (free g) as [h|] eqn:Hfree.
  2:{ intros [= <- <-]. left. auto. }
  rewrite store_store.
  set (e := set_p _ _).
  assert (Hfin : forall cx ax chain dev,
    Some (session_create_finish env param h cx ax chain dev
            (store_session h e (set_free (next (session_at g h)) g)))
    = Some (r, g') ->
    (create_rc r = -1 /\ session_out r = None /\
     (rte_cryptodev_count drv = 0 \/ Some h = None) /\ g' = g) \/
    (create_rc r = -1 /\ session_out r = None /\
     exists h0, rte_cryptodev_count drv <> 0 /\ Some h = Some h0 /\
                g' = released h0 g) \/
    (create_rc r = 0 /\
     exists h0 e0, rte_cryptodev_count drv <> 0 /\ Some h = Some h0 /\
                   session_out r = Some h0 /\
                   g' = store_session h0 e0
                          (set_free (next (session_at g h0)) g))).
  { intros cx ax chain dev [= Hf].
    destruct (session_create_finish_outcome _ _ _ _ _ _ _ _ _ _ _ Hf)
      as [(? & ? & ->)|(? & ? & e' & ->)]; right; [left|right]; eauto 10. }
  assert (Herr : forall st,
    Some (session_create_err (Some h) st
            (store_session h e (set_free (next (session_at g h)) g)))
    = Some (r, g') ->
    (create_rc r = -1 /\ session_out r = None /\
     (rte_cryptodev_count drv = 0 \/ Some h = None) /\ g' = g) \/
    (create_rc r = -1 /\ session_out r = None /\
     exists h0, rte_cryptodev_count drv <> 0 /\ Some h = Some h0 /\
                g' = released h0 g) \/
    (create_rc r = 0 /\
     exists h0 e0, rte_cryptodev_count drv <> 0 /\ Some h = Some h0 /\
                   session_out r = Some h0 /\
                   g' = store_session h0 e0
                          (set_free (next (session_at g h0)) g))).
  { intros st. rewrite session_create_err_store. intros [= <- <-].
    right; left. eauto 10. }
  destruct (cipher_is_aead cfg (cipher_alg param)).
  - destruct (crypto_fill_aead_xform cfg env _) as [aead|]; [|apply Herr].
    destruct (get_crypto_aead_dev drv _ aead) as [dev|]; [|discriminate].
    apply Hfin.
  - destruct (crypto_fill_cipher_xform cfg env _) as [cx|]; [|apply Herr].
    destruct (crypto_fill_auth_xform cfg env _) as [ax|]; [|apply Herr].
    destruct (get_crypto_dev drv _ cx ax) as [dev|]; [|discriminate].
    apply Hfin.
Qed.

Lemma free_memset h g :
  free_session h (memset_session h g)
  = set_free (Some h) (store_session h (set_next (free g) zero_session) g).
Proof.
  unfold free_session. rewrite session_at_memset.
  unfold memset_session. rewrite store_store. reflexivity.
Qed.

(** The chain that is left when its head record is taken. *)
Lemma taken_chain g h l e :
  free_chain g (free g) (h :: l) -> h ∉ l ->
  free_chain (store_session h e (set_free (next (session_at g h)) g))
    (next (session_at g h)) l.
Proof.
  simpl. intros (_ & _ & Hl) Hnotin. revert Hl.
  apply free_chain_frame.
  - simpl. now rewrite length_insert.
  - intros i Hi. rewrite session_at_store_ne by set_solver. reflexivity.
Qed.

(** The chain after a record off the list is zeroed and freed. *)
Lemma freed_chain g h l :
  free_chain g (free g) l -> h ∉ l -> (h < length (sessions g))%nat ->
  free_chain (free_session h (memset_session h g)) (Some h) (h :: l).
Proof.
  intros Hl Hnotin Hh. rewrite free_memset. simpl.
  split; [reflexivity|]. split; [now rewrite length_insert|].
  change (session_at (set_free (Some h) ?g') h) with (session_at g' h).
  rewrite session_at_store_eq by assumption. simpl.
  revert Hl. apply free_chain_frame.
  - simpl. now rewrite length_insert.
  - intros i Hi.
    change (session_at (set_free (Some h) ?g') i) with (session_at g' i).
    apply session_at_store_ne. set_solver.
Qed.

Lemma filter_other_id (u : list nat) h :
  h ∉ u -> filter (fun h' => h' <> h) u = u.
Proof.
  induction u as [|a u IH]; intros Hn; [reflexivity|].
  apply not_elem_of_cons in Hn as [Hne Hn].
  rewrite filter_cons_True by congruence. f_equal. now apply IH.
Qed.

(** Removing a handle from the sessions in use and putting it at the
    head of the free list keeps every record counted once. *)
Lemma in_use_remove (u l : list nat) h :
  NoDup (u ++ l) -> h ∈ u ->
  NoDup (filter (fun h' => h' <> h) u ++ h :: l) /\
  S (length (filter (fun h' => h' <> h) u)) = length u.
Proof.
  induction u as [|a u IH]; intros Hnd Hin;
    [now apply elem_of_nil in Hin|].
  simpl in Hnd. apply NoDup_cons in Hnd as [Ha Hnd].
  rewrite elem_of_app in Ha.
  destruct (decide (a = h)) as [->|Hne].
  - rewrite filter_cons_False by tauto.
    rewrite filter_other_id by tauto. split; [|reflexivity].
    apply NoDup_app in Hnd as (Hu & Hul & Hl).
    apply NoDup_app. split; [assumption|]. split.
    + intros x Hx [->|Hxl]%elem_of_cons; [tauto|].
      exact (Hul x Hx Hxl).
    + apply NoDup_cons. tauto.
  - rewrite filter_cons_True by assumption.
    apply elem_of_cons in Hin as [->|Hin]; [congruence|].
    destruct (IH Hnd Hin) as [IH1 IH2].
    split; [|simpl; lia].
    simpl. apply NoDup_cons. split; [|assumption].
    rewrite elem_of_app, list_elem_of_filter, elem_of_cons.
    intros [[_ H]|[H|H]]; tauto.
Qed.

(** The invariant holds right after initialisation... *)
Lemma init_free_list_chain n g :
  (n <= length (sessions g))%nat -> free g = None ->
  length (sessions (init_free_list n g)) = length (sessions g) /\
  free_chain (init_free_list n g) (free (init_free_list n g))
    (rev (seq 0 n)).
Proof.
  intros Hn Hfree. unfold init_free_list.
  induction n as [|n IH]; [simpl; auto|].
  rewrite seq_S, fold_left_app, rev_app_distr. simpl.
  destruct IH as [IHlen IHchain]; [lia|].
  set (g' := fold_left init_free_list_step (seq 0 n) g) in *.
  unfold init_free_list_step. split; [simpl; now rewrite length_insert|].
  simpl. split; [reflexivity|]. split; [rewrite length_insert; lia|].
  change (session_at (set_free (Some n) ?g'') n) with (session_at g'' n).
  rewrite session_at_store_eq by lia. simpl.
  revert IHchain. apply free_chain_frame.
  - simpl. now rewrite length_insert.
  - intros i Hi.
    change (session_at (set_free (Some n) ?g'') i) with (session_at g'' i).
    apply session_at_store_ne.
    apply list_elem_of_In, in_rev, in_seq in Hi. lia.
Qed.

Lemma init_devices_pool drv cpu_count n g log :
  sessions (init_global (init_devices drv cpu_count n g log)) = sessions g /\
  free (init_global (init_devices drv cpu_count n g log)) = free g.
Proof.
  revert g log. induction n as [|n IH]; intros g log; simpl; [auto|].
  destruct (negb (rte_mempool_create drv _)); [simpl; auto|].
  destruct (rte_cryptodev_configure drv _ _ <? 0); [simpl; auto|].
  destruct (negb (forallb _ _)); [simpl; auto|].
  destruct (rte_cryptodev_start drv _ <? 0); [simpl; auto|].
  match goal with
  | |- context [init_devices drv cpu_count n ?g' ?log'] =>
      destruct (IH g' log') as [-> ->]
  end.
  auto.
Qed.

Lemma init_global_pool drv cpu_count :
  let g := init_global (odp_crypto_init_global cfg drv cpu_count) in
  sessions g = sessions (init_free_list MAX_SESSIONS (zero_global cfg)) /\
  free g = free (init_free_list MAX_SESSIONS (zero_global cfg)).
Proof.
  unfold odp_crypto_init_global.
  generalize (init_free_list MAX_SESSIONS (zero_global cfg)) as g0.
  intros g0. cbv zeta.
  destruct (rte_cryptodev_count drv =? 0); [split; reflexivity|].
  destruct (init_devices_pool drv cpu_count
              (Z.to_nat (rte_cryptodev_count drv)) g0 []) as [Hs Hf].
  destruct (init_rc _ <? 0); [auto|].
  destruct (negb (rte_crypto_op_pool_create drv)); auto.
Qed.

Lemma length_zero_sessions :
  length (sessions (zero_global cfg)) = MAX_SESSIONS.
Proof. unfold zero_global, sessions. apply repeat_length. Qed.

Lemma pool_inv_initial drv cpu_count :
  pool_inv (initial_pool cfg drv cpu_count).
Proof.
  destruct (init_global_pool drv cpu_count) as [Hs Hf].
  destruct (init_free_list_chain MAX_SESSIONS (zero_global cfg)) as [Hl Hc].
  { now rewrite length_zero_sessions. }
  { reflexivity. }
  rewrite length_zero_sessions in Hl.
  unfold pool_inv, initial_pool. cbn [pool_global in_use app].
  revert Hs Hf Hl Hc.
  generalize (init_free_list MAX_SESSIONS (zero_global cfg)) as g0.
  generalize MAX_SESSIONS as n.
  intros n g0 Hs Hf Hl Hc.
  exists (rev (seq 0 n)).
  split; [|split; [|split; [|split]]].
  - now rewrite Hs.
  - rewrite Hf. revert Hc. apply free_chain_frame.
    + now rewrite Hs.
    + intros i _. unfold session_at. now rewrite Hs.
  - apply NoDup_ListNoDup, NoDup_rev, seq_NoDup.
  - rewrite length_rev, length_seq. reflexivity.
  - constructor.
Qed.

(** ... and every allowed call that returns keeps it. *)
Lemma pool_inv_step drv st c st' :
  pool_inv st -> call_allowed st c ->
  pool_step cfg drv st c = Some st' -> pool_inv st'.
Proof.
  intros (l & Hlen & Hchain & Hnd & Hcount & Hb) Hallowed.
  destruct st as [g u]. simpl in *. destruct c as [env param|env h]; simpl.
  - destruct (odp_crypto_session_create cfg drv env param g)
      as [[r g']|] eqn:Hcreate; [|discriminate].
    simpl. intros [= <-].
    destruct (session_create_outcome _ _ _ _ _ _ Hcreate)
      as [(_ & -> & _ & ->)|[(_ & -> & h & _ & Hfree & ->)
                            |(_ & h & e & _ & Hfree & -> & ->)]].
    + exists l. simpl. auto.
    + rewrite Hfree in Hchain.
      destruct (free_chain_head _ _ _ Hchain) as (l' & -> & Hh & _).
      rewrite <- Hfree in Hchain.
      assert (Hnotin : h ∉ l').
      { apply NoDup_app in Hnd as (_ & _ & Hl).
        now apply NoDup_cons in Hl as [? _]. }
      exists (h :: l'). simpl pool_global. simpl in_use.
      split; [simpl; now rewrite length_insert|].
      split; [now apply released_chain|]. auto.
    + rewrite Hfree in Hchain.
      destruct (free_chain_head _ _ _ Hchain) as (l' & -> & Hh & _).
      rewrite <- Hfree in Hchain.
      assert (Hnd' : NoDup (h :: u ++ l'))
        by now rewrite Permutation_middle.
      assert (Hnotin : h ∉ l').
      { apply NoDup_cons in Hnd' as [Hn _].
        rewrite elem_of_app in Hn. tauto. }
      exists l'. simpl pool_global. simpl in_use.
      split; [simpl; now rewrite length_insert|].
      split; [now apply taken_chain|].
      split; [assumption|].
      split; [simpl in *; lia|].
      constructor; [lia|assumption].
  - unfold odp_crypto_session_destroy.
    destruct (rte_cryptodev_sym_session_clear env _ _ <? 0);
      [simpl; intros [= <-]; exists l; simpl; auto|].
    destruct (rte_cryptodev_sym_session_free env _ <? 0);
      [simpl; intros [= <-]; exists l; simpl; auto|].
    simpl. intros [= <-].
    assert (Hh : (h < MAX_SESSIONS)%nat)
      by (rewrite Forall_forall in Hb; auto).
    assert (Hnotin : h ∉ l).
    { apply NoDup_app in Hnd as (_ & Hul & _). auto. }
    destruct (in_use_remove u l h Hnd Hallowed) as [Hnd' Hlen'].
    exists (h :: l). simpl pool_global. simpl in_use.
    split; [rewrite free_memset; simpl; now rewrite length_insert|].
    split; [apply freed_chain; [assumption|assumption|lia]|].
    split; [assumption|].
    split; [simpl; lia|].
    rewrite Forall_forall in Hb |- *. intros x Hx.
    apply list_elem_of_filter in Hx as [_ Hx]. auto.
Qed.

Lemma pool_inv_run drv st calls st' :
  pool_inv st -> pool_run cfg drv st calls st' -> pool_inv st'.
Proof.
  intros Hinv Hrun. induction Hrun as [st|st c st1 calls st2 Ha Hs _ IH];
    [assumption|].
  apply IH. eapply pool_inv_step; eassumption.
Qed.

Lemma pool_inv_conserved st : pool_inv st -> pool_conserved st.
Proof.
  intros (l & Hlen & Hchain & Hnd & Hcount & _).
  exists (length l). split; [|assumption].
  apply free_list_length_chain; [assumption|].
  now apply NoDup_app in Hnd as (_ & _ & ?).
Qed.

(** A run is what [pool_exec] computes. *)
Lemma pool_run_exec drv st calls st' :
  pool_run cfg drv st calls st' -> pool_exec cfg drv calls st = Some st'.
Proof.
  induction 1 as [st|st c st1 calls st2 _ Hs _ IH]; simpl; [reflexivity|].
  now rewrite Hs.
Qed.

Lemma pool_exec_run drv calls st st' :
  pool_exec cfg drv calls st = Some st' ->
  calls_allowed cfg drv st calls = true ->
  pool_run cfg drv st calls st'.
Proof.
  revert st. induction calls as [|c calls IH]; intros st; simpl.
  - intros [= <-] _. constructor.
  - destruct (pool_step cfg drv st c) as [st1|] eqn:Hstep; [|discriminate].
    simpl. intros Hexec [Hc Hcs]%andb_true_iff.
    apply pool_run_cons with st1; [|assumption|auto].
    destruct c; simpl; [exact I|].
    now apply bool_decide_eq_true in Hc.
Qed.

(** *** The IV arrays keep their length *)

Lemma length_memcpy dst src n :
  n <= Z.of_nat (length dst) -> (Z.to_nat n <= length src)%nat ->
  length (memcpy dst src n) = length dst.
Proof.
  intros Hd Hs. unfold memcpy.
  rewrite length_app, length_take, length_drop. lia.
Qed.

(** The copy of an IV that fits leaves an array of [MAX_IV_LENGTH]
    bytes. *)
Lemma iv_fits_copy iv dst :
  iv_fits iv = true -> length dst = Z.to_nat MAX_IV_LENGTH ->
  length (match iv_data iv with
          | Some data => memcpy dst data (iv_length iv)
          | None => dst
          end) = Z.to_nat MAX_IV_LENGTH.
Proof.
  unfold iv_fits. intros Hfit Hd.
  destruct (iv_data iv) as [data|]; [|exact Hd].
  apply andb_true_iff in Hfit as [Hn Hs].
  apply Z.leb_le in Hn. apply Nat.leb_le in Hs.
  rewrite length_memcpy; [exact Hd| |exact Hs].
  rewrite Hd. unfold MAX_IV_LENGTH in *. lia.
Qed.

Lemma iv_arrays_store h e g :
  iv_arrays_ok g ->
  length (cipher_iv_data e) = Z.to_nat MAX_IV_LENGTH ->
  length (auth_iv_data e) = Z.to_nat MAX_IV_LENGTH ->
  iv_arrays_ok (store_session h e g).
Proof.
  intros Hg Hc Ha i. destruct (decide (h = i)) as [<-|Hne].
  - destruct (decide (h < length (sessions g))%nat) as [Hh|Hh].
    + rewrite session_at_store_eq by exact Hh. auto.
    + unfold session_at, store_session. cbn [sessions set_sessions].
      rewrite list_insert_ge by lia. apply Hg.
  - rewrite session_at_store_ne by exact Hne. apply Hg.
Qed.

Lemma iv_arrays_sessions g g' :
  sessions g' = sessions g -> iv_arrays_ok g -> iv_arrays_ok g'.
Proof. intros Hs Hg i. unfold session_at. rewrite Hs. apply Hg. Qed.

Lemma iv_arrays_zero_session :
  length (cipher_iv_data zero_session) = Z.to_nat MAX_IV_LENGTH /\
  length (auth_iv_data zero_session) = Z.to_nat MAX_IV_LENGTH.
Proof. split; apply repeat_length. Qed.

Lemma iv_arrays_free_session h g :
  iv_arrays_ok g -> iv_arrays_ok (free_session h g).
Proof.
  intros Hg. unfold free_session.
  apply (iv_arrays_sessions
           (store_session h (set_next (free g) (session_at g h)) g));
    [reflexivity|].
  apply iv_arrays_store; [exact Hg|apply Hg|apply Hg].
Qed.

Lemma iv_arrays_memset h g :
  iv_arrays_ok g -> iv_arrays_ok (memset_session h g).
Proof.
  intros Hg. unfold memset_session.
  apply iv_arrays_store; [exact Hg|apply iv_arrays_zero_session..].
Qed.

Lemma iv_arrays_init_free_list l : forall g,
  iv_arrays_ok g -> iv_arrays_ok (fold_left init_free_list_step l g).
Proof.
  induction l as [|idx l IH]; intros g Hg; [exact Hg|].
  cbn [fold_left]. apply IH.
  exact (iv_arrays_free_session idx g Hg).
Qed.

Lemma iv_arrays_initial drv cpu_count :
  iv_arrays_ok (pool_global (initial_pool cfg drv cpu_count)).
Proof.
  destruct (init_global_pool drv cpu_count) as [Hs _].
  apply (iv_arrays_sessions _ _ Hs).
  apply iv_arrays_init_free_list. intros i.
  unfold session_at, zero_global. cbn [sessions].
  generalize MAX_SESSIONS as n. intros n.
  destruct (repeat zero_session n !! i) as [e|] eqn:E;
    [|exact iv_arrays_zero_session].
  apply list_elem_of_lookup_2, list_elem_of_In, repeat_spec in E.
  subst e. exact iv_arrays_zero_session.
Qed.

(** What [session_create_finish] stores for IVs that fit. *)
Lemma iv_arrays_finish env param h cx ax chain dev g :
  iv_arrays_ok g -> param_ivs_fit param = true ->
  iv_arrays_ok ((session_create_finish env param h cx ax chain dev g).2).
Proof.
  intros Hg Hfit. apply andb_true_iff in Hfit as [Hc Ha].
  assert (Herr : forall st,
            iv_arrays_ok ((session_create_err (Some h) st g).2))
    by (intros st; now apply iv_arrays_free_session, iv_arrays_memset).
  unfold session_create_finish.
  destruct dev as [dev_id|]; [|apply Herr].
  destruct (rte_cryptodev_sym_session_create env); [|apply Herr].
  destruct (_ <? 0); [apply Herr|].
  cbn [snd]. apply iv_arrays_store; [exact Hg| |];
    cbn [cipher_iv_data auth_iv_data];
    apply iv_fits_copy; auto; apply Hg.
Qed.

(** A create whose IVs fit keeps the arrays, whether it succeeds or
    fails. *)
Lemma iv_arrays_create drv env param g r g' :
  iv_arrays_ok g -> param_ivs_fit param = true ->
  odp_crypto_session_create cfg drv env param g = Some (r, g') ->
  iv_arrays_ok g'.
Proof.
  intros Hg Hfit. unfold odp_crypto_session_create.
  destruct (rte_cryptodev_count drv =? 0); [intros [= <- <-]; exact Hg|].
  unfold alloc_session.
  destruct (free g) as [h|]; [|intros [= <- <-]; exact Hg].
  set (g1 := store_session h (set_next None (session_at g h))
               (set_free (next (session_at g h)) g)).
  assert (H1 : iv_arrays_ok g1).
  { apply iv_arrays_store; [|apply Hg|apply Hg].
    now apply (iv_arrays_sessions g). }
  set (g2 := store_session h
               (set_p (deprecated_digest_len cfg param) (session_at g1 h))
               g1).
  assert (H2 : iv_arrays_ok g2)
    by (apply iv_arrays_store; [exact H1|apply H1|apply H1]).
  assert (Herr : forall st,
            iv_arrays_ok ((session_create_err (Some h) st g2).2))
    by (intros st; now apply iv_arrays_free_session, iv_arrays_memset).
  assert (Hfin : forall cx ax chain dev,
            Some (session_create_finish env param h cx ax chain dev g2)
            = Some (r, g') -> iv_arrays_ok g').
  { intros cx ax chain dev [= E]. change g' with ((r, g').2).
    rewrite <- E. now apply iv_arrays_finish. }
  assert (Hfail : forall st,
            Some (session_create_err (Some h) st g2) = Some (r, g') ->
            iv_arrays_ok g').
  { intros st [= _ <-]. exact (Herr st). }
  cbv zeta.
  destruct (cipher_is_aead cfg (cipher_alg param)).
  - destruct (crypto_fill_aead_xform cfg env _); [|apply Hfail].
    destruct (get_crypto_aead_dev drv g2 _); [|discriminate].
    apply Hfin.
  - destruct (crypto_fill_cipher_xform cfg env _); [|apply Hfail].
    destruct (crypto_fill_auth_xform cfg env _); [|apply Hfail].
    destruct (get_crypto_dev drv g2 _ _); [|discriminate].
    apply Hfin.
Qed.

Lemma iv_arrays_destroy env h g :
  iv_arrays_ok g ->
  iv_arrays_ok ((odp_crypto_session_destroy env h g).2).
Proof.
  intros Hg. unfold odp_crypto_session_destroy.
  destruct (_ <? 0); [exact Hg|]. destruct (_ <? 0); [exact Hg|].
  cbn [snd]. now apply iv_arrays_free_session, iv_arrays_memset.
Qed.

Lemma iv_arrays_step drv st c st' :
  iv_arrays_ok (pool_global st) -> call_ivs_fit c = true ->
  pool_step cfg drv st c = Some st' ->
  iv_arrays_ok (pool_global st').
Proof.
  intros Hg Hc. destruct c as [env param|env h]; cbn [pool_step].
  - destruct (odp_crypto_session_create cfg drv env param (pool_global st))
      as [[r g']|] eqn:Hcreate; [|discriminate].
    cbn. intros [= <-]. cbn [pool_global].
    exact (iv_arrays_create _ _ _ _ _ _ Hg Hc Hcreate).
  - intros [= <-]. cbn [pool_global]. now apply iv_arrays_destroy.
Qed.

(** In the states that calls with fitting IVs reach, every IV array has
    its [MAX_IV_LENGTH] bytes: the lists of the model are the arrays of
    the C records. *)
Lemma iv_arrays_run drv st calls st' :
  pool_run cfg drv st calls st' ->
  iv_arrays_ok (pool_global st) -> calls_ivs_fit calls = true ->
  iv_arrays_ok (pool_global st').
Proof.
  induction 1 as [st|st c st1 calls st2 _ Hstep _ IH];
    intros Hg Hfit; [exact Hg|].
  cbn in Hfit. apply andb_true_iff in Hfit as [Hc Hrest].
  apply IH; [|exact Hrest].
  exact (iv_arrays_step _ _ _ _ Hg Hc Hstep).
Qed.

(** ** Claims on the session pool *)

(** C9 (amended): after an initialisation that returned 0, every
    sequence of allowed create and destroy calls that return, in which
    each create passes IVs that fit the record's IV arrays, leaves the
    number of sessions in use plus the length of the free list equal to
    [MAX_SESSIONS], where a session is in use from the create that
    returned it until a destroy of it succeeds; when no session is in
    use any more, the free list holds all [MAX_SESSIONS] records; and
    no IV copy has left its array: both IV arrays of every record hold
    [MAX_IV_LENGTH] bytes.  (An initialisation that fails returns with
    the lock held, and an IV longer than [MAX_IV_LENGTH] is copied over
    the link of the next record: neither case is covered.) *)
Theorem pool_conservation drv cpu_count calls st :
  init_rc (odp_crypto_init_global cfg drv cpu_count) = 0 ->
  calls_ivs_fit calls = true ->
  pool_run cfg drv (initial_pool cfg drv cpu_count) calls st ->
  pool_conserved st /\
  (in_use st = [] ->
   free_list_length (pool_global st) = Some MAX_SESSIONS) /\
  iv_arrays_ok (pool_global st).
Proof.
  intros _ Hfit Hrun.
  assert (Hc : pool_conserved st).
  { apply pool_inv_conserved.
    eapply pool_inv_run; [apply pool_inv_initial|eassumption]. }
  split; [assumption|]. split.
  - destruct Hc as (n & Hn & Hsum). intros Hu. rewrite Hu in Hsum.
    simpl in Hsum. now subst n.
  - exact (iv_arrays_run _ _ _ _ Hrun (iv_arrays_initial drv cpu_count)
             Hfit).
Qed.

(** C7: when [odp_crypto_session_create] fails after it took the record
    [h] from the free list, it sets the output handle to
    [ODP_CRYPTO_SESSION_INVALID] and leaves the record zeroed and back at
    the head of the free list, linked to its old successor; a free list
    [l] is the same list afterwards, with the same length. *)
Theorem session_create_failure_releases drv env param g h r g' l :
  rte_cryptodev_count drv <> 0 ->
  free g = Some h ->
  free_chain g (free g) l -> NoDup l ->
  odp_crypto_session_create cfg drv env param g = Some (r, g') ->
  create_rc r <> 0 ->
  session_out r = None /\
  free g' = Some h /\
  session_at g' h = set_next (next (session_at g h)) zero_session /\
  free_chain g' (free g') l /\
  free_list_length g' = free_list_length g.
Proof.
  intros Hcount Hfree Hchain Hnd Hcreate Hrc.
  destruct (session_create_outcome _ _ _ _ _ _ Hcreate)
    as [(_ & _ & [?|Hnone] & _)|[(_ & Hout & h' & _ & Hfree' & ->)
                                |(Hrc0 & _)]];
    [contradiction|congruence| |contradiction].
  assert (h' = h) as -> by congruence.
  rewrite Hfree in Hchain.
  destruct (free_chain_head _ _ _ Hchain) as (l' & -> & Hh & _).
  rewrite <- Hfree in Hchain.
  assert (Hnotin : h ∉ l') by now apply NoDup_cons in Hnd as [? _].
  pose proof (released_chain _ _ _ Hchain Hnotin) as Hchain'.
  split; [assumption|]. split; [reflexivity|]. split.
  { change (session_at (released h g) h)
      with (session_at (store_session h
              (set_next (next (session_at g h)) zero_session) g) h).
    now rewrite session_at_store_eq. }
  split; [assumption|].
  now rewrite !(free_list_length_chain _ (h :: l')).
Qed.

(** C1 (amended): when the accelerator fails to clear or to free the
    session object, [odp_crypto_session_destroy] returns -1 and changes
    nothing: the record is not zeroed and the free list is as before. *)
Theorem session_destroy_failure_keeps env h g :
  rte_cryptodev_sym_session_clear env (cdev_id (session_at g h))
    (rte_session (session_at g h)) < 0 \/
  rte_cryptodev_sym_session_free env (rte_session (session_at g h)) < 0 ->
  odp_crypto_session_destroy env h g = (-1, g).
Proof.
  unfold odp_crypto_session_destroy. intros H.
  destruct (Z.ltb_spec
              (rte_cryptodev_sym_session_clear env (cdev_id (session_at g h))
                 (rte_session (session_at g h))) 0); [reflexivity|].
  destruct (Z.ltb_spec
              (rte_cryptodev_sym_session_free env
                 (rte_session (session_at g h))) 0); [reflexivity|].
  lia.
Qed.

(** A destroy whose accelerator calls succeed zeroes the record and
    puts it at the head of the free list. *)
Lemma session_destroy_success env h g l :
  0 <= rte_cryptodev_sym_session_clear env (cdev_id (session_at g h))
         (rte_session (session_at g h)) ->
  0 <= rte_cryptodev_sym_session_free env (rte_session (session_at g h)) ->
  free_chain g (free g) l -> h ∉ l -> (h < length (sessions g))%nat ->
  exists g', odp_crypto_session_destroy env h g = (0, g') /\
             free_chain g' (free g') (h :: l) /\
             session_at g' h = set_next (free g) zero_session.
Proof.
  intros Hclear Hfreed Hchain Hnotin Hh.
  unfold odp_crypto_session_destroy.
  destruct (Z.ltb_spec
              (rte_cryptodev_sym_session_clear env (cdev_id (session_at g h))
                 (rte_session (session_at g h))) 0); [lia|].
  destruct (Z.ltb_spec
              (rte_cryptodev_sym_session_free env
                 (rte_session (session_at g h))) 0); [lia|].
  eexists. split; [reflexivity|]. split.
  - pose proof (freed_chain _ _ _ Hchain Hnotin Hh) as Hc.
    rewrite free_memset in Hc |- *. exact Hc.
  - rewrite free_memset.
    change (session_at (set_free (Some h) ?g') h) with (session_at g' h).
    now rewrite session_at_store_eq.
Qed.

(** The free list of every state that allowed calls reach from the
    initial one is a chain without repetition: the hypothesis of
    [session_destroy_success] and of the theorem on failed creates holds
    wherever the API is used as intended. *)
Lemma reachable_free_list drv cpu_count calls st :
  pool_run cfg drv (initial_pool cfg drv cpu_count) calls st ->
  exists l, free_chain (pool_global st) (free (pool_global st)) l /\
            NoDup l /\
            Forall (fun h => h ∉ l) (in_use st).
Proof.
  intros Hrun.
  destruct (pool_inv_run _ _ _ _ (pool_inv_initial drv cpu_count) Hrun)
    as (l & _ & Hchain & Hnd & _ & _).
  exists l. split; [assumption|].
  apply NoDup_app in Hnd as (_ & Hul & Hl). split; [assumption|].
  apply Forall_forall. exact Hul.
Qed.

(** ** Transform order *)

(** The two "Derive order" steps give the chain in the order the
    specification words. *)
Lemma derive_first_xform_order param cx ax :
  derive_first_xform param cx ax
  = chain_in_order (specified_order param) cx ax.
Proof.
  unfold derive_first_xform, specified_order.
  destruct (decide (cipher_alg param = ODP_CIPHER_ALG_NULL));
    [reflexivity|].
  destruct (decide (auth_alg param = ODP_AUTH_ALG_NULL)); [reflexivity|].
  destruct (op param), (auth_cipher_text param); reflexivity.
Qed.

(** The selector reads the device tables only, which the steps of a
    create before it leave alone. *)
Lemma get_crypto_dev_alloc drv g h e cx ax :
  get_crypto_dev drv
    (store_session h e (set_free (next (session_at g h)) g)) cx ax
  = get_crypto_dev drv g cx ax.
Proof. reflexivity. Qed.

(** C6: the chain a non-AEAD session creation hands to the accelerator
    is in the specified order: the auth transform alone when the cipher
    algorithm is NULL; otherwise the cipher transform alone when the
    auth algorithm is NULL; otherwise cipher then auth exactly when the
    direction is encode and [auth_cipher_text] is set, or the direction
    is decode and it is not set, and auth then cipher in the remaining
    cases ([specified_order], [chain_in_order]).  A create that succeeds
    has had this chain, built from the two transforms it filled in,
    accepted by [rte_cryptodev_sym_session_init] for the device the
    selector chose; and the answers of that call to any other chain do
    not matter to the create: it returns the same and leaves the same
    state under every accelerator that answers alike on the chain in the
    specified order. *)
Theorem transform_order_as_specified drv env param g :
  cipher_is_aead cfg (cipher_alg param) = false ->
  (forall r g',
     odp_crypto_session_create cfg drv env param g = Some (r, g') ->
     create_rc r = 0 ->
     exists cx ax dev_id,
       crypto_fill_cipher_xform cfg env (deprecated_digest_len cfg param)
         = Some cx /\
       crypto_fill_auth_xform cfg env (deprecated_digest_len cfg param)
         = Some ax /\
       get_crypto_dev drv g cx ax = Some (Some dev_id) /\
       0 <= rte_cryptodev_sym_session_init env dev_id
              (chain_in_order (specified_order param) cx ax)) /\
  (forall env',
     cipher_key_malloc env' = cipher_key_malloc env ->
     auth_key_malloc env' = auth_key_malloc env ->
     rte_cryptodev_sym_session_create env'
       = rte_cryptodev_sym_session_create env ->
     (forall dev_id cx ax,
        rte_cryptodev_sym_session_init env' dev_id
          (chain_in_order (specified_order param) cx ax)
        = rte_cryptodev_sym_session_init env dev_id
            (chain_in_order (specified_order param) cx ax)) ->
     odp_crypto_session_create cfg drv env' param g
     = odp_crypto_session_create cfg drv env param g).
Proof.
  intros Hna. split.
  - intros r g'. unfold odp_crypto_session_create. rewrite Hna.
    destruct (rte_cryptodev_count drv =? 0);
      [intros [= <- <-]; discriminate|].
    unfold alloc_session.
    destruct (free g) as [h|]; [|intros [= <- <-]; discriminate].
    rewrite store_store.
    destruct (crypto_fill_cipher_xform cfg env _) as [cx|];
      [|intros [= <- <-]; discriminate].
    destruct (crypto_fill_auth_xform cfg env _) as [ax|];
      [|intros [= <- <-]; discriminate].
    cbv zeta. rewrite get_crypto_dev_alloc, derive_first_xform_order.
    destruct (get_crypto_dev drv g cx ax) as [[dev_id|]|] eqn:Hdev;
      [|intros [= <- <-]; discriminate|discriminate].
    simpl. unfold session_create_finish.
    destruct (rte_cryptodev_sym_session_create env);
      [|intros [= <- <-]; discriminate].
    destruct (Z.ltb_spec
                (rte_cryptodev_sym_session_init env dev_id
                   (chain_in_order (specified_order param) cx ax)) 0);
      [intros [= <- <-]; discriminate|].
    intros _ _. exists cx, ax, dev_id. auto 10.
  - intros env' Hck Hak Hsc Hinit.
    unfold odp_crypto_session_create. rewrite Hna.
    destruct (rte_cryptodev_count drv =? 0); [reflexivity|].
    destruct (alloc_session g) as [[h|] g1]; [|reflexivity].
    cbv zeta.
    assert (crypto_fill_cipher_xform cfg env'
              (deprecated_digest_len cfg param)
            = crypto_fill_cipher_xform cfg env
                (deprecated_digest_len cfg param)) as ->
      by (unfold crypto_fill_cipher_xform; now rewrite Hck).
    assert (crypto_fill_auth_xform cfg env'
              (deprecated_digest_len cfg param)
            = crypto_fill_auth_xform cfg env
                (deprecated_digest_len cfg param)) as ->
      by (unfold crypto_fill_auth_xform; now rewrite Hak).
    destruct (crypto_fill_cipher_xform cfg env _) as [cx|]; [|reflexivity].
    destruct (crypto_fill_auth_xform cfg env _) as [ax|]; [|reflexivity].
    rewrite derive_first_xform_order.
    destruct (get_crypto_dev drv _ cx ax) as [dev|]; [|reflexivity].
    simpl. unfold session_create_finish.
    destruct dev as [dev_id|]; [|reflexivity].
    now rewrite Hsc, Hinit.
Qed.

(** ** The operation engine *)

(** A call that gets its session, its working packet and a descriptor
    reaches the IV placement; what follows only depends on the two
    outcome codes the placement leaves. *)
Lemma odp_crypto_int_placement env g pkt_in out param h rte out_pkt :
  session param = Some h ->
  rte_session (session_at g h) = Some rte ->
  resolve_out_pkt env (session_at g h) out = Some out_pkt ->
  pkt_in = out_pkt \/ 0 <= odp_packet_copy_from_pkt env ->
  rte_crypto_op_alloc env = true ->
  let s := session_at g h in
  let rcs :=
    if cipher_is_aead cfg (cipher_alg (p s))
    then crypto_fill_aead_param s param
           ODP_CRYPTO_ALG_ERR_NONE ODP_CRYPTO_ALG_ERR_NONE
    else crypto_fill_sym_param s param
           ODP_CRYPTO_ALG_ERR_NONE ODP_CRYPTO_ALG_ERR_NONE in
  rcs <> (ODP_CRYPTO_ALG_ERR_NONE, ODP_CRYPTO_ALG_ERR_NONE) ->
  odp_crypto_int cfg env g pkt_in out param
  = crypto_int_done s out_pkt rcs.1 rcs.2 (fresh_status env) None.
Proof.
  intros Hs Hrte Hout Hcopy Halloc s rcs Hrcs.
  unfold odp_crypto_int. rewrite Hs. fold s. unfold s at 1.
  rewrite Hrte. fold s. unfold s at 1. rewrite Hout.
  assert (negb (pkt_in =? out_pkt) && (odp_packet_copy_from_pkt env <? 0)
          = false) as ->.
  { destruct Hcopy as [->|Hc].
    - now rewrite Z.eqb_refl.
    - destruct (Z.ltb_spec (odp_packet_copy_from_pkt env) 0); [lia|].
      apply andb_false_r. }
  rewrite Halloc. cbn [negb]. fold s. fold rcs.
  destruct rcs as [rc_cipher rc_auth]. cbn [fst snd].
  destruct (decide (rc_cipher = ODP_CRYPTO_ALG_ERR_NONE)) as [->|Hc].
  - destruct (decide (rc_auth = ODP_CRYPTO_ALG_ERR_NONE)) as [->|Ha];
      [congruence|].
    now rewrite (bool_decide_eq_false_2 _ Ha), andb_false_r.
  - now rewrite (bool_decide_eq_false_2 _ Hc).
Qed.

(** The two outcome codes the placement leaves. *)
Lemma placement_outcomes (s : crypto_session_entry_t)
    (param : odp_crypto_packet_op_param_t) :
  (if cipher_is_aead cfg (cipher_alg (p s))
   then crypto_fill_aead_param s param
          ODP_CRYPTO_ALG_ERR_NONE ODP_CRYPTO_ALG_ERR_NONE
   else crypto_fill_sym_param s param
          ODP_CRYPTO_ALG_ERR_NONE ODP_CRYPTO_ALG_ERR_NONE)
  = (if cipher_iv_missing cfg s param
     then ODP_CRYPTO_ALG_ERR_IV_INVALID else ODP_CRYPTO_ALG_ERR_NONE,
     if auth_iv_missing cfg s param
     then ODP_CRYPTO_ALG_ERR_IV_INVALID else ODP_CRYPTO_ALG_ERR_NONE).
Proof.
  unfold cipher_iv_missing, auth_iv_missing,
    crypto_fill_aead_param, crypto_fill_sym_param.
  destruct (cipher_is_aead cfg (cipher_alg (p s)));
    destruct (cipher_iv_ptr param), (iv_data (cipher_iv (p s)));
    destruct (auth_iv_ptr param), (iv_data (auth_iv (p s)));
    cbn [negb andb bool_decide decide_rel];
    repeat match goal with
           | |- context [negb (?x =? 0)] => destruct (x =? 0)
           end;
    reflexivity.
Qed.


(** C4: a call that submitted and got its descriptor back classifies
    the accelerator status: success gives NONE and NONE; authentication
    failure gives NONE for the cipher and ICV_CHECK for the auth; every
    other status gives NONE and NONE; and [ok] is true exactly when both
    outcomes are NONE. *)
Theorem completed_submission_classification env g pkt_in out param qp :
  queue_pair (odp_crypto_int cfg env g pkt_in out param) = Some qp ->
  let r := odp_crypto_int cfg env g pkt_in out param in
  int_rc r = 0 /\
  exists res,
    op_result r = Some res /\
    (dequeued_status env = RTE_CRYPTO_OP_STATUS_SUCCESS ->
     alg_err (cipher_status res) = ODP_CRYPTO_ALG_ERR_NONE /\
     alg_err (auth_status res) = ODP_CRYPTO_ALG_ERR_NONE) /\
    (dequeued_status env = RTE_CRYPTO_OP_STATUS_AUTH_FAILED ->
     alg_err (cipher_status res) = ODP_CRYPTO_ALG_ERR_NONE /\
     alg_err (auth_status res) = ODP_CRYPTO_ALG_ERR_ICV_CHECK) /\
    (dequeued_status env <> RTE_CRYPTO_OP_STATUS_SUCCESS ->
     dequeued_status env <> RTE_CRYPTO_OP_STATUS_AUTH_FAILED ->
     alg_err (cipher_status res) = ODP_CRYPTO_ALG_ERR_NONE /\
     alg_err (auth_status res) = ODP_CRYPTO_ALG_ERR_NONE) /\
    (ok res = true <->
     alg_err (cipher_status res) = ODP_CRYPTO_ALG_ERR_NONE /\
     alg_err (auth_status res) = ODP_CRYPTO_ALG_ERR_NONE).
Proof.
  cbv zeta. unfold odp_crypto_int.
  destruct (session param) as [h|]; [|discriminate].
  destruct (rte_session (session_at g h)); [|discriminate].
  destruct (resolve_out_pkt env (session_at g h) out) as [out_pkt|];
    [|discriminate].
  destruct (negb (pkt_in =? out_pkt) && _); [discriminate|].
  destruct (negb (rte_crypto_op_alloc env)); [discriminate|].
  destruct (if cipher_is_aead cfg _ then _ else _) as [rc_cipher rc_auth].
  destruct (bool_decide _ && bool_decide _); [|discriminate].
  destruct (rte_cryptodev_enqueue_burst env _ _ =? 0); [discriminate|].
  destruct (dequeue_poll _ _ _ =? 0); [discriminate|].
  intros _.
  destruct (dequeued_status env); cbn;
    (split; [reflexivity|]); eexists; (split; [reflexivity|]); cbn;
    repeat split; try congruence; try discriminate; intuition congruence.
Qed.

(** The polling loop leaves with the first non-zero [rc], or with the
    [rc] of attempt number [retries_left]: it always ends. *)
Lemma dequeue_poll_first dequeue attempt retries_left :
  dequeue attempt <> 0 ->
  dequeue_poll dequeue attempt retries_left = dequeue attempt.
Proof.
  intros H. destruct retries_left; simpl; [reflexivity|].
  now destruct (Z.eqb_spec (dequeue attempt) 0).
Qed.

(** A call whose IVs are all in place submits on the queue pair
    [odp_cpu_id () % cdev_nb_qpairs] of the session's device; when the
    accelerator takes the descriptor and hands it back, the call returns
    0 with the classified status. *)
Lemma odp_crypto_int_submits env g pkt_in out param h rte out_pkt :
  session param = Some h ->
  rte_session (session_at g h) = Some rte ->
  resolve_out_pkt env (session_at g h) out = Some out_pkt ->
  pkt_in = out_pkt \/ 0 <= odp_packet_copy_from_pkt env ->
  rte_crypto_op_alloc env = true ->
  cipher_iv_missing cfg (session_at g h) param = false ->
  auth_iv_missing cfg (session_at g h) param = false ->
  let s := session_at g h in
  let qp := Z.rem (odp_cpu_id env) (cdev_nb_qpairs s) in
  rte_cryptodev_enqueue_burst env (cdev_id s) qp <> 0 ->
  rte_cryptodev_dequeue_burst env (cdev_id s) qp 0 <> 0 ->
  odp_crypto_int cfg env g pkt_in out param
  = crypto_int_done s out_pkt
      (classify_status (dequeued_status env)).1
      (classify_status (dequeued_status env)).2
      (dequeued_status env) (Some qp).
Proof.
  intros Hs Hrte Hout Hcopy Halloc Hc Ha s qp Henq Hdeq.
  unfold odp_crypto_int. rewrite Hs. fold s. unfold s at 1.
  rewrite Hrte. fold s. unfold s at 1. rewrite Hout.
  assert (negb (pkt_in =? out_pkt) && (odp_packet_copy_from_pkt env <? 0)
          = false) as ->.
  { destruct Hcopy as [->|Hcp].
    - now rewrite Z.eqb_refl.
    - destruct (Z.ltb_spec (odp_packet_copy_from_pkt env) 0); [lia|].
      apply andb_false_r. }
  rewrite Halloc. cbn [negb]. fold s.
  rewrite placement_outcomes. fold s in Hc, Ha. rewrite Hc, Ha.
  cbn [bool_decide decide_rel andb]. fold qp.
  destruct (Z.eqb_spec (rte_cryptodev_enqueue_burst env (cdev_id s) qp) 0);
    [contradiction|].
  rewrite dequeue_poll_first by assumption.
  destruct (Z.eqb_spec
              (rte_cryptodev_dequeue_burst env (cdev_id s) qp 0%nat) 0);
    [contradiction|].
  now destruct (classify_status (dequeued_status env)).
Qed.

End SessionTheorems.

(** ** The claims at concrete inputs *)

(** C1 (counterexample): one session is created on the sample device
    and destroyed while the accelerator fails to clear its session
    object.  The destroy returns -1, the free list is as long as before
    (2047 records, not 2048), and the record still holds the session. *)
Lemma session_destroy_failure_not_released :
  let r := odp_crypto_session_destroy destroy_clear_fails 2047
             one_session_global in
  in_use one_session_pool = [2047%nat] /\
  free_list_length one_session_global = Some 2047%nat /\
  r.1 = -1 /\
  free_list_length r.2 = Some 2047%nat /\
  rte_session (session_at r.2 2047) = Some 7.
Proof. vm_compute. repeat split. Qed.

Lemma session_destroy_failure_keeps_witness :
  odp_crypto_session_destroy destroy_clear_fails 2047 one_session_global
  = (-1, one_session_global).
Proof.
  apply session_destroy_failure_keeps. left. vm_compute. reflexivity.
Defined.

(** C2 (counterexample): a request whose cipher and auth are both NULL,
    on the sample device, which advertises no NULL auth capability.  As
    the specification words the rule, the device satisfies both
    components and is selected; the code looks for a NULL auth entry,
    finds none, and fails. *)
Lemma null_pair_needs_auth_capability :
  let g := pool_global (sample_pool one_device) in
  enabled_ids g = [0] /\
  first_accepting
    (fun caps =>
       pair_accepted_as_specified caps null_cipher_xform null_auth_xform)
    one_device (enabled_ids g) = Some 0 /\
  get_crypto_dev one_device g null_cipher_xform null_auth_xform = Some None.
Proof. vm_compute. repeat split. Qed.

Lemma device_selection_first_accepting_witness :
  let g := pool_global (sample_pool one_device) in
  get_crypto_dev one_device g aes_cbc_xform null_auth_xform
    = Some (first_accepting
              (fun caps => pair_accepted caps aes_cbc_xform null_auth_xform)
              one_device (enabled_ids g)) /\
  get_crypto_aead_dev one_device g aes_gcm_xform
    = Some (first_accepting (fun caps => aead_accepted caps aes_gcm_xform)
              one_device (enabled_ids g)).
Proof.
  apply device_selection_first_accepting.
  assert (He : enabled_ids (pool_global (sample_pool one_device)) = [0])
    by (vm_compute; reflexivity).
  rewrite He. unfold devices_ranges_ok.
  repeat constructor; simpl; lia.
Defined.

(** C3 (evaluation at the failing input): two devices on eight CPUs;
    device 0 has one queue pair and offers AES-CBC, device 1 has eight
    and offers nothing.  Initialisation enables device 1 first, so the
    count table holds 8 at index 0 and 1 at index 1.  An AES-CBC session
    lands on device 0, configured with one queue pair, and caches the
    count 8 read at index [cdev_id] = 0; an operation from CPU 5 then
    submits on queue pair 5. *)
Theorem queue_pair_count_of_other_device :
  let g := init_global two_devices_init in
  let s := session_at two_devices_session 2047 in
  init_rc two_devices_init = 0 /\
  enabled_ids g = [1; 0] /\
  take 2 (enabled_crypto_dev_nb_qpairs g) = [8; 1] /\
  configured two_devices_init = [(1, 8); (0, 1)] /\
  rte_session s = Some 7 /\
  cdev_id s = 0 /\
  configured_nb_queue_pairs (configured two_devices_init) (cdev_id s)
    = Some 1 /\
  cdev_nb_qpairs s = 8 /\
  queue_pair (odp_crypto_int sample_config
                (op_ok RTE_CRYPTO_OP_STATUS_SUCCESS)
                two_devices_session 1 (Some 1) iv_op) = Some 5.
Proof. vm_compute. repeat split. Qed.

Lemma completed_submission_classification_witness :
  let r := odp_crypto_int sample_config
             (op_ok RTE_CRYPTO_OP_STATUS_AUTH_FAILED)
             one_session_global 1 (Some 1) iv_op in
  int_rc r = 0 /\
  exists res,
    op_result r = Some res /\
    (RTE_CRYPTO_OP_STATUS_AUTH_FAILED = RTE_CRYPTO_OP_STATUS_SUCCESS ->
     alg_err (cipher_status res) = ODP_CRYPTO_ALG_ERR_NONE /\
     alg_err (auth_status res) = ODP_CRYPTO_ALG_ERR_NONE) /\
    (RTE_CRYPTO_OP_STATUS_AUTH_FAILED = RTE_CRYPTO_OP_STATUS_AUTH_FAILED ->
     alg_err (cipher_status res) = ODP_CRYPTO_ALG_ERR_NONE /\
     alg_err (auth_status res) = ODP_CRYPTO_ALG_ERR_ICV_CHECK) /\
    (RTE_CRYPTO_OP_STATUS_AUTH_FAILED <> RTE_CRYPTO_OP_STATUS_SUCCESS ->
     RTE_CRYPTO_OP_STATUS_AUTH_FAILED <> RTE_CRYPTO_OP_STATUS_AUTH_FAILED ->
     alg_err (cipher_status res) = ODP_CRYPTO_ALG_ERR_NONE /\
     alg_err (auth_status res) = ODP_CRYPTO_ALG_ERR_NONE) /\
    (ok res = true <->
     alg_err (cipher_status res) = ODP_CRYPTO_ALG_ERR_NONE /\
     alg_err (auth_status res) = ODP_CRYPTO_ALG_ERR_NONE).
Proof.
  apply (completed_submission_classification sample_config
           (op_ok RTE_CRYPTO_OP_STATUS_AUTH_FAILED)
           one_session_global 1 (Some 1) iv_op 5).
  vm_compute. reflexivity.
Defined.

(** C6 at a request for AES-CBC with SHA256-HMAC over the ciphertext,
    on an accelerator that accepts the chain cipher then auth only: the
    create succeeds. *)
Lemma transform_order_as_specified_witness :
  let g := pool_global (sample_pool one_device) in
  specified_order aes_cbc_hmac_param = CipherThenAuth /\
  (create_rc ∘ fst)
    <$> odp_crypto_session_create sample_config one_device
          create_cipher_then_auth aes_cbc_hmac_param g
  = Some 0 /\
  (forall r g',
     odp_crypto_session_create sample_config one_device
       create_cipher_then_auth aes_cbc_hmac_param g = Some (r, g') ->
     create_rc r = 0 ->
     exists cx ax dev_id,
       crypto_fill_cipher_xform sample_config create_cipher_then_auth
         (deprecated_digest_len sample_config aes_cbc_hmac_param)
         = Some cx /\
       crypto_fill_auth_xform sample_config create_cipher_then_auth
         (deprecated_digest_len sample_config aes_cbc_hmac_param)
         = Some ax /\
       get_crypto_dev one_device g cx ax = Some (Some dev_id) /\
       0 <= rte_cryptodev_sym_session_init create_cipher_then_auth dev_id
              (chain_in_order (specified_order aes_cbc_hmac_param) cx ax)) /\
  (forall env',
     cipher_key_malloc env' = cipher_key_malloc create_cipher_then_auth ->
     auth_key_malloc env' = auth_key_malloc create_cipher_then_auth ->
     rte_cryptodev_sym_session_create env'
       = rte_cryptodev_sym_session_create create_cipher_then_auth ->
     (forall dev_id cx ax,
        rte_cryptodev_sym_session_init env' dev_id
          (chain_in_order (specified_order aes_cbc_hmac_param) cx ax)
        = rte_cryptodev_sym_session_init create_cipher_then_auth dev_id
            (chain_in_order (specified_order aes_cbc_hmac_param) cx ax)) ->
     odp_crypto_session_create sample_config one_device env'
       aes_cbc_hmac_param g
     = odp_crypto_session_create sample_config one_device
         create_cipher_then_auth aes_cbc_hmac_param g).
Proof.
  cbv zeta. split; [reflexivity|]. split; [vm_compute; reflexivity|].
  apply (transform_order_as_specified sample_config one_device
           create_cipher_then_auth aes_cbc_hmac_param
           (pool_global (sample_pool one_device))).
  reflexivity.
Defined.

Lemma session_create_failure_releases_witness :
  let g := pool_global (initial_pool sample_config one_device 8) in
  let r := refused_create_result.1 in
  let g' := refused_create_result.2 in
  exists l,
    length l = MAX_SESSIONS /\
    session_out r = None /\
    free g' = Some 2047%nat /\
    session_at g' 2047 = set_next (next (session_at g 2047)) zero_session /\
    free_chain g' (free g') l /\
    free_list_length g' = free_list_length g.
Proof.
  cbv zeta.
  destruct (pool_inv_initial sample_config one_device 8)
    as (l & _ & Hchain & Hnd & Hcount & _).
  exists l. split; [exact Hcount|].
  apply (session_create_failure_releases sample_config one_device
           create_init_fails aes_cbc_param
           (pool_global (initial_pool sample_config one_device 8))
           2047 refused_create_result.1 refused_create_result.2 l).
  - discriminate.
  - vm_compute. reflexivity.
  - exact Hchain.
  - exact Hnd.
  - vm_compute. reflexivity.
  - vm_compute. discriminate.
Defined.



(** C9 (counterexample): a session is created and then destroyed while
    the accelerator fails to clear its session object.  Every created
    session has had its destroy, yet the free list holds 2047 records,
    not [MAX_SESSIONS]: the failed destroy did not return the record. *)
Lemma failed_destroy_keeps_record_off_list :
  (fun st => (in_use st, free_list_length (pool_global st)))
    <$> pool_exec sample_config one_device create_then_failed_destroy
          (initial_pool sample_config one_device 8)
  = Some ([2047%nat], Some 2047%nat) /\
  calls_allowed sample_config one_device
    (initial_pool sample_config one_device 8) create_then_failed_destroy
  = true /\
  MAX_SESSIONS = 2048%nat.
Proof. vm_compute. repeat split. Qed.

Lemma pool_conservation_witness :
  pool_conserved after_create_then_destroy /\
  (in_use after_create_then_destroy = [] ->
   free_list_length (pool_global after_create_then_destroy)
   = Some MAX_SESSIONS) /\
  iv_arrays_ok (pool_global after_create_then_destroy).
Proof.
  apply (pool_conservation sample_config one_device 8 create_then_destroy).
  - vm_compute. reflexivity.
  - vm_compute. reflexivity.
  - apply pool_exec_run; vm_compute; reflexivity.
Defined.

(* ================================================================== *)
(** * Further properties of the code *)
(* ================================================================== *)

(** ** The size check, whatever the range *)

(** The loop returns 0 only on a counter value that passed the loop
    condition, and nothing but 0 or -1. *)
Lemma is_valid_size_loop_result fuel length s range v :
  is_valid_size_loop fuel length s range = Some v ->
  (v = 0 /\ length <= max range) \/ v = -1.
Proof.
  revert s. induction fuel as [|fuel IH]; intros s; simpl; [discriminate|].
  destruct (Z.leb_spec s (max range)) as [Hle|Hgt].
  - destruct (Z.eqb_spec length s) as [->|Hne]; [|apply IH].
    intros [= <-]. left. split; [reflexivity|assumption].
  - intros [= <-]. right. reflexivity.
Qed.

Lemma is_valid_size_result length range v :
  is_valid_size length range = Some v ->
  (v = 0 /\ min range <= length <= max range) \/ v = -1.
Proof.
  unfold is_valid_size, is_valid_size_fuel.
  destruct (Z.ltb_spec length (min range)) as [Hlt|Hge];
    [intros [= <-]; right; reflexivity|].
  destruct (negb (min range =? length) && (increment range =? 0));
    [intros [= <-]; right; reflexivity|].
  intros H. destruct (is_valid_size_loop_result _ _ _ _ _ H) as [[-> Hm] | ->];
    [left; split; [reflexivity|lia]|right; reflexivity].
Qed.

(** X1: [is_valid_size] returns 0 or -1, and it never accepts a length
    outside the advertised bounds: a return of 0 means
    [min <= length <= max], also on a range whose counter wraps. *)
Theorem is_valid_size_within_bounds length range v :
  is_valid_size length range = Some v ->
  (v = 0 \/ v = -1) /\ (v = 0 -> min range <= length <= max range).
Proof.
  intros H. destruct (is_valid_size_result _ _ _ H) as [[-> Hb] | ->].
  - split; [left; reflexivity|intros _; exact Hb].
  - split; [right; reflexivity|discriminate].
Qed.

(** X2: on a range of 16-bit fields with [max + increment < 65536] the
    size check returns, and it returns 0 exactly when
    [min <= length <= max] and [length] is [min] or lies a multiple of a
    positive [increment] above it; otherwise it returns -1. *)
Theorem is_valid_size_decides_supported length range :
  range_wf range -> range_no_wrap range ->
  (is_valid_size length range = Some 0 \/
   is_valid_size length range = Some (-1)) /\
  (is_valid_size length range = Some 0 <->
   min range <= length /\
   (length = min range \/
    (0 < increment range /\
     (length - min range) mod increment range = 0)) /\
   length <= max range).
Proof.
  intros Hwf Hnw. rewrite (is_valid_size_no_wrap _ _ Hwf Hnw).
  unfold size_supported.
  destruct (Z.leb_spec (min range) length);
    destruct (Z.eqb_spec length (min range));
    destruct (Z.ltb_spec 0 (increment range));
    destruct (Z.eqb_spec ((length - min range) mod increment range) 0);
    destruct (Z.leb_spec length (max range)); cbn;
    (split; [auto|]); split; try discriminate; try reflexivity;
    intros; lia.
Qed.

(** ** The device selector, whatever the ranges *)

Lemma find_cipher_cap_In caps a k iv :
  find_cipher_cap caps a = Some (k, iv) -> cap_cipher a k iv ∈ caps.
Proof.
  induction caps as [|c caps IH]; simpl; [discriminate|].
  destruct c; try solve [intros H; apply elem_of_cons; right; auto].
  case_decide as Heq.
  - intros [= <- <-]. subst. apply elem_of_cons. left. reflexivity.
  - intros H. apply elem_of_cons. right. auto.
Qed.

Lemma find_auth_cap_In caps a k d iv :
  find_auth_cap caps a = Some (k, d, iv) -> cap_auth a k d iv ∈ caps.
Proof.
  induction caps as [|c caps IH]; simpl; [discriminate|].
  destruct c; try solve [intros H; apply elem_of_cons; right; auto].
  case_decide as Heq.
  - intros [= <- <- <-]. subst. apply elem_of_cons. left. reflexivity.
  - intros H. apply elem_of_cons. right. auto.
Qed.

Lemma find_aead_cap_In caps a k d iv :
  find_aead_cap caps a = Some (k, d, iv) ->
  exists aad, cap_aead a k d aad iv ∈ caps.
Proof.
  induction caps as [|c caps IH]; simpl; [discriminate|].
  destruct c;
    try solve [intros H; destruct (IH H) as [aad Ha]; exists aad;
               apply elem_of_cons; right; assumption].
  case_decide as Heq.
  - intros [= <- <- <-]. subst. eexists. apply elem_of_cons. left.
    reflexivity.
  - intros H. destruct (IH H) as [aad Ha]. exists aad.
    apply elem_of_cons. right. assumption.
Qed.

(** One size check inside a device check: either it does not return, or
    it rejects, or it accepts a length within the bounds. *)
Ltac size_step l r :=
  let v := fresh "v" in
  let Hv := fresh "Hv" in
  destruct (is_valid_size l r) as [v|] eqn:Hv;
  cbn [mbind option_bind]; [|discriminate];
  destruct (is_valid_size_result _ _ _ Hv) as [[-> ?] | ->];
  cbn [Z.eqb negb]; [|discriminate].

Lemma cipher_dev_check_true caps x :
  cipher_dev_check caps x = Some true -> cipher_within caps x.
Proof.
  unfold cipher_dev_check, cipher_within.
  destruct (find_cipher_cap caps (cipher_algo x)) as [[k iv]|] eqn:Hf;
    [|discriminate].
  apply find_cipher_cap_In in Hf.
  size_step (cipher_key_length x) k.
  destruct (Z.ltb_spec MAX_IV_LENGTH (cipher_iv_length x)); [discriminate|].
  size_step (cipher_iv_length x) iv.
  intros _. exists k, iv. auto.
Qed.

Lemma auth_dev_check_true caps x :
  auth_dev_check caps x = Some true -> auth_within caps x.
Proof.
  unfold auth_dev_check, auth_within.
  destruct (find_auth_cap caps (auth_algo x)) as [[[k d] iv]|] eqn:Hf;
    [|discriminate].
  apply find_auth_cap_In in Hf.
  size_step (auth_key_length x) k.
  size_step (auth_digest_length x) d.
  destruct (Z.ltb_spec MAX_IV_LENGTH (auth_iv_length x)); [discriminate|].
  size_step (auth_iv_length x) iv.
  intros _. exists k, d, iv. auto.
Qed.

Lemma aead_dev_check_true caps x :
  aead_dev_check caps x = Some true -> aead_within caps x.
Proof.
  unfold aead_dev_check, aead_within.
  destruct (find_aead_cap caps (aead_algo x)) as [[[k d] iv]|] eqn:Hf;
    [|discriminate].
  apply find_aead_cap_In in Hf as [aad Hf].
  size_step (aead_key_length x) k.
  destruct (Z.ltb_spec MAX_IV_LENGTH (aead_iv_length x)); [discriminate|].
  size_step (aead_iv_length x) iv.
  size_step (aead_digest_length x) d.
  intros _. exists k, d, aad, iv. auto.
Qed.

Lemma crypto_dev_check_true caps cx ax :
  crypto_dev_check caps cx ax = Some true ->
  (cipher_algo cx <> RTE_CRYPTO_CIPHER_NULL -> cipher_within caps cx) /\
  (auth_algo ax <> RTE_CRYPTO_AUTH_NULL \/
   cipher_algo cx = RTE_CRYPTO_CIPHER_NULL -> auth_within caps ax).
Proof.
  unfold crypto_dev_check.
  destruct (decide (cipher_algo cx = RTE_CRYPTO_CIPHER_NULL)) as [Hc|Hc].
  - rewrite (bool_decide_eq_true_2 _ Hc). cbn. rewrite andb_false_r.
    intros H. split; [contradiction|]. intros _.
    now apply auth_dev_check_true.
  - rewrite (bool_decide_eq_false_2 _ Hc).
    destruct (cipher_dev_check caps cx) as [[|]|] eqn:Hcheck; cbn;
      try discriminate.
    apply cipher_dev_check_true in Hcheck.
    destruct (decide (auth_algo ax = RTE_CRYPTO_AUTH_NULL)) as [Ha|Ha].
    + rewrite (bool_decide_eq_true_2 _ Ha). cbn. intros _.
      split; [auto|]. intros [?|?]; contradiction.
    + rewrite (bool_decide_eq_false_2 _ Ha). cbn. intros H.
      split; [auto|]. intros _. now apply auth_dev_check_true.
Qed.

(** The scan returns the first device whose check returns [true]; the
    checks of the devices before it all returned [false]. *)
Lemma dev_scan_selected check drv ids d :
  dev_scan check drv ids = Some (Some d) ->
  exists before after,
    ids = before ++ d :: after /\
    check (capabilities (rte_cryptodev_info_get drv d)) = Some true /\
    Forall (fun d' =>
              check (capabilities (rte_cryptodev_info_get drv d'))
              = Some false) before.
Proof.
  induction ids as [|a ids IH]; simpl; [discriminate|].
  destruct (check (capabilities (rte_cryptodev_info_get drv a)))
    as [[|]|] eqn:Ha; cbn; [| |discriminate].
  - intros [= <-]. exists [], ids. auto.
  - intros H. destruct (IH H) as (before & after & -> & Hd & Hb).
    exists (a :: before), after. auto.
Qed.

(** X3: the device [get_crypto_dev] selects is an enabled one, scanned
    after devices that all failed their check; unless the cipher is NULL
    the device advertises the cipher algorithm with bounds that contain
    the key and IV lengths, and the IV is at most [MAX_IV_LENGTH]; unless
    the auth is NULL next to a cipher that is not, the same holds for
    the auth algorithm and its key, digest and IV lengths.  No
    assumption on the ranges is needed. *)
Theorem selected_device_within_bounds drv g cx ax d :
  get_crypto_dev drv g cx ax = Some (Some d) ->
  let caps := capabilities (rte_cryptodev_info_get drv d) in
  (exists before after,
     enabled_ids g = before ++ d :: after /\
     Forall (fun d' =>
               crypto_dev_check
                 (capabilities (rte_cryptodev_info_get drv d')) cx ax
               = Some false) before) /\
  (cipher_algo cx <> RTE_CRYPTO_CIPHER_NULL -> cipher_within caps cx) /\
  (auth_algo ax <> RTE_CRYPTO_AUTH_NULL \/
   cipher_algo cx = RTE_CRYPTO_CIPHER_NULL -> auth_within caps ax).
Proof.
  unfold get_crypto_dev. intros H.
  destruct (dev_scan_selected _ _ _ _ H) as (before & after & Hids & Hd & Hb).
  cbv zeta. split; [eauto|]. now apply crypto_dev_check_true.
Qed.

(** X4: the device [get_crypto_aead_dev] selects is an enabled one,
    scanned after devices that all failed their check; it advertises the
    AEAD algorithm with bounds that contain the key, IV and digest
    lengths, and the IV is at most [MAX_IV_LENGTH].  The AAD length is
    not checked against the advertised AAD range. *)
Theorem selected_aead_device_within_bounds drv g aead d :
  get_crypto_aead_dev drv g aead = Some (Some d) ->
  (exists before after,
     enabled_ids g = before ++ d :: after /\
     Forall (fun d' =>
               aead_dev_check
                 (capabilities (rte_cryptodev_info_get drv d')) aead
               = Some false) before) /\
  aead_within (capabilities (rte_cryptodev_info_get drv d)) aead.
Proof.
  unfold get_crypto_aead_dev. intros H.
  destruct (dev_scan_selected _ _ _ _ H) as (before & after & Hids & Hd & Hb).
  split; [eauto|]. now apply aead_dev_check_true.
Qed.

(** ** Session creation in detail *)

Section CreateDetails.

Context (cfg : build_config).

(** The stores of a create and of the selectors leave the device
    tables alone. *)
Lemma enabled_ids_store h e f g :
  enabled_ids (store_session h e (set_free f g)) = enabled_ids g.
Proof. reflexivity. Qed.

(** What a successful [session_create_finish] stores. *)
Lemma session_create_finish_success env param h cx ax chain dev g r g' :
  session_create_finish env param h cx ax chain dev g = (r, g') ->
  create_rc r = 0 ->
  exists dev_id rte,
    dev = Some dev_id /\
    rte_cryptodev_sym_session_create env = Some rte /\
    0 <= rte_cryptodev_sym_session_init env dev_id chain /\
    r = {| create_rc := 0; session_out := Some h;
           status := ODP_CRYPTO_SES_CREATE_ERR_NONE |} /\
    g' = store_session h
           {| next := next (session_at g h);
              p := p (session_at g h);
              rte_session := Some rte;
              cipher_xform := cx;
              auth_xform := ax;
              cdev_nb_qpairs :=
                default 0 (enabled_crypto_dev_nb_qpairs g !! Z.to_nat dev_id);
              cdev_id := dev_id;
              cipher_iv_data :=
                match iv_data (cipher_iv param) with
                | Some data =>
                    memcpy (cipher_iv_data (session_at g h)) data
                      (iv_length (cipher_iv param))
                | None => cipher_iv_data (session_at g h)
                end;
              auth_iv_data :=
                match iv_data (auth_iv param) with
                | Some data =>
                    memcpy (auth_iv_data (session_at g h)) data
                      (iv_length (auth_iv param))
                | None => auth_iv_data (session_at g h)
                end |} g.
Proof.
  unfold session_create_finish, session_create_err.
  destruct dev as [dev_id|]; [|intros [= <- <-]; discriminate].
  destruct (rte_cryptodev_sym_session_create env) as [rte|];
    [|intros [= <- <-]; discriminate].
  destruct (Z.ltb_spec (rte_cryptodev_sym_session_init env dev_id chain) 0);
    [intros [= <- <-]; discriminate|].
  intros [= <- <-] _. exists dev_id, rte. auto.
Qed.

(** A successful create: the handle is the head of the free list, the
    record at the handle is built from the parameters, and nothing else
    in the global state changes. *)
Lemma session_create_success drv env param g r g' :
  odp_crypto_session_create cfg drv env param g = Some (r, g') ->
  create_rc r = 0 ->
  exists h,
    rte_cryptodev_count drv <> 0 /\
    free g = Some h /\
    r = {| create_rc := 0; session_out := Some h;
           status := ODP_CRYPTO_SES_CREATE_ERR_NONE |} /\
    free g' = next (session_at g h) /\
    enabled_crypto_devs g' = enabled_crypto_devs g /\
    enabled_crypto_dev_ids g' = enabled_crypto_dev_ids g /\
    enabled_crypto_dev_nb_qpairs g' = enabled_crypto_dev_nb_qpairs g /\
    (forall i, i <> h -> session_at g' i = session_at g i) /\
    ((h < length (sessions g))%nat ->
     created_with cfg drv env param g (session_at g' h) /\
     cipher_iv_data (session_at g' h)
     = match iv_data (cipher_iv param) with
       | Some data =>
           memcpy (cipher_iv_data (session_at g h)) data
             (iv_length (cipher_iv param))
       | None => cipher_iv_data (session_at g h)
       end /\
     auth_iv_data (session_at g' h)
     = match iv_data (auth_iv param) with
       | Some data =>
           memcpy (auth_iv_data (session_at g h)) data
             (iv_length (auth_iv param))
       | None => auth_iv_data (session_at g h)
       end).
Proof.
  unfold odp_crypto_session_create.
  destruct (Z.eqb_spec (rte_cryptodev_count drv) 0) as [Hc|Hc];
    [intros [= <- <-]; discriminate|].
  unfold alloc_session.
  destruct (free g) as [h|] eqn:Hfree; [|intros [= <- <-]; discriminate].
  set (s0 := session_at g h).
  set (g1 := store_session h (set_next None s0) (set_free (next s0) g)).
  set (sp := deprecated_digest_len cfg param).
  set (g2 := store_session h (set_p sp (session_at g1 h)) g1).
  assert (Hat2 : (h < length (sessions g))%nat ->
                 session_at g2 h = set_p sp (set_next None s0)).
  { intros Hh. unfold g2. rewrite session_at_store_eq.
    - unfold g1. now rewrite session_at_store_eq.
    - unfold g1. simpl. now rewrite length_insert. }
  assert (Hfin : forall cx ax chain dev,
    session_create_finish env param h cx ax chain dev g2 = (r, g') ->
    create_rc r = 0 ->
    exists dev_id,
      dev = Some dev_id /\
      r = {| create_rc := 0; session_out := Some h;
             status := ODP_CRYPTO_SES_CREATE_ERR_NONE |} /\
      free g' = next s0 /\
      enabled_crypto_devs g' = enabled_crypto_devs g /\
      enabled_crypto_dev_ids g' = enabled_crypto_dev_ids g /\
      enabled_crypto_dev_nb_qpairs g' = enabled_crypto_dev_nb_qpairs g /\
      (forall i, i <> h -> session_at g' i = session_at g i) /\
      ((h < length (sessions g))%nat ->
       next (session_at g' h) = None /\
       p (session_at g' h) = sp /\
       (rte_session (session_at g' h)
        = rte_cryptodev_sym_session_create env /\
        rte_session (session_at g' h) <> None) /\
       cdev_id (session_at g' h) = dev_id /\
       cdev_nb_qpairs (session_at g' h)
       = default 0 (enabled_crypto_dev_nb_qpairs g !! Z.to_nat dev_id) /\
       cipher_xform (session_at g' h) = cx /\
       auth_xform (session_at g' h) = ax /\
       cipher_iv_data (session_at g' h)
       = match iv_data (cipher_iv param) with
         | Some data =>
             memcpy (cipher_iv_data s0) data (iv_length (cipher_iv param))
         | None => cipher_iv_data s0
         end /\
       auth_iv_data (session_at g' h)
       = match iv_data (auth_iv param) with
         | Some data =>
             memcpy (auth_iv_data s0) data (iv_length (auth_iv param))
         | None => auth_iv_data s0
         end)).
  { intros cx ax chain dev Hf Hrc.
    destruct (session_create_finish_success _ _ _ _ _ _ _ _ _ _ Hf Hrc)
      as (dev_id & rte & -> & Hrte & _ & -> & ->).
    exists dev_id. split; [reflexivity|]. split; [reflexivity|].
    split; [reflexivity|]. split; [reflexivity|]. split; [reflexivity|].
    split; [reflexivity|]. split.
    - intros i Hi. rewrite session_at_store_ne by congruence.
      unfold g2. rewrite session_at_store_ne by congruence.
      unfold g1. now rewrite session_at_store_ne by congruence.
    - intros Hh. rewrite session_at_store_eq
        by (unfold g2, g1; simpl; now rewrite !length_insert).
      rewrite (Hat2 Hh). cbn. rewrite Hrte. repeat split. discriminate. }
  destruct (cipher_is_aead cfg (cipher_alg param)) eqn:Haead.
  - destruct (crypto_fill_aead_xform cfg env sp) as [aead|] eqn:Hfill;
      [|intros [= <- <-]; discriminate].
    destruct (get_crypto_aead_dev drv g2 aead) as [dev|] eqn:Hdev;
      [|discriminate].
    cbn [mbind option_bind]. intros [= Hf] Hrc.
    destruct (Hfin _ _ _ _ Hf Hrc)
      as (dev_id & -> & -> & Hfree' & He1 & He2 & He3 & Hframe & Hrec).
    exists h. repeat (split; [assumption || reflexivity|]).
    intros Hh.
    destruct (Hrec Hh) as (Hn & Hp & Hr & Hid & Hq & Hcx & Hax & Hci & Hai).
    split; [|split; assumption].
    constructor; try assumption; [now rewrite Hid|].
    left. split; [exact Haead|]. exists aead. rewrite Hid.
    repeat split; assumption.
  - destruct (crypto_fill_cipher_xform cfg env sp) as [cx|] eqn:Hfc;
      [|intros [= <- <-]; discriminate].
    destruct (crypto_fill_auth_xform cfg env sp) as [ax|] eqn:Hfa;
      [|intros [= <- <-]; discriminate].
    destruct (get_crypto_dev drv g2 cx ax) as [dev|] eqn:Hdev;
      [|discriminate].
    cbn [mbind option_bind]. intros [= Hf] Hrc.
    destruct (Hfin _ _ _ _ Hf Hrc)
      as (dev_id & -> & -> & Hfree' & He1 & He2 & He3 & Hframe & Hrec).
    exists h. repeat (split; [assumption || reflexivity|]).
    intros Hh.
    destruct (Hrec Hh) as (Hn & Hp & Hr & Hid & Hq & Hcx & Hax & Hci & Hai).
    split; [|split; assumption].
    constructor; try assumption; [now rewrite Hid|].
    right. split; [exact Haead|]. exists cx, ax. rewrite Hid.
    repeat split; assumption.
Qed.

Lemma session_create_finish_status env param h cx ax chain dev g r g' :
  session_create_finish env param h cx ax chain dev g = (r, g') ->
  (create_rc r = 0 /\ status r = ODP_CRYPTO_SES_CREATE_ERR_NONE /\
   session_out r = Some h) \/
  (create_rc r = -1 /\ status r = ODP_CRYPTO_SES_CREATE_ERR_ENOMEM /\
   session_out r = None).
Proof.
  unfold session_create_finish, session_create_err.
  destruct dev as [dev_id|]; [|intros [= <- <-]; right; auto].
  destruct (rte_cryptodev_sym_session_create env) as [rte|];
    [|intros [= <- <-]; right; auto].
  destruct (rte_cryptodev_sym_session_init env dev_id chain <? 0);
    intros [= <- <-]; [right|left]; auto.
Qed.

(** X5: the three outputs of [odp_crypto_session_create] agree: the
    return value is 0 or -1; it is 0 exactly when the status is NONE and
    exactly when the handle is valid.  INV_CIPHER is reported only when
    the cipher (or fused AEAD) transform could not be filled, INV_AUTH
    only on the non-AEAD path when the auth transform could not. *)
Theorem session_create_outputs_agree drv env param g r g' :
  odp_crypto_session_create cfg drv env param g = Some (r, g') ->
  (create_rc r = 0 \/ create_rc r = -1) /\
  (create_rc r = 0 <-> status r = ODP_CRYPTO_SES_CREATE_ERR_NONE) /\
  (create_rc r = 0 <-> session_out r <> None) /\
  (status r = ODP_CRYPTO_SES_CREATE_ERR_INV_CIPHER ->
   if cipher_is_aead cfg (cipher_alg param)
   then crypto_fill_aead_xform cfg env (deprecated_digest_len cfg param)
        = None
   else crypto_fill_cipher_xform cfg env (deprecated_digest_len cfg param)
        = None) /\
  (status r = ODP_CRYPTO_SES_CREATE_ERR_INV_AUTH ->
   cipher_is_aead cfg (cipher_alg param) = false /\
   crypto_fill_auth_xform cfg env (deprecated_digest_len cfg param) = None).
Proof.
  assert (Hfail : forall st,
    st <> ODP_CRYPTO_SES_CREATE_ERR_NONE ->
    create_rc r = -1 -> status r = st -> session_out r = None ->
    (create_rc r = 0 \/ create_rc r = -1) /\
    (create_rc r = 0 <-> status r = ODP_CRYPTO_SES_CREATE_ERR_NONE) /\
    (create_rc r = 0 <-> session_out r <> None)).
  { intros st Hst -> -> ->. split; [auto|].
    split; split; intros; congruence. }
  unfold odp_crypto_session_create.
  destruct (rte_cryptodev_count drv =? 0).
  { intros [= <- <-]. cbn. repeat split; try discriminate; tauto. }
  destruct (alloc_session g) as [[h|] g1].
  2:{ intros [= <- <-]. cbn. repeat split; try discriminate; tauto. }
  assert (Hfin : forall cx ax chain dev g2,
    Some (session_create_finish env param h cx ax chain dev g2)
    = Some (r, g') ->
    (create_rc r = 0 \/ create_rc r = -1) /\
    (create_rc r = 0 <-> status r = ODP_CRYPTO_SES_CREATE_ERR_NONE) /\
    (create_rc r = 0 <-> session_out r <> None) /\
    status r <> ODP_CRYPTO_SES_CREATE_ERR_INV_CIPHER /\
    status r <> ODP_CRYPTO_SES_CREATE_ERR_INV_AUTH).
  { intros cx ax chain dev g2 [= Hf].
    destruct (session_create_finish_status _ _ _ _ _ _ _ _ _ _ Hf)
      as [(H1 & H2 & H3)|(H1 & H2 & H3)]; rewrite H1, H2, H3;
      repeat split; try discriminate; try tauto; auto. }
  destruct (cipher_is_aead cfg (cipher_alg param)).
  - destruct (crypto_fill_aead_xform cfg env _) as [aead|].
    + destruct (get_crypto_aead_dev drv _ aead) as [dev|]; [|discriminate].
      cbn [mbind option_bind]. intros Hf.
      destruct (Hfin _ _ _ _ _ Hf) as (? & ? & ? & ? & ?).
      repeat split; try tauto.
    + intros [= <- <-]. cbn. repeat split; try discriminate; tauto.
  - destruct (crypto_fill_cipher_xform cfg env _) as [cx|].
    + destruct (crypto_fill_auth_xform cfg env _) as [ax|].
      * destruct (get_crypto_dev drv _ cx ax) as [dev|]; [|discriminate].
        cbn [mbind option_bind]. intros Hf.
        destruct (Hfin _ _ _ _ _ Hf) as (? & ? & ? & ? & ?).
        repeat split; try tauto.
      * intros [= <- <-]. cbn. repeat split; try discriminate; tauto.
    + intros [= <- <-]. cbn. repeat split; try discriminate; tauto.
Qed.

(** The invariant of the reachable states, unpacked. *)
Lemma reachable_pool drv cpu_count calls st :
  pool_run cfg drv (initial_pool cfg drv cpu_count) calls st ->
  exists l,
    length (sessions (pool_global st)) = MAX_SESSIONS /\
    free_chain (pool_global st) (free (pool_global st)) l /\
    NoDup l /\ NoDup (in_use st) /\
    (forall h, h ∈ in_use st -> h ∉ l) /\
    (forall h, h ∈ in_use st -> (h < MAX_SESSIONS)%nat) /\
    (forall h, h ∈ l -> (h < MAX_SESSIONS)%nat) /\
    (length (in_use st) + length l = MAX_SESSIONS)%nat.
Proof.
  intros Hrun.
  destruct (pool_inv_run _ _ _ _ _ (pool_inv_initial cfg drv cpu_count) Hrun)
    as (l & Hlen & Hchain & Hnd & Hcount & Hb).
  exists l. apply NoDup_app in Hnd as (Hu & Hul & Hl).
  rewrite Forall_forall in Hb.
  pose proof (free_chain_bounded _ _ _ Hchain) as Hlb.
  rewrite Hlen, Forall_forall in Hlb. auto 10.
Qed.

(** A create in a reachable state keeps the IV arrays. *)
Lemma iv_arrays_after_create drv cpu_count calls st env param r g' :
  calls_ivs_fit calls = true ->
  param_ivs_fit param = true ->
  pool_run cfg drv (initial_pool cfg drv cpu_count) calls st ->
  odp_crypto_session_create cfg drv env param (pool_global st)
    = Some (r, g') ->
  iv_arrays_ok g'.
Proof.
  intros Hfits Hfit Hrun Hcreate.
  eapply iv_arrays_create; [|exact Hfit|exact Hcreate].
  exact (iv_arrays_run _ _ _ _ _ Hrun (iv_arrays_initial cfg drv cpu_count)
           Hfits).
Qed.

(** X6: a create never disturbs a session in use.  From a state reached
    after a successful initialisation by allowed calls whose IVs fit the
    record, a create whose IVs fit leaves, whether it succeeds or fails,
    every record in use and the device tables as before; the handle of
    a successful create is below [MAX_SESSIONS] and is not the handle of
    a session in use; and both IV arrays of every record still hold
    [MAX_IV_LENGTH] bytes.  (An IV longer than the array is copied into
    the record that follows, which may be in use: the create takes the
    records from the highest index down.) *)
Theorem create_preserves_live_sessions drv cpu_count calls st env param
    r g' :
  init_rc (odp_crypto_init_global cfg drv cpu_count) = 0 ->
  calls_ivs_fit calls = true ->
  param_ivs_fit param = true ->
  pool_run cfg drv (initial_pool cfg drv cpu_count) calls st ->
  odp_crypto_session_create cfg drv env param (pool_global st)
    = Some (r, g') ->
  (forall i, i ∈ in_use st ->
     session_at g' i = session_at (pool_global st) i) /\
  enabled_ids g' = enabled_ids (pool_global st) /\
  enabled_crypto_dev_nb_qpairs g'
    = enabled_crypto_dev_nb_qpairs (pool_global st) /\
  (forall h, session_out r = Some h ->
     (h ∉ in_use st) /\ (h < MAX_SESSIONS)%nat) /\
  iv_arrays_ok g'.
Proof.
  intros _ Hfits Hfit Hrun Hcreate.
  destruct (reachable_pool _ _ _ _ Hrun)
    as (l & Hlen & Hchain & Hndl & Hndu & Hul & Hub & Hlb & _).
  pose proof (iv_arrays_after_create _ _ _ _ _ _ _ _ Hfits Hfit Hrun
                Hcreate) as Harr.
  destruct (session_create_outcome _ _ _ _ _ _ _ Hcreate)
    as [(_ & -> & _ & ->)|[(_ & -> & h & _ & Hfree & ->)
                          |(_ & h & e & _ & Hfree & -> & ->)]].
  - repeat split; try discriminate; apply Harr.
  - rewrite Hfree in Hchain.
    destruct (free_chain_head _ _ _ Hchain) as (l' & -> & _ & _).
    split; [|repeat split; try discriminate; apply Harr].
    intros i Hi.
    change (session_at (released h (pool_global st)) i)
      with (session_at (store_session h
              (set_next (next (session_at (pool_global st) h)) zero_session)
              (pool_global st)) i).
    apply session_at_store_ne. intros ->.
    apply (Hul i Hi). apply elem_of_cons. left. reflexivity.
  - rewrite Hfree in Hchain.
    destruct (free_chain_head _ _ _ Hchain) as (l' & -> & _ & _).
    assert (Hhl : h ∈ h :: l') by (apply elem_of_cons; left; reflexivity).
    split; [|split; [reflexivity|split; [reflexivity|split]]].
    + intros i Hi. rewrite session_at_store_ne; [reflexivity|].
      intros ->. exact (Hul i Hi Hhl).
    + intros h' [= <-]. split; [|auto].
      intros Hin. exact (Hul h Hin Hhl).
    + exact Harr.
Qed.

(** X7: when all [MAX_SESSIONS] records are in use, in a state reached
    after a successful initialisation by allowed calls whose IVs fit
    the record, a create returns at once with -1, the invalid handle
    and ENOMEM, and changes nothing. *)
Theorem exhausted_pool_create_fails drv cpu_count calls st env param :
  init_rc (odp_crypto_init_global cfg drv cpu_count) = 0 ->
  calls_ivs_fit calls = true ->
  pool_run cfg drv (initial_pool cfg drv cpu_count) calls st ->
  length (in_use st) = MAX_SESSIONS ->
  odp_crypto_session_create cfg drv env param (pool_global st)
  = Some ({| create_rc := -1; session_out := None;
             status := ODP_CRYPTO_SES_CREATE_ERR_ENOMEM |},
          pool_global st).
Proof.
  intros _ _ Hrun Hfull.
  destruct (reachable_pool _ _ _ _ Hrun)
    as (l & _ & Hchain & _ & _ & _ & _ & _ & Hcount).
  assert (l = []) as -> by (destruct l; [reflexivity|simpl in Hcount; lia]).
  simpl in Hchain.
  unfold odp_crypto_session_create, alloc_session. rewrite Hchain.
  now destruct (rte_cryptodev_count drv =? 0).
Qed.

(** X8: a record that a destroy has released is the next one handed
    out: after a destroy of [h] that returns 0, a create that succeeds
    returns the handle [h]. *)
Theorem destroy_then_create_reuses_slot drv denv h g g1 env param r g2 :
  odp_crypto_session_destroy denv h g = (0, g1) ->
  odp_crypto_session_create cfg drv env param g1 = Some (r, g2) ->
  create_rc r = 0 ->
  session_out r = Some h.
Proof.
  unfold odp_crypto_session_destroy.
  destruct (rte_cryptodev_sym_session_clear denv _ _ <? 0); [discriminate|].
  destruct (rte_cryptodev_sym_session_free denv _ <? 0); [discriminate|].
  intros [= <-] Hcreate Hrc.
  destruct (session_create_outcome _ _ _ _ _ _ _ Hcreate)
    as [(Hrc' & _)|[(Hrc' & _)|(_ & h' & e & _ & Hfree & -> & _)]];
    [congruence|congruence|].
  rewrite free_memset in Hfree. simpl in Hfree. congruence.
Qed.

(** X9: a destroyed session cannot be operated on: after a destroy of
    [h] that returns 0 the record holds no accelerator session, and an
    operation on the handle [h] returns -1 without a result. *)
Theorem operation_after_destroy_fails denv h g g1 env pkt_in out param :
  odp_crypto_session_destroy denv h g = (0, g1) ->
  session param = Some h ->
  rte_session (session_at g1 h) = None /\
  odp_crypto_int cfg env g1 pkt_in out param = crypto_int_failed out.
Proof.
  unfold odp_crypto_session_destroy.
  destruct (rte_cryptodev_sym_session_clear denv _ _ <? 0); [discriminate|].
  destruct (rte_cryptodev_sym_session_free denv _ <? 0); [discriminate|].
  intros [= <-] Hs.
  assert (Hnone : rte_session
                    (session_at (free_session h (memset_session h g)) h)
                  = None).
  { rewrite free_memset.
    change (session_at (set_free (Some h) ?g') h) with (session_at g' h).
    unfold session_at, store_session. simpl.
    destruct (decide (h < length (sessions g))%nat).
    - now rewrite list_lookup_insert_eq.
    - rewrite list_insert_ge by lia.
      now rewrite (lookup_ge_None_2 (sessions g) h) by lia. }
  split; [assumption|].
  unfold odp_crypto_int. now rewrite Hs, Hnone.
Qed.

(** X10: a destroy touches no other session: whatever it returns, the
    record of every other handle and the device tables are as before. *)
Theorem destroy_preserves_other_sessions denv h g :
  let r := odp_crypto_session_destroy denv h g in
  (forall i, i <> h -> session_at (r.2) i = session_at g i) /\
  enabled_ids (r.2) = enabled_ids g /\
  enabled_crypto_dev_nb_qpairs (r.2) = enabled_crypto_dev_nb_qpairs g.
Proof.
  cbv zeta. unfold odp_crypto_session_destroy.
  destruct (rte_cryptodev_sym_session_clear denv _ _ <? 0); [simpl; auto|].
  destruct (rte_cryptodev_sym_session_free denv _ <? 0); [simpl; auto|].
  cbn [snd]. rewrite free_memset. repeat split.
  intros i Hi.
  change (session_at (set_free (Some h) ?g') i) with (session_at g' i).
  apply session_at_store_ne. congruence.
Qed.

Lemma deprecated_digest_len_ivs param :
  cipher_iv (deprecated_digest_len cfg param) = cipher_iv param /\
  auth_iv (deprecated_digest_len cfg param) = auth_iv param /\
  cipher_alg (deprecated_digest_len cfg param) = cipher_alg param.
Proof.
  unfold deprecated_digest_len.
  destruct (ODP_DEPRECATED_API cfg); [|auto].
  destruct (auth_alg param); auto.
Qed.

Lemma take_memcpy dst src n :
  (Z.to_nat n <= length src)%nat ->
  take (Z.to_nat n) (memcpy dst src n) = take (Z.to_nat n) src.
Proof.
  intros Hn. unfold memcpy. apply take_app_length'.
  rewrite length_take. lia.
Qed.

(** A result that reports [IV_INVALID] for a primitive comes from a
    call that found that primitive's IV missing. *)
Lemma odp_crypto_int_iv_invalid env g pkt_in out param h res :
  session param = Some h ->
  op_result (odp_crypto_int cfg env g pkt_in out param) = Some res ->
  (alg_err (cipher_status res) = ODP_CRYPTO_ALG_ERR_IV_INVALID ->
   cipher_iv_missing cfg (session_at g h) param = true) /\
  (alg_err (auth_status res) = ODP_CRYPTO_ALG_ERR_IV_INVALID ->
   auth_iv_missing cfg (session_at g h) param = true).
Proof.
  intros Hs. unfold odp_crypto_int. rewrite Hs.
  destruct (rte_session (session_at g h)); [|discriminate].
  destruct (resolve_out_pkt env (session_at g h) out) as [out_pkt|];
    [|discriminate].
  destruct (negb (pkt_in =? out_pkt) && _); [discriminate|].
  destruct (negb (rte_crypto_op_alloc env)); [discriminate|].
  rewrite placement_outcomes.
  generalize (Z.to_nat MAX_DEQ_RETRIES). intros retries.
  destruct (cipher_iv_missing cfg (session_at g h) param),
    (auth_iv_missing cfg (session_at g h) param);
    cbn [bool_decide decide_rel andb].
  1-3: intros [= <-]; cbn; split; intros; congruence.
  destruct (rte_cryptodev_enqueue_burst env _ _ =? 0); [discriminate|].
  destruct (dequeue_poll _ _ _ =? 0); [discriminate|].
  destruct (dequeued_status env); intros [= <-]; cbn;
    split; intros; congruence.
Qed.

(** X11: an IV given at creation is cached and used.  In a state
    reached after a successful initialisation by allowed calls whose
    IVs fit the record, a successful create whose IVs fit, and whose
    parameters carry a cipher IV, leaves the bytes given in the first
    [iv_length] places of the record's cipher IV array, and no later
    operation on the session reports [IV_INVALID] for the cipher,
    whether or not it brings an IV of its own; the same holds for the
    auth IV.  Both arrays keep their [MAX_IV_LENGTH] bytes.  (The copy
    is made with the caller's length unchecked; a cipher IV longer than
    its array runs into the auth IV array and the next record.) *)
Theorem session_iv_is_cached drv cpu_count calls st env param r g' :
  init_rc (odp_crypto_init_global cfg drv cpu_count) = 0 ->
  calls_ivs_fit calls = true ->
  param_ivs_fit param = true ->
  pool_run cfg drv (initial_pool cfg drv cpu_count) calls st ->
  odp_crypto_session_create cfg drv env param (pool_global st)
    = Some (r, g') ->
  create_rc r = 0 ->
  exists h,
    session_out r = Some h /\
    length (cipher_iv_data (session_at g' h)) = Z.to_nat MAX_IV_LENGTH /\
    length (auth_iv_data (session_at g' h)) = Z.to_nat MAX_IV_LENGTH /\
    (forall data, iv_data (cipher_iv param) = Some data ->
       (forall oenv pkt_in out op_param res,
          session op_param = Some h ->
          op_result (odp_crypto_int cfg oenv g' pkt_in out op_param)
            = Some res ->
          alg_err (cipher_status res) <> ODP_CRYPTO_ALG_ERR_IV_INVALID) /\
       take (Z.to_nat (iv_length (cipher_iv param)))
         (cipher_iv_data (session_at g' h))
       = take (Z.to_nat (iv_length (cipher_iv param))) data) /\
    (forall data, iv_data (auth_iv param) = Some data ->
       (forall oenv pkt_in out op_param res,
          session op_param = Some h ->
          op_result (odp_crypto_int cfg oenv g' pkt_in out op_param)
            = Some res ->
          alg_err (auth_status res) <> ODP_CRYPTO_ALG_ERR_IV_INVALID) /\
       take (Z.to_nat (iv_length (auth_iv param)))
         (auth_iv_data (session_at g' h))
       = take (Z.to_nat (iv_length (auth_iv param))) data).
Proof.
  intros _ Hfits Hfit Hrun Hcreate Hrc.
  destruct (reachable_pool _ _ _ _ Hrun)
    as (l & Hlen & Hchain & _ & _ & _ & _ & Hlb & _).
  pose proof (iv_arrays_after_create _ _ _ _ _ _ _ _ Hfits Hfit Hrun
                Hcreate) as Harr.
  destruct (session_create_success _ _ _ _ _ _ Hcreate Hrc)
    as (h & _ & Hfree & -> & _ & _ & _ & _ & _ & Hrec).
  rewrite Hfree in Hchain.
  destruct (free_chain_head _ _ _ Hchain) as (l' & -> & Hh & _).
  destruct (Hrec Hh) as ([_ Hp _ _ _] & Hci & Hai).
  destruct (deprecated_digest_len_ivs param) as (Hc & Ha & _).
  apply andb_true_iff in Hfit as [Hfc Hfa]. unfold iv_fits in Hfc, Hfa.
  exists h. split; [reflexivity|].
  split; [apply Harr|]. split; [apply Harr|].
  split; intros data Hdata.
  - rewrite Hdata in Hfc. apply andb_true_iff in Hfc as [Hn Hs].
    apply Nat.leb_le in Hs. split.
    + intros oenv pkt_in out op_param res Hs' Hres Hinv.
      destruct (odp_crypto_int_iv_invalid _ _ _ _ _ _ _ Hs' Hres)
        as [Hm _].
      specialize (Hm Hinv). unfold cipher_iv_missing in Hm.
      rewrite Hp, Hc, Hdata in Hm.
      rewrite andb_false_r in Hm. discriminate.
    + rewrite Hci, Hdata. now apply take_memcpy.
  - rewrite Hdata in Hfa. apply andb_true_iff in Hfa as [Hn Hs].
    apply Nat.leb_le in Hs. split.
    + intros oenv pkt_in out op_param res Hs' Hres Hinv.
      destruct (odp_crypto_int_iv_invalid _ _ _ _ _ _ _ Hs' Hres)
        as [_ Hm].
      specialize (Hm Hinv). unfold auth_iv_missing in Hm.
      rewrite Hp, Ha, Hdata in Hm.
      rewrite andb_false_r in Hm. discriminate.
    + rewrite Hai, Hdata. now apply take_memcpy.
Qed.

Lemma crypto_fill_auth_xform_digest env param ax :
  crypto_fill_auth_xform cfg env param = Some ax ->
  auth_digest_length ax <= PACKET_DIGEST_MAX cfg.
Proof.
  unfold crypto_fill_auth_xform.
  destruct (auth_alg_odp_to_rte cfg (auth_alg param)); [|discriminate].
  cbn [mbind option_bind].
  destruct (Z.ltb_spec (PACKET_DIGEST_MAX cfg)
              (uint16 (auth_digest_len param))); [discriminate|].
  destruct (crypto_init_key _ _); [|discriminate].
  cbn [mbind option_bind]. intros [= <-]. assumption.
Qed.

Lemma crypto_fill_aead_xform_bounds env param a :
  crypto_fill_aead_xform cfg env param = Some a ->
  aead_digest_length a <= PACKET_DIGEST_MAX cfg /\
  aead_aad_length a <= PACKET_AAD_MAX cfg /\
  (aead_algo a = RTE_CRYPTO_AEAD_AES_CCM ->
   aead_aad_length a + AES_CCM_AAD_OFFSET <= PACKET_AAD_MAX cfg).
Proof.
  unfold crypto_fill_aead_xform.
  destruct (cipher_aead_alg_odp_to_rte cfg (cipher_alg param)) as [algo|];
    [|discriminate].
  cbn [mbind option_bind].
  destruct (crypto_init_key _ _); [|discriminate].
  cbn [mbind option_bind].
  destruct (Z.ltb_spec (PACKET_AAD_MAX cfg) (uint16 (auth_aad_len param)));
    [discriminate|].
  destruct (decide (algo = RTE_CRYPTO_AEAD_AES_CCM)) as [Hccm|Hccm].
  - rewrite (bool_decide_eq_true_2 _ Hccm). cbn [andb].
    destruct (Z.ltb_spec (PACKET_AAD_MAX cfg)
                (uint16 (auth_aad_len param) + AES_CCM_AAD_OFFSET));
      [discriminate|].
    destruct (Z.ltb_spec (PACKET_DIGEST_MAX cfg)
                (uint16 (auth_digest_len param))); [discriminate|].
    intros [= <-]. cbn. auto.
  - rewrite (bool_decide_eq_false_2 _ Hccm). cbn [andb].
    destruct (Z.ltb_spec (PACKET_DIGEST_MAX cfg)
                (uint16 (auth_digest_len param))); [discriminate|].
    intros [= <-]. cbn. repeat split; try assumption. contradiction.
Qed.

(** X12: a created session fits the buffers the operations use.  After
    a successful create the record is bound to an enabled device, and
    its transforms obey the limits checked along the way: digest length
    at most [PACKET_DIGEST_MAX]; on an AEAD session AAD length at most
    [PACKET_AAD_MAX] (with 18 bytes to spare for AES-CCM) and IV length
    at most [MAX_IV_LENGTH]; on other sessions IV length at most
    [MAX_IV_LENGTH] for a cipher that is not NULL, and for the auth
    unless it is NULL beside such a cipher. *)
Theorem created_session_within_buffers drv cpu_count calls st env param
    r g' :
  pool_run cfg drv (initial_pool cfg drv cpu_count) calls st ->
  odp_crypto_session_create cfg drv env param (pool_global st)
    = Some (r, g') ->
  create_rc r = 0 ->
  exists h,
    session_out r = Some h /\
    cdev_id (session_at g' h) ∈ enabled_ids (pool_global st) /\
    ((exists a,
        cipher_xform (session_at g' h) = xform_aead a /\
        aead_digest_length a <= PACKET_DIGEST_MAX cfg /\
        aead_aad_length a <= PACKET_AAD_MAX cfg /\
        (aead_algo a = RTE_CRYPTO_AEAD_AES_CCM ->
         aead_aad_length a + AES_CCM_AAD_OFFSET <= PACKET_AAD_MAX cfg) /\
        aead_iv_length a <= MAX_IV_LENGTH) \/
     (exists c a,
        cipher_xform (session_at g' h) = xform_cipher c /\
        auth_xform (session_at g' h) = xform_auth a /\
        auth_digest_length a <= PACKET_DIGEST_MAX cfg /\
        (cipher_algo c <> RTE_CRYPTO_CIPHER_NULL ->
         cipher_iv_length c <= MAX_IV_LENGTH) /\
        (auth_algo a <> RTE_CRYPTO_AUTH_NULL \/
         cipher_algo c = RTE_CRYPTO_CIPHER_NULL ->
         auth_iv_length a <= MAX_IV_LENGTH))).
Proof.
  intros Hrun Hcreate Hrc.
  destruct (reachable_pool _ _ _ _ Hrun)
    as (l & Hlen & Hchain & _ & _ & _ & _ & Hlb & _).
  destruct (session_create_success _ _ _ _ _ _ Hcreate Hrc)
    as (h & _ & Hfree & -> & _ & _ & _ & _ & _ & Hrec).
  rewrite Hfree in Hchain.
  destruct (free_chain_head _ _ _ Hchain) as (l' & -> & Hh & _).
  destruct (Hrec Hh) as ([_ _ _ _ Hx] & _ & _).
  exists h. split; [reflexivity|].
  destruct Hx as [(_ & a & Hfill & Hdev & Hcx & _)
                 |(_ & c & a & Hfc & Hfa & Hdev & Hcx & Hax)].
  - unfold get_crypto_aead_dev in Hdev.
    destruct (dev_scan_selected _ _ _ _ Hdev)
      as (before & after & Hids & Hcheck & _).
    split; [rewrite Hids, elem_of_app, elem_of_cons; auto|].
    left. exists a. split; [assumption|].
    destruct (crypto_fill_aead_xform_bounds _ _ _ Hfill) as (? & ? & ?).
    destruct (aead_dev_check_true _ _ Hcheck)
      as (? & ? & ? & ? & _ & _ & _ & _ & ?).
    auto.
  - unfold get_crypto_dev in Hdev.
    destruct (dev_scan_selected _ _ _ _ Hdev)
      as (before & after & Hids & Hcheck & _).
    split; [rewrite Hids, elem_of_app, elem_of_cons; auto|].
    right. exists c, a. split; [assumption|]. split; [assumption|].
    split; [eapply crypto_fill_auth_xform_digest; eassumption|].
    destruct (crypto_dev_check_true _ _ _ Hcheck) as [Hc Ha].
    split.
    + intros Hn. destruct (Hc Hn) as (? & ? & _ & _ & _ & ?). assumption.
    + intros Hn. destruct (Ha Hn) as (? & ? & ? & _ & _ & _ & _ & ?).
      assumption.
Qed.

End CreateDetails.

(* ================================================================== *)
(** * Operations, batches and shutdown *)
(* ================================================================== *)

Section OperationDetails.

Context (cfg : build_config).

(** A call either fails, leaving the caller's packet slot and writing no
    result, or returns 0 with a packet and a result. *)
Lemma odp_crypto_int_rc env g pkt_in out param :
  odp_crypto_int cfg env g pkt_in out param = crypto_int_failed out \/
  (int_rc (odp_crypto_int cfg env g pkt_in out param) = 0 /\
   exists pkt res,
     pkt_out (odp_crypto_int cfg env g pkt_in out param) = Some pkt /\
     op_result (odp_crypto_int cfg env g pkt_in out param) = Some res).
Proof.
  unfold odp_crypto_int.
  generalize (Z.to_nat MAX_DEQ_RETRIES). intros retries.
  destruct (session param) as [h|]; [|now left].
  destruct (rte_session (session_at g h)); [|now left].
  destruct (resolve_out_pkt env (session_at g h) out) as [out_pkt|];
    [|now left].
  destruct (negb (pkt_in =? out_pkt) && _); [now left|].
  destruct (negb (rte_crypto_op_alloc env)); [now left|].
  destruct (if cipher_is_aead cfg _ then _ else _) as [rc_cipher rc_auth].
  destruct (bool_decide _ && bool_decide _).
  - destruct (rte_cryptodev_enqueue_burst env _ _ =? 0); [now left|].
    destruct (dequeue_poll _ _ _ =? 0); [now left|].
    destruct (classify_status (dequeued_status env)).
    right. cbn. eauto.
  - right. cbn. eauto.
Qed.

(** What the part of a call behind the lock can report. *)
Lemma odp_crypto_int_reports env g pkt_in out param :
  let r := odp_crypto_int cfg env g pkt_in out param in
  r = crypto_int_failed out \/
  (int_rc r = 0 /\
   exists pkt res,
     pkt_out r = Some pkt /\ op_result r = Some res /\
     hw_err (cipher_status res) = ODP_CRYPTO_HW_ERR_NONE /\
     hw_err (auth_status res) = ODP_CRYPTO_HW_ERR_NONE /\
     crypto_err r = negb (ok res) /\
     (ok res = true <->
      alg_err (cipher_status res) = ODP_CRYPTO_ALG_ERR_NONE /\
      alg_err (auth_status res) = ODP_CRYPTO_ALG_ERR_NONE) /\
     (alg_err (cipher_status res) = ODP_CRYPTO_ALG_ERR_NONE \/
      alg_err (cipher_status res) = ODP_CRYPTO_ALG_ERR_IV_INVALID) /\
     (alg_err (auth_status res) = ODP_CRYPTO_ALG_ERR_NONE \/
      alg_err (auth_status res) = ODP_CRYPTO_ALG_ERR_IV_INVALID \/
      alg_err (auth_status res) = ODP_CRYPTO_ALG_ERR_ICV_CHECK) /\
     (queue_pair r = None <->
      alg_err (cipher_status res) = ODP_CRYPTO_ALG_ERR_IV_INVALID \/
      alg_err (auth_status res) = ODP_CRYPTO_ALG_ERR_IV_INVALID) /\
     (alg_err (auth_status res) = ODP_CRYPTO_ALG_ERR_ICV_CHECK ->
      dequeued_status env = RTE_CRYPTO_OP_STATUS_AUTH_FAILED)).
Proof.
  cbv zeta. unfold odp_crypto_int.
  generalize (Z.to_nat MAX_DEQ_RETRIES). intros retries.
  destruct (session param) as [h|]; [|now left].
  destruct (rte_session (session_at g h)); [|now left].
  destruct (resolve_out_pkt env (session_at g h) out) as [out_pkt|];
    [|now left].
  destruct (negb (pkt_in =? out_pkt) && _); [now left|].
  destruct (negb (rte_crypto_op_alloc env)); [now left|].
  rewrite placement_outcomes.
  destruct (cipher_iv_missing cfg (session_at g h) param),
    (auth_iv_missing cfg (session_at g h) param);
    cbn [bool_decide decide_rel andb].
  1-3: right; cbn; split; [reflexivity|]; do 2 eexists;
    do 2 (split; [reflexivity|]); cbn;
    repeat split; try discriminate; auto; intuition discriminate.
  destruct (rte_cryptodev_enqueue_burst env _ _ =? 0); [now left|].
  destruct (dequeue_poll _ _ _ =? 0); [now left|].
  right. destruct (dequeued_status env); cbn;
    (split; [reflexivity|]); do 2 eexists;
    do 2 (split; [reflexivity|]); cbn;
    repeat split; try discriminate; auto; intuition discriminate.
Qed.

(** *** The lock *)

(** A call that does not come to the lock fails. *)
Lemma odp_crypto_int_short env g pkt_in out param :
  reaches_lock env g pkt_in out param = false ->
  odp_crypto_int cfg env g pkt_in out param = crypto_int_failed out.
Proof.
  unfold reaches_lock, odp_crypto_int.
  generalize (Z.to_nat MAX_DEQ_RETRIES). intros retries.
  destruct (session param) as [h|]; [|reflexivity].
  destruct (rte_session (session_at g h)); [|reflexivity].
  destruct (resolve_out_pkt env (session_at g h) out) as [out_pkt|];
    [|reflexivity].
  destruct (negb (pkt_in =? out_pkt) && _); [reflexivity|discriminate].
Qed.

(** A call that comes to the lock and gets no descriptor fails. *)
Lemma odp_crypto_int_alloc_failed env g pkt_in out param :
  rte_crypto_op_alloc env = false ->
  odp_crypto_int cfg env g pkt_in out param = crypto_int_failed out.
Proof.
  intros Ha. unfold odp_crypto_int. rewrite Ha.
  generalize (Z.to_nat MAX_DEQ_RETRIES). intros retries.
  destruct (session param) as [h|]; [|reflexivity].
  destruct (rte_session (session_at g h)); [|reflexivity].
  destruct (resolve_out_pkt env (session_at g h) out) as [out_pkt|];
    [|reflexivity].
  destruct (negb (pkt_in =? out_pkt) && _); reflexivity.
Qed.

Lemma odp_crypto_int_locked_short env g held pkt_in out param :
  reaches_lock env g pkt_in out param = false ->
  odp_crypto_int_locked cfg env g held pkt_in out param
  = Some (crypto_int_failed out, held).
Proof.
  unfold reaches_lock, odp_crypto_int_locked.
  destruct (session param) as [h|]; [|reflexivity].
  destruct (rte_session (session_at g h)); [|reflexivity].
  destruct (resolve_out_pkt env (session_at g h) out) as [out_pkt|];
    [|reflexivity].
  destruct (negb (pkt_in =? out_pkt) && _); [reflexivity|discriminate].
Qed.

Lemma odp_crypto_int_locked_reached env g held pkt_in out param :
  reaches_lock env g pkt_in out param = true ->
  odp_crypto_int_locked cfg env g held pkt_in out param
  = if held then None
    else if negb (rte_crypto_op_alloc env)
    then Some (crypto_int_failed out, true)
    else Some (odp_crypto_int cfg env g pkt_in out param, false).
Proof.
  unfold reaches_lock, odp_crypto_int_locked.
  destruct (session param) as [h|]; [|discriminate].
  destruct (rte_session (session_at g h)); [|discriminate].
  destruct (resolve_out_pkt env (session_at g h) out) as [out_pkt|];
    [|discriminate].
  destruct (negb (pkt_in =? out_pkt) && _); [discriminate|reflexivity].
Qed.

(** Called while the lock is free, the call returns what
    [odp_crypto_int] computes, and leaves the lock held when it came to
    the lock and got no descriptor. *)
Lemma odp_crypto_int_locked_free env g pkt_in out param :
  odp_crypto_int_locked cfg env g false pkt_in out param
  = Some (odp_crypto_int cfg env g pkt_in out param,
          reaches_lock env g pkt_in out param
          && negb (rte_crypto_op_alloc env)).
Proof.
  destruct (reaches_lock env g pkt_in out param) eqn:Hr.
  - rewrite odp_crypto_int_locked_reached by exact Hr.
    destruct (rte_crypto_op_alloc env) eqn:Ha; cbn; [reflexivity|].
    now rewrite odp_crypto_int_alloc_failed.
  - rewrite odp_crypto_int_locked_short by exact Hr.
    now rewrite odp_crypto_int_short.
Qed.

(** The two ways a call made while the lock is free returns: it fails,
    or it returns 0 with a packet and leaves the lock free. *)
Lemma odp_crypto_int_locked_cases env g pkt_in out param :
  (exists held',
     odp_crypto_int_locked cfg env g false pkt_in out param
     = Some (crypto_int_failed out, held')) \/
  (exists r pkt,
     odp_crypto_int_locked cfg env g false pkt_in out param
     = Some (r, false) /\
     int_rc r = 0 /\ pkt_out r = Some pkt).
Proof.
  rewrite odp_crypto_int_locked_free.
  destruct (odp_crypto_int_rc env g pkt_in out param)
    as [E|(E & pkt & res & Hp & _)].
  - left. rewrite E. eauto.
  - right. exists (odp_crypto_int cfg env g pkt_in out param), pkt.
    split; [|auto].
    destruct (reaches_lock env g pkt_in out param) eqn:Hr;
      [|reflexivity].
    destruct (rte_crypto_op_alloc env) eqn:Ha; [reflexivity|].
    rewrite odp_crypto_int_alloc_failed in E by exact Ha.
    discriminate.
Qed.


(** The polling loop leaves with 0 exactly when every attempt it makes
    gets nothing: [retries_left + 1] attempts, counted from [attempt]. *)
Lemma dequeue_poll_zero dequeue retries_left : forall attempt,
  dequeue_poll dequeue attempt retries_left = 0 <->
  forall k, (k <= retries_left)%nat -> dequeue (attempt + k)%nat = 0.
Proof.
  induction retries_left as [|n IH]; intros attempt; simpl.
  - split.
    + intros H k Hk. replace (attempt + k)%nat with attempt by lia.
      exact H.
    + intros H. specialize (H 0%nat).
      rewrite Nat.add_0_r in H. apply H. lia.
  - destruct (Z.eqb_spec (dequeue attempt) 0) as [H0|H0].
    + rewrite IH. split.
      * intros H k Hk. destruct k as [|k].
        -- now rewrite Nat.add_0_r.
        -- replace (attempt + S k)%nat with (S attempt + k)%nat by lia.
           apply H. lia.
      * intros H k Hk.
        replace (S attempt + k)%nat with (attempt + S k)%nat by lia.
        apply H. lia.
    + split; [contradiction|].
      intros H. specialize (H 0%nat). rewrite Nat.add_0_r in H.
      apply H. lia.
Qed.

(** A call that has its session, packet, descriptor and IVs and whose
    descriptor the accelerator takes: what it returns hangs on the
    polling loop alone. *)
Lemma odp_crypto_int_polls env g pkt_in out param h rte out_pkt :
  session param = Some h ->
  rte_session (session_at g h) = Some rte ->
  resolve_out_pkt env (session_at g h) out = Some out_pkt ->
  pkt_in = out_pkt \/ 0 <= odp_packet_copy_from_pkt env ->
  rte_crypto_op_alloc env = true ->
  cipher_iv_missing cfg (session_at g h) param = false ->
  auth_iv_missing cfg (session_at g h) param = false ->
  let s := session_at g h in
  let qp := Z.rem (odp_cpu_id env) (cdev_nb_qpairs s) in
  rte_cryptodev_enqueue_burst env (cdev_id s) qp <> 0 ->
  odp_crypto_int cfg env g pkt_in out param
  = if dequeue_poll (rte_cryptodev_dequeue_burst env (cdev_id s) qp)
         0 (Z.to_nat MAX_DEQ_RETRIES) =? 0
    then crypto_int_failed out
    else crypto_int_done s out_pkt
           (classify_status (dequeued_status env)).1
           (classify_status (dequeued_status env)).2
           (dequeued_status env) (Some qp).
Proof.
  intros Hs Hrte Hout Hcopy Halloc Hc Ha s qp Henq.
  unfold odp_crypto_int. rewrite Hs. fold s. unfold s at 1.
  rewrite Hrte. fold s. unfold s at 1. rewrite Hout.
  assert (negb (pkt_in =? out_pkt) && (odp_packet_copy_from_pkt env <? 0)
          = false) as ->.
  { destruct Hcopy as [->|Hcp].
    - now rewrite Z.eqb_refl.
    - destruct (Z.ltb_spec (odp_packet_copy_from_pkt env) 0); [lia|].
      apply andb_false_r. }
  rewrite Halloc. cbn [negb]. fold s.
  rewrite placement_outcomes. fold s in Hc, Ha. rewrite Hc, Ha.
  cbn [bool_decide decide_rel andb]. fold qp.
  destruct (Z.eqb_spec (rte_cryptodev_enqueue_burst env (cdev_id s) qp) 0);
    [contradiction|].
  generalize (Z.to_nat MAX_DEQ_RETRIES). intros retries.
  destruct (dequeue_poll _ _ _ =? 0); [reflexivity|].
  now destruct (classify_status (dequeued_status env)).
Qed.

(** X14: the wait for a submitted descriptor is bounded.  A call that
    has its session, packet, descriptor and IVs and whose descriptor the
    accelerator takes polls the queue pair at most
    [MAX_DEQ_RETRIES + 1] times: it fails with -1 exactly when all of
    these attempts get nothing, and returns 0 on the queue pair
    [odp_cpu_id () % cdev_nb_qpairs] exactly when one of them gets the
    descriptor back. *)
Theorem poll_gives_up_after_retries env g pkt_in out param h rte out_pkt :
  session param = Some h ->
  rte_session (session_at g h) = Some rte ->
  resolve_out_pkt env (session_at g h) out = Some out_pkt ->
  pkt_in = out_pkt \/ 0 <= odp_packet_copy_from_pkt env ->
  rte_crypto_op_alloc env = true ->
  cipher_iv_missing cfg (session_at g h) param = false ->
  auth_iv_missing cfg (session_at g h) param = false ->
  let s := session_at g h in
  let qp := Z.rem (odp_cpu_id env) (cdev_nb_qpairs s) in
  rte_cryptodev_enqueue_burst env (cdev_id s) qp <> 0 ->
  let r := odp_crypto_int cfg env g pkt_in out param in
  (r = crypto_int_failed out <->
   forall k, Z.of_nat k <= MAX_DEQ_RETRIES ->
     rte_cryptodev_dequeue_burst env (cdev_id s) qp k = 0) /\
  (int_rc r = 0 /\ queue_pair r = Some qp <->
   exists k, Z.of_nat k <= MAX_DEQ_RETRIES /\
     rte_cryptodev_dequeue_burst env (cdev_id s) qp k <> 0).
Proof.
  intros Hs Hrte Hout Hcopy Halloc Hc Ha s qp Henq r. subst r.
  rewrite (odp_crypto_int_polls _ _ _ _ _ _ _ _
             Hs Hrte Hout Hcopy Halloc Hc Ha Henq).
  fold s. fold qp.
  set (dq := rte_cryptodev_dequeue_burst env (cdev_id s) qp).
  assert (forall P : nat -> Prop,
            (forall k, Z.of_nat k <= MAX_DEQ_RETRIES -> P k) <->
            (forall k, (k <= Z.to_nat MAX_DEQ_RETRIES)%nat -> P k)) as Hb.
  { intros P. split; intros H k Hk; apply H; unfold MAX_DEQ_RETRIES in *;
      lia. }
  rewrite (Hb (fun k => dq k = 0)).
  assert ((exists k, Z.of_nat k <= MAX_DEQ_RETRIES /\ dq k <> 0) <->
          ~ (forall k, (k <= Z.to_nat MAX_DEQ_RETRIES)%nat -> dq k = 0))
    as ->.
  { rewrite <- (Hb (fun k => dq k = 0)).
    split.
    - intros (k & Hk & Hne) H. apply Hne, H, Hk.
    - intros Hn.
      destruct (decide (Forall (fun k => dq k = 0)
                  (seq 0 (S (Z.to_nat MAX_DEQ_RETRIES))))) as [Hall|Hex].
      + exfalso. apply Hn. intros k Hk.
        rewrite Forall_forall in Hall. apply Hall.
        apply elem_of_seq. lia.
      + apply not_Forall_Exists in Hex; [|intros k; apply _].
        apply Exists_exists in Hex as (k & Hk & Hne).
        apply elem_of_seq in Hk. exists k.
        split; [unfold MAX_DEQ_RETRIES in *; lia|exact Hne]. }
  pose proof (dequeue_poll_zero dq (Z.to_nat MAX_DEQ_RETRIES) 0%nat)
    as Hpoll.
  cbn [Nat.add] in Hpoll. rewrite <- Hpoll. clear Hpoll Hb.
  generalize (Z.to_nat MAX_DEQ_RETRIES). intros retries.
  destruct (Z.eqb_spec (dequeue_poll dq 0 retries) 0) as [H0|H0].
  - split; [tauto|]. split; [|tauto]. intros [Hrc _]. cbn in Hrc.
    discriminate.
  - cbn. split; [|tauto]. split; [discriminate|contradiction].
Qed.

(** X15: shutdown reports sessions that were never released.  In a
    state reached after a successful initialisation by allowed create
    and destroy calls whose IVs fit the record,
    [odp_crypto_term_global] returns, with 0 or -1, and it returns 0
    exactly when no session is in use any more and [odp_shm_free]
    succeeds. *)
Theorem term_global_checks_sessions drv cpu_count calls st shm_free :
  init_rc (odp_crypto_init_global cfg drv cpu_count) = 0 ->
  calls_ivs_fit calls = true ->
  pool_run cfg drv (initial_pool cfg drv cpu_count) calls st ->
  exists rc,
    odp_crypto_term_global (pool_global st) shm_free = Some rc /\
    (rc = 0 \/ rc = -1) /\
    (rc = 0 <-> in_use st = [] /\ 0 <= shm_free).
Proof.
  intros _ _ Hrun.
  pose proof (pool_inv_run _ _ _ _ _ (pool_inv_initial cfg drv cpu_count)
                Hrun) as Hinv.
  destruct (pool_inv_conserved _ Hinv) as (n & Hn & Hsum).
  unfold odp_crypto_term_global. rewrite Hn. cbn [mbind option_bind].
  eexists. split; [reflexivity|].
  assert (in_use st = [] <-> n = MAX_SESSIONS) as ->.
  { split.
    - intros E. rewrite E in Hsum. cbn in Hsum. lia.
    - intros ->. destruct (in_use st); [reflexivity|].
      cbn in Hsum. lia. }
  destruct (Z.ltb_spec shm_free 0);
    destruct (decide (n = MAX_SESSIONS)) as [E|E].
  - split; [auto|]. split; [discriminate|]. lia.
  - split; [auto|]. split; [discriminate|]. lia.
  - rewrite bool_decide_eq_false_2 by (intros X; contradiction).
    split; [auto|]. split; auto.
  - rewrite bool_decide_eq_true_2 by assumption.
    split; [auto|]. split; [discriminate|]. tauto.
Qed.

(** The loop of [odp_crypto_op], from any round on, entered with the
    lock free. *)
Lemma odp_crypto_op_loop_spec env g pkt_in param orig todo :
  forall i cur,
    (i + todo <= length pkt_in)%nat ->
    (i + todo <= length orig)%nat ->
    (i + todo <= length param)%nat ->
    length cur = length orig ->
    (forall j, (i <= j)%nat -> cur !! j = orig !! j) ->
    exists r,
      odp_crypto_op_loop cfg env g pkt_in param i todo false cur = Some r /\
      (i <= op_rc r <= i + todo)%nat /\
      length (op_pkt_out r) = length orig /\
      (forall j, (j < i)%nat -> op_pkt_out r !! j = cur !! j) /\
      (forall j, (op_rc r <= j)%nat -> op_pkt_out r !! j = orig !! j) /\
      (forall j, (i <= j < op_rc r)%nat ->
         exists pkt out par rj,
           pkt_in !! j = Some pkt /\ orig !! j = Some out /\
           param !! j = Some par /\
           odp_crypto_int_locked cfg (env j) g false pkt out par
             = Some (rj, false) /\
           int_rc rj = 0 /\ is_Some (pkt_out rj) /\
           op_pkt_out r !! j = Some (pkt_out rj)) /\
      ((op_rc r < i + todo)%nat ->
       exists pkt out par,
         pkt_in !! op_rc r = Some pkt /\ orig !! op_rc r = Some out /\
         param !! op_rc r = Some par /\
         odp_crypto_int_locked cfg (env (op_rc r)) g false pkt out par
         = Some (crypto_int_failed out, op_lock_held r)) /\
      (op_rc r = (i + todo)%nat -> op_lock_held r = false).
Proof.
  induction todo as [|todo IH]; intros i cur Hin Hout Hpar Hlen Hsame.
  - eexists. split; [reflexivity|]. cbn.
    repeat split; auto; try lia.
  - cbn [odp_crypto_op_loop].
    destruct (lookup_lt_is_Some_2 pkt_in i) as [pkt Hpkt]; [lia|].
    destruct (lookup_lt_is_Some_2 orig i) as [out Ho]; [lia|].
    destruct (lookup_lt_is_Some_2 param i) as [par Hp]; [lia|].
    rewrite Hpkt, (Hsame i) by lia. rewrite Ho, Hp.
    cbn [mbind option_bind].
    destruct (odp_crypto_int_locked_cases (env i) g pkt out par)
      as [(held' & Hcall)|(ri & pk & Hcall & Hrc & Hpk)];
      rewrite Hcall; cbn [mbind option_bind fst snd].
    + eexists. split; [reflexivity|]. cbn.
      repeat split; auto; try lia.
      intros _. exists pkt, out, par. auto.
    + rewrite Hrc. cbn [Z.ltb Z.compare].
      destruct (IH (S i) (<[i := pkt_out ri]> cur))
        as (r & Hr & Hb & Hl & Hlow & Hhigh & Hdone & Hfail & Hall);
        try lia.
      { now rewrite length_insert. }
      { intros j Hj. rewrite list_lookup_insert_ne by lia.
        apply Hsame. lia. }
      exists r. split; [exact Hr|].
      split; [lia|]. split; [exact Hl|].
      split.
      { intros j Hj. rewrite Hlow by lia.
        apply list_lookup_insert_ne. lia. }
      split; [exact Hhigh|].
      split.
      { intros j Hj. destruct (decide (j = i)) as [->|Hne].
        - exists pkt, out, par, ri.
          do 5 (split; [assumption|]). split.
          + rewrite Hpk. eexists. reflexivity.
          + rewrite Hlow by lia.
            apply list_lookup_insert_eq. lia.
        - apply Hdone. lia. }
      split.
      { intros Hlt. apply Hfail. lia. }
      intros Hn. apply Hall. lia.
Qed.


(** The loop of [odp_crypto_op_enq], from any round on, entered with
    the lock free. *)
Lemma odp_crypto_op_enq_loop_spec env enq g pkt_in pkts_out param todo :
  forall i done,
    (i + todo <= length pkt_in)%nat ->
    (i + todo <= length pkts_out)%nat ->
    (i + todo <= length param)%nat ->
    exists r more,
      odp_crypto_op_enq_loop cfg env enq g pkt_in pkts_out param i todo
        false done = Some r /\
      enqueued r = done ++ more /\
      enq_rc r = (i + length more)%nat /\
      (enq_rc r <= i + todo)%nat /\
      (forall j q pkt, more !! j = Some (q, pkt) ->
         q = batch_compl_queue g param /\
         enq (i + j)%nat q pkt = 0 /\
         exists pkt_i out par rj,
           pkt_in !! (i + j)%nat = Some pkt_i /\
           pkts_out !! (i + j)%nat = Some out /\
           param !! (i + j)%nat = Some par /\
           odp_crypto_int_locked cfg (env (i + j)%nat) g false pkt_i out par
             = Some (rj, false) /\
           int_rc rj = 0 /\ pkt_out rj = Some pkt) /\
      (freed r = [] \/
       exists pkt pkt_i out par rj,
         freed r = [pkt] /\ (enq_rc r < i + todo)%nat /\
         enq_lock_held r = false /\
         enq (enq_rc r) (batch_compl_queue g param) pkt <> 0 /\
         pkt_in !! enq_rc r = Some pkt_i /\
         pkts_out !! enq_rc r = Some out /\
         param !! enq_rc r = Some par /\
         odp_crypto_int_locked cfg (env (enq_rc r)) g false pkt_i out par
           = Some (rj, false) /\
         int_rc rj = 0 /\ pkt_out rj = Some pkt) /\
      ((enq_rc r < i + todo)%nat -> freed r = [] ->
       exists pkt_i out par,
         pkt_in !! enq_rc r = Some pkt_i /\
         pkts_out !! enq_rc r = Some out /\
         param !! enq_rc r = Some par /\
         odp_crypto_int_locked cfg (env (enq_rc r)) g false pkt_i out par
         = Some (crypto_int_failed out, enq_lock_held r)) /\
      (enq_rc r = (i + todo)%nat -> enq_lock_held r = false).
Proof.
  induction todo as [|todo IH]; intros i done Hin Hout Hpar.
  - exists {| enq_rc := i; enqueued := done; freed := [];
              enq_lock_held := false |}, [].
    cbn. rewrite app_nil_r, Nat.add_0_r.
    do 3 (split; [reflexivity|]). split; [lia|].
    split; [intros j q pkt Hj; discriminate|].
    split; [now left|]. split; [lia|reflexivity].
  - cbn [odp_crypto_op_enq_loop].
    destruct (lookup_lt_is_Some_2 pkt_in i) as [pkt_i Hpkt]; [lia|].
    destruct (lookup_lt_is_Some_2 pkts_out i) as [out Ho]; [lia|].
    destruct (lookup_lt_is_Some_2 param i) as [par Hp]; [lia|].
    rewrite Hpkt, Ho, Hp. cbn [mbind option_bind].
    destruct (odp_crypto_int_locked_cases (env i) g pkt_i out par)
      as [(held' & Hcall)|(ri & pk & Hcall & Hrc & Hpk)];
      rewrite Hcall; cbn [mbind option_bind fst snd].
    + exists {| enq_rc := i; enqueued := done; freed := [];
                enq_lock_held := held' |}, [].
      cbn. rewrite app_nil_r, Nat.add_0_r.
      do 3 (split; [reflexivity|]). split; [lia|].
      split; [intros j q pkt Hj; discriminate|].
      split; [now left|]. split; [|lia].
      intros _ _. exists pkt_i, out, par. auto.
    + rewrite Hrc, Hpk. cbn [Z.ltb Z.compare mbind option_bind].
      destruct (Z.eqb_spec (enq i (batch_compl_queue g param) pk) 0)
        as [Henq|Henq]; cbn [negb].
      * destruct (IH (S i) (done ++ [(batch_compl_queue g param, pk)]))
          as (r & more & Hr & Hq & Hn & Hle & Hmore & Hfreed & Hfail
              & Hall);
          try lia.
        exists r, ((batch_compl_queue g param, pk) :: more).
        split; [exact Hr|].
        split; [now rewrite Hq, <- app_assoc|].
        split; [cbn; lia|]. split; [lia|].
        split.
        { intros [|j] q pkt Hj.
          - cbn in Hj. injection Hj as <- <-.
            rewrite Nat.add_0_r. split; [reflexivity|].
            split; [exact Henq|]. exists pkt_i, out, par, ri. auto 10.
          - cbn in Hj.
            replace (i + S j)%nat with (S i + j)%nat by lia.
            now apply Hmore. }
        split.
        { destruct Hfreed
            as [Hfr|(pkt & pi & o & pa & rj & Hfr & Hlt & Hrest)];
            [now left|].
          right. exists pkt, pi, o, pa, rj.
          split; [exact Hfr|]. split; [lia|exact Hrest]. }
        split.
        { intros Hlt Hfr. apply Hfail; [lia|exact Hfr]. }
        intros Hend. apply Hall. lia.
      * exists {| enq_rc := i; enqueued := done; freed := [pk];
                  enq_lock_held := false |}, [].
        cbn. rewrite app_nil_r, Nat.add_0_r.
        do 3 (split; [reflexivity|]). split; [lia|].
        split; [intros j q pkt Hj; discriminate|].
        split; [|split; [|lia]].
        -- right. exists pk, pkt_i, out, par, ri.
           split; [reflexivity|]. split; [lia|]. auto 10.
        -- intros _ Hfr. discriminate.
Qed.


End OperationDetails.

(* ================================================================== *)
(** * The capability catalog *)
(* ================================================================== *)

Section CapabilityDetails.

Context (cfg : build_config).

(** Closes an equivalence between a computed bit and the cases that
    set it. *)
Ltac bit_cases :=
  split;
  [ let H := fresh in
    intros H;
    first [ left; exact H | right; repeat split; congruence ]
  | let H := fresh in
    intros [H|H];
    first [ exact H | reflexivity
          | exfalso; decompose [and] H; congruence ] ].

Lemma set_bit_true {B : Type} `{EqDecision B} (b b' : B) field :
  set_bit b field b' = true <-> b' = b \/ field b' = true.
Proof.
  unfold set_bit. destruct (decide (b' = b)); intuition congruence.
Qed.

(** What one cipher entry adds to the cipher field: the bits of the ODP
    algorithms that the mapper sends to the entry's algorithm. *)
Lemma capability_process_cipher_bit algo field alg b :
  cipher_alg_bit alg = Some b ->
  capability_process_cipher cfg algo field b = true <->
  field b = true \/
  (alg <> ODP_CIPHER_ALG_NULL /\ cipher_alg_odp_to_rte cfg alg = Some algo).
Proof.
  intros Hb. unfold capability_process_cipher.
  generalize cfg. intros [[] ? ? ?];
    destruct alg; cbn in Hb; try discriminate; injection Hb as <-;
    destruct algo; vm_compute; bit_cases.
Qed.

Lemma capability_process_aead_cipher_bit algo fields alg b :
  cipher_alg_bit alg = Some b ->
  (capability_process_aead cfg algo fields).1 b = true <->
  fields.1 b = true \/
  (alg <> ODP_CIPHER_ALG_AES_CCM /\
   cipher_aead_alg_odp_to_rte cfg alg = Some algo).
Proof.
  intros Hb. unfold capability_process_aead.
  generalize cfg. intros [[] ? ? ?];
    destruct alg; cbn in Hb; try discriminate; injection Hb as <-;
    destruct algo; vm_compute; bit_cases.
Qed.

Lemma capability_process_auth_bit algo field alg b :
  auth_alg_bit alg = Some b ->
  capability_process_auth cfg algo field b = true <->
  field b = true \/
  (alg <> ODP_AUTH_ALG_NULL /\ alg <> ODP_AUTH_ALG_KASUMI_F9 /\
   auth_alg_odp_to_rte cfg alg = Some algo).
Proof.
  intros Hb. unfold capability_process_auth.
  generalize cfg. intros [[] ? ? ?];
    destruct alg; cbn in Hb; try discriminate; injection Hb as <-;
    destruct algo; vm_compute; bit_cases.
Qed.

Lemma capability_process_aead_auth_bit algo fields alg b :
  auth_alg_bit alg = Some b ->
  (capability_process_aead cfg algo fields).2 b = true <->
  fields.2 b = true \/
  (alg <> ODP_AUTH_ALG_AES_CCM /\
   auth_aead_alg_odp_to_rte cfg alg = Some algo).
Proof.
  intros Hb. unfold capability_process_aead.
  generalize cfg. intros [[] ? ? ?];
    destruct alg; cbn in Hb; try discriminate; injection Hb as <-;
    destruct algo; vm_compute; bit_cases.
Qed.

Lemma advertises_cipher_nil alg : ~ advertises_cipher cfg [] alg.
Proof.
  intros [(a & k & iv & _ & H)|(a & k & d & aad & iv & _ & H)];
    now apply elem_of_nil in H.
Qed.

Lemma advertises_cipher_cons cap caps alg :
  advertises_cipher cfg (cap :: caps) alg <->
  advertises_cipher cfg [cap] alg \/ advertises_cipher cfg caps alg.
Proof.
  unfold advertises_cipher. split.
  - intros [(a & k & iv & Hm & H)|(a & k & d & aad & iv & Hm & H)];
      apply elem_of_cons in H as [H|H].
    + left. left. exists a, k, iv. rewrite <- H.
      split; [exact Hm|apply list_elem_of_singleton; reflexivity].
    + right. left. eauto.
    + left. right. exists a, k, d, aad, iv. rewrite <- H.
      split; [exact Hm|apply list_elem_of_singleton; reflexivity].
    + right. right. eauto 10.
  - intros [[(a & k & iv & Hm & H)|(a & k & d & aad & iv & Hm & H)]
           |[(a & k & iv & Hm & H)|(a & k & d & aad & iv & Hm & H)]].
    + apply list_elem_of_singleton in H. left. exists a, k, iv.
      split; [exact Hm|]. rewrite H. apply list_elem_of_here.
    + apply list_elem_of_singleton in H. right. exists a, k, d, aad, iv.
      split; [exact Hm|]. rewrite H. apply list_elem_of_here.
    + left. exists a, k, iv. split; [exact Hm|].
      now apply list_elem_of_further.
    + right. exists a, k, d, aad, iv. split; [exact Hm|].
      now apply list_elem_of_further.
Qed.

Lemma advertises_auth_nil alg : ~ advertises_auth cfg [] alg.
Proof.
  intros [(a & k & d & iv & _ & H)|(a & k & d & aad & iv & _ & H)];
    now apply elem_of_nil in H.
Qed.

Lemma advertises_auth_cons cap caps alg :
  advertises_auth cfg (cap :: caps) alg <->
  advertises_auth cfg [cap] alg \/ advertises_auth cfg caps alg.
Proof.
  unfold advertises_auth. split.
  - intros [(a & k & d & iv & Hm & H)|(a & k & d & aad & iv & Hm & H)];
      apply elem_of_cons in H as [H|H].
    + left. left. exists a, k, d, iv. rewrite <- H.
      split; [exact Hm|apply list_elem_of_singleton; reflexivity].
    + right. left. eauto 10.
    + left. right. exists a, k, d, aad, iv. rewrite <- H.
      split; [exact Hm|apply list_elem_of_singleton; reflexivity].
    + right. right. eauto 10.
  - intros [[(a & k & d & iv & Hm & H)|(a & k & d & aad & iv & Hm & H)]
           |[(a & k & d & iv & Hm & H)|(a & k & d & aad & iv & Hm & H)]].
    + apply list_elem_of_singleton in H. left. exists a, k, d, iv.
      split; [exact Hm|]. rewrite H. apply list_elem_of_here.
    + apply list_elem_of_singleton in H. right. exists a, k, d, aad, iv.
      split; [exact Hm|]. rewrite H. apply list_elem_of_here.
    + left. exists a, k, d, iv. split; [exact Hm|].
      now apply list_elem_of_further.
    + right. exists a, k, d, aad, iv. split; [exact Hm|].
      now apply list_elem_of_further.
Qed.

(** The plain mapper knows no algorithm that the AEAD mapper knows. *)
Lemma cipher_mappers_disjoint alg a :
  cipher_aead_alg_odp_to_rte cfg alg = Some a ->
  cipher_alg_odp_to_rte cfg alg = None.
Proof. destruct alg; cbn; congruence. Qed.

Lemma auth_mappers_disjoint alg a :
  auth_aead_alg_odp_to_rte cfg alg = Some a ->
  auth_alg_odp_to_rte cfg alg = None.
Proof. destruct alg; cbn; congruence. Qed.

(** What one capability entry adds to the two fields. *)
Lemma capability_process_cap_cipher_bit fields cap alg b :
  cipher_alg_bit alg = Some b ->
  (capability_process_cap cfg fields cap).1 b = true <->
  fields.1 b = true \/
  (alg <> ODP_CIPHER_ALG_NULL /\ alg <> ODP_CIPHER_ALG_AES_CCM /\
   advertises_cipher cfg [cap] alg).
Proof.
  intros Hb. unfold advertises_cipher.
  destruct cap as [algo k iv|algo k d iv|algo k d aad iv|];
    cbn [capability_process_cap fst snd].
  - rewrite (capability_process_cipher_bit _ _ _ _ Hb).
    split; (intros [H|H]; [now left|right]).
    + destruct H as [Hn Hm]. split; [exact Hn|]. split.
      * intros ->. cbn in Hm. discriminate.
      * left. exists algo, k, iv.
        split; [exact Hm|apply list_elem_of_singleton; reflexivity].
    + destruct H as (Hn & _ & [(a & k' & iv' & Hm & H)
                              |(a & k' & d' & aad' & iv' & Hm & H)]);
        apply list_elem_of_singleton in H; [|discriminate].
      injection H as -> _ _. auto.
  - split; [auto|]. intros [H|(_ & _ & [(a & k' & iv' & Hm & H)
                              |(a & k' & d' & aad' & iv' & Hm & H)])];
      [exact H| |]; apply list_elem_of_singleton in H; discriminate.
  - rewrite (capability_process_aead_cipher_bit _ _ _ _ Hb).
    split; (intros [H|H]; [now left|right]).
    + destruct H as [Hn Hm]. split; [|split; [exact Hn|]].
      * intros ->. cbn in Hm. discriminate.
      * right. exists algo, k, d, aad, iv.
        split; [exact Hm|apply list_elem_of_singleton; reflexivity].
    + destruct H as (_ & Hn & [(a & k' & iv' & Hm & H)
                              |(a & k' & d' & aad' & iv' & Hm & H)]);
        apply list_elem_of_singleton in H; [discriminate|].
      injection H as -> _ _ _ _. auto.
  - split; [auto|]. intros [H|(_ & _ & [(a & k' & iv' & Hm & H)
                              |(a & k' & d' & aad' & iv' & Hm & H)])];
      [exact H| |]; apply list_elem_of_singleton in H; discriminate.
Qed.

Lemma capability_process_cap_auth_bit fields cap alg b :
  auth_alg_bit alg = Some b ->
  (capability_process_cap cfg fields cap).2 b = true <->
  fields.2 b = true \/
  (alg <> ODP_AUTH_ALG_NULL /\ alg <> ODP_AUTH_ALG_AES_CCM /\
   alg <> ODP_AUTH_ALG_KASUMI_F9 /\ advertises_auth cfg [cap] alg).
Proof.
  intros Hb. unfold advertises_auth.
  destruct cap as [algo k iv|algo k d iv|algo k d aad iv|];
    cbn [capability_process_cap fst snd].
  - split; [auto|]. intros [H|(_ & _ & _ & [(a & k' & d' & iv' & Hm & H)
                              |(a & k' & d' & aad' & iv' & Hm & H)])];
      [exact H| |]; apply list_elem_of_singleton in H; discriminate.
  - rewrite (capability_process_auth_bit _ _ _ _ Hb).
    split; (intros [H|H]; [now left|right]).
    + destruct H as (Hn & Hk & Hm). split; [exact Hn|]. split.
      * intros ->. cbn in Hm. discriminate.
      * split; [exact Hk|]. left. exists algo, k, d, iv.
        split; [exact Hm|apply list_elem_of_singleton; reflexivity].
    + destruct H as (Hn & _ & Hk & [(a & k' & d' & iv' & Hm & H)
                              |(a & k' & d' & aad' & iv' & Hm & H)]);
        apply list_elem_of_singleton in H; [|discriminate].
      injection H as -> _ _ _. auto.
  - rewrite (capability_process_aead_auth_bit _ _ _ _ Hb).
    split; (intros [H|H]; [now left|right]).
    + destruct H as [Hn Hm]. split; [|split; [exact Hn|split]].
      * intros ->. cbn in Hm. discriminate.
      * intros ->. cbn in Hm. discriminate.
      * right. exists algo, k, d, aad, iv.
        split; [exact Hm|apply list_elem_of_singleton; reflexivity].
    + destruct H as (_ & Hn & _ & [(a & k' & d' & iv' & Hm & H)
                              |(a & k' & d' & aad' & iv' & Hm & H)]);
        apply list_elem_of_singleton in H; [discriminate|].
      injection H as -> _ _ _ _. auto.
  - split; [auto|]. intros [H|(_ & _ & _ & [(a & k' & d' & iv' & Hm & H)
                              |(a & k' & d' & aad' & iv' & Hm & H)])];
      [exact H| |]; apply list_elem_of_singleton in H; discriminate.
Qed.

(** What the entries of one device add to the two fields. *)
Lemma capability_process_caps_cipher_bit caps alg b :
  cipher_alg_bit alg = Some b ->
  forall fields,
    (fold_left (capability_process_cap cfg) caps fields).1 b = true <->
    fields.1 b = true \/
    (alg <> ODP_CIPHER_ALG_NULL /\ alg <> ODP_CIPHER_ALG_AES_CCM /\
     advertises_cipher cfg caps alg).
Proof.
  intros Hb. induction caps as [|cap caps IH]; intros fields; cbn [fold_left].
  - pose proof (advertises_cipher_nil alg). tauto.
  - rewrite IH, (capability_process_cap_cipher_bit _ _ _ _ Hb),
      (advertises_cipher_cons cap caps). tauto.
Qed.

Lemma capability_process_caps_auth_bit caps alg b :
  auth_alg_bit alg = Some b ->
  forall fields,
    (fold_left (capability_process_cap cfg) caps fields).2 b = true <->
    fields.2 b = true \/
    (alg <> ODP_AUTH_ALG_NULL /\ alg <> ODP_AUTH_ALG_AES_CCM /\
     alg <> ODP_AUTH_ALG_KASUMI_F9 /\ advertises_auth cfg caps alg).
Proof.
  intros Hb. induction caps as [|cap caps IH]; intros fields; cbn [fold_left].
  - pose proof (advertises_auth_nil alg). tauto.
  - rewrite IH, (capability_process_cap_auth_bit _ _ _ _ Hb),
      (advertises_auth_cons cap caps). tauto.
Qed.

Lemma cipher_alg_bit_null alg b :
  cipher_alg_bit alg = Some b ->
  b = cipher_bit_null <-> alg = ODP_CIPHER_ALG_NULL.
Proof.
  destruct alg; cbn; intros [= <-]; split; congruence.
Qed.

Lemma auth_alg_bit_null alg b :
  auth_alg_bit alg = Some b ->
  b = auth_bit_null <-> alg = ODP_AUTH_ALG_NULL.
Proof.
  destruct alg; cbn; intros [= <-]; split; congruence.
Qed.

(** [capability_process]: NULL, and what the device advertises. *)
Lemma capability_process_cipher_field dev_info c a alg b :
  cipher_alg_bit alg = Some b ->
  (capability_process cfg dev_info c a).1 b = true <->
  c b = true \/ alg = ODP_CIPHER_ALG_NULL \/
  (alg <> ODP_CIPHER_ALG_AES_CCM /\
   advertises_cipher cfg (capabilities dev_info) alg).
Proof.
  intros Hb. unfold capability_process.
  rewrite (capability_process_caps_cipher_bit _ _ _ Hb).
  cbn [fst snd]. rewrite set_bit_true, (cipher_alg_bit_null _ _ Hb).
  destruct (decide (alg = ODP_CIPHER_ALG_NULL)); tauto.
Qed.

Lemma capability_process_auth_field dev_info c a alg b :
  auth_alg_bit alg = Some b ->
  (capability_process cfg dev_info c a).2 b = true <->
  a b = true \/ alg = ODP_AUTH_ALG_NULL \/
  (alg <> ODP_AUTH_ALG_AES_CCM /\ alg <> ODP_AUTH_ALG_KASUMI_F9 /\
   advertises_auth cfg (capabilities dev_info) alg).
Proof.
  intros Hb. unfold capability_process.
  rewrite (capability_process_caps_auth_bit _ _ _ Hb).
  cbn [fst snd]. rewrite set_bit_true, (auth_alg_bit_null _ _ Hb).
  destruct (decide (alg = ODP_AUTH_ALG_NULL)); tauto.
Qed.

(** The fields one round of the device loop leaves. *)
Lemma capability_device_fields drv c d :
  let dev_info := rte_cryptodev_info_get drv d in
  let fields := capability_process cfg dev_info (ciphers c) (auths c) in
  ciphers (capability_device cfg drv c d) = fields.1 /\
  auths (capability_device cfg drv c d) = fields.2 /\
  hw_ciphers (capability_device cfg drv c d)
  = (if hw_accelerated dev_info then fields.1 else hw_ciphers c) /\
  hw_auths (capability_device cfg drv c d)
  = (if hw_accelerated dev_info then fields.2 else hw_auths c).
Proof.
  cbv zeta. unfold capability_device. cbv zeta.
  repeat match goal with
         | |- context [if ?x <? ?y then _ else _] => destruct (x <? y)
         | |- context [if ?x =? ?y then _ else _] => destruct (x =? y)
         end; cbn; auto.
Qed.

(** The catalog after the first [n] devices. *)
Lemma seqZ_snoc (n : nat) :
  seqZ 0 (Z.of_nat (S n)) = seqZ 0 (Z.of_nat n) ++ [Z.of_nat n].
Proof.
  now rewrite seqZ_S.
Qed.

Lemma catalog_fields drv (n : nat) :
  let c := fold_left (capability_device cfg drv) (seqZ 0 (Z.of_nat n))
             (initial_capability) in
  (forall alg b, cipher_alg_bit alg = Some b ->
     (ciphers c b = true <->
      (0 < n)%nat /\
      (alg = ODP_CIPHER_ALG_NULL \/
       (alg <> ODP_CIPHER_ALG_AES_CCM /\
        exists d, 0 <= d < Z.of_nat n /\
          advertises_cipher cfg
            (capabilities (rte_cryptodev_info_get drv d)) alg))) /\
     (hw_ciphers c b = true <->
      exists h, 0 <= h < Z.of_nat n /\
        hw_accelerated (rte_cryptodev_info_get drv h) = true /\
        (alg = ODP_CIPHER_ALG_NULL \/
         (alg <> ODP_CIPHER_ALG_AES_CCM /\
          exists d, 0 <= d <= h /\
            advertises_cipher cfg
              (capabilities (rte_cryptodev_info_get drv d)) alg)))) /\
  (forall alg b, auth_alg_bit alg = Some b ->
     (auths c b = true <->
      (0 < n)%nat /\
      (alg = ODP_AUTH_ALG_NULL \/
       (alg <> ODP_AUTH_ALG_AES_CCM /\ alg <> ODP_AUTH_ALG_KASUMI_F9 /\
        exists d, 0 <= d < Z.of_nat n /\
          advertises_auth cfg
            (capabilities (rte_cryptodev_info_get drv d)) alg))) /\
     (hw_auths c b = true <->
      exists h, 0 <= h < Z.of_nat n /\
        hw_accelerated (rte_cryptodev_info_get drv h) = true /\
        (alg = ODP_AUTH_ALG_NULL \/
         (alg <> ODP_AUTH_ALG_AES_CCM /\ alg <> ODP_AUTH_ALG_KASUMI_F9 /\
          exists d, 0 <= d <= h /\
            advertises_auth cfg
              (capabilities (rte_cryptodev_info_get drv d)) alg)))).
Proof.
  induction n as [|n IH].
  - cbn. split; intros alg b Hb; (split; split;
      [discriminate|intros [? _]; lia|discriminate
      |intros (h & ? & _); lia]).
  - rewrite seqZ_snoc, fold_left_app. cbn [fold_left].
    cbv zeta in IH.
    set (c := fold_left (capability_device cfg drv) (seqZ 0 (Z.of_nat n))
                initial_capability) in *.
    destruct (capability_device_fields drv c (Z.of_nat n))
      as (Hc & Ha & Hhc & Hha).
    destruct IH as [IHc IHa].
    split; intros alg b Hb.
    + destruct (IHc alg b Hb) as [IH1 IH2].
      rewrite Hc, Hhc.
      assert ((capability_process cfg (rte_cryptodev_info_get drv
                 (Z.of_nat n)) (ciphers c) (auths c)).1 b = true <->
              (0 < S n)%nat /\
              (alg = ODP_CIPHER_ALG_NULL \/
               (alg <> ODP_CIPHER_ALG_AES_CCM /\
                exists d, 0 <= d < Z.of_nat (S n) /\
                  advertises_cipher cfg
                    (capabilities (rte_cryptodev_info_get drv d)) alg)))
        as Hnew.
      { rewrite (capability_process_cipher_field _ _ _ _ _ Hb), IH1.
        split.
        - intros [(_ & [H|(Hn & d & Hd & H)])|[H|(Hn & H)]];
            (split; [lia|]); auto.
          + right. split; [exact Hn|]. exists d. split; [lia|exact H].
          + right. split; [exact Hn|]. exists (Z.of_nat n).
            split; [lia|exact H].
        - intros (_ & [H|(Hn & d & Hd & H)]); [auto|].
          destruct (decide (d = Z.of_nat n)) as [->|Hne]; [auto|].
          left. split; [lia|]. right. split; [exact Hn|].
          exists d. split; [lia|exact H]. }
      split; [exact Hnew|].
      destruct (hw_accelerated (rte_cryptodev_info_get drv (Z.of_nat n)))
        eqn:Hhw.
      * rewrite Hnew. split.
        -- intros (_ & [H|(Hn & d & Hd & H)]); exists (Z.of_nat n);
             (split; [lia|]); (split; [exact Hhw|]); [auto|].
           right. split; [exact Hn|]. exists d. split; [lia|exact H].
        -- intros (h & Hh & _ & [H|(Hn & d & Hd & H)]);
             (split; [lia|]); [auto|].
           right. split; [exact Hn|]. exists d. split; [lia|exact H].
      * rewrite IH2. split.
        -- intros (h & Hh & Hrest). exists h. split; [lia|exact Hrest].
        -- intros (h & Hh & Hhh & Hrest). exists h.
           destruct (decide (h = Z.of_nat n)) as [->|Hne];
             [congruence|].
           split; [lia|]. split; [exact Hhh|exact Hrest].
    + destruct (IHa alg b Hb) as [IH1 IH2].
      rewrite Ha, Hha.
      assert ((capability_process cfg (rte_cryptodev_info_get drv
                 (Z.of_nat n)) (ciphers c) (auths c)).2 b = true <->
              (0 < S n)%nat /\
              (alg = ODP_AUTH_ALG_NULL \/
               (alg <> ODP_AUTH_ALG_AES_CCM /\
                alg <> ODP_AUTH_ALG_KASUMI_F9 /\
                exists d, 0 <= d < Z.of_nat (S n) /\
                  advertises_auth cfg
                    (capabilities (rte_cryptodev_info_get drv d)) alg)))
        as Hnew.
      { rewrite (capability_process_auth_field _ _ _ _ _ Hb), IH1.
        split.
        - intros [(_ & [H|(Hn & Hk & d & Hd & H)])|[H|(Hn & Hk & H)]];
            (split; [lia|]); auto.
          + right. do 2 (split; [assumption|]).
            exists d. split; [lia|exact H].
          + right. do 2 (split; [assumption|]). exists (Z.of_nat n).
            split; [lia|exact H].
        - intros (_ & [H|(Hn & Hk & d & Hd & H)]); [auto|].
          destruct (decide (d = Z.of_nat n)) as [->|Hne]; [auto|].
          left. split; [lia|]. right. do 2 (split; [assumption|]).
          exists d. split; [lia|exact H]. }
      split; [exact Hnew|].
      destruct (hw_accelerated (rte_cryptodev_info_get drv (Z.of_nat n)))
        eqn:Hhw.
      * rewrite Hnew. split.
        -- intros (_ & [H|(Hn & Hk & d & Hd & H)]); exists (Z.of_nat n);
             (split; [lia|]); (split; [exact Hhw|]); [auto|].
           right. do 2 (split; [assumption|]).
           exists d. split; [lia|exact H].
        -- intros (h & Hh & _ & [H|(Hn & Hk & d & Hd & H)]);
             (split; [lia|]); [auto|].
           right. do 2 (split; [assumption|]).
           exists d. split; [lia|exact H].
      * rewrite IH2. split.
        -- intros (h & Hh & Hrest). exists h. split; [lia|exact Hrest].
        -- intros (h & Hh & Hhh & Hrest). exists h.
           destruct (decide (h = Z.of_nat n)) as [->|Hne];
             [congruence|].
           split; [lia|]. split; [exact Hhh|exact Hrest].
Qed.

(** The fields of the catalog, for a device count that is not 0. *)
Lemma catalog_cipher_field drv alg b :
  rte_cryptodev_count drv mod 256 <> 0 ->
  cipher_alg_bit alg = Some b ->
  ciphers ((odp_crypto_capability cfg drv).2) b = true <->
  alg = ODP_CIPHER_ALG_NULL \/
  (alg <> ODP_CIPHER_ALG_AES_CCM /\
   exists d, 0 <= d < rte_cryptodev_count drv mod 256 /\
     advertises_cipher cfg
       (capabilities (rte_cryptodev_info_get drv d)) alg).
Proof.
  intros Hn Hb. unfold odp_crypto_capability. cbv zeta.
  destruct (Z.eqb_spec (rte_cryptodev_count drv mod 256) 0) as [E|_];
    [contradiction|].
  cbn [fst snd].
  pose proof (Z.mod_pos_bound (rte_cryptodev_count drv) 256 eq_refl) as Hm.
  destruct (catalog_fields drv
              (Z.to_nat (rte_cryptodev_count drv mod 256))) as [Hc _].
  rewrite Z2Nat.id in Hc by lia.
  destruct (Hc alg b Hb) as [H1 _].
  assert (forall c : odp_crypto_capability_t,
            ciphers (if Z.of_nat MAX_SESSIONS <? max_sessions c
                     then set_max_sessions (Z.of_nat MAX_SESSIONS) c
                     else c) = ciphers c) as Hcap.
  { intros c. now destruct (_ <? _). }
  rewrite Hcap, H1. split; [tauto|]. intros H. split; [lia|exact H].
Qed.

Lemma catalog_auth_field drv alg b :
  rte_cryptodev_count drv mod 256 <> 0 ->
  auth_alg_bit alg = Some b ->
  auths ((odp_crypto_capability cfg drv).2) b = true <->
  alg = ODP_AUTH_ALG_NULL \/
  (alg <> ODP_AUTH_ALG_AES_CCM /\ alg <> ODP_AUTH_ALG_KASUMI_F9 /\
   exists d, 0 <= d < rte_cryptodev_count drv mod 256 /\
     advertises_auth cfg
       (capabilities (rte_cryptodev_info_get drv d)) alg).
Proof.
  intros Hn Hb. unfold odp_crypto_capability. cbv zeta.
  destruct (Z.eqb_spec (rte_cryptodev_count drv mod 256) 0) as [E|_];
    [contradiction|].
  cbn [fst snd].
  pose proof (Z.mod_pos_bound (rte_cryptodev_count drv) 256 eq_refl) as Hm.
  destruct (catalog_fields drv
              (Z.to_nat (rte_cryptodev_count drv mod 256))) as [_ Ha].
  rewrite Z2Nat.id in Ha by lia.
  destruct (Ha alg b Hb) as [H1 _].
  assert (forall c : odp_crypto_capability_t,
            auths (if Z.of_nat MAX_SESSIONS <? max_sessions c
                   then set_max_sessions (Z.of_nat MAX_SESSIONS) c
                   else c) = auths c) as Hcap.
  { intros c. now destruct (_ <? _). }
  rewrite Hcap, H1. split; [tauto|]. intros H. split; [lia|exact H].
Qed.

(** X18: the cipher algorithms of the catalog.  With at least one
    device, [odp_crypto_capability] returns 0 and reports an algorithm
    exactly when it is NULL, or some device has a capability entry for
    the DPDK algorithm that session creation maps it to and it is not
    AES-CCM, which is never reported.  The hardware field reports it
    exactly when some device is hardware accelerated and the algorithm
    is NULL or advertised by that device or one with a smaller id,
    accelerated or not. *)
Theorem catalog_reports_advertised_ciphers drv alg b :
  rte_cryptodev_count drv mod 256 <> 0 ->
  cipher_alg_bit alg = Some b ->
  let r := odp_crypto_capability cfg drv in
  r.1 = 0 /\
  (ciphers (r.2) b = true <->
   alg = ODP_CIPHER_ALG_NULL \/
   (alg <> ODP_CIPHER_ALG_AES_CCM /\
    exists d, 0 <= d < rte_cryptodev_count drv mod 256 /\
      advertises_cipher cfg
        (capabilities (rte_cryptodev_info_get drv d)) alg)) /\
  (hw_ciphers (r.2) b = true <->
   exists h, 0 <= h < rte_cryptodev_count drv mod 256 /\
     hw_accelerated (rte_cryptodev_info_get drv h) = true /\
     (alg = ODP_CIPHER_ALG_NULL \/
      (alg <> ODP_CIPHER_ALG_AES_CCM /\
       exists d, 0 <= d <= h /\
         advertises_cipher cfg
           (capabilities (rte_cryptodev_info_get drv d)) alg))).
Proof.
  intros Hn Hb. cbv zeta. unfold odp_crypto_capability. cbv zeta.
  destruct (Z.eqb_spec (rte_cryptodev_count drv mod 256) 0) as [E|_];
    [contradiction|].
  cbn [fst snd]. split; [reflexivity|].
  pose proof (Z.mod_pos_bound (rte_cryptodev_count drv) 256 eq_refl) as Hm.
  destruct (catalog_fields drv
              (Z.to_nat (rte_cryptodev_count drv mod 256))) as [Hc _].
  rewrite Z2Nat.id in Hc by lia.
  destruct (Hc alg b Hb) as [H1 H2].
  assert (forall c : odp_crypto_capability_t,
            ciphers (if Z.of_nat MAX_SESSIONS <? max_sessions c
                     then set_max_sessions (Z.of_nat MAX_SESSIONS) c
                     else c) = ciphers c /\
            hw_ciphers (if Z.of_nat MAX_SESSIONS <? max_sessions c
                        then set_max_sessions (Z.of_nat MAX_SESSIONS) c
                        else c) = hw_ciphers c) as Hcap.
  { intros c. now destruct (_ <? _). }
  destruct (Hcap (fold_left (capability_device cfg drv)
                    (seqZ 0 (rte_cryptodev_count drv mod 256))
                    initial_capability)) as [-> ->].
  split; [|exact H2].
  rewrite H1. split; [tauto|]. intros H. split; [lia|exact H].
Qed.

(** X19: the auth algorithms of the catalog.  With at least one device
    an algorithm is reported exactly when it is NULL, or some device has
    a capability entry for the DPDK algorithm that session creation maps
    it to and it is neither AES-CCM nor KASUMI-F9, which are never
    reported; the hardware field follows the same rule as for the
    ciphers. *)
Theorem catalog_reports_advertised_auths drv alg b :
  rte_cryptodev_count drv mod 256 <> 0 ->
  auth_alg_bit alg = Some b ->
  let r := odp_crypto_capability cfg drv in
  r.1 = 0 /\
  (auths (r.2) b = true <->
   alg = ODP_AUTH_ALG_NULL \/
   (alg <> ODP_AUTH_ALG_AES_CCM /\ alg <> ODP_AUTH_ALG_KASUMI_F9 /\
    exists d, 0 <= d < rte_cryptodev_count drv mod 256 /\
      advertises_auth cfg
        (capabilities (rte_cryptodev_info_get drv d)) alg)) /\
  (hw_auths (r.2) b = true <->
   exists h, 0 <= h < rte_cryptodev_count drv mod 256 /\
     hw_accelerated (rte_cryptodev_info_get drv h) = true /\
     (alg = ODP_AUTH_ALG_NULL \/
      (alg <> ODP_AUTH_ALG_AES_CCM /\ alg <> ODP_AUTH_ALG_KASUMI_F9 /\
       exists d, 0 <= d <= h /\
         advertises_auth cfg
           (capabilities (rte_cryptodev_info_get drv d)) alg))).
Proof.
  intros Hn Hb. cbv zeta. unfold odp_crypto_capability. cbv zeta.
  destruct (Z.eqb_spec (rte_cryptodev_count drv mod 256) 0) as [E|_];
    [contradiction|].
  cbn [fst snd]. split; [reflexivity|].
  pose proof (Z.mod_pos_bound (rte_cryptodev_count drv) 256 eq_refl) as Hm.
  destruct (catalog_fields drv
              (Z.to_nat (rte_cryptodev_count drv mod 256))) as [_ Ha].
  rewrite Z2Nat.id in Ha by lia.
  destruct (Ha alg b Hb) as [H1 H2].
  assert (forall c : odp_crypto_capability_t,
            auths (if Z.of_nat MAX_SESSIONS <? max_sessions c
                   then set_max_sessions (Z.of_nat MAX_SESSIONS) c
                   else c) = auths c /\
            hw_auths (if Z.of_nat MAX_SESSIONS <? max_sessions c
                      then set_max_sessions (Z.of_nat MAX_SESSIONS) c
                      else c) = hw_auths c) as Hcap.
  { intros c. now destruct (_ <? _). }
  destruct (Hcap (fold_left (capability_device cfg drv)
                    (seqZ 0 (rte_cryptodev_count drv mod 256))
                    initial_capability)) as [-> ->].
  split; [|exact H2].
  rewrite H1. split; [tauto|]. intros H. split; [lia|exact H].
Qed.

(** The session limit one round of the device loop leaves. *)
Lemma capability_device_max_sessions drv c d :
  max_sessions (capability_device cfg drv c d)
  = (let limit := max_nb_sessions (rte_cryptodev_info_get drv d) in
     let m := if limit <? max_sessions c then limit else max_sessions c in
     if m =? 0 then limit else m).
Proof.
  cbv zeta. unfold capability_device. cbv zeta. cbn [max_sessions].
  destruct (_ <? _); cbn [max_sessions set_max_sessions];
    destruct (_ =? _); reflexivity.
Qed.

Lemma catalog_max_sessions_loop drv (n : nat) :
  (forall d, 0 <= d < Z.of_nat n ->
     0 < max_nb_sessions (rte_cryptodev_info_get drv d)) ->
  let c := fold_left (capability_device cfg drv) (seqZ 0 (Z.of_nat n))
             initial_capability in
  (n = 0%nat -> max_sessions c = 0) /\
  ((0 < n)%nat ->
   (forall d, 0 <= d < Z.of_nat n ->
      max_sessions c <= max_nb_sessions (rte_cryptodev_info_get drv d)) /\
   exists d, 0 <= d < Z.of_nat n /\
     max_sessions c = max_nb_sessions (rte_cryptodev_info_get drv d)).
Proof.
  induction n as [|n IH]; intros Hpos; cbv zeta.
  - split; [reflexivity|lia].
  - rewrite seqZ_snoc, fold_left_app. cbn [fold_left].
    rewrite capability_device_max_sessions. cbv zeta.
    destruct IH as [IH0 IHn]; [intros d Hd; apply Hpos; lia|].
    set (c := fold_left (capability_device cfg drv) (seqZ 0 (Z.of_nat n))
                initial_capability) in *.
    set (limit := max_nb_sessions (rte_cryptodev_info_get drv (Z.of_nat n))).
    assert (0 < limit) as Hl by (apply Hpos; lia).
    split; [lia|]. intros _.
    destruct n as [|n].
    + rewrite IH0 by reflexivity.
      destruct (Z.ltb_spec limit 0); [lia|]. cbn [Z.eqb].
      split.
      * intros d Hd. replace d with 0 by lia. apply Z.le_refl.
      * exists 0. split; [lia|reflexivity].
    + destruct IHn as [Hle (d0 & Hd0 & Heq)]; [lia|].
      assert (0 < max_sessions c) as Hc.
      { rewrite Heq. apply Hpos. lia. }
      destruct (Z.ltb_spec limit (max_sessions c)).
      * destruct (Z.eqb_spec limit 0); [lia|]. split.
        -- intros d Hd.
           destruct (decide (d = Z.of_nat (S n))) as [->|Hne];
             [apply Z.le_refl|].
           transitivity (max_sessions c); [lia|]. apply Hle. lia.
        -- exists (Z.of_nat (S n)). split; [lia|reflexivity].
      * destruct (Z.eqb_spec (max_sessions c) 0); [lia|]. split.
        -- intros d Hd.
           destruct (decide (d = Z.of_nat (S n))) as [->|Hne];
             [exact H|].
           apply Hle. lia.
        -- exists d0. split; [lia|exact Heq].
Qed.

(** X20: the session limit of the catalog.  When every device reports
    a positive session limit, the catalog's [max_sessions] is the
    smallest of these limits, capped at [MAX_SESSIONS]. *)
Theorem catalog_max_sessions drv :
  rte_cryptodev_count drv mod 256 <> 0 ->
  (forall d, 0 <= d < rte_cryptodev_count drv mod 256 ->
     0 < max_nb_sessions (rte_cryptodev_info_get drv d)) ->
  let r := odp_crypto_capability cfg drv in
  r.1 = 0 /\
  max_sessions (r.2) <= Z.of_nat MAX_SESSIONS /\
  (forall d, 0 <= d < rte_cryptodev_count drv mod 256 ->
     max_sessions (r.2) <= max_nb_sessions (rte_cryptodev_info_get drv d)) /\
  (max_sessions (r.2) = Z.of_nat MAX_SESSIONS \/
   exists d, 0 <= d < rte_cryptodev_count drv mod 256 /\
     max_sessions (r.2) = max_nb_sessions (rte_cryptodev_info_get drv d)).
Proof.
  intros Hn Hpos. cbv zeta. unfold odp_crypto_capability. cbv zeta.
  destruct (Z.eqb_spec (rte_cryptodev_count drv mod 256) 0) as [E|_];
    [contradiction|].
  cbn [fst snd]. split; [reflexivity|].
  pose proof (Z.mod_pos_bound (rte_cryptodev_count drv) 256 eq_refl) as Hm.
  destruct (catalog_max_sessions_loop drv
              (Z.to_nat (rte_cryptodev_count drv mod 256))) as [_ Hloop].
  { rewrite Z2Nat.id by lia. exact Hpos. }
  rewrite Z2Nat.id in Hloop by lia.
  destruct Hloop as [Hle (d0 & Hd0 & Heq)]; [lia|].
  generalize dependent (fold_left (capability_device cfg drv)
                          (seqZ 0 (rte_cryptodev_count drv mod 256))
                          initial_capability).
  intros c Hle Heq.
  generalize dependent (Z.of_nat MAX_SESSIONS). intros cap.
  destruct (Z.ltb_spec cap (max_sessions c)); cbn [max_sessions
    set_max_sessions].
  - split; [lia|]. split; [|now left].
    intros d Hd. specialize (Hle d Hd). lia.
  - split; [lia|]. split; [exact Hle|]. right. eauto.
Qed.


End CapabilityDetails.

(* ================================================================== *)
(** * Initialisation, and the catalog against session creation *)
(* ================================================================== *)

Section InitDetails.

Context (cfg : build_config).

Lemma Forall_repeat {A : Type} (P : A -> Prop) (x : A) (n : nat) :
  P x -> Forall P (repeat x n).
Proof. intros H. induction n; cbn; constructor; auto. Qed.

Lemma init_free_list_devices l : forall g,
  enabled_crypto_devs (fold_left init_free_list_step l g)
  = enabled_crypto_devs g /\
  enabled_crypto_dev_ids (fold_left init_free_list_step l g)
  = enabled_crypto_dev_ids g /\
  enabled_crypto_dev_nb_qpairs (fold_left init_free_list_step l g)
  = enabled_crypto_dev_nb_qpairs g /\
  is_crypto_dev_initialized (fold_left init_free_list_step l g)
  = is_crypto_dev_initialized g.
Proof.
  induction l as [|i l IH]; intros g; cbn [fold_left]; [auto|].
  destruct (IH (init_free_list_step g i)) as (-> & -> & -> & ->).
  auto.
Qed.

(** The device loop only stores ids of devices it has walked over. *)
Lemma init_devices_ids_bounded drv cpu_count (bound : Z) n : forall g log,
  Z.of_nat n <= bound ->
  Forall (fun d => 0 <= d < bound) (enabled_crypto_dev_ids g) ->
  Forall (fun d => 0 <= d < bound)
    (enabled_crypto_dev_ids
       (init_global (init_devices drv cpu_count n g log))).
Proof.
  induction n as [|n IH]; intros g log Hn Hg; cbn [init_devices];
    [exact Hg|].
  cbv zeta.
  destruct (negb (rte_mempool_create drv _)); [exact Hg|].
  destruct (rte_cryptodev_configure drv _ _ <? 0); [exact Hg|].
  destruct (negb (forallb _ _)); [exact Hg|].
  destruct (rte_cryptodev_start drv _ <? 0); [exact Hg|].
  apply IH; [lia|].
  cbn [enable_device enabled_crypto_dev_ids].
  apply Forall_insert; [exact Hg|lia].
Qed.

(** Every enabled id is the id of a device. *)
Lemma init_global_ids_bounded drv cpu_count :
  0 < rte_cryptodev_count drv ->
  Forall (fun d => 0 <= d < rte_cryptodev_count drv)
    (enabled_ids (init_global (odp_crypto_init_global cfg drv cpu_count))).
Proof.
  intros Hc. unfold enabled_ids. apply Forall_take.
  unfold odp_crypto_init_global. cbv zeta.
  destruct (Z.eqb_spec (rte_cryptodev_count drv) 0); [lia|].
  assert (Forall (fun d => 0 <= d < rte_cryptodev_count drv)
            (enabled_crypto_dev_ids
               (init_global
                  (init_devices drv cpu_count
                     (Z.to_nat (rte_cryptodev_count drv))
                     (init_free_list MAX_SESSIONS (zero_global cfg)) []))))
    as H.
  { apply init_devices_ids_bounded; [lia|].
    unfold init_free_list.
    destruct (init_free_list_devices (seq 0 MAX_SESSIONS) (zero_global cfg))
      as (_ & -> & _).
    cbn [zero_global enabled_crypto_dev_ids].
    apply Forall_repeat. lia. }
  destruct (init_rc _ <? 0); [exact H|].
  destruct (negb _); exact H.
Qed.

(** No create and no destroy touches the device tables. *)
Lemma pool_step_enabled_ids drv st c st' :
  pool_step cfg drv st c = Some st' ->
  enabled_ids (pool_global st') = enabled_ids (pool_global st).
Proof.
  destruct c as [env param|denv h]; cbn [pool_step].
  - destruct (odp_crypto_session_create cfg drv env param (pool_global st))
      as [[r g']|] eqn:Hcreate; [|discriminate].
    cbn [mbind option_bind]. intros [= <-]. cbn [pool_global snd].
    destruct (session_create_outcome _ _ _ _ _ _ _ Hcreate)
      as [(_ & _ & _ & ->)|[(_ & _ & h & _ & _ & ->)
                           |(_ & h & e & _ & _ & _ & ->)]];
      reflexivity.
  - intros [= <-]. cbn [pool_global].
    unfold odp_crypto_session_destroy.
    destruct (rte_cryptodev_sym_session_clear denv _ _ <? 0);
      [reflexivity|].
    destruct (rte_cryptodev_sym_session_free denv _ <? 0); reflexivity.
Qed.

Lemma pool_run_enabled_ids drv st calls st' :
  pool_run cfg drv st calls st' ->
  enabled_ids (pool_global st') = enabled_ids (pool_global st).
Proof.
  induction 1 as [|st c st1 calls st2 _ Hstep _ IH]; [reflexivity|].
  rewrite IH. exact (pool_step_enabled_ids _ _ _ _ Hstep).
Qed.

Lemma deprecated_digest_len_algs param :
  cipher_alg (deprecated_digest_len cfg param) = cipher_alg param /\
  auth_alg (deprecated_digest_len cfg param) = auth_alg param.
Proof.
  unfold deprecated_digest_len.
  destruct (ODP_DEPRECATED_API cfg); [|auto].
  destruct (auth_alg param) eqn:E; cbn; auto.
Qed.

Lemma crypto_fill_cipher_xform_algo env param cx :
  crypto_fill_cipher_xform cfg env param = Some cx ->
  cipher_alg_odp_to_rte cfg (cipher_alg param) = Some (cipher_algo cx).
Proof.
  unfold crypto_fill_cipher_xform.
  destruct (cipher_alg_odp_to_rte cfg (cipher_alg param)); [|discriminate].
  cbn [mbind option_bind].
  destruct (crypto_init_key _ _); [|discriminate].
  cbn [mbind option_bind]. now intros [= <-].
Qed.

Lemma crypto_fill_auth_xform_algo env param ax :
  crypto_fill_auth_xform cfg env param = Some ax ->
  auth_alg_odp_to_rte cfg (auth_alg param) = Some (auth_algo ax).
Proof.
  unfold crypto_fill_auth_xform.
  destruct (auth_alg_odp_to_rte cfg (auth_alg param)); [|discriminate].
  cbn [mbind option_bind].
  destruct (_ <? _); [discriminate|].
  destruct (crypto_init_key _ _); [|discriminate].
  cbn [mbind option_bind]. now intros [= <-].
Qed.

Lemma crypto_fill_aead_xform_algo env param a :
  crypto_fill_aead_xform cfg env param = Some a ->
  cipher_aead_alg_odp_to_rte cfg (cipher_alg param) = Some (aead_algo a).
Proof.
  unfold crypto_fill_aead_xform.
  destruct (cipher_aead_alg_odp_to_rte cfg (cipher_alg param));
    [|discriminate].
  cbn [mbind option_bind].
  destruct (crypto_init_key _ _); [|discriminate].
  cbn [mbind option_bind].
  destruct (_ <? _); [discriminate|].
  destruct (_ && _); [discriminate|].
  destruct (_ <? _); [discriminate|].
  now intros [= <-].
Qed.

(** X22: what can be created is in the catalog.  With between 1 and
    255 devices, a session that [odp_crypto_session_create] creates
    after initialisation uses a cipher algorithm that
    [odp_crypto_capability] reports, unless it is AES-CCM (creatable
    but never reported); a session without AEAD cipher also uses an
    auth algorithm that the catalog reports, unless it is KASUMI-F9. *)
Theorem created_session_in_catalog drv cpu_count calls st env param r g' :
  0 < rte_cryptodev_count drv < 256 ->
  pool_run cfg drv (initial_pool cfg drv cpu_count) calls st ->
  odp_crypto_session_create cfg drv env param (pool_global st)
    = Some (r, g') ->
  create_rc r = 0 ->
  let capability := (odp_crypto_capability cfg drv).2 in
  (cipher_alg param <> ODP_CIPHER_ALG_AES_CCM ->
   exists b, cipher_alg_bit (cipher_alg param) = Some b /\
             ciphers capability b = true) /\
  (cipher_is_aead cfg (cipher_alg param) = false ->
   auth_alg param <> ODP_AUTH_ALG_KASUMI_F9 ->
   exists b, auth_alg_bit (auth_alg param) = Some b /\
             auths capability b = true).
Proof.
  intros Hcount Hrun Hcreate Hrc. cbv zeta.
  assert (rte_cryptodev_count drv mod 256 = rte_cryptodev_count drv)
    as Hmod by (apply Z.mod_small; lia).
  assert (rte_cryptodev_count drv mod 256 <> 0) as Hn by lia.
  destruct (reachable_pool _ _ _ _ _ Hrun)
    as (l & Hlen & Hchain & _ & _ & _ & _ & Hlb & _).
  destruct (session_create_success _ _ _ _ _ _ _ Hcreate Hrc)
    as (h & _ & Hfree & _ & _ & _ & _ & _ & _ & Hrec).
  rewrite Hfree in Hchain.
  destruct (free_chain_head _ _ _ Hchain) as (l' & -> & Hh & _).
  destruct (Hrec Hh) as ([_ _ _ _ Hx] & _ & _).
  destruct (deprecated_digest_len_algs param) as [Hca Haa].
  pose proof (init_global_ids_bounded drv cpu_count (proj1 Hcount)) as Hids.
  pose proof (pool_run_enabled_ids _ _ _ _ Hrun) as Hsame.
  cbn [initial_pool pool_global] in Hsame. rewrite <- Hsame in Hids.
  rewrite Forall_forall in Hids.
  destruct Hx as [(Haead & a & Hfill & Hdev & _)
                 |(Haead & c & a & Hfc & Hfa & Hdev & _)].
  - split; [|congruence]. intros Hccm.
    apply crypto_fill_aead_xform_algo in Hfill. rewrite Hca in Hfill.
    unfold get_crypto_aead_dev in Hdev.
    destruct (dev_scan_selected _ _ _ _ Hdev)
      as (before & after & Hsplit & Hcheck & _).
    destruct (aead_dev_check_true _ _ Hcheck)
      as (k & d & aad & iv & Hin & _).
    assert (cdev_id (session_at g' h) ∈ enabled_ids (pool_global st))
      as Hd by (rewrite Hsplit, elem_of_app, elem_of_cons; auto).
    apply Hids in Hd.
    destruct (cipher_alg_bit (cipher_alg param)) as [b|] eqn:Hb.
    2:{ destruct (cipher_alg param); cbn in Hb, Hfill; discriminate. }
    exists b. split; [reflexivity|].
    apply (catalog_cipher_field cfg drv _ _ Hn Hb).
    right. split; [exact Hccm|].
    exists (cdev_id (session_at g' h)). split; [lia|].
    right. eauto 10.
  - split.
    + intros _.
      apply crypto_fill_cipher_xform_algo in Hfc. rewrite Hca in Hfc.
      destruct (cipher_alg_bit (cipher_alg param)) as [b|] eqn:Hb.
      2:{ destruct (cipher_alg param); cbn in Hb, Hfc; discriminate. }
      exists b. split; [reflexivity|].
      apply (catalog_cipher_field cfg drv _ _ Hn Hb).
      destruct (decide (cipher_alg param = ODP_CIPHER_ALG_NULL))
        as [Hnull|Hnull]; [now left|right].
      split.
      { intros E. rewrite E in Hfc. discriminate. }
      unfold get_crypto_dev in Hdev.
      destruct (dev_scan_selected _ _ _ _ Hdev)
        as (before & after & Hsplit & Hcheck & _).
      destruct (crypto_dev_check_true _ _ _ Hcheck) as [Hc _].
      destruct Hc as (k & iv & Hin & _).
      { intros E. rewrite E in Hfc.
        destruct (cipher_alg param); cbn in Hfc;
          try destruct (ODP_DEPRECATED_API cfg); congruence. }
      assert (cdev_id (session_at g' h) ∈ enabled_ids (pool_global st))
        as Hd by (rewrite Hsplit, elem_of_app, elem_of_cons; auto).
      apply Hids in Hd.
      exists (cdev_id (session_at g' h)). split; [lia|].
      left. eauto 10.
    + intros _ Hf9.
      apply crypto_fill_auth_xform_algo in Hfa. rewrite Haa in Hfa.
      apply crypto_fill_cipher_xform_algo in Hfc. rewrite Hca in Hfc.
      destruct (auth_alg_bit (auth_alg param)) as [b|] eqn:Hb.
      2:{ destruct (auth_alg param); cbn in Hb, Hfa; discriminate. }
      exists b. split; [reflexivity|].
      apply (catalog_auth_field cfg drv _ _ Hn Hb).
      destruct (decide (auth_alg param = ODP_AUTH_ALG_NULL))
        as [Hnull|Hnull]; [now left|right].
      split.
      { intros E. rewrite E in Hfa. discriminate. }
      split; [exact Hf9|].
      unfold get_crypto_dev in Hdev.
      destruct (dev_scan_selected _ _ _ _ Hdev)
        as (before & after & Hsplit & Hcheck & _).
      destruct (crypto_dev_check_true _ _ _ Hcheck) as [_ Ha].
      destruct Ha as (k & d & iv & Hin & _).
      { left. intros E. rewrite E in Hfa.
        destruct (auth_alg param); cbn in Hfa;
          try destruct (ODP_DEPRECATED_API cfg); congruence. }
      assert (cdev_id (session_at g' h) ∈ enabled_ids (pool_global st))
        as Hd by (rewrite Hsplit, elem_of_app, elem_of_cons; auto).
      apply Hids in Hd.
      exists (cdev_id (session_at g' h)). split; [lia|].
      left. eauto 10.
Qed.

(** The queue-pair count the device loop computes for a device. *)
Lemma rev_seq_S (n : nat) : rev (seq 0 (S n)) = n :: rev (seq 0 n).
Proof. now rewrite seq_S, rev_app_distr. Qed.

(** The device loop, when it comes to its end: it has enabled the
    devices [n - 1 .. 0] in this order, behind the ones enabled before,
    each with the queue-pair count it was configured with. *)
Lemma init_devices_success drv cpu_count n : forall g log,
  0 <= enabled_crypto_devs g ->
  enabled_crypto_devs g + Z.of_nat n < 256 ->
  (Z.to_nat (enabled_crypto_devs g) + n
   <= length (enabled_crypto_dev_ids g))%nat ->
  (Z.to_nat (enabled_crypto_devs g) + n
   <= length (enabled_crypto_dev_nb_qpairs g))%nat ->
  let r := init_devices drv cpu_count n g log in
  let nb d :=
    if max_nb_queue_pairs (rte_cryptodev_info_get drv d) <? cpu_count
    then max_nb_queue_pairs (rte_cryptodev_info_get drv d)
    else cpu_count in
  let ids := map Z.of_nat (rev (seq 0 n)) in
  (init_rc r = 0 \/ init_rc r = -1) /\
  is_crypto_dev_initialized (init_global r) = is_crypto_dev_initialized g /\
  (init_rc r = 0 ->
   enabled_crypto_devs (init_global r)
   = enabled_crypto_devs g + Z.of_nat n /\
   enabled_ids (init_global r) = enabled_ids g ++ ids /\
   take (Z.to_nat (enabled_crypto_devs (init_global r)))
     (enabled_crypto_dev_nb_qpairs (init_global r))
   = take (Z.to_nat (enabled_crypto_devs g))
       (enabled_crypto_dev_nb_qpairs g)
     ++ map (fun d => uint16 (nb d)) ids /\
   configured r = log ++ map (fun d => (d, nb d)) ids /\
   Forall (fun d =>
             rte_mempool_create drv (rte_cryptodev_socket_id drv d) = true /\
             0 <= rte_cryptodev_configure drv d (nb d) /\
             0 <= rte_cryptodev_start drv d) ids).
Proof.
  induction n as [|n IH]; intros g log H0 H256 Hids Hqp; cbv zeta.
  - cbn. rewrite Z.add_0_r, !app_nil_r. auto 10.
  - cbn [init_devices]. cbv zeta.
    set (d := Z.of_nat n).
    set (nbq := if max_nb_queue_pairs (rte_cryptodev_info_get drv d)
                     <? cpu_count
                then max_nb_queue_pairs (rte_cryptodev_info_get drv d)
                else cpu_count).
    destruct (rte_mempool_create drv (rte_cryptodev_socket_id drv d))
      eqn:Hpool; cbn [negb];
      [|cbn; split; [auto|split; [reflexivity|discriminate]]].
    destruct (Z.ltb_spec (rte_cryptodev_configure drv d nbq) 0) as [|Hconf];
      [cbn; split; [auto|split; [reflexivity|discriminate]]|].
    destruct (negb (forallb _ _));
      [cbn; split; [auto|split; [reflexivity|discriminate]]|].
    destruct (Z.ltb_spec (rte_cryptodev_start drv d) 0) as [|Hstart];
      [cbn; split; [auto|split; [reflexivity|discriminate]]|].
    specialize (IH (enable_device d nbq g) (log ++ [(d, nbq)])).
    cbv zeta in IH.
    assert (enabled_crypto_devs (enable_device d nbq g)
            = enabled_crypto_devs g + 1) as Hdevs.
    { cbn [enable_device enabled_crypto_devs]. apply Z.mod_small. lia. }
    rewrite Hdevs in IH.
    destruct IH as (Hrc & Hinit & Hok).
    { lia. }
    { lia. }
    { cbn [enable_device enabled_crypto_dev_ids].
      rewrite length_insert. lia. }
    { cbn [enable_device enabled_crypto_dev_nb_qpairs].
      rewrite length_insert. lia. }
    split; [exact Hrc|]. split; [exact Hinit|].
    intros Hzero. destruct (Hok Hzero) as (Hd & Hi & Hq & Hlog & Hall).
    rewrite rev_seq_S. cbn [map]. fold d.
    split; [lia|].
    assert (Z.to_nat (enabled_crypto_devs g + 1)
            = S (Z.to_nat (enabled_crypto_devs g))) as Hk by lia.
    split; [|split; [|split]].
    + rewrite Hi. unfold enabled_ids at 1.
      rewrite Hdevs, Hk. cbn [enable_device enabled_crypto_dev_ids].
      rewrite (take_S_r _ _ d)
        by (apply list_lookup_insert_eq; lia).
      rewrite take_insert_ge by lia.
      unfold enabled_ids. now rewrite <- app_assoc.
    + rewrite Hq, Hk.
      cbn [enable_device enabled_crypto_dev_nb_qpairs].
      rewrite (take_S_r _ _ (uint16 nbq))
        by (apply list_lookup_insert_eq; lia).
      rewrite take_insert_ge by lia.
      now rewrite <- app_assoc.
    + rewrite Hlog. now rewrite <- app_assoc.
    + constructor; [|exact Hall]. auto.
Qed.

(** X23: what a successful initialisation enables.  With between 1
    and 255 devices that fit the tables, [odp_crypto_init_global]
    returns 0 or -1; after -1 the devices are not marked initialised;
    after 0 they are, every device has had its pool, its configuration
    and its start succeed, the enabled ids are [count - 1, ..., 0] in
    this order, and the queue-pair table holds at index [i] the count
    device [count - 1 - i] was configured with: the smaller of
    [odp_cpu_count ()] and the device's [max_nb_queue_pairs], stored in
    16 bits. *)
Theorem init_global_enables_devices drv cpu_count :
  0 < rte_cryptodev_count drv < 256 ->
  (Z.to_nat (rte_cryptodev_count drv) <= RTE_CRYPTO_MAX_DEVS cfg)%nat ->
  let r := odp_crypto_init_global cfg drv cpu_count in
  let nb d :=
    if max_nb_queue_pairs (rte_cryptodev_info_get drv d) <? cpu_count
    then max_nb_queue_pairs (rte_cryptodev_info_get drv d)
    else cpu_count in
  let ids :=
    map Z.of_nat (rev (seq 0 (Z.to_nat (rte_cryptodev_count drv)))) in
  (init_rc r = 0 \/ init_rc r = -1) /\
  (init_rc r = -1 -> is_crypto_dev_initialized (init_global r) = false) /\
  (init_rc r = 0 ->
   is_crypto_dev_initialized (init_global r) = true /\
   rte_crypto_op_pool_create drv = true /\
   enabled_crypto_devs (init_global r) = rte_cryptodev_count drv /\
   enabled_ids (init_global r) = ids /\
   take (Z.to_nat (rte_cryptodev_count drv))
     (enabled_crypto_dev_nb_qpairs (init_global r))
   = map (fun d => uint16 (nb d)) ids /\
   configured r = map (fun d => (d, nb d)) ids /\
   Forall (fun d =>
             rte_mempool_create drv (rte_cryptodev_socket_id drv d) = true /\
             0 <= rte_cryptodev_configure drv d (nb d) /\
             0 <= rte_cryptodev_start drv d) ids).
Proof.
  intros Hcount Hfit. cbv zeta. unfold odp_crypto_init_global. cbv zeta.
  destruct (Z.eqb_spec (rte_cryptodev_count drv) 0); [lia|].
  unfold init_free_list.
  destruct (init_free_list_devices (seq 0 MAX_SESSIONS) (zero_global cfg))
    as (Hd0 & Hi0 & Hq0 & Hinit0).
  generalize dependent (fold_left init_free_list_step (seq 0 MAX_SESSIONS)
                          (zero_global cfg)).
  intros g Hd0 Hi0 Hq0 Hinit0.
  cbn [zero_global enabled_crypto_devs enabled_crypto_dev_ids
       enabled_crypto_dev_nb_qpairs is_crypto_dev_initialized]
    in Hd0, Hi0, Hq0, Hinit0.
  destruct (init_devices_success drv cpu_count
              (Z.to_nat (rte_cryptodev_count drv)) g [])
    as (Hrc & Hinit & Hok).
  { lia. }
  { lia. }
  { rewrite Hd0, Hi0, repeat_length. cbn. lia. }
  { rewrite Hd0, Hq0, repeat_length. cbn. lia. }
  cbv zeta in Hok. rewrite Hinit0 in Hinit.
  assert (enabled_ids g = []) as Hempty
    by (unfold enabled_ids; now rewrite Hd0).
  rewrite Hd0, Hempty in Hok. cbn [Z.to_nat take app] in Hok.
  rewrite Z.add_0_l, Z2Nat.id in Hok by lia.
  set (r := init_devices drv cpu_count (Z.to_nat (rte_cryptodev_count drv))
              g []) in *.
  destruct (Z.ltb_spec (init_rc r) 0) as [Hneg|Hpos].
  - split; [exact Hrc|]. split; [auto|]. lia.
  - assert (init_rc r = 0) as Hzero by lia.
    destruct (Hok Hzero) as (Hd & Hi & Hq & Hlog & Hall).
    destruct (rte_crypto_op_pool_create drv); cbn [negb init_rc init_global
      configured].
    + split; [auto|]. split; [discriminate|]. intros _.
      split; [reflexivity|]. split; [reflexivity|].
      unfold enabled_ids in *.
      cbn [set_initialized enabled_crypto_devs enabled_crypto_dev_ids
           enabled_crypto_dev_nb_qpairs].
      rewrite Hd in Hq. auto 10.
    + split; [auto|]. split; [auto|]. discriminate.
Qed.

End InitDetails.

(* ================================================================== *)
(** * Capability sizing for ciphers *)
(* ================================================================== *)

(** The number of rounds of a range loop from counter value [x]. *)
Lemma range_loop_run {St : Type} (modulus max inc : Z)
    (body : Z -> St -> option St) (n : nat) :
  forall fuel x s,
    0 <= x -> 0 <= inc -> max + inc < modulus ->
    Z.of_nat n = (if max <? x then 0
                  else if inc =? 0 then 1 else (max - x) / inc + 1) ->
    (n < fuel)%nat ->
    range_loop modulus fuel x max inc body s
    = run_body body (map (fun i => x + Z.of_nat i * inc) (seq 0 n)) s.
Proof.
  induction n as [|n IH]; intros fuel x s Hx Hinc Hmax Hn Hfuel;
    (destruct fuel as [|fuel]; [lia|]); cbn [range_loop].
  - destruct (Z.ltb_spec max x) as [Hlt|Hge].
    + destruct (Z.leb_spec x max); [lia|]. reflexivity.
    + exfalso. destruct (Z.eqb_spec inc 0); [lia|].
      assert (0 <= (max - x) / inc) by (apply Z.div_pos; lia). lia.
  - destruct (Z.ltb_spec max x) as [Hlt|Hge]; [lia|].
    destruct (Z.leb_spec x max); [|lia].
    rewrite <- cons_seq. cbn [map run_body].
    replace (x + Z.of_nat 0 * inc) with x by lia.
    destruct (body x s) as [s'|]; [|reflexivity].
    cbn [mbind option_bind].
    destruct (Z.eqb_spec inc 0) as [E|E].
    + assert (n = 0%nat) as -> by lia. reflexivity.
    + rewrite Z.mod_small by lia.
      rewrite (IH fuel (x + inc) s'); try lia.
      * f_equal. rewrite <- seq_shift, map_map.
        apply map_ext. intros i. lia.
      * destruct (Z.ltb_spec max (x + inc)) as [Hl|Hl].
        -- assert ((max - x) / inc = 0) by (apply Z.div_small; lia). lia.
        -- replace (max - (x + inc)) with (max - x + (-1) * inc) by lia.
           rewrite Z.div_add by lia. lia.
Qed.

(** A loop over a range of 16-bit fields, with a 32-bit counter, runs
    its body on the sizes of the range. *)
Lemma range_loop_sizes {St : Type} (range : rte_crypto_param_range)
    (body : Z -> St -> option St) s :
  range_wf range ->
  range_loop (2 ^ 32) RANGE_FUEL (min range) (max range) (increment range)
    body s
  = run_body body (range_sizes range) s.
Proof.
  intros (Hmin & Hmax & Hinc). unfold is_uint16 in *.
  unfold range_sizes.
  assert (0 <= range_count range <= 65536) as Hc.
  { unfold range_count.
    destruct (Z.ltb_spec (max range) (min range)); [lia|].
    destruct (Z.eqb_spec (increment range) 0); [lia|].
    assert (0 <= (max range - min range) / increment range)
      by (apply Z.div_pos; lia).
    assert ((max range - min range) / increment range
            <= max range - min range)
      by (apply Z.div_le_upper_bound; nia).
    lia. }
  apply range_loop_run; try lia.
  - rewrite Z2Nat.id by lia. reflexivity.
  - unfold RANGE_FUEL, UINT16_STATES. lia.
Qed.

Section CipherSizing.

Context (cfg : build_config).

(** The store of one entry.  [done] are the entries generated so far,
    over all devices; the array holds as many of them as fit. *)
Lemma cipher_gen_store_spec bm NC I0 k iv idx src done :
  0 <= NC -> 0 <= I0 -> 0 <= idx -> idx < INT_MAX ->
  length src = Z.to_nat NC ->
  I0 + idx = Z.of_nat (length done) ->
  take (Z.to_nat (Z.min (I0 + idx) NC)) src = take (Z.to_nat NC) done ->
  exists src',
    cipher_gen_store bm I0 (NC - I0) k iv (idx, src) = Some (idx + 1, src') /\
    length src' = Z.to_nat NC /\
    take (Z.to_nat (Z.min (I0 + idx + 1) NC)) src'
    = take (Z.to_nat NC)
        (done ++ [{| key_len := k; iv_len := iv; bit_mode := bm |}]).
Proof.
  intros HNC HI0 Hidx Hmax Hlen Hdone Htake.
  unfold cipher_gen_store. cbn [fst snd].
  destruct (Z.eqb_spec idx INT_MAX); [lia|].
  destruct (Z.ltb_spec idx (NC - I0)) as [Hlt|Hge].
  - eexists. split; [reflexivity|].
    split; [now rewrite length_insert|].
    rewrite Z.min_l in Htake |- * by lia.
    replace (Z.to_nat (I0 + idx + 1)) with (S (Z.to_nat (I0 + idx))) by lia.
    rewrite (take_S_r _ _ {| key_len := k; iv_len := iv; bit_mode := bm |})
      by (apply list_lookup_insert_eq; lia).
    rewrite take_insert_ge by lia.
    rewrite Htake.
    rewrite (take_ge done) by lia.
    rewrite take_ge; [reflexivity|].
    rewrite length_app. cbn. lia.
  - eexists. split; [reflexivity|]. split; [exact Hlen|].
    rewrite Z.min_r in Htake |- * by lia.
    rewrite Htake. symmetry. apply take_app_le. lia.
Qed.

(** The inner loop, over the IV sizes. *)
Lemma cipher_gen_ivs_spec bm NC I0 k ivs : forall idx src done,
  0 <= NC -> 0 <= I0 -> 0 <= idx ->
  idx + Z.of_nat (length ivs) <= INT_MAX ->
  length src = Z.to_nat NC ->
  I0 + idx = Z.of_nat (length done) ->
  take (Z.to_nat (Z.min (I0 + idx) NC)) src = take (Z.to_nat NC) done ->
  exists src',
    run_body (cipher_gen_store bm I0 (NC - I0) k) ivs (idx, src)
    = Some (idx + Z.of_nat (length ivs), src') /\
    length src' = Z.to_nat NC /\
    take (Z.to_nat (Z.min (I0 + idx + Z.of_nat (length ivs)) NC)) src'
    = take (Z.to_nat NC)
        (done ++ map (fun iv => {| key_len := k; iv_len := iv;
                                   bit_mode := bm |}) ivs).
Proof.
  induction ivs as [|iv ivs IH];
    intros idx src done HNC HI0 Hidx Hmax Hlen Hdone Htake.
  - exists src. cbn. rewrite !Z.add_0_r, app_nil_r. auto.
  - cbn [length] in Hmax. cbn [run_body].
    destruct (cipher_gen_store_spec bm NC I0 k iv idx src done)
      as (src1 & -> & Hlen1 & Htake1); try assumption; [lia|].
    cbn [mbind option_bind].
    destruct (IH (idx + 1) src1
                (done ++ [{| key_len := k; iv_len := iv; bit_mode := bm |}]))
      as (src2 & -> & Hlen2 & Htake2); try assumption; try lia.
    { rewrite length_app. cbn. lia. }
    { now rewrite Z.add_assoc. }
    exists src2. cbn [length map].
    replace (idx + Z.of_nat (S (length ivs)))
      with (idx + 1 + Z.of_nat (length ivs)) by lia.
    split; [reflexivity|]. split; [exact Hlen2|].
    rewrite <- app_assoc in Htake2. cbn [app] in Htake2.
    rewrite <- Htake2. f_equal. lia.
Qed.

Lemma length_flat_map_const {A B : Type} (f : A -> list B) (n : nat) l :
  (forall x, length (f x) = n) ->
  length (flat_map f l) = (length l * n)%nat.
Proof.
  intros Hf. induction l as [|x l IH]; cbn; [reflexivity|].
  rewrite length_app, Hf, IH. reflexivity.
Qed.

Lemma length_cipher_combinations bm key_size iv_size :
  length (cipher_combinations bm key_size iv_size)
  = (length (range_sizes key_size) * length (range_sizes iv_size))%nat.
Proof.
  unfold cipher_combinations. apply length_flat_map_const.
  intros k. apply length_map.
Qed.

(** The outer loop, over the key sizes. *)
Lemma cipher_gen_keys_spec bm NC I0 ivs keys : forall idx src done,
  0 <= NC -> 0 <= I0 -> 0 <= idx ->
  idx + Z.of_nat (length keys * length ivs) <= INT_MAX ->
  length src = Z.to_nat NC ->
  I0 + idx = Z.of_nat (length done) ->
  take (Z.to_nat (Z.min (I0 + idx) NC)) src = take (Z.to_nat NC) done ->
  let new :=
    flat_map
      (fun k => map (fun iv => {| key_len := k; iv_len := iv;
                                  bit_mode := bm |}) ivs) keys in
  exists src',
    run_body
      (fun k => run_body (cipher_gen_store bm I0 (NC - I0) k) ivs)
      keys (idx, src)
    = Some (idx + Z.of_nat (length new), src') /\
    length new = (length keys * length ivs)%nat /\
    length src' = Z.to_nat NC /\
    take (Z.to_nat (Z.min (I0 + idx + Z.of_nat (length new)) NC)) src'
    = take (Z.to_nat NC) (done ++ new).
Proof.
  induction keys as [|k keys IH];
    intros idx src done HNC HI0 Hidx Hmax Hlen Hdone Htake; cbv zeta.
  - exists src. cbn. rewrite !Z.add_0_r, app_nil_r. auto.
  - cbn [length Nat.mul] in Hmax. cbn [run_body flat_map].
    destruct (cipher_gen_ivs_spec bm NC I0 k ivs idx src done)
      as (src1 & -> & Hlen1 & Htake1); try assumption; [lia|].
    cbn [mbind option_bind].
    specialize (IH (idx + Z.of_nat (length ivs)) src1
                  (done ++ map (fun iv => {| key_len := k; iv_len := iv;
                                             bit_mode := bm |}) ivs)).
    cbv zeta in IH.
    destruct IH as (src2 & -> & Hnew & Hlen2 & Htake2);
      try assumption; try lia.
    { rewrite length_app, length_map. lia. }
    { now rewrite Z.add_assoc. }
    exists src2. rewrite length_app, length_map.
    split; [f_equal; f_equal; lia|].
    split; [cbn [length Nat.mul]; lia|].
    split; [exact Hlen2|].
    rewrite <- app_assoc in Htake2. rewrite <- Htake2. f_equal. lia.
Qed.

(** [cipher_gen_capability] on ranges of 16-bit fields: it returns the
    number of combinations and has stored those that fit. *)
Lemma cipher_gen_capability_spec key_size iv_size bm src NC I0 done :
  range_wf key_size -> range_wf iv_size ->
  0 <= NC -> 0 <= I0 ->
  Z.of_nat (length (cipher_combinations bm key_size iv_size)) <= INT_MAX ->
  length src = Z.to_nat NC ->
  I0 = Z.of_nat (length done) ->
  take (Z.to_nat (Z.min I0 NC)) src = take (Z.to_nat NC) done ->
  let new := cipher_combinations bm key_size iv_size in
  exists src',
    cipher_gen_capability key_size iv_size bm src I0 (NC - I0)
    = Some (Z.of_nat (length new), src') /\
    length src' = Z.to_nat NC /\
    take (Z.to_nat (Z.min (I0 + Z.of_nat (length new)) NC)) src'
    = take (Z.to_nat NC) (done ++ new).
Proof.
  intros Hk Hiv HNC HI0 Hmax Hlen Hdone Htake. cbv zeta.
  unfold cipher_gen_capability.
  rewrite (range_loop_sizes key_size) by assumption.
  assert (forall k st,
            range_loop (2 ^ 32) RANGE_FUEL (min iv_size) (max iv_size)
              (increment iv_size)
              (cipher_gen_store bm I0 (NC - I0) k) st
            = run_body (cipher_gen_store bm I0 (NC - I0) k)
                (range_sizes iv_size) st) as Hinner.
  { intros k st. now apply range_loop_sizes. }
  assert (forall keys st,
            run_body
              (fun k =>
                 range_loop (2 ^ 32) RANGE_FUEL (min iv_size) (max iv_size)
                   (increment iv_size)
                   (cipher_gen_store bm I0 (NC - I0) k)) keys st
            = run_body
                (fun k => run_body (cipher_gen_store bm I0 (NC - I0) k)
                            (range_sizes iv_size)) keys st) as ->.
  { induction keys as [|k keys IH]; intros st; cbn [run_body];
      [reflexivity|].
    rewrite Hinner. destruct (run_body _ (range_sizes iv_size) st);
      cbn [mbind option_bind]; auto. }
  destruct (cipher_gen_keys_spec bm NC I0 (range_sizes iv_size)
              (range_sizes key_size) 0 src done)
    as (src' & Hrun & Hnew & Hlen' & Htake');
    [exact HNC|exact HI0|lia
    |rewrite <- (length_cipher_combinations bm); lia
    |exact Hlen|lia|rewrite Z.add_0_r; exact Htake|].
  fold (cipher_combinations bm key_size iv_size) in Hrun, Htake'.
  exists src'. rewrite Hrun. rewrite Z.add_0_l.
  split; [reflexivity|]. split; [exact Hlen'|].
  rewrite Z.add_0_r in Htake'. exact Htake'.
Qed.

(** The device loop: it returns the number of combinations of all
    devices that have the entry, and has stored those that fit. *)
Lemma cipher_capability_loop_spec find bm drv NC ids : forall idx src done,
  (forall d k iv, d ∈ ids ->
     find (capabilities (rte_cryptodev_info_get drv d)) = Some (k, iv) ->
     range_wf k /\ range_wf iv) ->
  0 <= NC ->
  idx = Z.of_nat (length done) ->
  let new :=
    flat_map
      (fun d =>
         match find (capabilities (rte_cryptodev_info_get drv d)) with
         | Some (k, iv) => cipher_combinations bm k iv
         | None => []
         end) ids in
  Z.of_nat (length (done ++ new)) <= INT_MAX ->
  length src = Z.to_nat NC ->
  take (Z.to_nat (Z.min idx NC)) src = take (Z.to_nat NC) done ->
  exists src',
    cipher_capability_loop find bm drv NC ids idx src
    = Some (Z.of_nat (length (done ++ new)), src') /\
    length src' = Z.to_nat NC /\
    take (Z.to_nat (Z.min (Z.of_nat (length (done ++ new))) NC)) src'
    = take (Z.to_nat NC) (done ++ new).
Proof.
  induction ids as [|d ids IH];
    intros idx src done Hwf HNC Hidx new Hmax Hlen Htake; subst new.
  - cbn [flat_map cipher_capability_loop] in *.
    rewrite app_nil_r in *. subst idx. eauto.
  - cbn [flat_map cipher_capability_loop] in *.
    destruct (find (capabilities (rte_cryptodev_info_get drv d)))
      as [[k iv]|] eqn:Hfind.
    + destruct (Hwf d k iv) as [Hk Hiv];
        [apply list_elem_of_here|exact Hfind|].
      rewrite !length_app in Hmax.
      destruct (cipher_gen_capability_spec k iv bm src NC idx done)
        as (src1 & -> & Hlen1 & Htake1); try assumption; try lia.
      cbn [mbind option_bind fst snd].
      destruct (Z.ltb_spec INT_MAX
                  (idx + Z.of_nat (length (cipher_combinations bm k iv))));
        [lia|].
      destruct (IH (idx + Z.of_nat (length (cipher_combinations bm k iv)))
                  src1 (done ++ cipher_combinations bm k iv))
        as (src2 & -> & Hlen2 & Htake2); try assumption.
      { intros d' k' iv' Hd'. apply Hwf. now apply list_elem_of_further. }
      { rewrite length_app. lia. }
      { rewrite !length_app. lia. }
      rewrite <- !app_assoc in *. eauto.
    + destruct (IH idx src done)
        as (src2 & -> & Hlen2 & Htake2); try assumption.
      { intros d' k' iv' Hd'. apply Hwf. now apply list_elem_of_further. }
      cbn [app]. eauto.
Qed.

(** The two functions behind [odp_crypto_cipher_capability] from the
    device loop on. *)
Lemma cipher_capability_tail find bm drv src dst num_copy :
  (forall d k iv, 0 <= d < rte_cryptodev_count drv mod 256 ->
     find (capabilities (rte_cryptodev_info_get drv d)) = Some (k, iv) ->
     range_wf k /\ range_wf iv) ->
  0 <= num_copy ->
  length src = Z.to_nat num_copy ->
  let all :=
    flat_map
      (fun d =>
         match find (capabilities (rte_cryptodev_info_get drv d)) with
         | Some (k, iv) => cipher_combinations bm k iv
         | None => []
         end) (seqZ 0 (rte_cryptodev_count drv mod 256)) in
  Z.of_nat (length all) <= INT_MAX ->
  (r ← cipher_capability_loop find bm drv num_copy
         (seqZ 0 (rte_cryptodev_count drv mod 256)) 0 src;
   Some (cipher_capability_finish dst (r.2) (r.1) num_copy))
  = Some (Z.of_nat (length all),
          take (Z.to_nat num_copy) all
          ++ drop (Nat.min (Z.to_nat num_copy) (length all)) dst).
Proof.
  intros Hwf HNC Hlen all Hmax.
  destruct (cipher_capability_loop_spec find bm drv num_copy
              (seqZ 0 (rte_cryptodev_count drv mod 256)) 0 src [])
    as (src' & Hloop & Hlen' & Htake); try assumption; try reflexivity.
  { intros d k iv Hd. apply Hwf. apply elem_of_seqZ in Hd. lia. }
  { rewrite Z.min_l by lia. now rewrite take_nil. }
  cbn [app] in Hloop, Htake. fold all in Hloop, Htake.
  rewrite Hloop. cbn [mbind option_bind fst snd].
  unfold cipher_capability_finish. f_equal. f_equal.
  destruct (Z.ltb_spec (Z.of_nat (length all)) num_copy).
  - rewrite Z.min_l in Htake by lia. rewrite Htake.
    f_equal. f_equal. lia.
  - rewrite Z.min_r in Htake by lia. rewrite Htake.
    f_equal. f_equal. lia.
Qed.

(** X24: the two-call pattern of [odp_crypto_cipher_capability].  For a
    cipher algorithm other than NULL that the mappers know, with at
    least one device and capability ranges of 16-bit fields, the call
    returns the number of key and IV size combinations that all devices
    with an entry for the algorithm advertise, whatever [num_copy] is,
    and copies the first [num_copy] of them (all, if there are fewer)
    to [dst], leaving the rest of [dst] as it was. *)
Theorem cipher_capability_two_calls drv cipher src dst num_copy :
  cipher <> ODP_CIPHER_ALG_NULL ->
  rte_cryptodev_count drv mod 256 <> 0 ->
  (if cipher_is_aead cfg cipher
   then is_Some (cipher_aead_alg_odp_to_rte cfg cipher)
   else is_Some (cipher_alg_odp_to_rte cfg cipher)) ->
  (forall d k iv, 0 <= d < rte_cryptodev_count drv mod 256 ->
     device_cipher_ranges cfg
       (capabilities (rte_cryptodev_info_get drv d)) cipher = Some (k, iv) ->
     range_wf k /\ range_wf iv) ->
  0 <= num_copy ->
  length src = Z.to_nat num_copy ->
  (Z.to_nat num_copy <= length dst)%nat ->
  let all := all_cipher_combinations cfg drv cipher in
  Z.of_nat (length all) <= INT_MAX ->
  odp_crypto_cipher_capability cfg drv cipher src dst num_copy
  = Some (Z.of_nat (length all),
          take (Z.to_nat num_copy) all
          ++ drop (Nat.min (Z.to_nat num_copy) (length all)) dst).
Proof.
  intros Hnull Hcount Hmapped Hwf HNC Hlen _ all Hmax. subst all.
  unfold all_cipher_combinations, device_cipher_ranges in *.
  unfold odp_crypto_cipher_capability.
  destruct (decide (cipher = ODP_CIPHER_ALG_NULL)); [contradiction|].
  destruct (cipher_is_aead cfg cipher).
  - destruct Hmapped as [algo Halgo].
    unfold cipher_aead_capability. rewrite Halgo in *.
    cbn [mbind option_bind] in *. cbv zeta.
    destruct (Z.eqb_spec (rte_cryptodev_count drv mod 256) 0);
      [contradiction|].
    now apply cipher_capability_tail.
  - destruct Hmapped as [algo Halgo].
    unfold cipher_capability. rewrite Halgo in *.
    cbn [mbind option_bind] in *. cbv zeta.
    destruct (Z.eqb_spec (rte_cryptodev_count drv mod 256) 0);
      [contradiction|].
    now apply cipher_capability_tail.
Qed.

(** X25: the fixed answers of [odp_crypto_cipher_capability].  For
    NULL the call returns 2 whatever the devices are, and writes a zero
    entry to [dst[0]] when [num_copy >= 1] and a zero entry with
    [bit_mode] set to [dst[1]] when [num_copy >= 2], and nothing else.
    For any other algorithm it returns -1 and leaves [dst] alone when
    the device count is 0 or the mapper does not know the algorithm. *)
Theorem cipher_capability_fixed_answers drv cipher src dst num_copy :
  let r := odp_crypto_cipher_capability cfg drv cipher src dst num_copy in
  (cipher = ODP_CIPHER_ALG_NULL ->
   exists dst',
     r = Some (2, dst') /\ length dst' = length dst /\
     (1 <= num_copy -> (0 < length dst)%nat ->
      dst' !! 0%nat = Some zero_cipher_capability) /\
     (2 <= num_copy -> (1 < length dst)%nat ->
      dst' !! 1%nat
      = Some {| key_len := 0; iv_len := 0; bit_mode := true |}) /\
     (forall i, (Z.of_nat i < 2 -> num_copy <= Z.of_nat i) ->
        dst' !! i = dst !! i)) /\
  (cipher <> ODP_CIPHER_ALG_NULL ->
   rte_cryptodev_count drv mod 256 = 0 \/
   (if cipher_is_aead cfg cipher
    then cipher_aead_alg_odp_to_rte cfg cipher = None
    else cipher_alg_odp_to_rte cfg cipher = None) ->
   r = Some (-1, dst)).
Proof.
  cbv zeta. unfold odp_crypto_cipher_capability. split.
  - intros ->. destruct (decide _) as [_|]; [|contradiction].
    eexists. split; [reflexivity|].
    destruct (Z.leb_spec 1 num_copy), (Z.leb_spec 2 num_copy);
      rewrite ?length_insert; (split; [reflexivity|]);
      repeat split; try lia.
    + intros _ Hl. rewrite list_lookup_insert_ne by lia.
      apply list_lookup_insert_eq. lia.
    + intros _ Hl. apply list_lookup_insert_eq.
      rewrite length_insert. lia.
    + intros i Hi. rewrite !list_lookup_insert_ne by lia. reflexivity.
    + intros _ Hl. apply list_lookup_insert_eq. lia.
    + intros i Hi. rewrite list_lookup_insert_ne by lia. reflexivity.
  - intros Hnull Hfail.
    destruct (decide _) as [|_]; [contradiction|].
    unfold cipher_aead_capability, cipher_capability.
    destruct (cipher_is_aead cfg cipher).
    + destruct (cipher_aead_alg_odp_to_rte cfg cipher); [|reflexivity].
      destruct Hfail as [->|]; [reflexivity|discriminate].
    + destruct (cipher_alg_odp_to_rte cfg cipher); [|reflexivity].
      destruct Hfail as [->|]; [reflexivity|discriminate].
Qed.

End CipherSizing.

(* ================================================================== *)
(** * Capability sizing for auth algorithms *)
(* ================================================================== *)

(** A loop over a range of 16-bit fields with a 16-bit counter runs its
    body on the sizes of the range, when the counter cannot wrap. *)
Lemma range_loop_sizes16 {St : Type} (range : rte_crypto_param_range)
    (body : Z -> St -> option St) s :
  range_wf range -> range_no_wrap range ->
  range_loop (2 ^ 16) RANGE_FUEL (min range) (max range) (increment range)
    body s
  = run_body body (range_sizes range) s.
Proof.
  intros (Hmin & Hmax & Hinc) Hwrap. unfold is_uint16, range_no_wrap in *.
  unfold range_sizes.
  assert (0 <= range_count range <= 65536) as Hc.
  { unfold range_count.
    destruct (Z.ltb_spec (max range) (min range)); [lia|].
    destruct (Z.eqb_spec (increment range) 0); [lia|].
    assert (0 <= (max range - min range) / increment range)
      by (apply Z.div_pos; lia).
    assert ((max range - min range) / increment range
            <= max range - min range)
      by (apply Z.div_le_upper_bound; nia).
    lia. }
  apply range_loop_run; try lia.
  - rewrite Z2Nat.id by lia. reflexivity.
  - unfold RANGE_FUEL, UINT16_STATES. lia.
Qed.

Lemma run_body_ext {St : Type} (f g : Z -> St -> option St) xs :
  (forall x s, f x s = g x s) ->
  forall s, run_body f xs s = run_body g xs s.
Proof.
  intros Hfg. induction xs as [|x xs IH]; intros s; cbn [run_body];
    [reflexivity|].
  rewrite Hfg. destruct (g x s); cbn [mbind option_bind]; auto.
Qed.

(** Pieces that store entries, run one after the other, store the
    entries of all of them. *)
Lemma stores_entries_run {E : Type} NC src_at
    (body : Z -> Z * list E -> option (Z * list E)) (f : Z -> list E) xs :
  0 <= NC -> 0 <= src_at ->
  (forall x, stores_entries NC src_at (body x) (f x)) ->
  stores_entries NC src_at (run_body body xs) (flat_map f xs).
Proof.
  intros HNC Hat Hbody.
  induction xs as [|x xs IH]; intros idx src done Hidx Hmax Hlen Hdone Htake.
  - exists src. cbn. rewrite !Z.add_0_r, app_nil_r. auto.
  - cbn [run_body flat_map] in *. rewrite length_app in Hmax.
    destruct (Hbody x idx src done) as (src1 & -> & Hlen1 & Htake1);
      try assumption; [lia|].
    cbn [mbind option_bind].
    destruct (IH (idx + Z.of_nat (length (f x))) src1 (done ++ f x))
      as (src2 & -> & Hlen2 & Htake2); try assumption; try lia.
    { rewrite length_app. lia. }
    { now rewrite Z.add_assoc. }
    exists src2. rewrite length_app.
    split; [f_equal; f_equal; lia|]. split; [exact Hlen2|].
    rewrite <- app_assoc in Htake2. rewrite <- Htake2. f_equal. lia.
Qed.

Lemma stores_entries_ext {E : Type} NC src_at
    (p q : Z * list E -> option (Z * list E)) new :
  (forall st, p st = q st) ->
  stores_entries NC src_at q new -> stores_entries NC src_at p new.
Proof.
  intros Hpq Hq idx src done. rewrite Hpq. apply Hq.
Qed.

(** The store of one auth entry. *)
Lemma auth_gen_store_entry aad bm NC src_at d k iv :
  0 <= NC -> 0 <= src_at ->
  stores_entries NC src_at
    (auth_gen_store aad bm src_at (NC - src_at) d k iv)
    [auth_gen_entry aad bm d k iv].
Proof.
  intros HNC Hat idx src done Hidx Hmax Hlen Hdone Htake.
  cbn [length] in *.
  unfold auth_gen_store. cbn [fst snd].
  destruct (Z.eqb_spec idx INT_MAX); [lia|].
  destruct (Z.ltb_spec idx (NC - src_at)) as [Hlt|Hge].
  - eexists. split; [reflexivity|].
    split; [now rewrite length_insert|].
    rewrite Z.min_l in Htake |- * by lia.
    replace (Z.to_nat (src_at + idx + Z.of_nat 1))
      with (S (Z.to_nat (src_at + idx))) by lia.
    rewrite (take_S_r _ _ (auth_gen_entry aad bm d k iv))
      by (apply list_lookup_insert_eq; lia).
    rewrite take_insert_ge by lia.
    rewrite Htake.
    rewrite (take_ge done) by lia.
    rewrite take_ge; [reflexivity|].
    rewrite length_app. cbn. lia.
  - eexists. split; [reflexivity|]. split; [exact Hlen|].
    rewrite Z.min_r in Htake |- * by lia.
    rewrite Htake. symmetry. apply take_app_le. lia.
Qed.

Lemma flat_map_singleton {A B : Type} (f : A -> B) (l : list A) :
  flat_map (fun x => [f x]) l = map f l.
Proof. induction l as [|x l IH]; cbn; [reflexivity|]. now rewrite IH. Qed.

(** X26: the count [auth_gen_capability] returns.  On ranges of 16-bit
    fields whose digest, key and IV counters cannot wrap
    ([max + increment < 65536]), called on an array of [num_copy]
    entries, the function returns the number of combinations of a
    digest, a key and an IV size, whatever [num_copy] is, and has stored
    the first [num_copy] of them (all, if there are fewer), digests
    outermost, each with the AAD range and the bit mode it was given. *)
Theorem auth_gen_capability_counts key_size iv_size digest_size aad_size
    bit_mode src num_copy :
  range_wf key_size -> range_no_wrap key_size ->
  range_wf iv_size -> range_no_wrap iv_size ->
  range_wf digest_size -> range_no_wrap digest_size ->
  0 <= num_copy ->
  length src = Z.to_nat num_copy ->
  let all :=
    auth_combinations aad_size bit_mode key_size iv_size digest_size in
  Z.of_nat (length all) <= INT_MAX ->
  exists src',
    auth_gen_capability key_size iv_size digest_size aad_size bit_mode
      src 0 num_copy
    = Some (Z.of_nat (length all), src') /\
    length src' = length src /\
    length all
    = (length (range_sizes digest_size) * length (range_sizes key_size)
       * length (range_sizes iv_size))%nat /\
    take (Nat.min (Z.to_nat num_copy) (length all)) src'
    = take (Z.to_nat num_copy) all.
Proof.
  intros Hk Hkw Hiv Hivw Hd Hdw HNC Hlen all Hmax.
  assert (stores_entries num_copy 0
            (range_loop (2 ^ 16) RANGE_FUEL
               (min digest_size) (max digest_size) (increment digest_size)
               (fun digest_len =>
                  range_loop (2 ^ 16) RANGE_FUEL
                    (min key_size) (max key_size) (increment key_size)
                    (fun key_len =>
                       range_loop (2 ^ 16) RANGE_FUEL
                         (min iv_size) (max iv_size) (increment iv_size)
                         (auth_gen_store aad_size bit_mode 0 num_copy
                            digest_len key_len)))) all) as Hspec.
  { unfold all, auth_combinations.
    eapply stores_entries_ext;
      [intros st; now apply range_loop_sizes16|].
    apply stores_entries_run; [lia|lia|]. intros d.
    eapply stores_entries_ext;
      [intros st; now apply range_loop_sizes16|].
    apply stores_entries_run; [lia|lia|]. intros k.
    eapply stores_entries_ext;
      [intros st; now apply range_loop_sizes16|].
    rewrite <- flat_map_singleton.
    apply stores_entries_run; [lia|lia|]. intros iv.
    replace num_copy with (num_copy - 0) at 2 by lia.
    apply auth_gen_store_entry; lia. }
  unfold auth_gen_capability.
  destruct (Hspec 0 src []) as (src' & Hrun & Hlen' & Htake);
    try assumption; try lia.
  { cbn. lia. }
  { rewrite Z.min_l by lia. now rewrite take_nil. }
  exists src'. split; [exact Hrun|]. split; [lia|].
  split.
  { unfold all, auth_combinations.
    rewrite (length_flat_map_const _
               (length (range_sizes key_size)
                * length (range_sizes iv_size))).
    - lia.
    - intros d. apply length_flat_map_const. intros k. apply length_map. }
  cbn [app] in Htake. rewrite Z.add_0_l in Htake.
  rewrite <- Htake. f_equal. lia.
Qed.

(* ================================================================== *)
(** * The further properties at concrete inputs *)
(* ================================================================== *)

(** X1 at a supported key length of the AES-CBC range. *)
Lemma is_valid_size_within_bounds_witness :
  (0 = 0 \/ 0 = -1)
  /\ (0 = 0 -> min aes_cbc_key_range <= 24 <= max aes_cbc_key_range).
Proof.
  refine (is_valid_size_within_bounds 24 aes_cbc_key_range 0 _).
  - vm_compute. reflexivity.
Defined.

(** X2 on the AES-CBC key range, where the counter cannot wrap. *)
Lemma is_valid_size_decides_supported_witness :
  (is_valid_size 24 aes_cbc_key_range = Some 0
   \/ is_valid_size 24 aes_cbc_key_range = Some (-1))
  /\ (is_valid_size 24 aes_cbc_key_range = Some 0
     <-> min aes_cbc_key_range <= 24
       /\ (24 = min aes_cbc_key_range
          \/ 0 < increment aes_cbc_key_range
            /\ (24 - min aes_cbc_key_range)
              `mod` increment aes_cbc_key_range = 0)
         /\ 24 <= max aes_cbc_key_range).
Proof.
  refine (is_valid_size_decides_supported 24 aes_cbc_key_range _ _).
  - unfold range_wf, is_uint16. cbn. lia.
  - unfold range_no_wrap. cbn. lia.
Defined.

(** X3: the sample device is selected for AES-128-CBC without auth. *)
Lemma selected_device_within_bounds_witness :
  (exists before after : list Z,
     enabled_ids (pool_global (sample_pool one_device)) =
     before ++ 0 :: after
     /\ Forall
         (fun d' : Z =>
            crypto_dev_check
              (capabilities (rte_cryptodev_info_get one_device d'))
              aes_cbc_xform null_auth_xform =
            Some false)
         before)
  /\ (cipher_algo aes_cbc_xform <> RTE_CRYPTO_CIPHER_NULL
     -> cipher_within
         (capabilities (rte_cryptodev_info_get one_device 0))
         aes_cbc_xform)
    /\ (auth_algo null_auth_xform <> RTE_CRYPTO_AUTH_NULL
       \/ cipher_algo aes_cbc_xform = RTE_CRYPTO_CIPHER_NULL
       -> auth_within
           (capabilities (rte_cryptodev_info_get one_device 0))
           null_auth_xform).
Proof.
  refine (selected_device_within_bounds one_device (pool_global
    (sample_pool one_device)) aes_cbc_xform null_auth_xform 0 _).
  - vm_compute. reflexivity.
Defined.

(** X4: the sample device is selected for AES-128-GCM. *)
Lemma selected_aead_device_within_bounds_witness :
  (exists before after : list Z,
     enabled_ids (pool_global (sample_pool one_device)) =
     before ++ 0 :: after
     /\ Forall
         (fun d' : Z =>
            aead_dev_check
              (capabilities (rte_cryptodev_info_get one_device d'))
              aes_gcm_xform =
            Some false)
         before)
  /\ aead_within (capabilities (rte_cryptodev_info_get one_device 0))
      aes_gcm_xform.
Proof.
  refine (selected_aead_device_within_bounds one_device (pool_global
    (sample_pool one_device)) aes_gcm_xform 0 _).
  - vm_compute. reflexivity.
Defined.

(** X5 on the first create of the sample pool. *)
Lemma session_create_outputs_agree_witness :
  (create_rc (sample_create.1) = 0 \/ create_rc (sample_create.1) = -1)
  /\ (create_rc (sample_create.1) = 0
     <-> status (sample_create.1) = ODP_CRYPTO_SES_CREATE_ERR_NONE)
    /\ (create_rc (sample_create.1) = 0
       <-> session_out (sample_create.1) <> None)
      /\ (status (sample_create.1) =
         ODP_CRYPTO_SES_CREATE_ERR_INV_CIPHER
         -> if
            cipher_is_aead sample_config (cipher_alg aes_cbc_param)
           then
            crypto_fill_aead_xform sample_config create_ok
              (deprecated_digest_len sample_config aes_cbc_param) =
            None
           else
            crypto_fill_cipher_xform sample_config create_ok
              (deprecated_digest_len sample_config aes_cbc_param) =
            None)
        /\ (status (sample_create.1) =
           ODP_CRYPTO_SES_CREATE_ERR_INV_AUTH
           -> cipher_is_aead sample_config (cipher_alg aes_cbc_param) =
             false
             /\ crypto_fill_auth_xform sample_config create_ok
                 (deprecated_digest_len sample_config aes_cbc_param) =
               None).
Proof.
  refine (session_create_outputs_agree sample_config one_device create_ok
    aes_cbc_param (pool_global (sample_pool one_device)) (sample_create.1)
    (sample_create.2) _).
  - vm_compute. reflexivity.
Defined.

(** X6: a second create on the pool that holds session 2047. *)
Lemma create_preserves_live_sessions_witness :
  (forall i : nat,
     i ∈ in_use one_session_pool
     -> session_at (sample_create_second.2) i =
       session_at (pool_global one_session_pool) i)
  /\ enabled_ids (sample_create_second.2) =
    enabled_ids (pool_global one_session_pool)
    /\ enabled_crypto_dev_nb_qpairs (sample_create_second.2) =
      enabled_crypto_dev_nb_qpairs (pool_global one_session_pool)
      /\ (forall h : nat,
           session_out (sample_create_second.1) = Some h
           -> (h ∉ in_use one_session_pool) /\ (h < MAX_SESSIONS)%nat)
        /\ iv_arrays_ok (sample_create_second.2).
Proof.
  refine (create_preserves_live_sessions sample_config one_device 8
    [call_create create_ok aes_cbc_param] one_session_pool create_ok
    aes_cbc_param (sample_create_second.1) (sample_create_second.2) _ _ _
    _ _).
  - vm_compute. reflexivity.
  - reflexivity.
  - reflexivity.
  - apply pool_exec_run; vm_compute; reflexivity.
  - vm_compute. reflexivity.
Defined.

(** X8: session 2047 is destroyed and the next create returns 2047. *)
Lemma destroy_then_create_reuses_slot_witness :
  session_out (sample_recreate.1) = Some 2047%nat.
Proof.
  refine (destroy_then_create_reuses_slot sample_config one_device
    destroy_ok 2047%nat one_session_global destroyed_global create_ok
    aes_cbc_param (sample_recreate.1) (sample_recreate.2) _ _ _).
  - vm_compute. reflexivity.
  - vm_compute. reflexivity.
  - vm_compute. reflexivity.
Defined.

(** X9: an operation on session 2047 after its destroy. *)
Lemma operation_after_destroy_fails_witness :
  rte_session (session_at destroyed_global 2047) = None
  /\ odp_crypto_int sample_config
      (op_ok RTE_CRYPTO_OP_STATUS_SUCCESS) destroyed_global 1
      (Some 1) iv_op =
    crypto_int_failed (Some 1).
Proof.
  refine (operation_after_destroy_fails sample_config destroy_ok 2047%nat
    one_session_global destroyed_global (op_ok
    RTE_CRYPTO_OP_STATUS_SUCCESS) 1 (Some 1) iv_op _ _).
  - vm_compute. reflexivity.
  - reflexivity.
Defined.

(** X11: a create that brings a session IV of 16 bytes. *)
Lemma session_iv_is_cached_witness :
  exists h : nat,
    session_out (sample_create_iv.1) = Some h
    /\ length (cipher_iv_data (session_at (sample_create_iv.2) h)) =
      Z.to_nat MAX_IV_LENGTH
      /\ length (auth_iv_data (session_at (sample_create_iv.2) h)) =
        Z.to_nat MAX_IV_LENGTH
        /\ (forall data : list Z,
             iv_data (cipher_iv aes_cbc_iv_param) = Some data
             -> (forall (oenv : crypto_op_env) (pkt_in : Z) 
                  (out : option Z) (op_param : odp_crypto_packet_op_param_t) 
                  (res : odp_crypto_packet_result_t),
                  session op_param = Some h
                  -> op_result
                      (odp_crypto_int sample_config oenv
                         (sample_create_iv.2) pkt_in out op_param) =
                    Some res
                    -> alg_err (cipher_status res)
                      <> ODP_CRYPTO_ALG_ERR_IV_INVALID)
               /\ take
                   (Z.to_nat
                      (iv_length (cipher_iv aes_cbc_iv_param)))
                   (cipher_iv_data (session_at (sample_create_iv.2) h)) =
                 take
                   (Z.to_nat
                      (iv_length (cipher_iv aes_cbc_iv_param)))
                   data)
          /\ forall data : list Z,
              iv_data (auth_iv aes_cbc_iv_param) = Some data
              -> (forall (oenv : crypto_op_env) (pkt_in : Z) 
                   (out : option Z) (op_param : odp_crypto_packet_op_param_t) 
                   (res : odp_crypto_packet_result_t),
                   session op_param = Some h
                   -> op_result
                       (odp_crypto_int sample_config oenv
                          (sample_create_iv.2) pkt_in out op_param) =
                     Some res
                     -> alg_err (auth_status res)
                       <> ODP_CRYPTO_ALG_ERR_IV_INVALID)
                /\ take
                    (Z.to_nat (iv_length (auth_iv aes_cbc_iv_param)))
                    (auth_iv_data (session_at (sample_create_iv.2) h)) =
                  take
                    (Z.to_nat (iv_length (auth_iv aes_cbc_iv_param)))
                    data.
Proof.
  refine (session_iv_is_cached sample_config one_device 8 [] (sample_pool
    one_device) create_ok aes_cbc_iv_param (sample_create_iv.1)
    (sample_create_iv.2) _ _ _ _ _ _).
  - vm_compute. reflexivity.
  - reflexivity.
  - reflexivity.
  - apply pool_run_nil.
  - vm_compute. reflexivity.
  - vm_compute. reflexivity.
Defined.

(** X12 on the first create of the sample pool. *)
Lemma created_session_within_buffers_witness :
  exists h : nat,
    session_out (sample_create.1) = Some h
    /\ cdev_id (session_at (sample_create.2) h)
      ∈ enabled_ids (pool_global (sample_pool one_device))
      /\ ((exists a : rte_crypto_aead_xform,
            cipher_xform (session_at (sample_create.2) h) =
            xform_aead a
            /\ aead_digest_length a <= PACKET_DIGEST_MAX sample_config
              /\ aead_aad_length a <= PACKET_AAD_MAX sample_config
                /\ (aead_algo a = RTE_CRYPTO_AEAD_AES_CCM
                   -> aead_aad_length a + AES_CCM_AAD_OFFSET
                     <= PACKET_AAD_MAX sample_config)
                  /\ aead_iv_length a <= MAX_IV_LENGTH)
         \/ exists (c : rte_crypto_cipher_xform) (a : rte_crypto_auth_xform),
             cipher_xform (session_at (sample_create.2) h) =
             xform_cipher c
             /\ auth_xform (session_at (sample_create.2) h) =
               xform_auth a
               /\ auth_digest_length a
                 <= PACKET_DIGEST_MAX sample_config
                 /\ (cipher_algo c <> RTE_CRYPTO_CIPHER_NULL
                    -> cipher_iv_length c <= MAX_IV_LENGTH)
                   /\ (auth_algo a <> RTE_CRYPTO_AUTH_NULL
                      \/ cipher_algo c = RTE_CRYPTO_CIPHER_NULL
                      -> auth_iv_length a <= MAX_IV_LENGTH)).
Proof.
  refine (created_session_within_buffers sample_config one_device 8 []
    (sample_pool one_device) create_ok aes_cbc_param (sample_create.1)
    (sample_create.2) _ _ _).
  - apply pool_run_nil.
  - vm_compute. reflexivity.
  - vm_compute. reflexivity.
Defined.

(** X14: the accelerator takes the descriptor and never hands it back. *)
Lemma poll_gives_up_after_retries_witness :
  (odp_crypto_int sample_config op_never_completes
     one_session_global 1 (Some 1) iv_op =
   crypto_int_failed (Some 1)
   <-> forall k : nat,
       Z.of_nat k <= MAX_DEQ_RETRIES
       -> rte_cryptodev_dequeue_burst op_never_completes
           (cdev_id (session_at one_session_global 2047))
           (odp_cpu_id op_never_completes
            `rem` cdev_nb_qpairs
                    (session_at one_session_global 2047))
           k =
         0)
  /\ (int_rc
       (odp_crypto_int sample_config op_never_completes
          one_session_global 1 (Some 1) iv_op) =
     0
     /\ queue_pair
         (odp_crypto_int sample_config op_never_completes
            one_session_global 1 (Some 1) iv_op) =
       Some
         (odp_cpu_id op_never_completes
          `rem` cdev_nb_qpairs (session_at one_session_global 2047))
     <-> exists k : nat,
         Z.of_nat k <= MAX_DEQ_RETRIES
         /\ rte_cryptodev_dequeue_burst op_never_completes
             (cdev_id (session_at one_session_global 2047))
             (odp_cpu_id op_never_completes
              `rem` cdev_nb_qpairs
                      (session_at one_session_global 2047))
             k
           <> 0).
Proof.
  refine (poll_gives_up_after_retries sample_config op_never_completes
    one_session_global 1 (Some 1) iv_op 2047%nat 7 1 _ _ _ _ _ _ _ _).
  - reflexivity.
  - vm_compute. reflexivity.
  - vm_compute. reflexivity.
  - left. reflexivity.
  - reflexivity.
  - vm_compute. reflexivity.
  - vm_compute. reflexivity.
  - vm_compute. discriminate.
Defined.

(** X15: shutdown after a create and a destroy that failed. *)
Lemma term_global_checks_sessions_witness :
  exists rc : Z,
    odp_crypto_term_global (pool_global one_session_pool_failed) 0 =
    Some rc
    /\ (rc = 0 \/ rc = -1)
      /\ (rc = 0 <-> in_use one_session_pool_failed = [] /\ 0 <= 0).
Proof.
  refine (term_global_checks_sessions sample_config one_device 8
    create_then_failed_destroy one_session_pool_failed 0 _ _ _).
  - vm_compute. reflexivity.
  - reflexivity.
  - apply pool_exec_run; vm_compute; reflexivity.
Defined.



(** X18: AES-CBC on the system of a software and a hardware device. *)
Lemma catalog_reports_advertised_ciphers_witness :
  (odp_crypto_capability sample_config mixed_devices).1 = 0
  /\ (ciphers (odp_crypto_capability sample_config mixed_devices).2
       cipher_bit_aes_cbc =
     true
     <-> ODP_CIPHER_ALG_AES_CBC = ODP_CIPHER_ALG_NULL
       \/ ODP_CIPHER_ALG_AES_CBC <> ODP_CIPHER_ALG_AES_CCM
         /\ exists d : Z,
             0 <= d < rte_cryptodev_count mixed_devices `mod` 256
             /\ advertises_cipher sample_config
                 (capabilities
                    (rte_cryptodev_info_get mixed_devices d))
                 ODP_CIPHER_ALG_AES_CBC)
    /\ (hw_ciphers
         (odp_crypto_capability sample_config mixed_devices).2
         cipher_bit_aes_cbc =
       true
       <-> exists h : Z,
           0 <= h < rte_cryptodev_count mixed_devices `mod` 256
           /\ hw_accelerated (rte_cryptodev_info_get mixed_devices h) =
             true
             /\ (ODP_CIPHER_ALG_AES_CBC = ODP_CIPHER_ALG_NULL
                \/ ODP_CIPHER_ALG_AES_CBC <> ODP_CIPHER_ALG_AES_CCM
                  /\ exists d : Z,
                      0 <= d <= h
                      /\ advertises_cipher sample_config
                          (capabilities
                             (rte_cryptodev_info_get mixed_devices d))
                          ODP_CIPHER_ALG_AES_CBC)).
Proof.
  refine (catalog_reports_advertised_ciphers sample_config mixed_devices
    ODP_CIPHER_ALG_AES_CBC cipher_bit_aes_cbc _ _).
  - vm_compute. discriminate.
  - reflexivity.
Defined.

(** X19: SHA256-HMAC on the same system. *)
Lemma catalog_reports_advertised_auths_witness :
  (odp_crypto_capability sample_config mixed_devices).1 = 0
  /\ (auths (odp_crypto_capability sample_config mixed_devices).2
       auth_bit_sha256_hmac =
     true
     <-> ODP_AUTH_ALG_SHA256_HMAC = ODP_AUTH_ALG_NULL
       \/ ODP_AUTH_ALG_SHA256_HMAC <> ODP_AUTH_ALG_AES_CCM
         /\ ODP_AUTH_ALG_SHA256_HMAC <> ODP_AUTH_ALG_KASUMI_F9
           /\ exists d : Z,
               0 <= d < rte_cryptodev_count mixed_devices `mod` 256
               /\ advertises_auth sample_config
                   (capabilities
                      (rte_cryptodev_info_get mixed_devices d))
                   ODP_AUTH_ALG_SHA256_HMAC)
    /\ (hw_auths
         (odp_crypto_capability sample_config mixed_devices).2
         auth_bit_sha256_hmac =
       true
       <-> exists h : Z,
           0 <= h < rte_cryptodev_count mixed_devices `mod` 256
           /\ hw_accelerated (rte_cryptodev_info_get mixed_devices h) =
             true
             /\ (ODP_AUTH_ALG_SHA256_HMAC = ODP_AUTH_ALG_NULL
                \/ ODP_AUTH_ALG_SHA256_HMAC <> ODP_AUTH_ALG_AES_CCM
                  /\ ODP_AUTH_ALG_SHA256_HMAC
                    <> ODP_AUTH_ALG_KASUMI_F9
                    /\ exists d : Z,
                        0 <= d <= h
                        /\ advertises_auth sample_config
                            (capabilities
                               (rte_cryptodev_info_get mixed_devices
                                  d))
                            ODP_AUTH_ALG_SHA256_HMAC)).
Proof.
  refine (catalog_reports_advertised_auths sample_config mixed_devices
    ODP_AUTH_ALG_SHA256_HMAC auth_bit_sha256_hmac _ _).
  - vm_compute. discriminate.
  - reflexivity.
Defined.

(** X20: session limits 2048 and 1024. *)
Lemma catalog_max_sessions_witness :
  (odp_crypto_capability sample_config mixed_devices).1 = 0
  /\ max_sessions
      (odp_crypto_capability sample_config mixed_devices).2
    <= Z.of_nat MAX_SESSIONS
    /\ (forall d : Z,
         0 <= d < rte_cryptodev_count mixed_devices `mod` 256
         -> max_sessions
             (odp_crypto_capability sample_config mixed_devices).2
           <= max_nb_sessions
               (rte_cryptodev_info_get mixed_devices d))
      /\ (max_sessions
           (odp_crypto_capability sample_config mixed_devices).2 =
         Z.of_nat MAX_SESSIONS
         \/ exists d : Z,
             0 <= d < rte_cryptodev_count mixed_devices `mod` 256
             /\ max_sessions
                 (odp_crypto_capability sample_config mixed_devices).2 =
               max_nb_sessions
                 (rte_cryptodev_info_get mixed_devices d)).
Proof.
  refine (catalog_max_sessions sample_config mixed_devices _ _).
  - vm_compute. discriminate.
  - intros d Hd. cbn. destruct (d =? 0); cbn; lia.
Defined.

(** X22 on the first create of the sample pool. *)
Lemma created_session_in_catalog_witness :
  (cipher_alg aes_cbc_param <> ODP_CIPHER_ALG_AES_CCM
   -> exists b : cipher_algo_bit,
       cipher_alg_bit (cipher_alg aes_cbc_param) = Some b
       /\ ciphers (odp_crypto_capability sample_config one_device).2
           b =
         true)
  /\ (cipher_is_aead sample_config (cipher_alg aes_cbc_param) = false
     -> auth_alg aes_cbc_param <> ODP_AUTH_ALG_KASUMI_F9
       -> exists b : auth_algo_bit,
           auth_alg_bit (auth_alg aes_cbc_param) = Some b
           /\ auths
               (odp_crypto_capability sample_config one_device).2 b =
             true).
Proof.
  refine (created_session_in_catalog sample_config one_device 8 []
    (sample_pool one_device) create_ok aes_cbc_param (sample_create.1)
    (sample_create.2) _ _ _ _).
  - cbn. lia.
  - apply pool_run_nil.
  - vm_compute. reflexivity.
  - vm_compute. reflexivity.
Defined.

(** X23 on the system of two devices and eight CPUs. *)
Lemma init_global_enables_devices_witness :
  (init_rc (odp_crypto_init_global sample_config two_devices 8) = 0
   \/ init_rc (odp_crypto_init_global sample_config two_devices 8) =
     -1)
  /\ (init_rc (odp_crypto_init_global sample_config two_devices 8) =
     -1
     -> is_crypto_dev_initialized
         (init_global
            (odp_crypto_init_global sample_config two_devices 8)) =
       false)
    /\ (init_rc (odp_crypto_init_global sample_config two_devices 8) =
       0
       -> is_crypto_dev_initialized
           (init_global
              (odp_crypto_init_global sample_config two_devices 8)) =
         true
         /\ rte_crypto_op_pool_create two_devices = true
           /\ enabled_crypto_devs
               (init_global
                  (odp_crypto_init_global sample_config two_devices
                     8)) =
             rte_cryptodev_count two_devices
             /\ enabled_ids
                 (init_global
                    (odp_crypto_init_global sample_config
                       two_devices 8)) =
               map Z.of_nat
                 (rev
                    (seq 0
                       (Z.to_nat (rte_cryptodev_count two_devices))))
               /\ take (Z.to_nat (rte_cryptodev_count two_devices))
                   (enabled_crypto_dev_nb_qpairs
                      (init_global
                         (odp_crypto_init_global sample_config
                            two_devices 8))) =
                 map
                   (fun d : Z =>
                      uint16
                        (if
                          max_nb_queue_pairs
                            (rte_cryptodev_info_get two_devices d) <?
                          8
                         then
                          max_nb_queue_pairs
                            (rte_cryptodev_info_get two_devices d)
                         else 8))
                   (map Z.of_nat
                      (rev
                         (seq 0
                            (Z.to_nat
                               (rte_cryptodev_count two_devices)))))
                 /\ configured
                     (odp_crypto_init_global sample_config
                        two_devices 8) =
                   map
                     (fun d : Z =>
                        (d,
                         if
                          max_nb_queue_pairs
                            (rte_cryptodev_info_get two_devices d) <?
                          8
                         then
                          max_nb_queue_pairs
                            (rte_cryptodev_info_get two_devices d)
                         else 8))
                     (map Z.of_nat
                        (rev
                           (seq 0
                              (Z.to_nat
                                 (rte_cryptodev_count two_devices)))))
                   /\ Forall
                       (fun d : Z =>
                          rte_mempool_create two_devices
                            (rte_cryptodev_socket_id two_devices d) =
                          true
                          /\ 0
                            <= rte_cryptodev_configure two_devices d
                                (if
                                  max_nb_queue_pairs
                                    (rte_cryptodev_info_get
                                       two_devices d) <?
                                  8
                                 then
                                  max_nb_queue_pairs
                                    (rte_cryptodev_info_get
                                       two_devices d)
                                 else 8)
                            /\ 0 <= rte_cryptodev_start two_devices d)
                       (map Z.of_nat
                          (rev
                             (seq 0
                                (Z.to_nat
                                   (rte_cryptodev_count two_devices)))))).
Proof.
  refine (init_global_enables_devices sample_config two_devices 8 _ _).
  - cbn. lia.
  - cbn. lia.
Defined.

(** X24: AES-CBC on the sample device, into an array of two entries. *)
Lemma cipher_capability_two_calls_witness :
  odp_crypto_cipher_capability sample_config one_device
    ODP_CIPHER_ALG_AES_CBC (repeat zero_cipher_capability 2)
    (repeat zero_cipher_capability 3) 2 =
  Some
    (Z.of_nat
       (length
          (all_cipher_combinations sample_config one_device
             ODP_CIPHER_ALG_AES_CBC)),
     take (Z.to_nat 2)
       (all_cipher_combinations sample_config one_device
          ODP_CIPHER_ALG_AES_CBC) ++
     drop
       (Z.to_nat 2
        `min` length
                (all_cipher_combinations sample_config one_device
                   ODP_CIPHER_ALG_AES_CBC))
       (repeat zero_cipher_capability 3)).
Proof.
  refine (cipher_capability_two_calls sample_config one_device
    ODP_CIPHER_ALG_AES_CBC (repeat zero_cipher_capability 2) (repeat
    zero_cipher_capability 3) 2 _ _ _ _ _ _ _ _).
  - discriminate.
  - vm_compute. discriminate.
  - cbn. eexists. reflexivity.
  - intros d k iv _ H. vm_compute in H. injection H as <- <-.
    unfold range_wf, is_uint16. cbn. lia.
  - lia.
  - reflexivity.
  - cbn. lia.
  - vm_compute. discriminate.
Defined.

(** X26: one key size, two digest sizes, no IV, into an array of one entry. *)
Lemma auth_gen_capability_counts_witness :
  exists src' : list odp_crypto_auth_capability_t,
    auth_gen_capability hmac_key_range zero_range hmac_digest_range
      zero_range false
      (repeat (auth_gen_entry zero_range false 0 0 0) 1) 0 1 =
    Some
      (Z.of_nat
         (length
            (auth_combinations zero_range false hmac_key_range
               zero_range hmac_digest_range)),
       src')
    /\ length src' =
      length (repeat (auth_gen_entry zero_range false 0 0 0) 1)
      /\ length
          (auth_combinations zero_range false hmac_key_range
             zero_range hmac_digest_range) =
        (length (range_sizes hmac_digest_range) *
         length (range_sizes hmac_key_range) *
         length (range_sizes zero_range))%nat
        /\ take
            (Z.to_nat 1
             `min` length
                     (auth_combinations zero_range false
                        hmac_key_range zero_range hmac_digest_range))
            src' =
          take (Z.to_nat 1)
            (auth_combinations zero_range false hmac_key_range
               zero_range hmac_digest_range).
Proof.
  refine (auth_gen_capability_counts hmac_key_range zero_range
    hmac_digest_range zero_range false (repeat (auth_gen_entry zero_range
    false 0 0 0) 1) 1 _ _ _ _ _ _ _ _ _).
  - unfold range_wf, is_uint16. cbn. lia.
  - unfold range_no_wrap. cbn. lia.
  - unfold range_wf, is_uint16. cbn. lia.
  - unfold range_no_wrap. cbn. lia.
  - unfold range_wf, is_uint16. cbn. lia.
  - unfold range_no_wrap. cbn. lia.
  - lia.
  - reflexivity.
  - vm_compute. discriminate.
Defined.

(** X7 on the sample device: after [MAX_SESSIONS] creates every record
    is in use, and one more create is refused. *)
Lemma exhausted_pool_create_fails_witness :
  length (in_use full_pool) = MAX_SESSIONS /\
  odp_crypto_session_create sample_config one_device create_ok
    aes_cbc_param (pool_global full_pool)
  = Some ({| create_rc := -1; session_out := None;
             status := ODP_CRYPTO_SES_CREATE_ERR_ENOMEM |},
          pool_global full_pool).
Proof.
  split; [vm_compute; reflexivity|].
  apply (exhausted_pool_create_fails sample_config one_device 8
           full_pool_calls full_pool).
  - vm_compute. reflexivity.
  - vm_compute. reflexivity.
  - apply pool_exec_run; vm_compute; reflexivity.
  - vm_compute. reflexivity.
Defined.

